(* ===== verification/_CoqProject ===== *)
-Q . S2P
Prelude.v
Cpp.v
Buffer.v
TcpConnection.v
TcpSafety.v
Echo.v
Rpc.v
RpcWire.v
RpcTheorems.v
RpcMemory.v
RpcOwnership.v
RpcMemoryTheorems.v
TimingWheel.v
TimingWheelSpec.v
TimingWheelTheorems.v
TcpClient.v
BlockingQueue.v
CircularQueue.v
EventLoop.v
LockFreeQueue.v
Pools.v
TcpServer.v
HttpTables.v
HttpUrl.v
HttpParser.v
HttpMonad.v
HttpExec.v
HttpMethod.v
HttpWp.v
HttpInvariant.v
HttpSafety.v
HttpHeaders.v
HttpBody.v
HttpLoop.v
HttpSize.v
HttpOptions.v
HttpStream.v
HttpLockstep.v
HttpSplit.v
HttpSplitLines.v
HttpSplitValues.v
HttpSplitBodies.v
HttpChunking.v
Logger.v
HttpServer.v
HttpTheorems.v
HttpServerTheorems.v
HttpChunkingTheorems.v
HttpRead.v
HttpReadRequest.v
HttpReadLines.v
HttpRequestTheorems.v
HttpReplyTheorems.v
HttpMain.v
HttpMainTheorems.v
HttpUrlTheorems.v
