(* ===== verification/Prelude.v ===== *)
(** * ecron: a verification development

    [ecron] is a C++ network library on [asio] (under [src/code]) with an HTTP server and
    an RPC example built on it (under [src/examples]).  This development models the
    parts that carry the logic of the program and proves what makes them correct.

    ** The program and the files that model it

    - [Prelude]: bytes and characters, tables, lists and integers, the tactics.
    - [Cpp]: what the models of C++ classes share.  An operation returns, throws, or is
      undefined ([outcome]); [wp] is the postcondition of one that must not be undefined.
      [std::vector] is a list with the bounds of its accesses, [size_t] has 64 bits.
    - [Buffer] ([src/code/Buffer.h], [Buffer.cpp]): a vector with two indices.  The
      refinement: it is a queue of bytes, [queue_step].
    - [TcpConnection] ([src/code/TcpConnection.h], [.cpp]): one connection with its receive
      buffer and its queue of sends, and the operations outstanding in [asio].  The
      event loop is [run_events]: completions and requests are handled one at a time.
      The callbacks of the application are a parameter; the class [Contract] says what a
      connection asks of them, [Quiet] that the callback for completed sends does not
      send.  [TcpSafety] is the part of the theory that holds without [Quiet].
    - [Echo] ([src/examples/echo.cpp], [client.cpp]): the echo programs, as an application of a
      connection.
    - [TcpServer] ([src/code/TcpServer.h], [.cpp]): the life of a server, its acceptor and
      the connections of each loop; [TcpClient] ([src/code/TcpClient.h], [.cpp]): the client
      with its flags and its timer for connecting again.
    - [Rpc], [RpcTheorems] ([RpcChannel], [RpcServer] under [src/examples/rpc]): the framing
      of the messages, the calls a channel waits for, and the server without workers.
      [RpcWire] ([rpc_meta.proto], [rpc_meta.pb.cc]): how the meta part of a frame is written
      and parsed, over the functions of the protobuf runtime (the class [Protobuf], with
      what is documented of them in [Protobuf_laws]).  The class [Codec] is what the channel
      asks of the meta part, and [RpcWire] gives it.
      [RpcMemory] is the channel again, with its controllers, messages and closures as objects
      on a heap that are deleted by hand; [RpcOwnership] is the invariant that says who owns
      which, and [RpcMemoryTheorems] the refinement of [Rpc] and the end of a channel.
    - [TimingWheel] ([src/code/TimingWheel.h], [.cpp], [TimerId.h]): the wheel of 60 buckets with
      its timers on a heap; [TimingWheelSpec] is the abstract timer, and
      [TimingWheelTheorems] the refinement and its consequences.
    - [BlockingQueue], [CircularQueue], [LockFreeQueue] ([.hpp] files of the same names): the
      queue between threads, as a step relation whose steps are the sections under the
      mutex; the ring; and the lock-free list, whose steps are the accesses to the atomics.
    - [Logger] ([src/code/Logger.h], [.cpp]): which levels are logged, and how a message that
      is a C string is read.
    - [EventLoop] ([src/code/EventLoop.h], [.cpp]): posted and dispatched functions, [quit], and
      the signals, with what [asio] keeps for a [signal_set].
    - [Pools] ([EventLoopPool], [ThreadGroup], [ThreadPool]): the pools of loops and threads.
    - [HttpTables], [HttpUrl], [HttpParser], [HttpMonad], [HttpExec], [HttpMethod]
      ([src/examples/http/http_parser.h], [http_parser.c]): the constants and tables, the URL
      parser, the parser object, the macros as a monad over the local variables
      of [http_parser_execute] ([frame]), and that function, one definition for each case of
      its [switch].
    - [HttpWp], [HttpInvariant], [HttpSafety], [HttpHeaders], [HttpBody], [HttpLoop], [HttpSize],
      [HttpOptions]: a program logic for the monad and the invariant of the parser, case
      by case, then for the loops and whole calls ([execute_ok]).
    - [HttpStream], [HttpLockstep], [HttpSplit], [HttpSplitLines], [HttpSplitValues],
      [HttpSplitBodies], [HttpChunking]: the parser that takes one byte at a time ([one],
      [run]) and the proof that a call of [http_parser_execute] is equivalent to it.
    - [HttpServer] ([HttpRequest], [HttpResponse], [HttpTask], [HttpServer] under
      [src/examples/http]): the server, as the application [http_callbacks] of a
      [TcpConnection].
    - [HttpRead], [HttpReadRequest], [HttpReadLines]: well-formed messages as the parser reads
      them, byte by byte and then line by line; [ok] is the postcondition of a piece of the
      parser's body, [reads] that of a part of the input.  [HttpRequestTheorems] and
      [HttpReplyTheorems]: streams of requests, and of the responses of the server.
    - [HttpMain], [HttpMainTheorems] ([src/examples/http/HttpMain.cpp], [SqlConnPool.*]): the demo,
      which serves files and looks up users.
    - [HttpTheorems], [HttpChunkingTheorems], [HttpUrlTheorems],
      [HttpServerTheorems]: the properties of the HTTP part.

    The parts meet in [HttpServerTheorems]: the server's invariant ([context_ok]) is the
    parser's ([well_formed]), the buffers' ([buffer_ok]) and the application's own, which
    the class [Application] asks its callbacks to keep when they return; [http_Contract]
    shows that the server is an application as the connection wants it, and [server_safe]
    follows from the theory of the connection.  The demo is such an [Application], and
    [demo_server_safe] is the theorem for it.  They meet again in [HttpMainTheorems.file_is_served]: the
    demo, the task and the buffers write a response that the parser, as a client runs it,
    reads back as the file.

    ** What is shown

    - Messages: a stream of requests, or of the responses of the server that announce the
      length of their body, is read back by the parser as it was written; a response
      without a length ends only with the connection.
    - Parser: it is safe and terminates on every input.  For an application that takes what
      it is given byte by byte ([Streaming]) the result does not depend on how the bytes
      are cut into buffers, and buffers may be split and joined; the task of the server is not
      such an application.  Errors are final and pauses can be undone; the limit on header
      bytes holds.  URLs: safety; and for those shorter than 64 KB, what an accepted URL
      looks like and its port.
    - Server: whatever arrives, undefined behaviour comes only from the callbacks of the
      application, or from the log of received bytes at the level [LL_Trace] (which [main]
      sets); what is sent for a complete, an incomplete and a malformed request, and what
      becomes of the bytes after a response that leaves [completed_] set.
    - Demo: a GET request gets the file it names; a form is read back, and no form changes
      the queries; every answer is a file or an error that closes the connection.
    - Loop: every signal is accounted for, once for each wait that it found outstanding, and
      the loop never stops waiting for the next.
    - Connection: for an application whose callback for completed sends does not send
      ([Quiet]), order, progress and single outstanding write of the sends; the number of
      closes, and what breaks when the application sends from that callback.  The echo
      programs return exactly what they hear, and in this order.
    - Server and client of TCP: a running server waits for a connection on an open
      acceptor until the [init] of a connection throws, [stop] closes everything or uses
      loops it has destroyed; a client has one activity at a time, and which flags and
      timers are out of date after [disconnect].
    - RPC: the meta part of a frame is read back with the types of its fields; any cut of a
      stream of frames gives the same messages, a call gets its own answer; the errors of
      the server are lost, a malformed frame stays in the buffer.  The pointers do what the
      values do, every object of a call is deleted once, and a request that is completed
      after its channel is gone is undefined.
    - Buffer, queues, pools: refinement of a queue, bounds, no lost wake-up, order; the
      lock-free queue with one producer and one consumer: order, safety and wait-freedom, and
      what goes wrong with more.  The ring cannot be used as it is: its first [push] writes
      outside of the vector.
    - Wheel: for callbacks that delete no timer and add none of a multiple of a minute
      ([TimingWheel.Contract]), each timer runs when its abstract timer is due, nothing is
      used after it was freed, nothing leaks; and where this fails (multiples of a minute,
      stale ids).

    ** Choices

    - The parser is modelled with [HTTP_PARSER_STRICT] as the build has it; [char] is signed.
    - Fuel: [reexecute_fuel] turns of [goto reexecute] are enough because each turn decreases
      [reexecute_rank]; the loops over a buffer get its length plus one, and consume a byte
      or end; [sweep] of the wheel gets the length of the bucket.  That the fuel is
      enough is part of the theorems, not assumed: running out is a fault.
    - What [asio] does is a list of events; an event that is not [enabled] does not happen.
    - Memory: the allocation of a vector fails only beyond [max_size]; an exception that
      leaves a callback is kept as the state of the application.
    - The order of an [unordered_map] is the parameter [iterate].

    ** Not modelled

    - Sockets, threads, mutexes and timers themselves ([asio], the standard library); what the
      logger does with a message, which is the vendored [spdlog] and [fmt]; the vendored
      [catch.hpp].
    - The servers with worker threads ([num_workers_ > 0]): tasks, channels and receive buffers
      would be shared between threads without a lock.
    - MySQL, the file system, the runtime of protobuf and the messages of the users of RPC:
      parameters of the models; the rest of the generated protobuf code.
    - The interleaving of several requests in the demo: [http_callback] is the callback for
      one state of the database and of the files.
    - Weak memory: the accesses to the atomics of the lock-free queue are sequentially
      consistent in the model, while the code asks for release and relaxed orders. *)

From Stdlib Require Export ZArith Lia String Ascii.
From Stdlib Require Import Strings.Byte.
From stdpp Require Export base list numbers option.

#[export] Set Default Goal Selector "!".

(** ** Characters *)

(** A C character constant is written as a one-letter string in the scope
    [ch_scope]: it denotes the number of the character. *)

Declare Scope ch_scope.
Delimit Scope ch_scope with ch.

Definition parse_char (l : list Byte.byte) : option Z :=
  match l with
  | cons b nil => Some (Z.of_N (Byte.to_N b))
  | _ => None
  end.

(** Numbers are never printed as characters. *)
Definition print_char (_ : Z) : option (list Byte.byte) :=
  None.

String Notation Z parse_char print_char : ch_scope.

(** The value of a byte read through an [unsigned char]. *)
Definition uchar (b : Byte.byte) : Z := Z.of_N (Byte.to_N b).

(** ... and through a [signed char]. *)
Definition schar (b : Byte.byte) : Z :=
  if (uchar b <? 128)%Z then uchar b else (uchar b - 256)%Z.

(** The bytes of a string literal. *)
Definition bytes (s : string) : list Byte.byte := list_byte_of_string s.

(** ** Machine integers

    An unsigned integer of [w] bits is a [Z] between [0] and [2 ^ w - 1]; the
    conversions below are the wrap-around of C. *)

Definition u5 (z : Z) : Z := (z mod 2 ^ 5)%Z.
Definition u16 (z : Z) : Z := (z mod 2 ^ 16)%Z.
Definition u32 (z : Z) : Z := (z mod 2 ^ 32)%Z.
Definition u64 (z : Z) : Z := (z mod 2 ^ 64)%Z.

(** The character at index [i] of a C string: the terminating 0 is at the index of
    its length, and there is nothing beyond. *)
Definition str_at (s : string) (i : Z) : option Z :=
  if (i <? 0)%Z then None
  else ((uchar <$> bytes s) ++ [0%Z]) !! Z.to_nat i.

(** ** Generic lemmas *)

Lemma uchar_range b : (0 <= uchar b < 256)%Z.
Proof. unfold uchar. pose proof (Byte.to_N_bounded b). lia. Qed.

Lemma u5_range z : (0 <= u5 z < 32)%Z.
Proof. unfold u5. pose proof (Z.mod_pos_bound z (2 ^ 5)). lia. Qed.
Lemma u16_range z : (0 <= u16 z < 65536)%Z.
Proof. unfold u16. pose proof (Z.mod_pos_bound z (2 ^ 16)). lia. Qed.
Lemma u32_range z : (0 <= u32 z < 2 ^ 32)%Z.
Proof. unfold u32. apply Z.mod_pos_bound. lia. Qed.
Lemma u64_range z : (0 <= u64 z < 2 ^ 64)%Z.
Proof. unfold u64. apply Z.mod_pos_bound. lia. Qed.

Lemma u5_small z : (0 <= z < 32 -> u5 z = z)%Z.
Proof. intros. unfold u5. apply Z.mod_small. lia. Qed.
Lemma u16_small z : (0 <= z < 65536 -> u16 z = z)%Z.
Proof. intros. unfold u16. apply Z.mod_small. lia. Qed.
Lemma u32_small z : (0 <= z < 2 ^ 32 -> u32 z = z)%Z.
Proof. intros. unfold u32. apply Z.mod_small. lia. Qed.
Lemma u64_small z : (0 <= z < 2 ^ 64 -> u64 z = z)%Z.
Proof. intros. unfold u64. apply Z.mod_small. lia. Qed.

Lemma length_bytes s : length (bytes s) = String.length s.
Proof.
  unfold bytes, list_byte_of_string. rewrite length_map.
  induction s as [| a s IH]; simpl; [done |]. by rewrite IH.
Qed.

(** A C string can be read up to its terminating 0. *)
Lemma str_at_Some s i :
  (0 <= i <= Z.of_nat (String.length s))%Z -> is_Some (str_at s i).
Proof.
  intros [H1 H2]. unfold str_at. destruct (Z.ltb_spec i 0); [lia |].
  apply lookup_lt_is_Some. rewrite length_app, length_fmap, length_bytes. simpl. lia.
Qed.

(** Before the terminating 0 there is room for one more character. *)
Lemma str_at_nonzero s i w :
  str_at s i = Some w -> w <> 0%Z -> (0 <= i < Z.of_nat (String.length s))%Z.
Proof.
  unfold str_at. destruct (Z.ltb_spec i 0); [done |]. intros Hl Hw.
  pose proof (lookup_lt_Some _ _ _ Hl) as Hlt.
  rewrite length_app, length_fmap, length_bytes in Hlt. simpl in Hlt.
  destruct (Z.eq_dec i (Z.of_nat (String.length s))) as [-> |]; [| lia].
  rewrite Nat2Z.id, lookup_app_r in Hl by (rewrite length_fmap, length_bytes; lia).
  rewrite length_fmap, length_bytes, Nat.sub_diag in Hl. simpl in Hl. congruence.
Qed.

(** A decided boolean in a hypothesis becomes the proposition. *)
Ltac boolify :=
  repeat match goal with
  | H : (_ && _)%bool = true |- _ => apply andb_true_iff in H as [? ?]
  | H : (_ || _)%bool = false |- _ => apply orb_false_iff in H as [? ?]
  | H : negb _ = true |- _ => apply negb_true_iff in H
  | H : negb _ = false |- _ => apply negb_false_iff in H
  | H : (_ =? _)%Z = true |- _ => apply Z.eqb_eq in H
  | H : (_ =? _)%Z = false |- _ => apply Z.eqb_neq in H
  | H : (_ <? _)%Z = true |- _ => apply Z.ltb_lt in H
  | H : (_ <? _)%Z = false |- _ => apply Z.ltb_ge in H
  | H : (_ <=? _)%Z = true |- _ => apply Z.leb_le in H
  | H : (_ <=? _)%Z = false |- _ => apply Z.leb_gt in H
  | H : (_ =? _)%nat = true |- _ => apply Nat.eqb_eq in H
  | H : (_ =? _)%nat = false |- _ => apply Nat.eqb_neq in H
  | H : (_ <? _)%nat = true |- _ => apply Nat.ltb_lt in H
  | H : (_ <? _)%nat = false |- _ => apply Nat.ltb_ge in H
  | H : bool_decide _ = true |- _ => apply bool_decide_eq_true in H
  | H : bool_decide _ = false |- _ => apply bool_decide_eq_false in H
  end.

(** [a << n | b] for a [b] of [n] bits is [a * 2 ^ n + b]. *)
Lemma lor_shiftl a b n :
  (0 <= n -> 0 <= b < 2 ^ n -> Z.lor (Z.shiftl a n) b = a * 2 ^ n + b)%Z.
Proof.
  intros Hn Hb. rewrite <- Z.shiftl_mul_pow2, <- Z.add_lor_land by done.
  enough (Z.land (Z.shiftl a n) b = 0)%Z by lia.
  apply Z.bits_inj'. intros i Hi. rewrite Z.land_spec, Z.bits_0.
  destruct (Z.lt_ge_cases i n).
  - rewrite Z.shiftl_spec_low by done. done.
  - assert (Z.testbit b i = false) as ->; [| apply andb_false_r].
    rewrite <- (Z.mod_small b (2 ^ n)) by lia. apply Z.mod_pow2_bits_high. lia.
Qed.

(** [a & (1 << k)] as a condition tests the bit [k] of [a]. *)
Lemma land_bit a k : (0 <= k -> negb (Z.land a (Z.shiftl 1 k) =? 0) = Z.testbit a k)%Z.
Proof.
  intros Hk. rewrite Z.shiftl_mul_pow2, Z.mul_1_l by done.
  destruct (Z.testbit a k) eqn:Hb; [apply negb_true_iff | apply negb_false_iff].
  - apply Z.eqb_neq. intros H0.
    assert (Z.testbit (Z.land a (2 ^ k)) k = false) as Hc by (by rewrite H0, Z.bits_0).
    rewrite Z.land_spec, Hb, Z.pow2_bits_true in Hc by done. done.
  - apply Z.eqb_eq, Z.bits_inj'. intros i Hi. rewrite Z.land_spec, Z.bits_0.
    rewrite Z.pow2_bits_eqb by done. destruct (Z.eqb_spec k i) as [<- |]; [by rewrite Hb |].
    apply andb_false_r.
Qed.

(** The bits of [a | (1 << k)]. *)
Lemma testbit_lor_bit a j k :
  (0 <= j -> 0 <= k ->
   Z.testbit (Z.lor a (Z.shiftl 1 k)) j = (k =? j) || Z.testbit a j)%Z.
Proof.
  intros Hj Hk. rewrite Z.lor_spec, orb_comm, Z.shiftl_mul_pow2, Z.mul_1_l by done.
  f_equal. by rewrite Z.pow2_bits_eqb.
Qed.
