(* ===== verification/Cpp.v ===== *)
(** * Cpp: the parts of C++ the components of [src/code] share

    An operation of a C++ class either returns, throws an exception of the standard
    library, or has undefined behaviour; [size_t] is an integer of 64 bits, and a
    [std::vector] is a list with the bounds its accesses need. *)

From S2P Require Import Prelude.
From stdpp Require Import countable.
Local Open Scope Z_scope.

(** ** Bytes *)

#[export] Instance byte_eq_dec : EqDecision Byte.byte := Byte.byte_eq_dec.
#[export] Program Instance byte_countable : Countable Byte.byte :=
  inj_countable Byte.to_N Byte.of_N _.
Next Obligation. intros b. apply Byte.of_to_N. Qed.

(** ** Outcomes *)

Inductive outcome (A : Type) : Type :=
  | Ok (a : A)
  | Throw (what : string)        (* an exception leaves the operation *)
  | Undefined (why : string).    (* the C++ standard gives the operation no meaning *)
Arguments Ok {A} a.
Arguments Throw {A} what.
Arguments Undefined {A} why.

#[export] Instance outcome_ret : MRet outcome := @Ok.
#[export] Instance outcome_bind : MBind outcome := fun A B f m =>
  match m with
  | Ok a => f a
  | Throw e => Throw e
  | Undefined w => Undefined w
  end.
#[export] Instance outcome_fmap : FMap outcome := fun A B f m =>
  match m with
  | Ok a => Ok (f a)
  | Throw e => Throw e
  | Undefined w => Undefined w
  end.

(** An operation is defined when it does not have undefined behaviour. *)
Definition defined {A} (m : outcome A) : Prop :=
  match m with Undefined _ => False | _ => True end.

(** The result of an operation that returns, for examples. *)
Definition result {A} (d : A) (m : outcome A) : A := match m with Ok a => a | _ => d end.

(** The postcondition of an operation that must not be undefined; nothing is said of
    one that throws. *)
Definition wp {A} (m : outcome A) (Q : A -> Prop) : Prop :=
  match m with Ok a => Q a | Throw _ => True | Undefined _ => False end.

Lemma after_bind {A B} (m : outcome A) (f : A -> outcome B) (Q : B -> Prop) :
  wp m (fun a => wp (f a) Q) -> wp (m ≫= f) Q.
Proof. by destruct m. Qed.

Lemma after_mono {A} (m : outcome A) (Q Q' : A -> Prop) :
  wp m Q -> (forall a, Q a -> Q' a) -> wp m Q'.
Proof. destruct m; simpl; auto. Qed.

Lemma after_Ok {A} (m : outcome A) (Q : A -> Prop) a : wp m Q -> m = Ok a -> Q a.
Proof. by intros H ->. Qed.

Lemma bind_Ok {A B} (m : outcome A) (f : A -> outcome B) b :
  m ≫= f = Ok b -> exists a, m = Ok a /\ f a = Ok b.
Proof. destruct m; simpl; eauto; done. Qed.

(** ** [size_t] *)

Definition SIZE_MAX : Z := 2 ^ 64 - 1.

(** ** [std::vector] *)

(** The size of a vector, and the limit [max_size()] of one of characters or pointers:
    [resize] throws [std::length_error] beyond it. *)
Definition vsize {A} (v : list A) : Z := Z.of_nat (length v).
Definition max_size : Z := 2 ^ 63 - 1.

Definition resize {A} (x : A) (n : Z) (v : list A) : outcome (list A) :=
  if n <=? max_size
  then Ok (take (Z.to_nat n) v ++ replicate (Z.to_nat n - length v) x)
  else Throw "std::length_error".

(** [v[i]], which is not checked. *)
Definition vget {A} (v : list A) (i : Z) : outcome A :=
  match v !! Z.to_nat i with
  | Some x => if i <? 0 then Undefined "vector index" else Ok x
  | None => Undefined "vector index"
  end.

Definition vset {A} (v : list A) (i : Z) (x : A) : outcome (list A) :=
  if (0 <=? i) && (i <? vsize v) then Ok (<[Z.to_nat i := x]> v)
  else Undefined "vector index".

(** The [n] elements from the index [i], read through a pointer into the vector, and
    [std::copy] of [l] to the index [i]. *)
Definition vread {A} (v : list A) (i n : Z) : outcome (list A) :=
  if (0 <=? i) && (0 <=? n) && (i + n <=? vsize v)
  then Ok (take (Z.to_nat n) (drop (Z.to_nat i) v))
  else Undefined "read outside the vector".

Definition vcopy {A} (v : list A) (i : Z) (l : list A) : outcome (list A) :=
  if (0 <=? i) && (i + vsize l <=? vsize v)
  then Ok (take (Z.to_nat i) v ++ l ++ drop (Z.to_nat i + length l) v)
  else Undefined "write outside the vector".

Lemma vsize_nonneg {A} (v : list A) : 0 <= vsize v.
Proof. unfold vsize. lia. Qed.
Lemma vsize_nil {A} : vsize (@nil A) = 0.
Proof. done. Qed.
Lemma vsize_cons {A} (x : A) v : vsize (x :: v) = vsize v + 1.
Proof. unfold vsize. simpl. lia. Qed.
Lemma vsize_app {A} (v w : list A) : vsize (v ++ w) = vsize v + vsize w.
Proof. unfold vsize. rewrite length_app. lia. Qed.
Lemma vsize_to_nat {A} (v : list A) : Z.to_nat (vsize v) = length v.
Proof. unfold vsize. lia. Qed.

Lemma resize_Ok {A} (x : A) n v v' :
  0 <= n -> resize x n v = Ok v' -> vsize v' = n /\ n <= max_size /\
  (vsize v <= n -> v' = v ++ replicate (Z.to_nat n - length v) x).
Proof.
  unfold resize, vsize. destruct (Z.leb_spec n max_size); [| done]. intros Hn [= <-].
  split_and!; [| done |].
  - rewrite length_app, length_take, length_replicate. lia.
  - intros. by rewrite take_ge by lia.
Qed.

Lemma vset_Ok {A} (v : list A) i x :
  0 <= i < vsize v -> vset v i x = Ok (<[Z.to_nat i := x]> v).
Proof. intros. unfold vset. destruct (Z.leb_spec 0 i), (Z.ltb_spec i (vsize v)); simpl; lia || done. Qed.

Lemma vget_Ok {A} (v : list A) i x :
  0 <= i -> v !! Z.to_nat i = Some x -> vget v i = Ok x.
Proof. intros Hi Hx. unfold vget. rewrite Hx. destruct (Z.ltb_spec i 0); [lia | done]. Qed.

Lemma vread_Ok {A} (v : list A) i n :
  0 <= i -> 0 <= n -> i + n <= vsize v ->
  vread v i n = Ok (take (Z.to_nat n) (drop (Z.to_nat i) v)).
Proof.
  intros. unfold vread. destruct (Z.leb_spec 0 i), (Z.leb_spec 0 n), (Z.leb_spec (i + n) (vsize v));
    simpl; lia || done.
Qed.

Lemma vcopy_Ok {A} (v l : list A) i :
  0 <= i -> i + vsize l <= vsize v ->
  vcopy v i l = Ok (take (Z.to_nat i) v ++ l ++ drop (Z.to_nat i + length l) v).
Proof.
  intros. unfold vcopy. destruct (Z.leb_spec 0 i), (Z.leb_spec (i + vsize l) (vsize v));
    simpl; lia || done.
Qed.

Lemma vcopy_vsize {A} (v l : list A) i :
  0 <= i -> i + vsize l <= vsize v ->
  vsize (take (Z.to_nat i) v ++ l ++ drop (Z.to_nat i + length l) v) = vsize v.
Proof. unfold vsize. intros. rewrite !length_app, length_take, length_drop. lia. Qed.
