(* ===== verification/Buffer.v ===== *)
(** * Buffer: the byte buffer of a connection ([src/code/Buffer.h], [Buffer.cpp])

    The buffer is a vector of characters with two indices: the bytes between them are
    there to be read, the bytes after the second are free.  Seen from outside it is a
    queue of bytes; [refines] says so for every operation. *)

From S2P Require Import Prelude.
From S2P Require Import Cpp.
Local Open Scope Z_scope.

Record Buffer := mk_Buffer {
  buff_ : list Byte.byte;
  read_index_ : Z;        (* size_t *)
  write_index_ : Z        (* size_t *)
}.

Definition InitialSize : Z := 1024.

(** [Buffer(initialsize)]: a vector of zeros. *)
Definition Buffer_init (initialsize : Z) : outcome Buffer :=
  v ← resize Byte.x00 initialsize []; mret (mk_Buffer v 0 0).

Definition readable_bytes (b : Buffer) : Z := u64 (write_index_ b - read_index_ b).
Definition writable_bytes (b : Buffer) : Z := u64 (vsize (buff_ b) - write_index_ b).

(** A pointer into the vector is its offset; [&buff_[0]] needs an element. *)
Definition begin (b : Buffer) : outcome Z :=
  match buff_ b with [] => Undefined "&buff_[0] of an empty vector" | _ => Ok 0 end.
Definition begin_write (b : Buffer) : outcome Z := (fun p => p + write_index_ b) <$> begin b.
Definition begin_read (b : Buffer) : outcome Z := (fun p => p + read_index_ b) <$> begin b.

Definition swap (b rhs : Buffer) : Buffer * Buffer :=
  (mk_Buffer (buff_ rhs) (read_index_ rhs) (write_index_ rhs),
   mk_Buffer (buff_ b) (read_index_ b) (write_index_ b)).

Definition has_written (n : Z) (b : Buffer) : Buffer :=
  if n <=? writable_bytes b
  then mk_Buffer (buff_ b) (read_index_ b) (u64 (write_index_ b + n))
  else b.

Definition has_readall (b : Buffer) : Buffer := mk_Buffer (buff_ b) 0 0.

Definition has_readed (n : Z) (b : Buffer) : Buffer :=
  if n <? readable_bytes b
  then mk_Buffer (buff_ b) (u64 (read_index_ b + n)) (write_index_ b)
  else has_readall b.

Definition make_space (n : Z) (b : Buffer) : outcome Buffer :=
  if u64 (read_index_ b + writable_bytes b) <? n then
    v ← resize Byte.x00 (u64 (write_index_ b + n)) (buff_ b);
    mret (mk_Buffer v (read_index_ b) (write_index_ b))
  else if read_index_ b =? 0 then mret b
  else
    let count := readable_bytes b in
    p ← begin b;
    l ← vread (buff_ b) (p + read_index_ b) (write_index_ b - read_index_ b);
    v ← vcopy (buff_ b) p l;
    mret (mk_Buffer v 0 count).

Definition ensure_writable (n : Z) (b : Buffer) : outcome Buffer :=
  if writable_bytes b <? n then make_space n b else mret b.

(** [None] is a null pointer; a pointer points to at least the [n] bytes the caller
    names, which are the list. *)
Definition write (data : option (list Byte.byte)) (b : Buffer) : outcome Buffer :=
  match data with
  | None | Some [] => mret b
  | Some l =>
      b ← ensure_writable (vsize l) b;
      p ← begin_write b;
      v ← vcopy (buff_ b) p l;
      mret (has_written (vsize l) (mk_Buffer v (read_index_ b) (write_index_ b)))
  end.

(** [write(const std::string&)]: [data()] is never null. *)
Definition write_string (str : list Byte.byte) (b : Buffer) : outcome Buffer :=
  write (Some str) b.

Definition read_string (n : Z) (b : Buffer) : outcome (list Byte.byte * Buffer) :=
  let len := readable_bytes b in
  let n := if len <? n then len else n in
  p ← begin_read b;
  str ← vread (buff_ b) p n;
  mret (str, has_readed n b).

Definition read_string_all (b : Buffer) : outcome (list Byte.byte * Buffer) :=
  read_string (readable_bytes b) b.

(** [shrink_to_fit] may give memory back; the elements stay. *)
Definition shrink (b : Buffer) : Buffer := b.

(** What a reader of a socket does with the buffer (see [TcpConnection]): the bytes
    are stored from [begin_write()] on, then [has_written] is told their number. *)
Definition receive (l : list Byte.byte) (b : Buffer) : outcome Buffer :=
  p ← begin_write b;
  v ← vcopy (buff_ b) p l;
  mret (has_written (vsize l) (mk_Buffer v (read_index_ b) (write_index_ b))).

(** ** The invariant and the contents *)

Record buffer_ok (b : Buffer) : Prop := {
  ok_read : 0 <= read_index_ b <= write_index_ b;
  ok_write : write_index_ b <= vsize (buff_ b);
  ok_size : 0 < vsize (buff_ b) <= max_size
}.

Definition contents (b : Buffer) : list Byte.byte :=
  take (Z.to_nat (write_index_ b - read_index_ b)) (drop (Z.to_nat (read_index_ b)) (buff_ b)).

Lemma readable_ok b : buffer_ok b -> readable_bytes b = write_index_ b - read_index_ b.
Proof. intros []. unfold readable_bytes, max_size in *. apply u64_small. lia. Qed.
Lemma writable_ok b : buffer_ok b -> writable_bytes b = vsize (buff_ b) - write_index_ b.
Proof. intros []. unfold writable_bytes, max_size in *. apply u64_small. lia. Qed.

(** [has_written] is ignored when the bytes do not fit. *)
Lemma has_written_ok n b :
  buffer_ok b -> 0 <= n <= writable_bytes b ->
  has_written n b = mk_Buffer (buff_ b) (read_index_ b) (write_index_ b + n).
Proof.
  intros Hb Hn. unfold has_written. destruct (Z.leb_spec n (writable_bytes b)); [| lia].
  rewrite writable_ok in * by done. destruct Hb. unfold max_size in *. by rewrite u64_small by lia.
Qed.

Section laws.
Context (b : Buffer) (Hb : buffer_ok b).
Lemma begin_ok : begin b = Ok 0.
Proof. destruct Hb as [_ _ [H _]]. unfold begin. by destruct (buff_ b). Qed.
Lemma contents_size : vsize (contents b) = readable_bytes b.
Proof.
  rewrite readable_ok by done. destruct Hb. unfold contents, vsize in *.
  rewrite length_take, length_drop. lia.
Qed.

(** A change of the buffer outside the readable bytes. *)
Lemma contents_append l v :
  write_index_ b + vsize l <= vsize (buff_ b) ->
  v = take (Z.to_nat (write_index_ b)) (buff_ b) ++ l ++
      drop (Z.to_nat (write_index_ b) + length l) (buff_ b) ->
  contents (mk_Buffer v (read_index_ b) (write_index_ b + vsize l)) = contents b ++ l.
Proof.
  intros Hl ->. destruct Hb. unfold contents, vsize in *. simpl.
  rewrite drop_app_le by (rewrite length_take; lia). rewrite skipn_firstn_comm.
  replace (Z.to_nat (write_index_ b) - Z.to_nat (read_index_ b))%nat
    with (Z.to_nat (write_index_ b - read_index_ b)) by lia.
  rewrite app_assoc, take_app_le, take_app_ge.
  - rewrite length_take, length_drop. f_equal. apply take_ge. lia.
  - rewrite length_take, length_drop. lia.
  - rewrite length_app, length_take, length_drop. lia.
Qed.

Lemma has_readall_ok : buffer_ok (has_readall b) /\ contents (has_readall b) = [].
Proof. destruct Hb. split; [constructor; simpl; lia | done]. Qed.

(** [has_readed] takes bytes from the front, all of them when [n] is too large. *)
Lemma has_readed_ok n :
  0 <= n -> buffer_ok (has_readed n b) /\ contents (has_readed n b) = drop (Z.to_nat n) (contents b).
Proof.
  intros Hn. unfold has_readed. pose proof contents_size as Hc. rewrite readable_ok in * by done.
  destruct Hb. unfold max_size in *. destruct (Z.ltb_spec n (write_index_ b - read_index_ b)).
  - rewrite u64_small by lia. split; [constructor; simpl; unfold max_size; lia |].
    unfold contents. simpl. rewrite skipn_firstn_comm, drop_drop. f_equal; [lia | f_equal; lia].
  - destruct has_readall_ok as [H1 H2]. split; [done |]. rewrite H2.
    symmetry. apply drop_ge. unfold vsize in *. lia.
Qed.

(** [make_space] is called when the free part is too small.  Afterwards there is room
    for [n] bytes, and the bytes to be read are the same. *)
Lemma make_space_ok n :
  writable_bytes b < n <= max_size ->
  wp (make_space n b) (fun b' => buffer_ok b' /\ n <= writable_bytes b' /\
    contents b' = contents b /\
    vsize (buff_ b') = (if readable_bytes b + n <=? vsize (buff_ b) then vsize (buff_ b)
                        else write_index_ b + n)).
Proof.
  intros Hn. unfold make_space. rewrite readable_ok, writable_ok in * by done.
  pose proof Hb as [Hr Hw Hs]. unfold max_size in *.
  rewrite (u64_small (read_index_ b + _)) by lia. case_match eqn:Hfit; boolify.
  - rewrite u64_small by lia. apply after_bind.
    destruct (resize Byte.x00 (write_index_ b + n) (buff_ b)) as [v | |] eqn:Hv; [| done |].
    2: { unfold resize in Hv. by case_match. }
    apply resize_Ok in Hv as (Hsz & Hmx & Hv); [| lia]. simpl. specialize (Hv ltac:(lia)).
    assert (buffer_ok (mk_Buffer v (read_index_ b) (write_index_ b))) as Hok
      by (constructor; simpl; lia).
    split_and!; [done | | |].
    + rewrite (writable_ok _ Hok). simpl. lia.
    + subst v. unfold contents. simpl. unfold vsize in *. rewrite drop_app_le by lia.
      apply take_app_le. rewrite length_drop. lia.
    + destruct (Z.leb_spec (write_index_ b - read_index_ b + n) (vsize (buff_ b))); lia.
  - case_match eqn:Hz; boolify; [lia |].
    rewrite begin_ok. simpl. rewrite vread_Ok by lia. simpl. rewrite Z.add_0_l.
    fold (contents b). pose proof contents_size as Hl. rewrite readable_ok in Hl by done.
    rewrite vcopy_Ok by lia. simpl.
    pose proof (vcopy_vsize (buff_ b) (contents b) 0 ltac:(lia) ltac:(lia)) as Hsz.
    simpl in Hsz. set (v := contents b ++ _) in *.
    assert (buffer_ok (mk_Buffer v 0 (write_index_ b - read_index_ b))) as Hok
      by (constructor; simpl; unfold max_size in *; lia).
    split_and!; [done | | |].
    + rewrite (writable_ok _ Hok). simpl. lia.
    + unfold contents at 1. simpl. rewrite Z.sub_0_r. apply take_app_length'.
      unfold vsize in *. lia.
    + rewrite Hsz. case_match; boolify; lia.
Qed.

(** [ensure_writable(n)] does nothing when there is room, and lets the vector grow only
    when the bytes to be read and [n] more do not fit in it. *)
Lemma ensure_writable_ok n :
  0 <= n <= max_size ->
  wp (ensure_writable n b) (fun b' => buffer_ok b' /\ n <= writable_bytes b' /\
    contents b' = contents b /\
    (readable_bytes b + n <= vsize (buff_ b) -> vsize (buff_ b') = vsize (buff_ b))).
Proof.
  intros Hn. unfold ensure_writable. destruct (Z.ltb_spec (writable_bytes b) n) as [H | H]; [| done].
  eapply after_mono; [apply make_space_ok; lia |]. intros b' (H1 & H2 & H3 & H4).
  split_and!; [done.. |]. intros Hfit. rewrite H4.
  by destruct (Z.leb_spec (readable_bytes b + n) (vsize (buff_ b))); [| lia].
Qed.

(** Bytes stored in the free part. *)
Lemma receive_ok l :
  vsize l <= writable_bytes b ->
  exists b', receive l b = Ok b' /\ buffer_ok b' /\ contents b' = contents b ++ l /\
    vsize (buff_ b') = vsize (buff_ b).
Proof.
  intros Hl. unfold receive, begin_write. rewrite begin_ok. simpl.
  pose proof Hb as [Hr Hw Hs]. pose proof (vsize_nonneg l). rewrite writable_ok in Hl by done.
  rewrite Z.add_0_l, vcopy_Ok by lia. simpl.
  pose proof (vcopy_vsize (buff_ b) l (write_index_ b) ltac:(lia) ltac:(lia)) as Hsz.
  set (v := take _ _ ++ _) in *.
  assert (buffer_ok (mk_Buffer v (read_index_ b) (write_index_ b))) as Hok
    by (constructor; simpl; lia).
  eexists. split; [done |]. rewrite (has_written_ok _ _ Hok); simpl.
  - split_and!; [constructor; simpl; lia | by apply contents_append; [lia |] | done].
  - rewrite (writable_ok _ Hok). simpl. lia.
Qed.

(** [ensure_writable] throws only when the vector would be too large. *)
Lemma ensure_writable_throws n e :
  0 <= n <= max_size -> ensure_writable n b = Throw e ->
  vsize (buff_ b) < readable_bytes b + n /\ max_size < write_index_ b + n.
Proof.
  intros Hn. unfold ensure_writable, make_space.
  rewrite readable_ok, writable_ok in * by done. pose proof Hb as [Hr Hw Hs].
  unfold max_size in *. rewrite (u64_small (read_index_ b + _)) by lia.
  case_match; [| done]. case_match; boolify.
  - rewrite u64_small by lia. unfold resize. case_match; [done |]. boolify.
    unfold max_size in *. lia.
  - case_match; [done |]. rewrite begin_ok. simpl. boolify.
    rewrite Z.add_0_l, vread_Ok by lia. simpl. fold (contents b).
    pose proof contents_size as Hl. rewrite readable_ok in Hl by done.
    by rewrite vcopy_Ok by lia.
Qed.

Lemma read_string_ok n :
  0 <= n -> exists b',
    read_string n b = Ok (take (Z.to_nat n) (contents b), b') /\ buffer_ok b' /\
    contents b' = drop (Z.to_nat n) (contents b).
Proof.
  intros Hn. unfold read_string, begin_read. rewrite begin_ok. simpl. rewrite Z.add_0_l.
  pose proof contents_size as Hc. pose proof Hb as [Hr Hw Hs].
  set (k := if readable_bytes b <? n then readable_bytes b else n).
  assert (0 <= k <= readable_bytes b /\ (k = n \/ readable_bytes b <= n /\ k = readable_bytes b))
    as [Hk Hkn].
  { unfold k. pose proof (vsize_nonneg (contents b)). case_match; boolify; lia. }
  destruct (has_readed_ok k) as [Hok Hdrop]; [lia |].
  assert (take (Z.to_nat k) (contents b) = take (Z.to_nat n) (contents b) /\
          drop (Z.to_nat k) (contents b) = drop (Z.to_nat n) (contents b)) as [Ht Hd].
  { unfold vsize in *. destruct Hkn as [-> | [? ->]]; [done |]. by rewrite !take_ge, !drop_ge by lia. }
  rewrite readable_ok in Hk by done. rewrite vread_Ok by lia. exists (has_readed k b).
  rewrite Hdrop, Hd, <- Ht. split_and!; [| done..]. unfold contents. rewrite take_take.
  simpl. by rewrite Nat.min_l by lia.
Qed.

Lemma read_string_all_ok : exists b',
    read_string_all b = Ok (contents b, b') /\ buffer_ok b' /\ contents b' = [].
Proof.
  unfold read_string_all. pose proof contents_size as Hc. pose proof (vsize_nonneg (contents b)).
  destruct (read_string_ok (readable_bytes b)) as (b' & -> & Hok & Hb'); [lia |].
  exists b'. unfold vsize in Hc. rewrite take_ge by lia. rewrite drop_ge in Hb' by lia. done.
Qed.
End laws.

Lemma Buffer_init_ok n :
  0 < n <= max_size ->
  exists b, Buffer_init n = Ok b /\ buffer_ok b /\ contents b = [].
Proof.
  intros Hn. unfold Buffer_init. destruct (resize Byte.x00 n []) as [v | |] eqn:Hv.
  - apply resize_Ok in Hv as (Hsz & _); [| lia]. eexists. split; [done |].
    split; [constructor; simpl; lia | done].
  - unfold resize in Hv. case_match; boolify; [done | lia].
  - unfold resize in Hv. by case_match.
Qed.

Lemma Buffer_init_wp n :
  0 < n -> wp (Buffer_init n) (fun b => buffer_ok b /\ contents b = [] /\ n <= max_size).
Proof.
  intros Hn. destruct (Z.le_gt_cases n max_size) as [Hm | Hm].
  - destruct (Buffer_init_ok n) as (b & -> & Hb & Hc); [lia |]. done.
  - unfold Buffer_init, resize. destruct (Z.leb_spec n max_size); [lia | done].
Qed.

Lemma write_ok data b :
  buffer_ok b -> vsize (default [] data) <= max_size ->
  wp (write data b) (fun b' => buffer_ok b' /\ contents b' = contents b ++ default [] data /\
    (readable_bytes b + vsize (default [] data) <= vsize (buff_ b) ->
     vsize (buff_ b') = vsize (buff_ b))).
Proof.
  intros Hb Hl. destruct data as [[| x l] |]; simpl; [by rewrite app_nil_r | | by rewrite app_nil_r].
  cbn [default from_option id] in Hl. apply after_bind. pose proof (vsize_nonneg (x :: l)).
  eapply after_mono; [apply ensure_writable_ok; [done | lia] |].
  intros b1 (Hok1 & Hroom & Hcont & Hsz).
  destruct (receive_ok b1 Hok1 (x :: l) Hroom) as (b2 & Hr & Hok2 & Hc2 & Hs2).
  unfold receive in Hr. rewrite Hr. simpl. rewrite Hc2, Hcont. split_and!; [done.. |].
  intros Hfit. rewrite Hs2. by apply Hsz.
Qed.

(** A buffer from which nothing was read: a write that fits in memory succeeds. *)
Lemma ensure_writable_read n b b' :
  read_index_ b = 0 -> ensure_writable n b = Ok b' -> read_index_ b' = 0.
Proof.
  intros Hr. unfold ensure_writable, make_space. rewrite Hr. case_match; [| by intros [= <-]].
  case_match; [| by intros [= <-]]. destruct (resize _ _ _); [| done..]. by intros [= <-].
Qed.

Lemma write_total l b :
  buffer_ok b -> read_index_ b = 0 -> vsize (contents b) + vsize l <= max_size ->
  exists b', write_string l b = Ok b' /\ buffer_ok b' /\ contents b' = contents b ++ l /\ read_index_ b' = 0.
Proof.
  intros Hb Hr Hl. pose proof (vsize_nonneg l). pose proof (vsize_nonneg (contents b)).
  unfold write_string. destruct l as [| x l]; [exists b; by rewrite app_nil_r |]. cbn [write].
  pose proof (ensure_writable_ok b Hb (vsize (x :: l)) ltac:(lia)) as Hw.
  destruct (ensure_writable (vsize (x :: l)) b) as [b1 | e |] eqn:He; [| | done].
  - destruct Hw as (Hb1 & Hroom & Hc1 & _). destruct (receive_ok b1 Hb1 (x :: l) Hroom) as (b2 & Hrec & Hb2 & Hc2 & _).
    unfold receive in Hrec. cbn [mbind outcome_bind]. rewrite Hrec. exists b2.
    split_and!; [done | done | by rewrite Hc2, Hc1 |].
    apply (ensure_writable_read _ _ _ Hr) in He.
    destruct (begin_write b1) as [p | |]; [| done..]. cbn [mbind outcome_bind] in Hrec.
    destruct (vcopy _ _ _) as [v | |]; [| done..]. injection Hrec as <-.
    unfold has_written. by case_match.
  - apply (ensure_writable_throws b Hb) in He as [_ He]; [| lia].
    rewrite (contents_size b Hb), (readable_ok b Hb) in Hl. lia.
Qed.

(** ** The contract: a queue of bytes *)

Inductive op :=
  | Write (data : option (list Byte.byte))
  | Read (n : Z)
  | Read_all
  | Skip (n : Z)
  | Skip_all
  | Reserve (n : Z)
  | Receive (n : Z) (l : list Byte.byte)   (* room for [n] bytes, then at most [n] arrive *)
  | Shrink.

(** The result of an operation is the string it returns, if it returns one. *)
Definition step (o : op) (b : Buffer) : outcome (list Byte.byte * Buffer) :=
  match o with
  | Write data => pair [] <$> write data b
  | Read n => read_string n b
  | Read_all => read_string_all b
  | Skip n => mret ([], has_readed n b)
  | Skip_all => mret ([], has_readall b)
  | Reserve n => pair [] <$> ensure_writable n b
  | Receive n l => b ← ensure_writable n b; pair [] <$> receive l b
  | Shrink => mret ([], shrink b)
  end.

Definition queue_step (o : op) (q : list Byte.byte) : list Byte.byte * list Byte.byte :=
  match o with
  | Write data => ([], q ++ default [] data)
  | Read n => (take (Z.to_nat n) q, drop (Z.to_nat n) q)
  | Read_all => (q, [])
  | Skip n => ([], drop (Z.to_nat n) q)
  | Skip_all => ([], [])
  | Reserve _ | Shrink => ([], q)
  | Receive _ l => ([], q ++ l)
  end.

(** The arguments are in the range of [size_t], or of the sizes of real objects. *)
Definition op_ok (o : op) : Prop :=
  match o with
  | Write data => vsize (default [] data) <= max_size
  | Read n | Skip n => 0 <= n <= SIZE_MAX
  | Reserve n => 0 <= n <= max_size
  | Receive n l => vsize l <= n <= max_size
  | Read_all | Skip_all | Shrink => True
  end.

Fixpoint steps (os : list op) (b : Buffer) : outcome (list (list Byte.byte) * Buffer) :=
  match os with
  | [] => mret ([], b)
  | o :: os =>
      r ← step o b;
      rs ← steps os r.2;
      mret (r.1 :: rs.1, rs.2)
  end.

Fixpoint queue_steps (os : list op) (q : list Byte.byte) :
    list (list Byte.byte) * list Byte.byte :=
  match os with
  | [] => ([], q)
  | o :: os =>
      let r := queue_step o q in
      let rs := queue_steps os r.2 in
      (r.1 :: rs.1, rs.2)
  end.

(** One operation simulates that of the queue. *)
Lemma refines o b :
  buffer_ok b -> op_ok o ->
  wp (step o b) (fun r => buffer_ok r.2 /\ (r.1, contents r.2) = queue_step o (contents b)).
Proof.
  intros Hb Ho. destruct o as [data | n | | n | | n | n l |]; simpl in *.
  - pose proof (write_ok data b Hb Ho) as H. destruct (write data b); simpl in *; [| done..].
    by destruct H as (? & -> & _).
  - destruct (read_string_ok b Hb n) as (b' & -> & H1 & H2); [lia |]. simpl. by rewrite H2.
  - destruct (read_string_all_ok b Hb) as (b' & -> & H1 & H2). simpl. by rewrite H2.
  - destruct (has_readed_ok b Hb n) as [H1 H2]; [lia |]. by rewrite H2.
  - by destruct (has_readall_ok b Hb).
  - pose proof (ensure_writable_ok b Hb n Ho) as H.
    destruct (ensure_writable n b); simpl in *; [| done..]. by destruct H as (? & _ & -> & _).
  - apply after_bind. pose proof (vsize_nonneg l).
    eapply after_mono; [apply ensure_writable_ok; [done | lia] |].
    intros b1 (Hok1 & Hroom & Hcont & _).
    destruct (receive_ok b1 Hok1 l) as (b2 & -> & H1 & H2 & _); [lia |]. simpl.
    by rewrite H2, Hcont.
  - done.
Qed.

Lemma refines_all os b :
  buffer_ok b -> Forall op_ok os ->
  wp (steps os b) (fun r => buffer_ok r.2 /\ (r.1, contents r.2) = queue_steps os (contents b)).
Proof.
  intros Hb Hos. revert b Hb. induction Hos as [| o os Ho Hos IH]; intros b Hb; simpl; [done |].
  apply after_bind. eapply after_mono; [by apply refines |]. intros [x b1] [Hok1 Hq]. simpl in *.
  rewrite <- Hq. apply after_bind. eapply after_mono; [by apply IH |].
  intros [xs b2] [Hok2 Hqs]. simpl in *. by rewrite <- Hqs.
Qed.

(** ** Properties *)

(** C28. The buffer is a queue of bytes.  Whatever operations are applied to a new buffer,
    it never reads or writes outside its vector; as long as no exception reports that
    the vector would be too large, every string it returns is the one a queue would
    return, the bytes left to read are those left in the queue, and the indices are in
    order and inside the vector. *)
Theorem buffer_refines_queue (n : Z) (b : Buffer) (os : list op) :
  0 < n <= max_size -> Buffer_init n = Ok b -> Forall op_ok os ->
  match steps os b with
  | Ok (outs, b') => (outs, contents b') = queue_steps os [] /\ buffer_ok b'
  | Throw _ => True
  | Undefined _ => False
  end.
Proof.
  intros Hn Hb Hos. destruct (Buffer_init_ok n Hn) as (b0 & Hb0 & Hok & Hc).
  rewrite Hb in Hb0. injection Hb0 as <-. pose proof (refines_all os b Hok Hos) as H.
  destruct (steps os b) as [[outs b'] | |]; [| done..]. rewrite Hc in H. by destruct H.
Qed.

(** A small buffer that grows, is read and compacts. *)
Definition buffer_session : list op :=
  [Write (Some (bytes "GET /a")); Read 4; Receive 8 (bytes " HTTP"); Skip 2; Read_all;
   Write (Some (bytes "xyz")); Reserve 5; Read 100].

Lemma buffer_refines_queue_witness : exists b b' outs,
  Buffer_init 8 = Ok b /\ steps buffer_session b = Ok (outs, b') /\
  outs = [[]; bytes "GET "; []; []; bytes " HTTP"; []; []; bytes "xyz"] /\
  (outs, contents b') = queue_steps buffer_session [] /\ buffer_ok b'.
Proof.
  pose proof (buffer_refines_queue 8 (mk_Buffer (replicate 8 Byte.x00) 0 0) buffer_session) as H.
  eexists (mk_Buffer (replicate 8 Byte.x00) 0 0), _, _. split; [reflexivity |].
  split; [vm_compute; reflexivity |]. split; [reflexivity |].
  apply H; [split; [done | by vm_compute] | reflexivity |].
  repeat constructor; by vm_compute.
Defined.

(** Writing reuses the memory of the bytes that were read: when the bytes still to be
    read and the new ones fit in the vector, [write] succeeds, appends the new bytes
    and does not enlarge the vector. *)
Theorem write_in_place (b : Buffer) (l : list Byte.byte) :
  buffer_ok b -> readable_bytes b + vsize l <= vsize (buff_ b) ->
  exists b', write (Some l) b = Ok b' /\ contents b' = contents b ++ l /\
    vsize (buff_ b') = vsize (buff_ b).
Proof.
  intros Hb Hfit. pose proof (ok_size _ Hb) as Hs. pose proof (contents_size b Hb) as Hc.
  pose proof (vsize_nonneg (contents b)). pose proof (vsize_nonneg l).
  pose proof (write_ok (Some l) b Hb ltac:(simpl; lia)) as H2.
  destruct (write (Some l) b) as [b' | e | e] eqn:Hw; cbn [wp default from_option id] in H2; [| | done].
  - exists b'. destruct H2 as (_ & H2 & H3). auto.
  - exfalso. destruct l as [| x l]; [done |]. unfold write in Hw.
    pose proof (ensure_writable_ok b Hb (vsize (x :: l)) ltac:(lia)) as Hew.
    destruct (ensure_writable (vsize (x :: l)) b) as [b1 | e1 | e1] eqn:He; cbn [wp] in Hew; [| | done].
    + destruct Hew as (Hok1 & Hroom & _). destruct (receive_ok b1 Hok1 (x :: l) Hroom) as (b2 & Hr & _).
      unfold receive in Hr. simpl in Hw. by rewrite Hr in Hw.
    + apply ensure_writable_throws in He; [lia | done | lia].
Qed.

(** Eight bytes, six of them written and five read: six more fit after compaction. *)
Lemma write_in_place_witness : exists b b',
  steps [Write (Some (bytes "abcdef")); Skip 5] (mk_Buffer (replicate 8 Byte.x00) 0 0)
    = Ok ([[]; []], b) /\
  write (Some (bytes "ghijkl")) b = Ok b' /\ contents b' = bytes "fghijkl" /\
  vsize (buff_ b') = 8.
Proof.
  eexists. edestruct (write_in_place (mk_Buffer (bytes "abcdef" ++ replicate 2 Byte.x00) 5 6)
    (bytes "ghijkl")) as (b' & H1 & H2 & H3).
  - constructor; by vm_compute.
  - by vm_compute.
  - exists b'. split; [vm_compute; reflexivity |]. split; [exact H1 |].
    split; [exact H2 | exact H3].
Defined.

(** What is written is read back: [write(l)] followed by a read of the bytes that were
    there before gives those bytes, and [read_string()] then gives exactly [l] and
    leaves the buffer empty. *)
Theorem write_read_roundtrip (b b1 : Buffer) (l : list Byte.byte) :
  buffer_ok b -> vsize l <= max_size -> write_string l b = Ok b1 ->
  exists b2 b3,
    read_string (readable_bytes b) b1 = Ok (contents b, b2) /\
    read_string_all b2 = Ok (l, b3) /\ readable_bytes b3 = 0.
Proof.
  intros Hb Hl Hw. pose proof (write_ok (Some l) b Hb Hl) as H. unfold write_string in Hw.
  rewrite Hw in H. destruct H as (Hok1 & Hc1 & _). simpl in Hc1.
  pose proof (contents_size b Hb) as Hs. pose proof (vsize_nonneg (contents b)).
  destruct (read_string_ok b1 Hok1 (readable_bytes b)) as (b2 & Hr & Hok2 & Hc2); [lia |].
  rewrite Hc1 in Hr, Hc2. rewrite <- Hs in Hr, Hc2 at 1. rewrite vsize_to_nat in Hr, Hc2.
  rewrite take_app_length in Hr. rewrite drop_app_length in Hc2.
  destruct (read_string_all_ok b2 Hok2) as (b3 & Hr3 & Hok3 & Hc3). rewrite Hc2 in Hr3.
  exists b2, b3. split_and!; [by rewrite <- Hs at 1 | done |].
  rewrite <- (contents_size b3 Hok3), Hc3. done.
Qed.

Lemma write_read_roundtrip_witness : exists b b1 b2 b3,
  steps [Write (Some (bytes "ab"))] (mk_Buffer (replicate 4 Byte.x00) 0 0) = Ok ([[]], b) /\
  write_string (bytes "cdefg") b = Ok b1 /\
  read_string (readable_bytes b) b1 = Ok (bytes "ab", b2) /\
  read_string_all b2 = Ok (bytes "cdefg", b3) /\ readable_bytes b3 = 0.
Proof.
  set (b := mk_Buffer (bytes "ab" ++ replicate 2 Byte.x00) 0 2).
  eassert (Hw : write_string (bytes "cdefg") b = Ok _) by (vm_compute; reflexivity).
  destruct (write_read_roundtrip b _ (bytes "cdefg") ltac:(constructor; by vm_compute)
    ltac:(by vm_compute) Hw) as (b2 & b3 & H1 & H2 & H3).
  eexists b, _, b2, b3. split; [vm_compute; reflexivity |]. split; [exact Hw |].
  split; [exact H1 | split; [exact H2 | exact H3]].
Defined.
