(* ===== verification/TcpConnection.v ===== *)
(** * TcpConnection: one connection and its event loop ([src/code/TcpConnection.h], [.cpp])

    A connection is driven by its event loop: the completions of the operations it
    asked [asio] for, and the requests of the application, are handled one at a time.
    The world of a connection ([net]) holds the connection, the operations that are
    outstanding in [asio], and the state of the application.  The application's
    callbacks run inside the handlers; what they call ([send], [close]) is executed at
    once, since [dispatch] runs a function immediately in the thread of the loop. *)

From S2P Require Import Prelude.
From S2P Require Import Cpp.
From S2P Require Import Buffer.
Local Open Scope Z_scope.

(** The fields that change after the construction. *)
Record TcpConnection := mk_conn {
  connected_ : bool;
  recv_buffer_ : Buffer;
  send_buffer_ : list Buffer     (* std::deque<BufferPtr> *)
}.

(** What an application may ask a connection for. *)
Inductive request :=
  | Send (data : option (list Byte.byte))    (* send(const char*, size_t); [None] is null *)
  | Send_buffer (buffer : option Buffer)     (* send(const BufferPtr&) *)
  | Close.

(** The callbacks see the connection and the state of the application, and make
    requests; the receive callback also works on the buffer. *)
Record callbacks (U : Type) := mk_callbacks {
  connection_callback_ : option (TcpConnection -> U -> list request * U);
  recv_callback_ : option (TcpConnection -> Z -> U -> list op * (list request * U));
  sendcomplete_callback_ : option (TcpConnection -> U -> list request * U);
  close_callback_ : option (TcpConnection -> U -> U)
}.
Arguments mk_callbacks {U}.
Arguments connection_callback_ {U}.
Arguments recv_callback_ {U}.
Arguments sendcomplete_callback_ {U}.
Arguments close_callback_ {U}.

Record net (U : Type) := mk_net {
  conn : TcpConnection;
  shut : bool;                          (* the socket was shut down *)
  reads : nat;                          (* outstanding async_receive *)
  writes : list (list Byte.byte);       (* outstanding async_write, oldest first *)
  delivered : list (list Byte.byte);    (* the writes that completed, in order *)
  accepted : list (list Byte.byte);     (* the buffers send_loop has queued, in order *)
  closings : nat;                       (* how often handle_close ran *)
  user : U
}.
Arguments mk_net {U}.
Arguments conn {U}.
Arguments shut {U}.
Arguments reads {U}.
Arguments writes {U}.
Arguments delivered {U}.
Arguments accepted {U}.
Arguments closings {U}.
Arguments user {U}.

Section connection.
Context {U : Type} (cbs : callbacks U).

Definition with_conn (f : TcpConnection -> TcpConnection) (n : net U) : net U :=
  mk_net (f (conn n)) (shut n) (reads n) (writes n) (delivered n) (accepted n) (closings n) (user n).
Definition with_user (u : U) (n : net U) : net U :=
  mk_net (conn n) (shut n) (reads n) (writes n) (delivered n) (accepted n) (closings n) u.
Definition set_connected (b : bool) (c : TcpConnection) : TcpConnection :=
  mk_conn b (recv_buffer_ c) (send_buffer_ c).
Definition set_recv (b : Buffer) (c : TcpConnection) : TcpConnection :=
  mk_conn (connected_ c) b (send_buffer_ c).
Definition set_send (l : list Buffer) (c : TcpConnection) : TcpConnection :=
  mk_conn (connected_ c) (recv_buffer_ c) l.

(** [TcpConnection(loop, name)]. *)
Definition TcpConnection_init (u : U) : outcome (net U) :=
  b ← Buffer_init InitialSize;
  mret (mk_net (mk_conn false b []) false 0 [] [] [] 0 u).

(** [socket_.shutdown(...)], whose error is ignored. *)
Definition shutdown (n : net U) : net U :=
  mk_net (conn n) true (reads n) (writes n) (delivered n) (accepted n) (closings n) (user n).

Definition async_recv (n : net U) : outcome (net U) :=
  b ← ensure_writable InitialSize (recv_buffer_ (conn n));
  _ ← begin_write b;
  mret (mk_net (set_recv b (conn n)) (shut n) (S (reads n)) (writes n) (delivered n)
          (accepted n) (closings n) (user n)).

Definition async_send (n : net U) : outcome (net U) :=
  match send_buffer_ (conn n) with
  | [] => Undefined "front() of an empty deque"
  | b :: _ =>
      p ← begin_read b;
      l ← vread (buff_ b) p (readable_bytes b);
      mret (mk_net (conn n) (shut n) (reads n) (writes n ++ [l]) (delivered n) (accepted n)
              (closings n) (user n))
  end.

Definition send_loop (b : Buffer) (n : net U) : outcome (net U) :=
  if connected_ (conn n) then
    let sending := negb (length (send_buffer_ (conn n)) =? 0)%nat in
    let n := mk_net (set_send (send_buffer_ (conn n) ++ [b]) (conn n)) (shut n) (reads n)
               (writes n) (delivered n) (accepted n ++ [contents b]) (closings n) (user n) in
    if sending then mret n else async_send n
  else mret n.

Definition send_buffer (buffer : option Buffer) (n : net U) : outcome (net U) :=
  match buffer with
  | None => mret n
  | Some b => if readable_bytes b =? 0 then mret n else send_loop b n
  end.

Definition send (data : option (list Byte.byte)) (n : net U) : outcome (net U) :=
  match data with
  | None | Some [] => mret n
  | Some l =>
      b ← Buffer_init (vsize l);
      b ← write (Some l) b;
      send_buffer (Some b) n
  end.

Definition close_loop (n : net U) : net U :=
  if connected_ (conn n) then with_conn (set_connected false) (shutdown n) else n.

Definition do_request (r : request) (n : net U) : outcome (net U) :=
  match r with
  | Send data => send data n
  | Send_buffer buffer => send_buffer buffer n
  | Close => mret (close_loop n)
  end.

Fixpoint do_requests (rs : list request) (n : net U) : outcome (net U) :=
  match rs with
  | [] => mret n
  | r :: rs => n ← do_request r n; do_requests rs n
  end.

(** A callback that was set is called. *)
Definition call (cb : option (TcpConnection -> U -> list request * U)) (n : net U) :
    outcome (net U) :=
  match cb with
  | None => mret n
  | Some f => let r := f (conn n) (user n) in do_requests r.1 (with_user r.2 n)
  end.

Definition handle_establish (n : net U) : outcome (net U) :=
  n ← async_recv (with_conn (set_connected true) n);
  call (connection_callback_ cbs) n.

Definition handle_close (n : net U) : outcome (net U) :=
  let n := if connected_ (conn n) then with_conn (set_connected false) (shutdown n) else n in
  let n := mk_net (conn n) (shut n) (reads n) (writes n) (delivered n) (accepted n)
             (S (closings n)) (user n) in
  n ← call (connection_callback_ cbs) n;
  match close_callback_ cbs with
  | None => mret n
  | Some f => mret (with_user (f (conn n) (user n)) n)
  end.

(** [ec] is an error when it is [true]; otherwise the bytes are at [begin_write()]. *)
Definition handle_recv (ec : bool) (l : list Byte.byte) (n : net U) : outcome (net U) :=
  if ec then handle_close n
  else
    b ← receive l (recv_buffer_ (conn n));
    let n := with_conn (set_recv b) n in
    n ← match recv_callback_ cbs with
        | None => mret n
        | Some f =>
            let r := f (conn n) (vsize l) (user n) in
            b ← steps r.1 b;
            do_requests r.2.1 (with_user r.2.2 (with_conn (set_recv b.2) n))
        end;
    async_recv n.

Definition handle_send (ec : bool) (n : net U) : outcome (net U) :=
  if ec then handle_close n
  else
    let n := match send_buffer_ (conn n) with
             | [] => n
             | _ :: rest => with_conn (set_send rest) n
             end in
    n ← call (sendcomplete_callback_ cbs) n;
    match send_buffer_ (conn n) with
    | [] => mret n
    | _ :: _ => async_send n
    end.

(** ** The event loop *)

Inductive event :=
  | Received (l : list Byte.byte)   (* the outstanding async_receive stored these bytes *)
  | Recv_error
  | Sent                            (* the oldest async_write wrote all its bytes *)
  | Send_error
  | Requested (r : request).        (* posted by the application *)

(** A completion needs an outstanding operation; [asio] stores at most the bytes there
    is room for. *)
Definition enabled (e : event) (n : net U) : bool :=
  match e with
  | Received l => negb (reads n =? 0)%nat && (vsize l <=? writable_bytes (recv_buffer_ (conn n)))
  | Recv_error => negb (reads n =? 0)%nat
  | Sent | Send_error => negb (length (writes n) =? 0)%nat
  | Requested _ => true
  end.

Definition take_read (n : net U) : net U :=
  mk_net (conn n) (shut n) (pred (reads n)) (writes n) (delivered n) (accepted n) (closings n) (user n).
Definition take_write (ec : bool) (n : net U) : net U :=
  mk_net (conn n) (shut n) (reads n) (tail (writes n))
    (if ec then delivered n else delivered n ++ take 1 (writes n)) (accepted n) (closings n) (user n).

Definition handle (e : event) (n : net U) : outcome (net U) :=
  match e with
  | Received l => handle_recv false l (take_read n)
  | Recv_error => handle_recv true [] (take_read n)
  | Sent => handle_send false (take_write false n)
  | Send_error => handle_send true (take_write true n)
  | Requested r => do_request r n
  end.

(** The events that are not enabled do not happen. *)
Fixpoint run_events (es : list event) (n : net U) : outcome (net U) :=
  match es with
  | [] => mret n
  | e :: es => if enabled e n then n ← handle e n; run_events es n else run_events es n
  end.

(** A connection from its construction on. *)
Definition session (u : U) (es : list event) : outcome (net U) :=
  n ← TcpConnection_init u;
  n ← handle_establish n;
  run_events es n.


(** ** What an application has to respect *)

Definition request_ok (r : request) : Prop :=
  match r with Send_buffer (Some b) => buffer_ok b | _ => True end.

End connection.

(** The buffers it sends are well formed, and so is the use of the receive buffer, which
    holds at least the bytes that just arrived; [UI] is an invariant of the state of the
    application, which the callbacks keep. *)
Class Contract {U} (cbs : callbacks U) (UI : U -> Prop) : Prop := {
  connection_contract f c u :
    connection_callback_ cbs = Some f -> UI u -> Forall request_ok (f c u).1 /\ UI (f c u).2;
  recv_contract f c len u :
    recv_callback_ cbs = Some f -> UI u -> buffer_ok (recv_buffer_ c) ->
    0 <= len <= readable_bytes (recv_buffer_ c) ->
    Forall op_ok (f c len u).1 /\ Forall request_ok (f c len u).2.1 /\ UI (f c len u).2.2;
  sendcomplete_contract f c u :
    sendcomplete_callback_ cbs = Some f -> UI u -> Forall request_ok (f c u).1 /\ UI (f c u).2;
  close_contract f c u : close_callback_ cbs = Some f -> UI u -> UI (f c u)
}.

(** The callback for completed sends does not send itself; see
    [send_in_sendcomplete] for what happens when it does. *)
Class Quiet {U} (cbs : callbacks U) : Prop :=
  sendcomplete_quiet f c u : sendcomplete_callback_ cbs = Some f -> Forall (eq Close) (f c u).1.

(** ** The invariant *)

(** The write that has to be outstanding. *)
Definition pending (c : TcpConnection) : list (list Byte.byte) :=
  match send_buffer_ c with [] => [] | b :: _ => [contents b] end.

(** [failed] says that a write failed; [k] counts the receives that are outstanding and
    the runs of [handle_close]. *)
Record inv {U} (UI : U -> Prop) (failed : bool) (k : nat) (n : net U) : Prop := {
  inv_recv : buffer_ok (recv_buffer_ (conn n));
  inv_send : Forall buffer_ok (send_buffer_ (conn n));
  inv_history : accepted n = delivered n ++ (contents <$> send_buffer_ (conn n));
  inv_count : (closings n + reads n)%nat = k;
  inv_writes : if failed
               then writes n = [] /\ connected_ (conn n) = false /\ (0 < closings n)%nat
               else writes n = pending (conn n);
  inv_user : UI (user n)
}.

Definition rest (failed : bool) : nat := if failed then 2 else 1.

Section laws.
Context {U : Type} (cbs : callbacks U) (UI : U -> Prop).
Implicit Types n : net U.

Lemma async_send_ok b bs n :
  send_buffer_ (conn n) = b :: bs -> buffer_ok b ->
  async_send n = Ok (mk_net (conn n) (shut n) (reads n) (writes n ++ [contents b])
    (delivered n) (accepted n) (closings n) (user n)).
Proof.
  intros Hs Hb. unfold async_send, begin_read. rewrite Hs, (begin_ok b Hb). simpl.
  pose proof Hb as [Hr Hw Hz]. rewrite (readable_ok b Hb), vread_Ok by lia. done.
Qed.

Lemma async_recv_ok s k n :
  inv UI s k n ->
  wp (async_recv n) (fun n' => inv UI s (S k) n' /\ connected_ (conn n') = connected_ (conn n) /\
    accepted n' = accepted n).
Proof.
  intros [H1 H2 H3 H4 H5 H6]. unfold async_recv. apply after_bind.
  eapply after_mono; [apply (ensure_writable_ok _ H1 InitialSize); by vm_compute |].
  intros b (Hb & _). unfold begin_write. rewrite (begin_ok b Hb). simpl.
  split_and!; [| done..]. split; [done.. | simpl; lia | done | done].
Qed.

Lemma send_loop_ok s k b n :
  inv UI s k n -> buffer_ok b -> wp (send_loop b n) (inv UI s k).
Proof.
  intros [H1 H2 H3 H4 H5 H6] Hb. unfold send_loop.
  destruct (connected_ (conn n)) eqn:Hc; [| by split; rewrite ?Hc].
  destruct s; [destruct H5 as (_ & H5 & _); congruence |]. unfold pending in H5.
  destruct (send_buffer_ (conn n)) as [| b0 bs] eqn:Hq; simpl.
  - erewrite async_send_ok; [| done | done]. simpl. rewrite app_nil_r in H3.
    split; simpl; [done | by constructor | by rewrite H3 | done | by rewrite H5 | done].
  - inversion H2; subst. split; simpl; rewrite ?H3, ?fmap_app, <- ?app_assoc; try done.
    constructor; [done |]. apply Forall_app; split; [done | by constructor].
Qed.

Lemma close_loop_ok s k n : inv UI s k n -> inv UI s k (close_loop n).
Proof.
  intros [H1 H2 H3 H4 H5 H6]. unfold close_loop.
  destruct (connected_ (conn n)) eqn:Hc; [| split; try done; by rewrite Hc].
  split; try done. simpl. destruct s; [by destruct H5 as (? & _ & ?) | done].
Qed.

Lemma do_request_ok s k r n : inv UI s k n -> request_ok r -> wp (do_request r n) (inv UI s k).
Proof.
  intros Hn Hr. destruct r as [[[| x l] |] | [b |] |]; try done.
  - unfold do_request, send. pose proof (vsize_nonneg l). apply after_bind.
    eapply after_mono; [apply Buffer_init_wp; rewrite vsize_cons; lia |].
    intros b (Hb & _ & Hmx). apply after_bind.
    eapply after_mono; [by apply (write_ok (Some (x :: l)) b Hb) |].
    intros b' (Hb' & _). unfold send_buffer. case_match; [done |]. by apply send_loop_ok.
  - simpl. case_match; [done |]. by apply send_loop_ok.
  - by apply close_loop_ok.
Qed.

Lemma do_requests_ok s k rs n :
  inv UI s k n -> Forall request_ok rs -> wp (do_requests rs n) (inv UI s k).
Proof.
  intros Hn Hrs. revert n Hn. induction Hrs as [| r rs Hr Hrs IH]; intros n Hn; simpl; [done |].
  apply after_bind. eapply after_mono; [by apply do_request_ok | done].
Qed.

Lemma with_user_ok s k n u : inv UI s k n -> UI u -> inv UI s k (with_user u n).
Proof. by intros []. Qed.

Lemma call_ok s k cb n :
  inv UI s k n ->
  (forall f c u, cb = Some f -> UI u -> Forall request_ok (f c u).1 /\ UI (f c u).2) ->
  wp (call cb n) (inv UI s k).
Proof.
  intros Hn Hcb. unfold call. destruct cb as [f |]; [| done].
  destruct (Hcb f (conn n) (user n) eq_refl (inv_user _ _ _ _ Hn)) as [Hr Hu].
  apply do_requests_ok; [by apply with_user_ok | exact Hr].
Qed.

(** Requests to close change nothing but the connection flag and the socket. *)
Lemma do_closes rs n :
  Forall (eq Close) rs -> do_requests rs n = Ok n \/ do_requests rs n = Ok (close_loop n).
Proof.
  intros Hrs. revert n. induction Hrs as [| r rs <- Hrs IH]; intros n; simpl; [by left |].
  right. destruct (IH (close_loop n)) as [-> | ->]; [done |]. f_equal.
  unfold close_loop. destruct (connected_ (conn n)) eqn:Hc; simpl; by rewrite ?Hc.
Qed.
End laws.

Section handlers.
Context {U : Type} (cbs : callbacks U) (UI : U -> Prop) `{!Contract cbs UI}.
Implicit Types n : net U.

Lemma handle_close_ok s k n :
  inv UI s k n -> wp (handle_close cbs n) (inv UI s (S k)).
Proof.
  intros Hn. unfold handle_close. apply after_bind.
  eapply after_mono; [apply (call_ok UI s (S k)) |].
  - destruct Hn as [H1 H2 H3 H4 H5 H6]. destruct (connected_ (conn n)) eqn:Hc;
      (split; simpl; [done | done | done | lia | | done]); destruct s; try done; destruct H5 as (? & ? & ?); split_and!; done || lia.
  - apply connection_contract.
  - intros n' Hn'. pose proof close_contract as Hcc. destruct (close_callback_ cbs) as [f |]; [| done].
    apply with_user_ok; [done |]. by apply Hcc, (inv_user _ _ _ _ Hn').
Qed.

(** What arrived is in the buffer when the callback sees it. *)
Lemma received l b :
  buffer_ok b -> vsize l <= writable_bytes b ->
  exists b', receive l b = Ok b' /\ buffer_ok b' /\ 0 <= vsize l <= readable_bytes b'.
Proof.
  intros Hb Hl. destruct (receive_ok _ Hb l Hl) as (b' & Hr & Hb' & Hc & _). exists b'.
  split_and!; [done | done | apply vsize_nonneg |]. rewrite <- (contents_size _ Hb'), Hc.
  unfold vsize. rewrite length_app. lia.
Qed.

Lemma handle_recv_ok s k ec l n :
  inv UI s k n -> (ec = false -> vsize l <= writable_bytes (recv_buffer_ (conn n))) ->
  wp (handle_recv cbs ec l n) (inv UI s (S k)).
Proof.
  intros Hn Hl. unfold handle_recv. destruct ec; [by apply handle_close_ok |].
  specialize (Hl eq_refl). pose proof Hn as [H1 H2 H3 H4 H5 H6].
  destruct (received _ _ H1 Hl) as (b & Hrb & Hb & Hlen). rewrite Hrb. simpl.
  assert (forall b' u, buffer_ok b' -> UI u ->
    inv UI s k (with_user u (with_conn (set_recv b') (with_conn (set_recv b) n)))) as Hset
    by (intros; by split).
  apply after_bind. apply after_mono with (inv UI s k).
  - pose proof recv_contract as Hct. destruct (recv_callback_ cbs) as [f |].
    2: { specialize (Hset b (user n) Hb H6). by destruct n. }
    destruct (Hct f (conn (with_conn (set_recv b) n)) (vsize l) (user n) eq_refl H6 Hb Hlen)
      as (Ho & Hr & Hu).
    apply after_bind.
    eapply after_mono; [apply refines_all; [exact Hb | exact Ho] |]. intros r [Hb' _].
    apply do_requests_ok; [by apply Hset | exact Hr].
  - intros n' Hn'. eapply after_mono; [by apply async_recv_ok |]. by intros n'' [? _].
Qed.

(** The part of [handle_send] after the oldest buffer is removed. *)
Lemma handle_send_ok `{!Quiet cbs} k n :
  inv UI false k n -> writes n <> [] -> exists n',
    handle_send cbs false (take_write false n) = Ok n' /\ inv UI false k n' /\
    accepted n' = accepted n /\
    S (length (send_buffer_ (conn n'))) = length (send_buffer_ (conn n)).
Proof.
  intros [H1 H2 H3 H4 H5 H6] Hw. unfold pending in H5.
  destruct (send_buffer_ (conn n)) as [| b bs] eqn:Hq; [done |].
  unfold handle_send. simpl. rewrite Hq. inversion H2 as [| ? ? Hb Hbs]; subst.
  set (n1 := with_conn (set_send bs) _).
  assert (exists n2, call (sendcomplete_callback_ cbs) n1 = Ok n2 /\
    send_buffer_ (conn n2) = bs /\ recv_buffer_ (conn n2) = recv_buffer_ (conn n) /\
    writes n2 = [] /\ delivered n2 = delivered n ++ [contents b] /\ accepted n2 = accepted n /\
    closings n2 = closings n /\ reads n2 = reads n /\ UI (user n2))
    as (n2 & -> & Hq2 & Hr2 & Hw2 & Hd2 & Ha2 & Hk2 & Hs2 & Hu2).
  { unfold call. pose proof sendcomplete_quiet as Hquiet. pose proof sendcomplete_contract as Hsc.
    destruct (sendcomplete_callback_ cbs) as [f |].
    2: { exists n1. simpl. by rewrite H5. }
    destruct (do_closes (f (conn n1) (user n1)).1 (with_user (f (conn n1) (user n1)).2 n1))
      as [-> | ->]; [by apply Hquiet | |]; eexists; (split; [done |]);
      destruct (Hsc f (conn n1) (user n1) eq_refl H6) as [_ Hu].
    - simpl. by rewrite H5.
    - unfold close_loop. case_match; simpl; by rewrite H5. }
  simpl. rewrite Hq2. destruct bs as [| b' bs].
  - exists n2. split_and!; [done | | done | by rewrite Hq2].
    split; rewrite ?Hq2, ?Hr2; [done | done | | lia | unfold pending; by rewrite Hq2 | done].
    rewrite Ha2, Hd2, H3. simpl. by rewrite app_nil_r.
  - inversion Hbs; subst. rewrite (async_send_ok b' bs n2) by done. eexists. split; [done |].
    simpl. rewrite Hq2. split_and!; [| done | done].
    split; simpl; rewrite ?Hq2, ?Hr2; try done; [| lia | unfold pending; by rewrite Hw2, Hq2].
    rewrite Ha2, Hd2, H3. simpl. by rewrite <- app_assoc.
Qed.

Lemma handle_ok `{!Quiet cbs} s e n :
  inv UI s (rest s) n -> enabled e n = true -> (forall r, e = Requested r -> request_ok r) ->
  wp (handle cbs e n) (fun n' => exists s', inv UI s' (rest s') n').
Proof.
  intros Hn He Hreq. pose proof Hn as [H1 H2 H3 H4 H5 H6]. destruct e as [l | | | | r]; simpl in He; boolify.
  - apply after_mono with (inv UI s (rest s)); [| by eauto].
    assert (rest s = S (pred (rest s))) as -> by by destruct s.
    apply handle_recv_ok; [split; simpl; try done; lia | done].
  - apply after_mono with (inv UI s (rest s)); [| by eauto].
    assert (rest s = S (pred (rest s))) as -> by by destruct s.
    apply handle_recv_ok; [split; simpl; try done; lia | done].
  - destruct s; [destruct H5 as [Hw0 _]; by rewrite Hw0 in He |].
    destruct (handle_send_ok (rest false) n Hn) as (n' & Hh & Hn' & _).
    { intros Hw. by rewrite Hw in He. }
    cbn [handle]. rewrite Hh. by exists false.
  - destruct s; [destruct H5 as [Hw0 _]; by rewrite Hw0 in He |].
    unfold pending in H5. destruct (send_buffer_ (conn n)) as [| b bs] eqn:Hq; [by rewrite H5 in He |].
    simpl. apply after_mono with (inv UI true (rest true)); [| by eauto].
    unfold handle_send, handle_close. apply after_bind. eapply after_mono; [apply (call_ok UI true 2) |].
    + destruct (connected_ (conn (take_write true n))) eqn:Hc; split; simpl in *;
        rewrite ?Hq in *; try done; try lia; rewrite H5; split_and!; done || lia.
    + apply connection_contract.
    + intros n' Hn'. pose proof close_contract as Hcc. destruct (close_callback_ cbs) as [f |]; [| done].
      apply with_user_ok; [done |]. by apply Hcc, (inv_user _ _ _ _ Hn').
  - apply after_mono with (inv UI s (rest s)); [| by eauto]. apply do_request_ok; [done |]. by apply Hreq.
Qed.

Lemma run_events_ok `{!Quiet cbs} s es n :
  inv UI s (rest s) n -> Forall (fun e => forall r, e = Requested r -> request_ok r) es ->
  wp (run_events cbs es n) (fun n' => exists s', inv UI s' (rest s') n').
Proof.
  intros Hn Hes. revert s n Hn. induction Hes as [| e es He Hes IH]; intros s n Hn; simpl; [by eauto |].
  destruct (enabled e n) eqn:Hen; [| by eapply IH].
  apply after_bind. eapply after_mono; [by eapply handle_ok |]. intros n' [s' Hn']. by eapply IH.
Qed.

Lemma establish_ok u :
  UI u ->
  wp (n ← TcpConnection_init u; handle_establish cbs n) (inv UI false 1).
Proof.
  intros Hu. unfold TcpConnection_init. destruct (Buffer_init_ok InitialSize) as (b & -> & Hb & _); [done |].
  simpl. unfold handle_establish. apply after_bind.
  eapply after_mono; [apply (async_recv_ok UI false 0) |].
  - by split.
  - intros n [Hn _]. apply call_ok; [done |]. apply connection_contract.
Qed.

Lemma session_ok `{!Quiet cbs} u es :
  UI u -> Forall (fun e => forall r, e = Requested r -> request_ok r) es ->
  wp (session cbs u es) (fun n => exists s, inv UI s (rest s) n).
Proof.
  intros Hu Hes. pose proof (establish_ok u Hu) as He. unfold session.
  destruct (TcpConnection_init u) as [n | |]; simpl in *; [| done..].
  apply after_bind. eapply after_mono; [exact He |]. intros n' Hn'. by apply (run_events_ok false).
Qed.

(** As many completed writes as there are buffers empty the queue. *)
Lemma drains `{!Quiet cbs} n :
  inv UI false 1 n ->
  exists n', run_events cbs (replicate (length (send_buffer_ (conn n))) Sent) n = Ok n' /\
    delivered n' = accepted n /\ accepted n' = accepted n /\
    send_buffer_ (conn n') = [] /\ writes n' = [].
Proof.
  intros H. remember (length (send_buffer_ (conn n))) as k eqn:Hk. symmetry in Hk.
  revert n H Hk. induction k as [| k IH]; intros n H Hk.
  - exists n. destruct H as [H1 H2 H3 H4 H5 H6]. apply length_zero_iff_nil in Hk.
    unfold pending in H5. rewrite Hk in *. simpl in H3. rewrite app_nil_r in H3. done.
  - assert (writes n <> []) as Hw.
    { pose proof (inv_writes _ _ _ _ H) as Hw. simpl in Hw. rewrite Hw. unfold pending.
      by destruct (send_buffer_ (conn n)). }
    destruct (handle_send_ok _ n H Hw) as (n1 & Hh & H1 & Ha & Hl).
    destruct (IH n1 H1 ltac:(lia)) as (n' & Hrun & Hd & Ha' & Hs).
    exists n'. rewrite <- Ha. split; [| by rewrite Ha'].
    cbn [replicate run_events]. assert (enabled Sent n = true) as ->.
    { simpl. by destruct (writes n). }
    cbn [handle]. by rewrite Hh.
Qed.
End handlers.

(** ** A closed connection *)

Section closed.
Context {U : Type} (cbs : callbacks U).
Implicit Types n : net U.

(** Nothing more is accepted, and the connection does not open again. *)
Definition stays_closed (n n' : net U) : Prop :=
  connected_ (conn n) = false ->
  connected_ (conn n') = false /\ accepted n' = accepted n.

Lemma stays_closed_refl n : stays_closed n n.
Proof. done. Qed.
Lemma stays_closed_trans n1 n2 n3 :
  stays_closed n1 n2 -> stays_closed n2 n3 -> stays_closed n1 n3.
Proof. intros H1 H2 Hc. destruct (H1 Hc) as [Hc2 <-]. by apply H2. Qed.

Lemma async_recv_closed n n' : async_recv n = Ok n' -> stays_closed n n'.
Proof.
  unfold async_recv. intros (b & _ & H)%bind_Ok. apply bind_Ok in H as (p & _ & H).
  by injection H as <-.
Qed.
Lemma async_send_closed n n' : async_send n = Ok n' -> stays_closed n n'.
Proof.
  unfold async_send. destruct (send_buffer_ (conn n)); [done |]. intros (p & _ & H)%bind_Ok.
  apply bind_Ok in H as (v & _ & H). by injection H as <-.
Qed.
Lemma do_request_closed r n n' : do_request r n = Ok n' -> stays_closed n n'.
Proof.
  intros H Hc.
  assert (forall b, send_loop b n = Ok n' -> n' = n) as Hloop.
  { intros b. unfold send_loop. rewrite Hc. by intros [= <-]. }
  enough (n' = n) as -> by done.
  destruct r as [[[| x l] |] | [b |] |]; cbn [do_request send send_buffer] in H;
    try (by injection H as <-).
  - apply bind_Ok in H as (b & _ & H). apply bind_Ok in H as (b' & _ & H).
    case_match; [by injection H as <- | by eapply Hloop].
  - case_match; [by injection H as <- | by eapply Hloop].
  - unfold close_loop in H. rewrite Hc in H. by injection H as <-.
Qed.
Lemma do_requests_closed rs n n' : do_requests rs n = Ok n' -> stays_closed n n'.
Proof.
  revert n. induction rs as [| r rs IH]; intros n; simpl; [by intros [= <-] |].
  intros (n1 & H1 & H2)%bind_Ok. eapply stays_closed_trans; [by eapply do_request_closed | by apply IH].
Qed.
Lemma call_closed cb n n' : call cb n = Ok n' -> stays_closed n n'.
Proof.
  unfold call. destruct cb as [f |]; [| by intros [= <-]]. intros H. by apply do_requests_closed in H.
Qed.
Lemma handle_close_closed n n' : handle_close cbs n = Ok n' -> stays_closed n n'.
Proof.
  intros H Hc. unfold handle_close in H. rewrite Hc in H. apply bind_Ok in H as (n1 & H1 & H2).
  destruct (call_closed _ _ _ H1 Hc) as [Hc1 Ha1].
  destruct (close_callback_ cbs); by injection H2 as <-.
Qed.

Lemma handle_closed e n n' : handle cbs e n = Ok n' -> stays_closed n n'.
Proof.
  destruct e as [l | | | | r]; cbn [handle]; intros H.
  - unfold handle_recv in H. apply bind_Ok in H as (b & _ & H). apply bind_Ok in H as (n1 & H1 & H2).
    eapply stays_closed_trans; [| by eapply async_recv_closed].
    destruct (recv_callback_ cbs) as [f |]; [| by injection H1 as <-].
    apply bind_Ok in H1 as (r & _ & H1). by apply do_requests_closed in H1.
  - by apply handle_close_closed in H.
  - unfold handle_send in H. apply bind_Ok in H as (n1 & H1 & H2).
    apply stays_closed_trans with n1.
    + apply call_closed in H1. eapply stays_closed_trans; [| exact H1]. intros Hc. by destruct (send_buffer_ (conn (take_write false n))).
    + case_match; [by injection H2 as <- | by apply async_send_closed].
  - by apply handle_close_closed in H.
  - by apply do_request_closed in H.
Qed.
End closed.

(** ** Properties *)

(** The requests posted from other threads are well formed. *)
Definition event_ok (e : event) : Prop := forall r, e = Requested r -> request_ok r.

(** C25. Sends are neither lost, nor duplicated, nor reordered.  For every application whose
    callback for completed sends does not send, and every sequence of events: nothing
    the connection does is undefined; what was written is a prefix of the accepted
    buffers; there is at most one outstanding [async_write]; and while the connection
    is open and buffers wait, there is one, for the oldest of them. *)
Theorem tcp_sends_in_order {U} (cbs : callbacks U) (UI : U -> Prop) `{!Contract cbs UI, !Quiet cbs}
    (u : U) (es : list event) :
  UI u -> Forall event_ok es ->
  match session cbs u es with
  | Ok n =>
      accepted n = delivered n ++ (contents <$> send_buffer_ (conn n)) /\
      (length (writes n) <= 1)%nat /\
      (connected_ (conn n) = true ->
       writes n = match send_buffer_ (conn n) with [] => [] | b :: _ => [contents b] end)
  | Throw _ => True
  | Undefined _ => False
  end.
Proof.
  intros Hu Hes. pose proof (session_ok cbs UI u es Hu Hes) as H.
  destruct (session cbs u es) as [n | |]; [| done..].
  destruct H as (s & [H1 H2 H3 H4 H5 H6]). split; [done |]. destruct s; simpl in H5.
  - destruct H5 as (-> & Hc & _). split; [simpl; lia | congruence].
  - rewrite H5. unfold pending. split; [| done]. destruct (send_buffer_ (conn n)); simpl; lia.
Qed.

(** An application that echoes what it receives. *)
Definition echo_callbacks : callbacks nat :=
  mk_callbacks None (Some (fun c _ u => ([Read_all], ([Send (Some (contents (recv_buffer_ c)))], S u))))
    None (Some (fun _ u => u)).
#[export] Instance echo_Contract : Contract echo_callbacks (fun _ => True).
Proof. split; [done | | done | done]. intros f c len u [= <-]. repeat constructor. Qed.
#[export] Instance echo_Quiet : Quiet echo_callbacks.
Proof. done. Qed.

Definition echo_session : list event :=
  [Received (bytes "hello"); Received (bytes "world"); Sent; Received (bytes "again")].

Lemma tcp_sends_in_order_witness : exists n,
  session echo_callbacks 0%nat echo_session = Ok n /\
  delivered n = [bytes "hello"] /\ writes n = [bytes "world"] /\
  accepted n = delivered n ++ (contents <$> send_buffer_ (conn n)).
Proof.
  eassert (Hs : session echo_callbacks 0%nat echo_session = Ok _) by (vm_compute; reflexivity).
  pose proof (tcp_sends_in_order echo_callbacks (fun _ => True) 0%nat echo_session) as H. rewrite Hs in H.
  destruct H as [H _]; [exact I | repeat constructor; done |].
  eexists. split; [exact Hs |]. split; [reflexivity |]. split; [reflexivity |]. exact H.
Defined.

(** C26. Progress: as long as the writes succeed, everything accepted is delivered, for an
    application whose callback for completed sends does not send ([Quiet]).  Unless a write
    has failed, as many successful completions as there are buffers empty the
    queue, and what was written is then everything that was accepted. *)
Theorem tcp_drains {U} (cbs : callbacks U) (UI : U -> Prop) `{!Contract cbs UI, !Quiet cbs}
    (u : U) (es : list event) (n : net U) :
  UI u -> Forall event_ok es -> session cbs u es = Ok n ->
  (connected_ (conn n) = true \/ writes n <> []) ->
  exists n', run_events cbs (replicate (length (send_buffer_ (conn n))) Sent) n = Ok n' /\
    delivered n' = accepted n /\ accepted n' = accepted n /\
    send_buffer_ (conn n') = [] /\ writes n' = [].
Proof.
  intros Hu Hes Hn Halive. pose proof (session_ok cbs UI u es Hu Hes) as Hi. rewrite Hn in Hi.
  destruct Hi as ([] & Hinv); [destruct Hinv as [_ _ _ _ (Hw & Hc & _) _]; destruct Halive; congruence |].
  by apply (drains cbs UI).
Qed.

Lemma tcp_drains_witness : exists n n',
  session echo_callbacks 0%nat [Received (bytes "hello"); Received (bytes "world")] = Ok n /\
  run_events echo_callbacks [Sent; Sent] n = Ok n' /\
  delivered n' = [bytes "hello"; bytes "world"].
Proof.
  eassert (Hs : session echo_callbacks 0%nat [Received (bytes "hello"); Received (bytes "world")]
    = Ok _) by (vm_compute; reflexivity).
  match type of Hs with _ = Ok ?n =>
    destruct (tcp_drains echo_callbacks (fun _ => True) 0%nat
      [Received (bytes "hello"); Received (bytes "world")] n)
      as (n' & H1 & H2 & _); [exact I | repeat constructor; done | exact Hs | left; reflexivity |];
    exists n, n' end.
  split; [exact Hs |]. split; [exact H1 | exact H2].
Defined.

(** There is never more than one outstanding receive, and [handle_close], which calls
    the application's connection callback and the owner's close callback, runs at most
    twice in the life of a connection: once for the receive and once for a send. *)
Theorem tcp_closings {U} (cbs : callbacks U) (UI : U -> Prop) `{!Contract cbs UI, !Quiet cbs}
    (u : U) (es : list event) (n : net U) :
  UI u -> Forall event_ok es -> session cbs u es = Ok n ->
  (reads n <= 1)%nat /\ (closings n <= 2)%nat /\
  (closings n = 0%nat -> reads n = 1%nat) /\
  (closings n = 2%nat -> connected_ (conn n) = false /\ writes n = []).
Proof.
  intros Hu Hes Hn. pose proof (session_ok cbs UI u es Hu Hes) as H. rewrite Hn in H.
  destruct H as (s & [_ _ _ H4 H5 _]). destruct s; simpl in *; [| lia].
  destruct H5 as (-> & -> & H5). split_and!; [lia | lia | lia | done].
Qed.

(** A receive that fails while a send is outstanding, which then fails as well: the
    application and the owner are told twice that the connection is closed. *)
Lemma tcp_closings_witness : exists n,
  session echo_callbacks 0%nat [Received (bytes "hello"); Recv_error; Send_error] = Ok n /\
  closings n = 2%nat /\ (closings n <= 2)%nat /\ connected_ (conn n) = false.
Proof.
  eassert (Hs : session echo_callbacks 0%nat
    [Received (bytes "hello"); Recv_error; Send_error] = Ok _) by (vm_compute; reflexivity).
  match type of Hs with _ = Ok ?n =>
    destruct (tcp_closings echo_callbacks (fun _ => True) 0%nat
      [Received (bytes "hello"); Recv_error; Send_error] n) as (_ & Hc & _ & Hd);
      [exact I | repeat constructor; done | exact Hs |]; exists n end.
  split; [exact Hs |]. split; [reflexivity |]. split; [exact Hc |].
  apply Hd. reflexivity.
Defined.

(** A closed connection stays closed and ignores what it is asked to send: no event
    reopens it or adds to the accepted buffers, whatever the callbacks do. *)
Theorem tcp_closed_ignores_sends {U} (cbs : callbacks U) (e : event) (n n' : net U) :
  connected_ (conn n) = false -> handle cbs e n = Ok n' ->
  connected_ (conn n') = false /\ accepted n' = accepted n.
Proof. intros Hc Hh. by apply (handle_closed cbs e n n' Hh). Qed.

Lemma tcp_closed_ignores_sends_witness : exists n n',
  session echo_callbacks 0%nat [Requested Close] = Ok n /\
  handle echo_callbacks (Received (bytes "late")) n = Ok n' /\
  user n' = 1%nat /\ connected_ (conn n') = false /\ accepted n' = [].
Proof.
  eassert (Hs : session echo_callbacks 0%nat [Requested Close] = Ok _) by (vm_compute; reflexivity).
  match type of Hs with _ = Ok ?n => exists n;
    eassert (Hh : handle echo_callbacks (Received (bytes "late")) n = Ok _)
      by (vm_compute; reflexivity);
    destruct (tcp_closed_ignores_sends echo_callbacks (Received (bytes "late")) n _ eq_refl Hh)
      as [H1 H2] end.
  eexists. split; [exact Hs |]. split; [exact Hh |]. split; [reflexivity |].
  split; [exact H1 | exact H2].
Defined.

(** An application that answers its first completed send with another buffer. *)
Definition again_callbacks (l : list Byte.byte) : callbacks bool :=
  mk_callbacks None None
    (Some (fun _ (u : bool) => if u then ([], true) else ([Send (Some l)], true))) None.

(** Sending from the callback for completed sends breaks this.  When the queue has
    become empty, [send] starts a write at once, and [handle_send] then starts a second
    one for the same buffer: an application that answers its first completed send with
    another buffer has that buffer written twice. *)
Theorem send_in_sendcomplete :
  exists n n',
    session (again_callbacks (bytes "second")) false
      [Requested (Send (Some (bytes "first"))); Sent] = Ok n /\
    accepted n = [bytes "first"; bytes "second"] /\
    writes n = [bytes "second"; bytes "second"] /\
    run_events (again_callbacks (bytes "second")) [Sent; Sent] n = Ok n' /\
    delivered n' = [bytes "first"; bytes "second"; bytes "second"].
Proof.
  eexists _, _. split; [vm_compute; reflexivity |]. split; [reflexivity |].
  split; [reflexivity |]. split; [vm_compute; reflexivity |]. reflexivity.
Qed.
