(* ===== verification/TcpSafety.v ===== *)
(** * TcpSafety: connections whose application sends whenever it likes

    The invariant of [TcpConnection] needs an application that does not send from its
    callback for completed sends.  Without that restriction a buffer may be written
    twice, but the connection is still free of undefined behaviour, its buffers stay
    well formed, and the application keeps its own invariant: [safe] is kept by every
    event.  The last part says what requests add to the accepted buffers ([grown]). *)

From S2P Require Import Prelude.
From S2P Require Import Cpp.
From S2P Require Import Buffer.
From S2P Require Import TcpConnection.
Local Open Scope Z_scope.

Record safe {U} (UI : U -> Prop) (n : net U) : Prop := {
  safe_recv : buffer_ok (recv_buffer_ (conn n));
  safe_send : Forall buffer_ok (send_buffer_ (conn n));
  safe_user : UI (user n)
}.

Section safety.
Context {U : Type} (cbs : callbacks U) (UI : U -> Prop) `{!Contract cbs UI}.
Implicit Types n : net U.

Lemma safe_with_user u n : safe UI n -> UI u -> safe UI (with_user u n).
Proof. by intros []. Qed.

Lemma async_recv_safe n : safe UI n -> wp (async_recv n) (safe UI).
Proof.
  intros [H1 H2 H3]. unfold async_recv. apply after_bind.
  eapply after_mono; [apply (ensure_writable_ok _ H1 InitialSize); by vm_compute |].
  intros b (Hb & _). unfold begin_write. by rewrite (begin_ok b Hb).
Qed.

Lemma async_send_safe n : safe UI n -> send_buffer_ (conn n) <> [] -> wp (async_send n) (safe UI).
Proof.
  intros [H1 H2 H3] Hq. destruct (send_buffer_ (conn n)) as [| b bs] eqn:Hs; [done |].
  inversion H2; subst. erewrite async_send_ok by done. split; simpl; by rewrite ?Hs.
Qed.

Lemma send_loop_safe b n : safe UI n -> buffer_ok b -> wp (send_loop b n) (safe UI).
Proof.
  intros [H1 H2 H3] Hb. unfold send_loop. destruct (connected_ (conn n)); [| done].
  set (n' := mk_net _ _ _ _ _ _ _ _).
  assert (safe UI n') by (split; simpl; [done | apply Forall_app; split; [done | by constructor] | done]).
  destruct (negb _); [done |]. apply async_send_safe; [done |]. simpl.
  by destruct (send_buffer_ (conn n)).
Qed.

Lemma do_request_safe r n : safe UI n -> request_ok r -> wp (do_request r n) (safe UI).
Proof.
  intros Hn Hr. destruct r as [[[| x l] |] | [b |] |]; try done; cbn [do_request].
  - unfold send. pose proof (vsize_nonneg l). apply after_bind.
    eapply after_mono; [apply Buffer_init_wp; rewrite vsize_cons; lia |].
    intros b (Hb & _ & Hmx). apply after_bind.
    eapply after_mono; [by apply (write_ok (Some (x :: l)) b Hb) |].
    intros b' (Hb' & _). unfold send_buffer. case_match; [done | by apply send_loop_safe].
  - simpl. case_match; [done | by apply send_loop_safe].
  - destruct Hn. unfold close_loop. by case_match.
Qed.

Lemma do_requests_safe rs n :
  safe UI n -> Forall request_ok rs -> wp (do_requests rs n) (safe UI).
Proof.
  intros Hn Hrs. revert n Hn. induction Hrs as [| r rs Hr Hrs IH]; intros n Hn; simpl; [done |].
  apply after_bind. eapply after_mono; [by apply do_request_safe | done].
Qed.

Lemma call_safe cb n :
  safe UI n ->
  (forall f c u, cb = Some f -> UI u -> Forall request_ok (f c u).1 /\ UI (f c u).2) ->
  wp (call cb n) (safe UI).
Proof.
  intros Hn Hcb. unfold call. destruct cb as [f |]; [| done].
  destruct (Hcb f (conn n) (user n) eq_refl (safe_user _ _ Hn)) as [Hr Hu].
  apply do_requests_safe; [by apply safe_with_user | exact Hr].
Qed.

Lemma handle_close_safe n : safe UI n -> wp (handle_close cbs n) (safe UI).
Proof.
  intros Hn. unfold handle_close. apply after_bind. eapply after_mono; [apply call_safe |].
  - destruct Hn. by case_match.
  - apply connection_contract.
  - intros n' Hn'. pose proof close_contract as Hcc. destruct (close_callback_ cbs) as [f |]; [| done].
    apply safe_with_user; [done |]. by apply Hcc, (safe_user _ _ Hn').
Qed.

Lemma handle_recv_safe ec l n :
  safe UI n -> (ec = false -> vsize l <= writable_bytes (recv_buffer_ (conn n))) ->
  wp (handle_recv cbs ec l n) (safe UI).
Proof.
  intros Hn Hl. unfold handle_recv. destruct ec; [by apply handle_close_safe |].
  specialize (Hl eq_refl). pose proof Hn as [H1 H2 H3].
  destruct (received _ _ H1 Hl) as (b & Hrb & Hb & Hlen). rewrite Hrb. simpl.
  apply after_bind. apply after_mono with (safe UI); [| apply async_recv_safe].
  pose proof recv_contract as Hct. destruct (recv_callback_ cbs) as [f |]; [| done].
  destruct (Hct f (conn (with_conn (set_recv b) n)) (vsize l) (user n) eq_refl H3 Hb Hlen)
    as (Ho & Hr & Hu).
  apply after_bind. eapply after_mono; [apply refines_all; [exact Hb | exact Ho] |].
  intros r [Hb' _]. by apply do_requests_safe.
Qed.

Lemma handle_send_safe ec n : safe UI n -> wp (handle_send cbs ec n) (safe UI).
Proof.
  intros Hn. unfold handle_send. destruct ec; [by apply handle_close_safe |].
  apply after_bind. eapply after_mono; [apply call_safe |].
  - pose proof Hn as [H1 H2 H3]. destruct (send_buffer_ (conn n)) as [| b bs]; [done |].
    by inversion H2.
  - apply sendcomplete_contract.
  - intros n' Hn'. destruct (send_buffer_ (conn n')) eqn:Hq; [done |].
    apply async_send_safe; [done | by rewrite Hq].
Qed.

Lemma handle_safe e n :
  safe UI n -> enabled e n = true -> event_ok e -> wp (handle cbs e n) (safe UI).
Proof.
  intros Hn He Hreq. destruct e as [l | | | | r]; simpl in He; boolify; cbn [handle].
  - apply handle_recv_safe; [by destruct Hn | done].
  - apply handle_recv_safe; [by destruct Hn | done].
  - apply handle_send_safe. by destruct Hn.
  - apply handle_send_safe. by destruct Hn.
  - apply do_request_safe; [done | by apply Hreq].
Qed.

Lemma run_events_safe es n :
  safe UI n -> Forall event_ok es -> wp (run_events cbs es n) (safe UI).
Proof.
  intros Hn Hes. revert n Hn. induction Hes as [| e es He Hes IH]; intros n Hn; simpl; [done |].
  destruct (enabled e n) eqn:Hen; [| by apply IH].
  apply after_bind. eapply after_mono; [by apply handle_safe | done].
Qed.

Lemma session_safe u es :
  UI u -> Forall event_ok es -> wp (session cbs u es) (safe UI).
Proof.
  intros Hu Hes. unfold session, TcpConnection_init.
  destruct (Buffer_init_ok InitialSize) as (b & -> & Hb & _); [done |]. simpl.
  apply after_bind. apply after_mono with (safe UI); [| intros n Hn; by apply run_events_safe].
  unfold handle_establish. apply after_bind. apply after_mono with (safe UI).
  - by apply async_recv_safe.
  - intros n Hn. apply call_safe; [done | apply connection_contract].
Qed.
End safety.

(** ** What requests do to the bytes a connection has accepted *)

(** The connection after [accepted] has grown by [l]. *)
Definition grown {U} (l : list (list Byte.byte)) (open : bool) (n n' : net U) : Prop :=
  accepted n' = accepted n ++ l /\ connected_ (conn n') = open /\ user n' = user n.

Lemma async_recv_grown {U} (n n' : net U) :
  async_recv n = Ok n' -> grown [] (connected_ (conn n)) n n'.
Proof.
  unfold async_recv. intros (b & _ & H)%bind_Ok. apply bind_Ok in H as (p & _ & H).
  injection H as <-. split; [by rewrite app_nil_r | done].
Qed.
Lemma async_send_grown {U} (n n' : net U) :
  async_send n = Ok n' -> grown [] (connected_ (conn n)) n n'.
Proof.
  unfold async_send. destruct (send_buffer_ (conn n)); [done |]. intros (p & _ & H)%bind_Ok.
  apply bind_Ok in H as (v & _ & H). injection H as <-. split; [by rewrite app_nil_r | done].
Qed.
Lemma send_loop_grown {U} b (n n' : net U) :
  connected_ (conn n) = true -> send_loop b n = Ok n' -> grown [contents b] true n n'.
Proof.
  intros Hc. unfold send_loop. rewrite Hc. case_match; [by intros [= <-] |].
  intros Hs. apply async_send_grown in Hs as (Ha & Hc' & Hu). split; [| by rewrite Hc', Hu].
  by rewrite Ha, app_nil_r.
Qed.
Lemma send_buffer_grown {U} b (n n' : net U) :
  connected_ (conn n) = true -> buffer_ok b -> contents b <> [] ->
  do_request (Send_buffer (Some b)) n = Ok n' -> grown [contents b] true n n'.
Proof.
  intros Hc Hb Hne. simpl. rewrite <- (contents_size b Hb).
  destruct (contents b) as [| x l] eqn:He; [done |]. rewrite vsize_cons. pose proof (vsize_nonneg l).
  destruct (Z.eqb_spec (vsize l + 1) 0); [lia |]. rewrite <- He. by apply send_loop_grown.
Qed.
Lemma send_grown {U} l (n n' : net U) :
  connected_ (conn n) = true -> l <> [] -> vsize l <= max_size ->
  do_request (Send (Some l)) n = Ok n' -> grown [l] true n n'.
Proof.
  intros Hc Hne Hl. destruct l as [| x l]; [done |]. cbn [do_request send].
  pose proof (vsize_nonneg l) as Hn. rewrite vsize_cons in *.
  destruct (Buffer_init_ok (vsize l + 1)) as (b & -> & Hb & Hcb); [lia |]. simpl.
  intros (b' & Hw & H)%bind_Ok.
  destruct (after_Ok _ _ _ (write_ok (Some (x :: l)) b Hb ltac:(simpl; rewrite vsize_cons; lia)) Hw)
    as (Hb' & Hc' & _).
  rewrite Hcb in Hc'. simpl in Hc'. rewrite <- Hc'.
  apply (send_buffer_grown b' n n' Hc Hb'); [by rewrite Hc' | exact H].
Qed.

(** A send that starts a write, or joins the queue. *)
Lemma send_starts {U} l (n n' : net U) :
  connected_ (conn n) = true -> l <> [] -> vsize l <= max_size ->
  do_request (Send (Some l)) n = Ok n' ->
  writes n' = writes n ++ match send_buffer_ (conn n) with [] => [l] | _ => [] end.
Proof.
  intros Hc Hne Hl. destruct l as [| x l]; [done |]. cbn [do_request send].
  pose proof (vsize_nonneg l) as Hn. rewrite vsize_cons in *.
  destruct (Buffer_init_ok (vsize l + 1)) as (b & -> & Hb & Hcb); [lia |]. simpl.
  intros (b' & Hw & H)%bind_Ok.
  destruct (after_Ok _ _ _ (write_ok (Some (x :: l)) b Hb ltac:(simpl; rewrite vsize_cons; lia)) Hw)
    as (Hb' & Hc' & _).
  rewrite Hcb in Hc'. simpl in Hc'. rewrite <- (contents_size _ Hb'), Hc', vsize_cons in H.
  destruct (Z.eqb_spec (vsize l + 1) 0); [lia |]. unfold send_loop in H. rewrite Hc in H.
  destruct (send_buffer_ (conn n)) as [| b0 bs] eqn:Hq; cbn [length Nat.eqb negb] in H.
  - erewrite async_send_ok in H; [| reflexivity | done].
    injection H as <-. simpl. by rewrite Hc'.
  - injection H as <-. simpl. by rewrite app_nil_r.
Qed.

(** What a closed connection is asked to do. *)
Lemma do_requests_ignored {U} rs (n n' : net U) :
  connected_ (conn n) = false -> do_requests rs n = Ok n' -> n' = n.
Proof.
  intros Hc. revert n Hc. induction rs as [| r rs IH]; intros n Hc; simpl; [by intros [= <-] |].
  intros (n1 & H1 & H2)%bind_Ok. enough (n1 = n) as -> by by apply IH.
  assert (forall b, send_loop b n = Ok n1 -> n1 = n) as Hloop
    by (intros b; unfold send_loop; rewrite Hc; by intros [= <-]).
  destruct r as [[[| x l] |] | [b |] |]; cbn [do_request send send_buffer] in H1;
    try (by injection H1 as <-).
  - apply bind_Ok in H1 as (b & _ & H1). apply bind_Ok in H1 as (b' & _ & H1).
    case_match; [by injection H1 as <- | by eapply Hloop].
  - case_match; [by injection H1 as <- | by eapply Hloop].
  - unfold close_loop in H1. rewrite Hc in H1. by injection H1 as <-.
Qed.

(** The sending side of a connection. *)
Definition sending {U} (n : net U) :=
  (accepted n, writes n, shut n, connected_ (conn n), send_buffer_ (conn n)).

Lemma async_recv_sending {U} (n n' : net U) :
  async_recv n = Ok n' -> sending n' = sending n /\ user n' = user n.
Proof.
  unfold async_recv. intros (b & _ & H)%bind_Ok. apply bind_Ok in H as (p & _ & H).
  by injection H as <-.
Qed.

(** A piece that arrives: the requests the callback makes, between two changes of the
    receive buffer. *)
Lemma received_split {U} (cbs : callbacks U) f l (n n' : net U) :
  recv_callback_ cbs = Some f -> buffer_ok (recv_buffer_ (conn n)) ->
  handle cbs (Received l) n = Ok n' -> enabled (Received l) n = true ->
  exists c n1 n2,
    buffer_ok (recv_buffer_ c) /\
    contents (recv_buffer_ c) = contents (recv_buffer_ (conn n)) ++ l /\
    sending n1 = sending n /\ user n1 = (f c (vsize l) (user n)).2.2 /\
    do_requests (f c (vsize l) (user n)).2.1 n1 = Ok n2 /\
    sending n' = sending n2 /\ user n' = user n2.
Proof.
  intros Hf Hb Hh He. cbn [handle] in Hh. unfold handle_recv in Hh. simpl in He. boolify.
  destruct (receive_ok _ Hb l ltac:(lia)) as (b & Hr & Hbb & Hcb & _). simpl in Hh.
  rewrite Hr in Hh. simpl in Hh. apply bind_Ok in Hh as (n2 & H2 & Hn'). rewrite Hf in H2.
  apply bind_Ok in H2 as (b2 & _ & H2). apply async_recv_sending in Hn' as [Hs Hu].
  eexists _, _, n2. split_and!; [.. | exact H2 | exact Hs | exact Hu]; done.
Qed.

(** Requests touch neither the receive buffer nor the state of the application. *)
Definition kept {U} (n : net U) := (recv_buffer_ (conn n), user n).

Lemma async_send_kept {U} (n n' : net U) : async_send n = Ok n' -> kept n' = kept n.
Proof.
  unfold async_send. destruct (send_buffer_ (conn n)); [done |]. intros (p & _ & H)%bind_Ok.
  apply bind_Ok in H as (v & _ & H). by injection H as <-.
Qed.
Lemma send_buffer_kept {U} b (n n' : net U) : send_buffer b n = Ok n' -> kept n' = kept n.
Proof.
  unfold send_buffer, send_loop. destruct b as [b |]; [| by intros [= <-]].
  repeat case_match; try (by intros [= <-]). intros H'. by apply async_send_kept in H'.
Qed.
Lemma do_request_kept {U} r (n n' : net U) : do_request r n = Ok n' -> kept n' = kept n.
Proof.
  destruct r as [[[| x l] |] | b |]; cbn [do_request send]; try (by intros [= <-]).
  - intros (b & _ & H)%bind_Ok. apply bind_Ok in H as (b' & _ & H). by apply send_buffer_kept in H.
  - apply send_buffer_kept.
  - intros [= <-]. unfold close_loop. by case_match.
Qed.
Lemma do_requests_kept {U} rs (n n' : net U) : do_requests rs n = Ok n' -> kept n' = kept n.
Proof.
  revert n. induction rs as [| r rs IH]; intros n; simpl; [by intros [= <-] |].
  intros (n1 & H1 & H2)%bind_Ok. rewrite (IH _ H2). by apply do_request_kept in H1.
Qed.
