(* ===== verification/Echo.v ===== *)
(** * Echo: the echo programs ([src/examples/echo.cpp], [src/examples/client.cpp])

    Both programs are an application of a connection that sends back what it receives:
    [EchoServer] on the connections a server accepts, [MyClient] on the connection a
    client opened.  The theorem is end to end: what a peer is sent is what it sent. *)

From S2P Require Import Prelude.
From S2P Require Import Cpp.
From S2P Require Import Buffer.
From S2P Require Import TcpConnection.
From S2P Require Import TcpSafety.
Local Open Scope Z_scope.

(** ** The two applications, which keep no state of their own *)

(** Both branches of [on_connection] are empty. *)
Definition EchoServer_on_connection (conn : TcpConnection) (u : unit) : list request * unit :=
  if connected_ conn then ([], u) else ([], u).

(** The bytes from [begin_read()] on are copied by [send] before they are retrieved. *)
Definition EchoServer_on_recv (conn : TcpConnection) (len : Z) (u : unit) :
    list op * (list request * unit) :=
  let buffer := recv_buffer_ conn in
  ([Skip len], ([Send (Some (contents buffer))], u)).

Definition EchoServer_on_sendcomplete (conn : TcpConnection) (u : unit) : list request * unit :=
  ([], u).

Definition EchoServer_callbacks : callbacks unit :=
  mk_callbacks (Some EchoServer_on_connection) (Some EchoServer_on_recv)
    (Some EchoServer_on_sendcomplete) None.

Definition MyClient_on_connection (conn : TcpConnection) (u : unit) : list request * unit :=
  if connected_ conn then ([], u) else ([], u).

Definition MyClient_on_recv (conn : TcpConnection) (len : Z) (u : unit) :
    list op * (list request * unit) :=
  let buffer := recv_buffer_ conn in
  ([Skip len], ([Send (Some (contents buffer))], u)).

Definition MyClient_on_sendcomplete (conn : TcpConnection) (u : unit) : list request * unit :=
  ([], u).

Definition MyClient_callbacks : callbacks unit :=
  mk_callbacks (Some MyClient_on_connection) (Some MyClient_on_recv)
    (Some MyClient_on_sendcomplete) None.

(** ** What a connection has heard *)

Section heard.
Context {U : Type} (cbs : callbacks U).

(** The pieces that arrive while the connection is open, in their order. *)
Definition hears (e : event) (n : net U) : list (list Byte.byte) :=
  match e with
  | Received l => if connected_ (conn n) && (0 <? vsize l) then [l] else []
  | _ => []
  end.

Fixpoint heard (es : list event) (n : net U) : list (list Byte.byte) :=
  match es with
  | [] => []
  | e :: es =>
      if enabled e n then
        hears e n ++ match handle cbs e n with Ok n' => heard es n' | _ => [] end
      else heard es n
  end.
End heard.

(** ** An echo on its connection *)

(** The two programs are the same application. *)
Lemma same_application : MyClient_callbacks = EchoServer_callbacks.
Proof. done. Qed.

#[export] Instance EchoServer_Contract : Contract EchoServer_callbacks (fun _ => True).
Proof.
  split; [intros f c u [= <-] _ | intros f c len u [= <-] _ Hc Hlen | intros f c u [= <-] _ | done].
  - unfold EchoServer_on_connection. case_match; by repeat constructor.
  - split; [| by repeat constructor]. constructor; [| done]. simpl.
    rewrite (readable_ok _ Hc) in Hlen. destruct Hc. unfold max_size, SIZE_MAX in *. lia.
  - by repeat constructor.
Qed.
#[export] Instance EchoServer_Quiet : Quiet EchoServer_callbacks.
Proof. intros f c u [= <-]. constructor. Qed.

Section echo.
Implicit Types n : net unit.
Let cbs := EchoServer_callbacks.
#[local] Arguments do_request : simpl never.

(** The callback for connections does nothing. *)
Lemma call_silent n n' :
  call (connection_callback_ cbs) n = Ok n' ->
  accepted n' = accepted n /\ recv_buffer_ (conn n') = recv_buffer_ (conn n).
Proof.
  unfold call. simpl. unfold EchoServer_on_connection. case_match; by intros [= <-].
Qed.

Lemma handle_close_silent n n' :
  handle_close cbs n = Ok n' ->
  accepted n' = accepted n /\ recv_buffer_ (conn n') = recv_buffer_ (conn n).
Proof.
  unfold handle_close. intros (n1 & H & [= <-])%bind_Ok.
  apply call_silent in H as [-> ->]. by case_match.
Qed.

Lemma async_send_silent n n' :
  async_send n = Ok n' ->
  accepted n' = accepted n /\ recv_buffer_ (conn n') = recv_buffer_ (conn n).
Proof.
  intros Hs. split; [| by apply async_send_kept in Hs as [= -> _]]. apply async_send_grown in Hs as (-> & _).
  apply app_nil_r.
Qed.

Lemma handle_send_silent n n' :
  handle_send cbs false n = Ok n' ->
  accepted n' = accepted n /\ recv_buffer_ (conn n') = recv_buffer_ (conn n).
Proof.
  unfold handle_send, call. simpl. intros H.
  destruct (send_buffer_ (conn n)) as [| b [| b' bs]] eqn:Hq; simpl in H; rewrite ?Hq in H;
    [by injection H as <- .. |]. by apply async_send_silent in H.
Qed.

Lemma async_recv_silent n n' :
  buffer_ok (recv_buffer_ (conn n)) -> async_recv n = Ok n' ->
  accepted n' = accepted n /\
  contents (recv_buffer_ (conn n')) = contents (recv_buffer_ (conn n)).
Proof.
  intros Hb. unfold async_recv. intros (b & He & H)%bind_Ok. apply bind_Ok in H as (p & _ & H).
  injection H as <-. split; [done |].
  apply (after_Ok _ _ _ (ensure_writable_ok _ Hb InitialSize ltac:(by vm_compute))) in He.
  by destruct He as (_ & _ & ? & _).
Qed.

(** [send] of all that is in a buffer. *)
Lemma send_hears l n n' :
  vsize l <= max_size -> do_request (Send (Some l)) n = Ok n' ->
  accepted n' = accepted n ++ hears (Received l) n.
Proof.
  intros Hl H. unfold hears. destruct (connected_ (conn n)) eqn:Hc.
  - destruct l as [| x l]; [injection H as <-; by rewrite app_nil_r |].
    rewrite vsize_cons. pose proof (vsize_nonneg l). destruct (Z.ltb_spec 0 (vsize l + 1)); [| lia].
    by apply send_grown in H as (-> & _).
  - rewrite app_nil_r. by apply do_request_closed in H as [_ ->].
Qed.

(** What arrived is what the callback sends, and nothing of it stays in the buffer. *)
Lemma handle_recv_echoes l n n' :
  buffer_ok (recv_buffer_ (conn n)) -> contents (recv_buffer_ (conn n)) = [] ->
  vsize l <= writable_bytes (recv_buffer_ (conn n)) -> handle_recv cbs false l n = Ok n' ->
  accepted n' = accepted n ++ hears (Received l) n /\ contents (recv_buffer_ (conn n')) = [].
Proof.
  intros Hb He Hl Hh. unfold handle_recv in Hh.
  destruct (receive_ok _ Hb l Hl) as (b & Hr & Hbb & Hc & _). rewrite He in Hc. simpl in Hc.
  pose proof (vsize_nonneg l) as Hnn. rewrite Hr in Hh. simpl in Hh. rewrite Hc in Hh.
  destruct (has_readed_ok b Hbb (vsize l) Hnn) as [Hbr Hcr].
  apply bind_Ok in Hh as (n2 & H2 & Hrec). apply bind_Ok in H2 as (n1 & H1 & H2).
  injection H2 as ->.
  pose proof (do_request_kept _ _ _ H1) as Hrb. injection Hrb as Hrb _.
  apply send_hears in H1; simpl in Hrb.
  - apply async_recv_silent in Hrec as [-> ->]; [| by rewrite Hrb]. rewrite Hrb, Hcr, H1, Hc.
    split; [done |]. apply drop_ge. unfold vsize. lia.
  - rewrite <- Hc, (contents_size _ Hbb), (readable_ok _ Hbb). destruct Hbb. lia.
Qed.

Lemma handle_echoes k s e n n' :
  inv (fun _ => True) s k n -> contents (recv_buffer_ (conn n)) = [] -> enabled e n = true ->
  (forall r, e <> Requested r) -> handle cbs e n = Ok n' ->
  accepted n' = accepted n ++ hears e n /\ contents (recv_buffer_ (conn n')) = [].
Proof.
  intros Hn He Hen Hreq Hh. destruct e as [l | | | | r]; simpl in Hen; boolify.
  - apply (handle_recv_echoes l (take_read n)); [by destruct Hn | done | done | exact Hh].
  - apply handle_close_silent in Hh as [-> ->]. by rewrite app_nil_r.
  - apply handle_send_silent in Hh as [-> ->]. by rewrite app_nil_r.
  - apply handle_close_silent in Hh as [-> ->]. by rewrite app_nil_r.
  - by destruct (Hreq r).
Qed.

Lemma establish_echoes :
  exists n, (n ← TcpConnection_init tt; handle_establish cbs n) = Ok n /\
    inv (fun _ => True) false 1 n /\ contents (recv_buffer_ (conn n)) = [] /\ accepted n = [].
Proof.
  pose proof (establish_ok cbs (fun _ => True) tt I) as Hi.
  destruct (n ← TcpConnection_init tt; handle_establish cbs n) as [n | |] eqn:Hn;
    [| by vm_compute in Hn | done].
  exists n. split_and!; [done | exact Hi | |]; clear Hi; unfold TcpConnection_init in Hn;
    destruct (Buffer_init_ok InitialSize) as (b & Hb & Hbb & Hc); [done | | done |];
    rewrite Hb in Hn; simpl in Hn; apply bind_Ok in Hn as (n1 & Hr & [Ha2 Hr2]%call_silent);
    apply async_recv_silent in Hr as [Ha1 Hr1]; try done; by rewrite ?Ha2, ?Hr2, ?Hr1.
Qed.

Lemma run_echoes s es n :
  inv (fun _ => True) s (rest s) n -> contents (recv_buffer_ (conn n)) = [] ->
  Forall (fun e => forall r, e <> Requested r) es ->
  wp (run_events cbs es n) (fun n' =>
    (exists s', inv (fun _ => True) s' (rest s') n') /\
    accepted n' = accepted n ++ heard cbs es n /\ contents (recv_buffer_ (conn n')) = []).
Proof.
  intros Hn He Hes. revert s n Hn He. induction Hes as [| e es Hreq Hes IH]; intros s n Hn He; simpl.
  - rewrite app_nil_r. eauto.
  - destruct (enabled e n) eqn:Hen; [| by eapply IH].
    pose proof (handle_ok cbs (fun _ => True) s e n Hn Hen) as Hok.
    destruct (handle cbs e n) as [n1 | |] eqn:Hh; simpl; [| done |].
    2: { apply Hok. intros r Hr. by destruct (Hreq r). }
    destruct Hok as [s1 Hn1]; [intros r Hr; by destruct (Hreq r) |].
    destruct (handle_echoes _ s e n n1 Hn He Hen Hreq Hh) as [Ha He1].
    rewrite app_assoc, <- Ha. by eapply IH.
Qed.
End echo.

(** C27. The echo programs return what they hear.  However the bytes arrive, what the echo
    server (and the client of the same kind) has written, followed by what waits to be
    written, is exactly the sequence of pieces that arrived while the connection was
    open; nothing stays in the receive buffer and nothing is undefined; and as long as
    the connection is open, the completion of the pending writes delivers all of it. *)
Theorem echo_returns (cbs : callbacks unit) (es : list event) :
  cbs = EchoServer_callbacks \/ cbs = MyClient_callbacks ->
  Forall (fun e => forall r, e <> Requested r) es ->
  exists n0, (n ← TcpConnection_init tt; handle_establish cbs n) = Ok n0 /\
  match run_events cbs es n0 with
  | Ok n =>
      delivered n ++ (contents <$> send_buffer_ (conn n)) = heard cbs es n0 /\
      contents (recv_buffer_ (conn n)) = [] /\
      (connected_ (conn n) = true -> exists n',
        run_events cbs (replicate (length (send_buffer_ (conn n))) Sent) n = Ok n' /\
        delivered n' = heard cbs es n0)
  | Throw _ => True
  | Undefined _ => False
  end.
Proof.
  rewrite same_application. intros Hcbs Hes.
  assert (cbs = EchoServer_callbacks) as -> by by destruct Hcbs.
  destruct establish_echoes as (n0 & Hn0 & Hi0 & Hc0 & Ha0). exists n0. split; [exact Hn0 |].
  pose proof (run_echoes false es n0 Hi0 Hc0 Hes) as H.
  destruct (run_events _ es n0) as [n | |]; [| done..].
  destruct H as ([s Hi] & Ha & Hc). rewrite Ha0 in Ha. simpl in Ha.
  split_and!; [by rewrite <- Ha, (inv_history _ _ _ _ Hi) | done |]. intros Hopen.
  destruct s; [destruct (inv_writes _ _ _ _ Hi) as (_ & Hcl & _); congruence |].
  destruct (drains EchoServer_callbacks (fun _ => True) n Hi) as (n' & Hr & Hd & _).
  exists n'. by rewrite Hd.
Qed.

(** Two pieces, the second of which arrives while the first is being written; then the
    write of the second fails, and a piece that arrives after that is not sent back. *)
Definition echo_visit : list event :=
  [Received (bytes "hello"); Received (bytes "world"); Sent; Send_error; Received (bytes "late")].

Lemma echo_returns_witness : exists n0 n,
  run_events MyClient_callbacks echo_visit n0 = Ok n /\
  heard MyClient_callbacks echo_visit n0 = [bytes "hello"; bytes "world"] /\
  delivered n = [bytes "hello"] /\
  delivered n ++ (contents <$> send_buffer_ (conn n)) = [bytes "hello"; bytes "world"].
Proof.
  assert (match n0 ← TcpConnection_init tt; handle_establish MyClient_callbacks n0 with
          | Ok n0 =>
              match run_events MyClient_callbacks echo_visit n0 with
              | Ok n => heard MyClient_callbacks echo_visit n0 = [bytes "hello"; bytes "world"] /\
                  delivered n = [bytes "hello"]
              | _ => False
              end
          | _ => False
          end) as Hv by (vm_compute; split; reflexivity).
  destruct (echo_returns MyClient_callbacks echo_visit) as (n0 & Hn0 & H);
    [right; reflexivity | repeat constructor; intros r; discriminate |].
  rewrite Hn0 in Hv. clear Hn0. destruct (run_events MyClient_callbacks echo_visit n0) as [n | |] eqn:Hr;
    [| destruct Hv..].
  destruct Hv as [Hh Hd], H as [H _]. rewrite Hh in H. exists n0, n.
  split_and!; [exact Hr | exact Hh | exact Hd | exact H].
Defined.
