(* ===== verification/Rpc.v ===== *)
(** * Rpc: calls over a connection
    ([src/examples/rpc/RpcChannel.*], [RpcController.*], [RpcServer.cpp], [RpcClient.cpp])

    A channel writes its messages in frames: the four letters [ERPC], the length of the
    body and the length of the meta part as big-endian numbers, the meta part, and the
    message of the user.  The messages themselves are protobuf: their serialisation
    and parsing are parameters here; those of the meta part are in [RpcWire].  The bytes a channel sends and the buffer it reads are those of
    a [TcpConnection]. *)

From S2P Require Import Prelude.
From S2P Require Import Cpp.
From S2P Require Import Buffer.
From S2P Require Import TcpConnection.
From stdpp Require Import gmap list.
Local Open Scope Z_scope.

Abbreviation text := (list Byte.byte) (only parsing).

(** ** Data *)

(** The messages of [rpc_meta.proto].  [correlation_id] is an [int64] and [error_code] an
    [int32]; the strings are UTF-8 ([meta_ok] in [RpcWire]). *)
Record RpcRequestMeta := mk_request_meta { service_name : text; method_name : text }.
Record RpcResponseMeta := mk_response_meta { error_code : Z; error_text : text }.
Record RpcMeta := mk_meta {
  request : option RpcRequestMeta;
  response : option RpcResponseMeta;
  correlation_id : Z
}.

Inductive ErrorCode := ENOERROR | ENOSERVICE | ENOMETHOD | EREQUEST | ERESPONSE | EINTERNAL.
Definition code_num (e : ErrorCode) : Z :=
  match e with
  | ENOERROR => 0 | ENOSERVICE => 1001 | ENOMETHOD => 1002 | EREQUEST => 1003
  | ERESPONSE => 1004 | EINTERNAL => 1005
  end.
Definition CodeError (e : ErrorCode) : option text :=
  match e with
  | ENOERROR => None
  | ENOSERVICE => Some (bytes "no service")
  | ENOMETHOD => Some (bytes "no method")
  | EREQUEST => Some (bytes "invalid request")
  | ERESPONSE => Some (bytes "invalid response")
  | EINTERNAL => Some (bytes "internal error")
  end.

(** A controller; the response object is represented by the parser of its message type,
    and the closure by whether there is one. *)
Record RpcController := mk_controller {
  response_ : option (text -> bool);
  done_ : bool;
  ctrl_error_text : text;
  ctrl_error_code : Z;
  log_id_ : Z
}.

Definition RpcController_init : RpcController := mk_controller None false [] 0 0.
Definition set_resp (parses : option (text -> bool)) (c : RpcController) : RpcController :=
  mk_controller parses (done_ c) (ctrl_error_text c) (ctrl_error_code c) (log_id_ c).
Definition set_done (d : bool) (c : RpcController) : RpcController :=
  mk_controller (response_ c) d (ctrl_error_text c) (ctrl_error_code c) (log_id_ c).
Definition reset (c : RpcController) : RpcController := mk_controller None false [] 0 0.
Definition set_error_code (ec : Z) (c : RpcController) : RpcController :=
  mk_controller (response_ c) (done_ c) (ctrl_error_text c) ec (log_id_ c).
Definition set_log_id (id : Z) (c : RpcController) : RpcController :=
  mk_controller (response_ c) (done_ c) (ctrl_error_text c) (ctrl_error_code c) id.
Definition Failed (c : RpcController) : bool := negb (ctrl_error_code c =? 0).
Definition SetFailed (reason : text) (c : RpcController) : RpcController :=
  mk_controller (response_ c) (done_ c) reason (-1) (log_id_ c).

(** A service is the methods its descriptor knows, each with the parser of its request. *)
Definition Service : Type := gmap text (text -> bool).

(** [register_service]: the service's descriptor has its name. *)
Definition register_service (name : text) (s : Service) (services : gmap text Service) :
    gmap text Service := <[name := s]> services.

(** [services_] of a channel nobody has called [set_services] on is indeterminate. *)
Inductive services_ptr :=
  | Indeterminate
  | Null
  | Services (s : gmap text Service).

Record RpcChannel := mk_channel {
  conn_alive : bool;                    (* conn_weak_ can be locked *)
  reqs_ : gmap Z RpcController;
  services_ : services_ptr;
  id_ : Z;                              (* std::atomic<int64_t> *)
  out : list TcpConnection.request      (* what it has asked of the connection *)
}.

(** The constructor leaves [id_] with some value. *)
Definition RpcChannel_init (id : Z) : RpcChannel := mk_channel false ∅ Indeterminate id [].
Definition set_conn (c : RpcChannel) : RpcChannel := mk_channel true (reqs_ c) (services_ c) (id_ c) (out c).
Definition set_services (s : gmap text Service) (c : RpcChannel) : RpcChannel :=
  mk_channel (conn_alive c) (reqs_ c) (Services s) (id_ c) (out c).
Definition set_reqs (m : gmap Z RpcController) (c : RpcChannel) : RpcChannel :=
  mk_channel (conn_alive c) m (services_ c) (id_ c) (out c).
Definition with_out (r : TcpConnection.request) (c : RpcChannel) : RpcChannel :=
  if conn_alive c then mk_channel true (reqs_ c) (services_ c) (id_ c) (out c ++ [r]) else c.

(** ** The header *)

Definition HeaderLen : Z := 12.

Definition byte_of (n : Z) : Byte.byte := default Byte.x00 (Byte.of_N (Z.to_N (n mod 256))).
(** [host_to_network_long] stored in four bytes, and [network_to_host_long] of four bytes. *)
Definition be32 (n : Z) : text :=
  [byte_of (Z.shiftr n 24); byte_of (Z.shiftr n 16); byte_of (Z.shiftr n 8); byte_of n].
Definition load32 (l : text) : Z := fold_left (fun n b => n * 256 + uchar b) l 0.

(** ** Sending *)

Section channel.
(** [ByteSizeLong] and [SerializeWithCachedSizesToArray], and [ParseFromArray], of [RpcMeta]. *)
Context (meta_bytes : RpcMeta -> text) (meta_parse : text -> option RpcMeta).

(** A message written to [begin_write()]. *)
Definition store (l : text) (len : Z) (b : Buffer) : outcome Buffer :=
  p ← begin_write b;
  v ← vcopy (buff_ b) p l;
  mret (has_written len (mk_Buffer v (read_index_ b) (write_index_ b))).

(** The buffer that [pack_send] fills. *)
Definition pack (meta : text) (msg : option text) : outcome Buffer :=
  let meta_len := u32 (vsize meta) in
  let msg_len := match msg with Some m => u32 (vsize m) | None => 0 end in
  let body_len := u32 (meta_len + msg_len) in
  b ← Buffer_init InitialSize;
  b ← ensure_writable (u64 (body_len + HeaderLen)) b;
  b ← write (Some (bytes "ERPC" ++ be32 body_len ++ be32 meta_len)) b;
  b ← store meta meta_len b;
  if 0 <? msg_len then store (default [] msg) msg_len b else mret b.

Definition pack_send (meta : RpcMeta) (msg : option text) (c : RpcChannel) : outcome RpcChannel :=
  b ← pack (meta_bytes meta) msg;
  mret (with_out (Send_buffer (Some b)) c).

Definition send_resp (id : Z) (code : ErrorCode) (resp : option text) (c : RpcChannel) :
    outcome RpcChannel :=
  pack_send (mk_meta None (Some (mk_response_meta (code_num code) (default [] (CodeError code)))) id)
    resp c.

(** A client's call of a method: the request, the controller and what receives the
    response. *)
Record call := mk_call {
  call_service : text;
  call_method : text;
  call_request : text;
  call_controller : RpcController;
  call_response : option (text -> bool);
  call_done : bool
}.

Definition s64 (z : Z) : Z := (z + 2 ^ 63) mod 2 ^ 64 - 2 ^ 63.

Definition CallMethod (k : call) (c : RpcChannel) : outcome RpcChannel :=
  let id := id_ c in
  let meta := mk_meta (Some (mk_request_meta (call_service k) (call_method k))) None id in
  let ctrl := set_done (call_done k) (set_resp (call_response k) (call_controller k)) in
  pack_send meta (Some (call_request k))
    (mk_channel (conn_alive c) (<[id := ctrl]> (reqs_ c)) (services_ c) (s64 (id + 1)) (out c)).

(** ** Receiving *)

(** [ParseFromArray(msg, n)] of the bytes that a message has: the size is an [int], so that
    one from 2 ^ 31 on is negative. *)
Definition ParseFromArray {A} (parse : text -> A) (msg : text) : outcome A :=
  if 2 ^ 31 <=? vsize msg then Undefined "ParseFromArray of a negative size" else mret (parse msg).

(** What the two applications do, with a state of their own.  A service's method gets the
    identifier of the call, which stands for the controller, response and closure made
    for it, and completes calls, this one or earlier ones; a client's closure gets the
    controller and the message it was answered with, and makes calls. *)
Record completion := mk_completion { done_id : Z; done_failed : bool; done_response : text }.
Context {U : Type}.
Context (invoke : text -> text -> Z -> text -> U -> list completion * U).
Context (run_done : Z -> RpcController -> text -> U -> list call * U).

(** [on_done], which the closure of a call runs. *)
Definition on_done (d : completion) (c : RpcChannel) : outcome RpcChannel :=
  send_resp (done_id d) (if done_failed d then EINTERNAL else ENOERROR) (Some (done_response d)) c.

Fixpoint on_dones (ds : list completion) (c : RpcChannel) : outcome RpcChannel :=
  match ds with
  | [] => mret c
  | d :: ds => c ← on_done d c; on_dones ds c
  end.
Fixpoint CallMethods (ks : list call) (c : RpcChannel) : outcome RpcChannel :=
  match ks with
  | [] => mret c
  | k :: ks => c ← CallMethod k c; CallMethods ks c
  end.

Definition process_response (meta : RpcMeta) (msg : text) (c : RpcChannel) (u : U) :
    outcome (RpcChannel * U) :=
  let id := correlation_id meta in
  match reqs_ c !! id with
  | None => mret (c, u)
  | Some ctrl =>
      let c := set_reqs (delete id (reqs_ c)) c in
      error ← match response_ ctrl with
              | Some parses =>
                  ok ← ParseFromArray parses msg; mret (if ok : bool then ENOERROR else ERESPONSE)
              | None => mret ENOERROR
              end;
      let ctrl := match CodeError error with Some s => SetFailed s ctrl | None => ctrl end in
      if done_ ctrl then
        let r := run_done id ctrl msg u in c ← CallMethods r.1 c; mret (c, r.2)
      else mret (c, u)
  end.

(** The error of a request, or the service and method it is for; memory does not run out. *)
Definition find_method (rq : RpcRequestMeta) (msg : text) (c : RpcChannel) : outcome ErrorCode :=
  match services_ c with
  | Indeterminate => Undefined "services_ was never set"
  | Null => mret ENOSERVICE
  | Services s =>
      match s !! service_name rq with
      | None => mret ENOSERVICE
      | Some service =>
          match service !! method_name rq with
          | None => mret ENOMETHOD
          | Some parses =>
              ok ← ParseFromArray parses msg; mret (if ok : bool then ENOERROR else EREQUEST)
          end
      end
  end.

Definition process_request (rq : RpcRequestMeta) (meta : RpcMeta) (msg : text)
    (c : RpcChannel) (u : U) : outcome (RpcChannel * U) :=
  error ← find_method rq msg c;
  match error with
  | ENOERROR =>
      let r := invoke (service_name rq) (method_name rq) (correlation_id meta) msg u in
      c ← on_dones r.1 c; mret (c, r.2)
  | _ => c ← send_resp (correlation_id meta) error None c; mret (c, u)
  end.

Definition process_message (meta : RpcMeta) (msg : text) (c : RpcChannel) (u : U) :
    outcome (RpcChannel * U) :=
  match response meta, request meta with
  | Some _, _ => process_response meta msg c u
  | None, Some rq => process_request rq meta msg c u
  | None, None => mret (c, u)
  end.

(** One look at the buffer: it returns, or takes a frame, or finds a meta part that is no
    protobuf message. *)
Inductive look :=
  | Returns
  | Frame (meta : RpcMeta) (msg : text) (size : Z)
  | Bad_meta.

Definition examine (data : text) : outcome look :=
  if vsize data <? HeaderLen then mret Returns
  else if negb (bool_decide (take 4 data = bytes "ERPC")) then mret Returns
  else
    let body_len := load32 (take 4 (drop 4 data)) in
    let meta_len := load32 (take 4 (drop 8 data)) in
    if body_len <? meta_len then mret Returns
    else if vsize data <? HeaderLen + body_len then mret Returns
    else
      let body := drop (Z.to_nat HeaderLen) data in
      parsed ← ParseFromArray meta_parse (take (Z.to_nat meta_len) body);
      mret match parsed with
           | None => Bad_meta
           | Some meta =>
               Frame meta (take (Z.to_nat (body_len - meta_len)) (drop (Z.to_nat meta_len) body))
                 (HeaderLen + body_len)
           end.

(** [process(buffer, len)]: what is taken from the buffer, the channel and the
    application; [None] when the fuel is used up.  After a meta part that is no message the
    connection is closed, nothing is taken, and the loop goes on. *)
Fixpoint process (fuel : nat) (data : text) (c : RpcChannel) (u : U) :
    outcome (option (list op * RpcChannel * U)) :=
  match fuel with
  | O => mret None
  | S fuel =>
      found ← examine data;
      match found with
      | Returns => mret (Some ([], c, u))
      | Frame meta msg size =>
          r ← process_message meta msg c u;
          rest ← process fuel (drop (Z.to_nat size) data) r.1 r.2;
          mret (option_map (fun x => (Skip size :: x.1.1, x.1.2, x.2)) rest)
      | Bad_meta => process fuel data (with_out Close c) u
      end
  end.

(** ** The server and the client on a connection *)

(** What the connection's owner keeps: the channel, once there is one, and the state of
    the application; or the reason why the program has stopped. *)
Definition rpc_context : Type := outcome (option RpcChannel * U).

(** The requests of a channel are handed to its connection. *)
Definition flush (c : RpcChannel) : list TcpConnection.request * RpcChannel :=
  (out c, mk_channel (conn_alive c) (reqs_ c) (services_ c) (id_ c) []).

Definition server_on_connection (s : gmap text Service) (id : Z) (conn : TcpConnection)
    (x : rpc_context) : list TcpConnection.request * rpc_context :=
  match x with
  | Ok (_, u) =>
      if connected_ conn
      then ([], Ok (Some (set_services s (set_conn (RpcChannel_init id))), u)) else ([], x)
  | _ => ([], x)
  end.

(** The bytes in the buffer of the connection are processed. *)
Definition process_buffer (conn : TcpConnection) (c : RpcChannel) (u : U) :
    outcome (list op * list TcpConnection.request * RpcChannel * U) :=
  let data := contents (recv_buffer_ conn) in
  r ← process (S (length data)) data c u;
  match r with
  | Some (ops, c, u) => let q := flush c in mret (ops, q.1, q.2, u)
  | None => Undefined "process does not return"
  end.

Definition on_recv (conn : TcpConnection) (len : Z) (x : rpc_context) :
    list op * (list TcpConnection.request * rpc_context) :=
  match x with
  | Ok (Some c, u) =>
      match process_buffer conn c u with
      | Ok (ops, reqs, c, u) => (ops, (reqs, Ok (Some c, u)))
      | Throw e => ([], ([], Throw e))
      | Undefined e => ([], ([], Undefined e))
      end
  | Ok (None, _) => ([], ([], Throw "boost::bad_any_cast"))
  | _ => ([], ([], x))
  end.

(** The client has its channel as a member; the connection is a new one each time.  The
    application's callback is told whether the client is connected, and may call. *)
Record RpcClient := mk_client { channel_ : RpcChannel; is_connected_ : bool }.
Definition client_context : Type := outcome (RpcClient * U).
Context (connection_f_ : option (bool -> U -> list call * U)).

Definition client_on_connection (conn : TcpConnection) (x : client_context) :
    list TcpConnection.request * client_context :=
  match x with
  | Ok (cl, u) =>
      let cl := if connected_ conn then mk_client (set_conn (channel_ cl)) true
                else mk_client (channel_ cl) false in
      match connection_f_ with
      | None => ([], Ok (cl, u))
      | Some f =>
          let r := f (is_connected_ cl) u in
          match CallMethods r.1 (channel_ cl) with
          | Ok c => let q := flush c in (q.1, Ok (mk_client q.2 (is_connected_ cl), r.2))
          | Throw e => ([], Throw e)
          | Undefined e => ([], Undefined e)
          end
      end
  | _ => ([], x)
  end.

Definition client_on_recv (conn : TcpConnection) (len : Z) (x : client_context) :
    list op * (list TcpConnection.request * client_context) :=
  match x with
  | Ok (cl, u) =>
      match process_buffer conn (channel_ cl) u with
      | Ok (ops, reqs, c, u) => (ops, (reqs, Ok (mk_client c (is_connected_ cl), u)))
      | Throw e => ([], ([], Throw e))
      | Undefined e => ([], ([], Undefined e))
      end
  | _ => ([], ([], x))
  end.

Definition server_callbacks (s : gmap text Service) (id : Z) : callbacks rpc_context :=
  mk_callbacks (Some (server_on_connection s id)) (Some on_recv) None (Some (fun _ x => x)).
Definition client_callbacks : callbacks client_context :=
  mk_callbacks (Some client_on_connection) (Some client_on_recv) None (Some (fun _ x => x)).
End channel.
