(* ===== verification/RpcWire.v ===== *)
(** * RpcWire: the meta part of a frame
    ([src/examples/rpc/rpc_meta.proto], [rpc_meta.pb.cc])

    The three messages of [rpc_meta.proto] are written field by field and parsed in a loop
    over tags, as the generated code does it.  The functions of the protobuf runtime that this
    code calls are the class [Protobuf]; what its documentation says of them is
    [Protobuf_laws], and [plain_runtime] shows that it can hold.  The theorem is that the code
    parses what it writes, and that what it parses has the types of the fields. *)

From S2P Require Import Prelude.
From S2P Require Import Cpp.
From S2P Require Import Buffer.
From S2P Require Import Rpc.
From stdpp Require Import list.
Local Open Scope Z_scope.

Abbreviation text := (list Byte.byte) (only parsing).

(** ** The runtime *)

(** Varints are written from an unsigned number; each reader returns the number and what
    follows it. *)
Class Protobuf := {
  WriteVarint : Z -> text;
  VarintSize : Z -> Z;
  ReadTag : text -> option (Z * text);
  ReadSize : text -> option (Z * text);
  ReadVarint64 : text -> option (Z * text);
  VerifyUTF8 : text -> bool;
  UnknownFieldParse : Z -> text -> option text
}.

(** The largest size of a string or message that [ReadSize] accepts is below
    [INT_MAX - kSlopBytes]. *)
Definition max_message : Z := 2 ^ 31 - 1 - 16.

Class Protobuf_laws `{Protobuf} : Prop := {
  VarintSize_ok n : 0 <= n < 2 ^ 64 -> vsize (WriteVarint n) = VarintSize n;
  VarintSize_tag n : 0 <= n < 128 -> VarintSize n = 1;
  ReadTag_written n rest : 0 <= n < 2 ^ 32 -> ReadTag (WriteVarint n ++ rest) = Some (n, rest);
  ReadSize_written n rest : 0 <= n <= max_message -> ReadSize (WriteVarint n ++ rest) = Some (n, rest);
  ReadVarint64_written n rest : 0 <= n < 2 ^ 64 -> ReadVarint64 (WriteVarint n ++ rest) = Some (n, rest);
  ReadVarint64_range l n rest : ReadVarint64 l = Some (n, rest) -> 0 <= n < 2 ^ 64;
  ReadTag_advances l n rest : ReadTag l = Some (n, rest) -> (length rest < length l)%nat;
  ReadSize_advances l n rest : ReadSize l = Some (n, rest) -> 0 <= n /\ (length rest <= length l)%nat;
  ReadVarint64_advances l n rest : ReadVarint64 l = Some (n, rest) -> (length rest <= length l)%nat;
  UnknownFieldParse_advances tag l rest : UnknownFieldParse tag l = Some rest -> (length rest <= length l)%nat;
  VerifyUTF8_ascii l : Forall (fun b => uchar b < 128) l -> VerifyUTF8 l = true
}.

Section wire.
Context `{Protobuf}.

(** ** Writing *)

(** [InternalWriteMessage]; [WriteStringMaybeAliased], for a string that is not empty; and
    [WriteInt32ToArray] and [WriteInt64ToArray], for a number that is not 0, which is
    extended to 64 bits. *)
Definition write_bytes (tag : Z) (s : text) : text := WriteVarint tag ++ WriteVarint (vsize s) ++ s.
Definition write_string (tag : Z) (s : text) : text := match s with [] => [] | _ => write_bytes tag s end.
Definition write_int (tag n : Z) : text := if n =? 0 then [] else WriteVarint tag ++ WriteVarint (u64 n).

Definition RpcRequestMeta_serialize (r : RpcRequestMeta) : text :=
  write_string 10 (service_name r) ++ write_string 18 (method_name r).
Definition RpcResponseMeta_serialize (r : RpcResponseMeta) : text :=
  write_int 8 (error_code r) ++ write_string 18 (error_text r).
Definition RpcMeta_serialize (m : RpcMeta) : text :=
  (match request m with Some r => write_bytes 10 (RpcRequestMeta_serialize r) | None => [] end) ++
  (match response m with Some r => write_bytes 18 (RpcResponseMeta_serialize r) | None => [] end) ++
  write_int 32 (correlation_id m).

(** [StringSize] and [MessageSize], and [Int32SizePlusOne] and [Int64SizePlusOne]. *)
Definition LengthDelimitedSize (n : Z) : Z := VarintSize n + n.
Definition string_size (s : text) : Z := match s with [] => 0 | _ => 1 + LengthDelimitedSize (vsize s) end.
Definition int_size (n : Z) : Z := if n =? 0 then 0 else VarintSize (u64 n) + 1.

Definition RpcRequestMeta_ByteSizeLong (r : RpcRequestMeta) : Z :=
  string_size (service_name r) + string_size (method_name r).
Definition RpcResponseMeta_ByteSizeLong (r : RpcResponseMeta) : Z :=
  string_size (error_text r) + int_size (error_code r).
Definition RpcMeta_ByteSizeLong (m : RpcMeta) : Z :=
  (match request m with Some r => 1 + LengthDelimitedSize (RpcRequestMeta_ByteSizeLong r) | None => 0 end) +
  (match response m with Some r => 1 + LengthDelimitedSize (RpcResponseMeta_ByteSizeLong r) | None => 0 end) +
  int_size (correlation_id m).

(** ** Parsing *)

(** What the [switch] does with a tag: a field is parsed, or fails, or the code goes to
    [handle_unusual]. *)
Inductive field_result (A : Type) := Parsed (rest : text) (a : A) | Failure | Unusual.
Arguments Parsed {A}.
Arguments Failure {A}.
Arguments Unusual {A}.

(** The loop of [_InternalParse].  A tag that is 0 or ends a group leaves the loop with
    [SetLastTag], and then neither [ParseMessage] nor [ParseFromArray] succeeds.  Unknown
    fields are skipped; the program never looks at them. *)
Fixpoint parse_loop {A} (field : Z -> text -> A -> field_result A) (fuel : nat) (data : text) (a : A) : option A :=
  match data, fuel with
  | [], _ => Some a
  | _, O => None
  | _, S fuel =>
      '(tag, rest) ← ReadTag data;
      match field tag rest a with
      | Parsed rest a => parse_loop field fuel rest a
      | Failure => None
      | Unusual =>
          if (tag =? 0) || (Z.land tag 7 =? 4) then None
          else rest ← UnknownFieldParse tag rest; parse_loop field fuel rest a
      end
  end.
Definition InternalParse {A} (field : Z -> text -> A -> field_result A) (data : text) (a : A) : option A :=
  parse_loop field (S (length data)) data a.

(** A size and as many bytes. *)
Definition read_bytes (data : text) : option (text * text) :=
  '(n, rest) ← ReadSize data;
  if vsize rest <? n then None else Some (take (Z.to_nat n) rest, drop (Z.to_nat n) rest).

(** [InlineGreedyStringParser] and [VerifyUTF8]. *)
Definition parse_string {A} (data : text) (set : text -> A) : field_result A :=
  match read_bytes data with
  | Some (s, rest) => if VerifyUTF8 s then Parsed rest (set s) else Failure
  | None => Failure
  end.
(** [ParseMessage]. *)
Definition parse_message {A B} (field : Z -> text -> B -> field_result B) (data : text) (b : B) (set : B -> A) :
    field_result A :=
  match read_bytes data with
  | Some (s, rest) => match InternalParse field s b with Some b => Parsed rest (set b) | None => Failure end
  | None => Failure
  end.
(** [ReadVarint64] and [ReadVarint32] into a field of [w] bits. *)
Definition signed (w n : Z) : Z := (n + 2 ^ (w - 1)) mod 2 ^ w - 2 ^ (w - 1).
Definition parse_int {A} (w : Z) (data : text) (set : Z -> A) : field_result A :=
  match ReadVarint64 data with Some (n, rest) => Parsed rest (set (signed w n)) | None => Failure end.

Definition u8 (n : Z) : Z := n mod 2 ^ 8.

Definition request_field (tag : Z) (data : text) (r : RpcRequestMeta) : field_result RpcRequestMeta :=
  match Z.shiftr tag 3 with
  | 1 => if u8 tag =? 10 then parse_string data (fun s => mk_request_meta s (method_name r)) else Unusual
  | 2 => if u8 tag =? 18 then parse_string data (fun s => mk_request_meta (service_name r) s) else Unusual
  | _ => Unusual
  end.
Definition response_field (tag : Z) (data : text) (r : RpcResponseMeta) : field_result RpcResponseMeta :=
  match Z.shiftr tag 3 with
  | 1 => if u8 tag =? 8 then parse_int 32 data (fun n => mk_response_meta n (error_text r)) else Unusual
  | 2 => if u8 tag =? 18 then parse_string data (fun s => mk_response_meta (error_code r) s) else Unusual
  | _ => Unusual
  end.

(** [_internal_mutable_request] makes the message when there is none; a second one is
    merged into it. *)
Definition mutable_request (m : RpcMeta) : RpcRequestMeta := default (mk_request_meta [] []) (request m).
Definition mutable_response (m : RpcMeta) : RpcResponseMeta := default (mk_response_meta 0 []) (response m).
Definition meta_field (tag : Z) (data : text) (m : RpcMeta) : field_result RpcMeta :=
  match Z.shiftr tag 3 with
  | 1 => if u8 tag =? 10
         then parse_message request_field data (mutable_request m)
                (fun r => mk_meta (Some r) (response m) (correlation_id m))
         else Unusual
  | 2 => if u8 tag =? 18
         then parse_message response_field data (mutable_response m)
                (fun r => mk_meta (request m) (Some r) (correlation_id m))
         else Unusual
  | 4 => if u8 tag =? 32
         then parse_int 64 data (fun n => mk_meta (request m) (response m) n)
         else Unusual
  | _ => Unusual
  end.

(** A message is cleared before it is parsed. *)
Definition RpcMeta_Clear : RpcMeta := mk_meta None None 0.
Definition RpcMeta_parse (data : text) : option RpcMeta := InternalParse meta_field data RpcMeta_Clear.

(** ** What the types allow *)

Definition request_meta_ok (r : RpcRequestMeta) : Prop :=
  VerifyUTF8 (service_name r) = true /\ VerifyUTF8 (method_name r) = true.
Definition response_meta_ok (r : RpcResponseMeta) : Prop :=
  - 2 ^ 31 <= error_code r < 2 ^ 31 /\ VerifyUTF8 (error_text r) = true.
Record meta_ok (m : RpcMeta) : Prop := {
  mo_request r : request m = Some r -> request_meta_ok r;
  mo_response r : response m = Some r -> response_meta_ok r;
  mo_id : - 2 ^ 63 <= correlation_id m < 2 ^ 63
}.
End wire.
Arguments Parsed {A}.
Arguments Failure {A}.
Arguments Unusual {A}.

(** ** The loop *)

Section loops.
Context `{Protobuf_laws}.

(** A field takes no more than there is. *)
Definition advances {A} (field : Z -> text -> A -> field_result A) : Prop :=
  forall tag data a rest a', field tag data a = Parsed rest a' -> (length rest <= length data)%nat.

Lemma read_bytes_advances data s rest : read_bytes data = Some (s, rest) -> (length rest <= length data)%nat.
Proof.
  unfold read_bytes. destruct (ReadSize data) as [[n l] |] eqn:Hr; [| done]. simpl.
  destruct (vsize l <? n); [done |]. intros [= <- <-]. apply ReadSize_advances in Hr as [_ Hr].
  rewrite length_drop. lia.
Qed.
Lemma parse_string_advances {A} data (set : text -> A) rest a :
  parse_string data set = Parsed rest a -> (length rest <= length data)%nat.
Proof.
  unfold parse_string. destruct (read_bytes data) as [[s l] |] eqn:Hr; [| done].
  destruct (VerifyUTF8 s); [| done]. intros [= <- _]. by eapply read_bytes_advances.
Qed.
Lemma parse_message_advances {A B} field data b (set : B -> A) rest a :
  parse_message field data b set = Parsed rest a -> (length rest <= length data)%nat.
Proof.
  unfold parse_message. destruct (read_bytes data) as [[s l] |] eqn:Hr; [| done].
  destruct (InternalParse field s b); [| done]. intros [= <- _]. by eapply read_bytes_advances.
Qed.
Lemma parse_int_advances {A} w data (set : Z -> A) rest a :
  parse_int w data set = Parsed rest a -> (length rest <= length data)%nat.
Proof.
  unfold parse_int. destruct (ReadVarint64 data) as [[n l] |] eqn:Hr; [| done].
  intros [= <- _]. by eapply ReadVarint64_advances.
Qed.

Ltac by_fields lem :=
  repeat match goal with |- context [match ?x with _ => _ end] => destruct x end; try done; lem.
Lemma request_field_advances : advances request_field.
Proof. intros tag data r rest r'. unfold request_field. by_fields ltac:(apply parse_string_advances). Qed.
Lemma response_field_advances : advances response_field.
Proof.
  intros tag data r rest r'. unfold response_field.
  by_fields ltac:(apply parse_string_advances || apply parse_int_advances).
Qed.
Lemma meta_field_advances : advances meta_field.
Proof.
  intros tag data r rest r'. unfold meta_field.
  by_fields ltac:(apply parse_message_advances || apply parse_int_advances).
Qed.

(** The loop ends: more fuel than there are bytes makes no difference. *)
Lemma parse_loop_fuel {A} (field : Z -> text -> A -> field_result A) data a f f' :
  advances field -> (length data <= f)%nat -> (length data <= f')%nat ->
  parse_loop field f data a = parse_loop field f' data a.
Proof.
  intros Hadv. revert data a f'. induction f as [| f IH]; intros data a f' Hf Hf'.
  { destruct data; [by destruct f' | simpl in Hf; lia]. }
  destruct data as [| b data]; [by destruct f' |]. destruct f' as [| f']; [simpl in Hf'; lia |].
  cbn [parse_loop]. destruct (ReadTag (b :: data)) as [[tag rest] |] eqn:Ht; [| done]. cbn [mbind option_bind].
  apply ReadTag_advances in Ht. destruct (field tag rest a) as [rest' a' | |] eqn:Hfd; [| done |].
  - apply Hadv in Hfd. apply IH; simpl in *; lia.
  - destruct (_ || _); [done |]. destruct (UnknownFieldParse tag rest) as [rest' |] eqn:Hu; [| done].
    apply UnknownFieldParse_advances in Hu. apply IH; simpl in *; lia.
Qed.

Lemma InternalParse_nil {A} (field : Z -> text -> A -> field_result A) a : InternalParse field [] a = Some a.
Proof. done. Qed.
Lemma InternalParse_field {A} (field : Z -> text -> A -> field_result A) tag data rest a a' :
  advances field -> 0 <= tag < 2 ^ 32 -> field tag data a = Parsed rest a' ->
  InternalParse field (WriteVarint tag ++ data) a = InternalParse field rest a'.
Proof.
  intros Hadv Htag Hfd. unfold InternalParse at 1. pose proof (ReadTag_written tag data Htag) as Ht.
  destruct (WriteVarint tag ++ data) as [| b l] eqn:Hl.
  { apply ReadTag_advances in Ht. simpl in Ht. lia. }
  cbn [parse_loop]. rewrite Ht. cbn [mbind option_bind]. rewrite Hfd.
  apply ReadTag_advances in Ht. apply Hadv in Hfd as Hle. unfold InternalParse. apply parse_loop_fuel; [done | simpl in *; lia..].
Qed.

Lemma read_bytes_written s rest :
  vsize s <= max_message -> read_bytes (WriteVarint (vsize s) ++ s ++ rest) = Some (s, rest).
Proof.
  intros Hs. unfold read_bytes. rewrite ReadSize_written by (split; [apply vsize_nonneg | done]).
  cbn [mbind option_bind]. rewrite vsize_app. pose proof (vsize_nonneg rest).
  destruct (Z.ltb_spec (vsize s + vsize rest) (vsize s)); [lia |].
  by rewrite vsize_to_nat, take_app_length, drop_app_length.
Qed.

Lemma signed_u64 w n : 0 < w <= 64 -> - 2 ^ (w - 1) <= n < 2 ^ (w - 1) -> signed w (u64 n) = n.
Proof.
  intros Hw Hn. unfold signed, u64. assert (2 ^ w = 2 * 2 ^ (w - 1)) as Hd.
  { rewrite <- Z.pow_succ_r by lia. f_equal. lia. }
  rewrite <- Z.add_mod_idemp_l, Z.mod_mod_divide, Z.add_mod_idemp_l by
    (try apply Z.pow_nonzero; try lia; exists (2 ^ (64 - w)); rewrite <- Z.pow_add_r by lia; f_equal; lia).
  rewrite Z.mod_small; lia.
Qed.
Lemma signed_range w n : 0 < w -> - 2 ^ (w - 1) <= signed w n < 2 ^ (w - 1).
Proof.
  intros Hw. unfold signed. assert (2 ^ w = 2 * 2 ^ (w - 1)) as Hd.
  { rewrite <- Z.pow_succ_r by lia. f_equal. lia. }
  pose proof (Z.mod_pos_bound (n + 2 ^ (w - 1)) (2 ^ w)). pose proof (Z.pow_pos_nonneg 2 (w - 1)). lia.
Qed.

(** ** Reading back *)

(** A field that is written, or left out because it has its default value. *)
Lemma field_string {A} (field : Z -> text -> A -> field_result A) tag s rest a (set : text -> A) :
  advances field -> 0 <= tag < 2 ^ 32 -> (forall data, field tag data a = parse_string data set) -> set [] = a ->
  VerifyUTF8 s = true -> vsize (write_string tag s) <= max_message ->
  InternalParse field (write_string tag s ++ rest) a = InternalParse field rest (set s).
Proof.
  intros Hadv Htag Hf <- Hu Hs. destruct s as [| c s]; [done |]. unfold write_string, write_bytes in *.
  rewrite !vsize_app in Hs. pose proof (vsize_nonneg (WriteVarint tag)).
  pose proof (vsize_nonneg (WriteVarint (vsize (c :: s)))).
  rewrite <- !app_assoc. apply InternalParse_field; [done | done |].
  rewrite Hf. unfold parse_string. rewrite read_bytes_written by lia. by rewrite Hu.
Qed.
Lemma field_message {A B} (field : Z -> text -> A -> field_result A) (inner : Z -> text -> B -> field_result B)
    tag s rest a b b' (set : B -> A) :
  advances field -> 0 <= tag < 2 ^ 32 -> (forall data, field tag data a = parse_message inner data b set) ->
  vsize s <= max_message -> InternalParse inner s b = Some b' ->
  InternalParse field (write_bytes tag s ++ rest) a = InternalParse field rest (set b').
Proof.
  intros Hadv Htag Hf Hs Hi. unfold write_bytes. rewrite <- !app_assoc. apply InternalParse_field; [done | done |].
  rewrite Hf. unfold parse_message. by rewrite read_bytes_written, Hi.
Qed.
Lemma field_int {A} (field : Z -> text -> A -> field_result A) tag w n rest a (set : Z -> A) :
  advances field -> 0 <= tag < 2 ^ 32 -> (forall data, field tag data a = parse_int w data set) -> set 0 = a ->
  0 < w <= 64 -> - 2 ^ (w - 1) <= n < 2 ^ (w - 1) ->
  InternalParse field (write_int tag n ++ rest) a = InternalParse field rest (set n).
Proof.
  intros Hadv Htag Hf <- Hw Hn. unfold write_int. destruct (Z.eqb_spec n 0) as [-> |]; [done |].
  rewrite <- !app_assoc. apply InternalParse_field; [done | done |].
  rewrite Hf. unfold parse_int. by rewrite ReadVarint64_written, signed_u64 by (done || apply u64_range).
Qed.

Lemma request_read_back r :
  request_meta_ok r -> vsize (RpcRequestMeta_serialize r) <= max_message ->
  InternalParse request_field (RpcRequestMeta_serialize r) (mk_request_meta [] []) = Some r.
Proof.
  destruct r as [sn mn]. intros [Hs Hm] Hsz. unfold RpcRequestMeta_serialize in *. simpl in *.
  rewrite vsize_app in Hsz. pose proof (vsize_nonneg (write_string 10 sn)). pose proof (vsize_nonneg (write_string 18 mn)).
  rewrite <- (app_nil_r (write_string 18 mn)).
  rewrite (field_string _ 10 sn _ _ (fun s => mk_request_meta s [])) by
    (apply request_field_advances || done || lia).
  rewrite (field_string _ 18 mn _ _ (fun s => mk_request_meta sn s)) by
    (apply request_field_advances || done || lia).
  done.
Qed.
Lemma response_read_back r :
  response_meta_ok r -> vsize (RpcResponseMeta_serialize r) <= max_message ->
  InternalParse response_field (RpcResponseMeta_serialize r) (mk_response_meta 0 []) = Some r.
Proof.
  destruct r as [n t]. intros [Hn Ht] Hsz. unfold RpcResponseMeta_serialize in *. simpl in *.
  rewrite vsize_app in Hsz. pose proof (vsize_nonneg (write_int 8 n)).
  rewrite <- (app_nil_r (write_string 18 t)).
  rewrite (field_int _ 8 32 n _ _ (fun n => mk_response_meta n [])) by
    (apply response_field_advances || done || lia).
  rewrite (field_string _ 18 t _ _ (fun s => mk_response_meta n s)) by
    (apply response_field_advances || done || lia).
  done.
Qed.

Lemma write_bytes_size tag s : vsize s <= vsize (write_bytes tag s).
Proof.
  unfold write_bytes. rewrite !vsize_app. pose proof (vsize_nonneg (WriteVarint tag)).
  pose proof (vsize_nonneg (WriteVarint (vsize s))). lia.
Qed.

Lemma meta_read_back m :
  meta_ok m -> vsize (RpcMeta_serialize m) <= max_message -> RpcMeta_parse (RpcMeta_serialize m) = Some m.
Proof.
  destruct m as [rq rs id]. intros [Hrq Hrs Hid] Hsz. unfold RpcMeta_serialize, RpcMeta_parse, RpcMeta_Clear in *.
  simpl in *. rewrite !vsize_app in Hsz. pose proof (vsize_nonneg (write_int 32 id)).
  assert (forall rq' rs', InternalParse meta_field (write_int 32 id) (mk_meta rq' rs' 0) = Some (mk_meta rq' rs' id)) as H3.
  { intros rq' rs'. rewrite <- (app_nil_r (write_int 32 id)).
    by rewrite (field_int _ 32 64 id _ _ (fun n => mk_meta rq' rs' n)) by (apply meta_field_advances || done || lia). }
  assert (forall rq', InternalParse meta_field
    (match rs with Some r => write_bytes 18 (RpcResponseMeta_serialize r) | None => [] end ++ write_int 32 id)
    (mk_meta rq' None 0) = Some (mk_meta rq' rs id)) as H2.
  { intros rq'. destruct rs as [r |]; [| apply H3]. pose proof (write_bytes_size 18 (RpcResponseMeta_serialize r)).
    pose proof (vsize_nonneg (match rq with Some r => write_bytes 10 (RpcRequestMeta_serialize r) | None => [] end)).
    erewrite (field_message _ _ 18 _ _ _ _ r (fun r => mk_meta rq' (Some r) 0)); [apply H3 | ..];
      [apply meta_field_advances | done | intros; reflexivity | lia | apply response_read_back; [by apply Hrs | lia]]. }
  destruct rq as [r |]; [| apply H2]. pose proof (write_bytes_size 10 (RpcRequestMeta_serialize r)).
  pose proof (vsize_nonneg (match rs with Some r => write_bytes 18 (RpcResponseMeta_serialize r) | None => [] end)).
  erewrite (field_message _ _ 10 _ _ _ _ r (fun r => mk_meta (Some r) None 0)); [apply H2 | ..];
    [apply meta_field_advances | done | intros; reflexivity | lia | apply request_read_back; [by apply Hrq | lia]].
Qed.

(** ** Sizes *)

Lemma tag_size tag : 0 <= tag < 128 -> vsize (WriteVarint tag) = 1.
Proof. intros Ht. rewrite VarintSize_ok by lia. by apply VarintSize_tag. Qed.
Lemma write_bytes_vsize tag s :
  0 <= tag < 128 -> vsize s < 2 ^ 64 -> vsize (write_bytes tag s) = 1 + LengthDelimitedSize (vsize s).
Proof.
  intros Ht Hs. unfold write_bytes, LengthDelimitedSize. pose proof (vsize_nonneg s).
  rewrite !vsize_app, tag_size, VarintSize_ok by lia. lia.
Qed.
Lemma write_string_vsize tag s :
  0 <= tag < 128 -> vsize s < 2 ^ 64 -> vsize (write_string tag s) = string_size s.
Proof. intros Ht Hs. destruct s; [done |]. by apply write_bytes_vsize. Qed.
Lemma write_int_vsize tag n : 0 <= tag < 128 -> vsize (write_int tag n) = int_size n.
Proof.
  intros Ht. unfold write_int, int_size. destruct (n =? 0); [done |].
  rewrite vsize_app, tag_size, VarintSize_ok by (done || apply u64_range). lia.
Qed.
Lemma write_string_size tag s : vsize s <= vsize (write_string tag s).
Proof. destruct s; [done |]. apply write_bytes_size. Qed.

Lemma request_ByteSizeLong r :
  vsize (RpcRequestMeta_serialize r) <= max_message ->
  RpcRequestMeta_ByteSizeLong r = vsize (RpcRequestMeta_serialize r).
Proof.
  unfold RpcRequestMeta_serialize, RpcRequestMeta_ByteSizeLong, max_message. rewrite vsize_app. intros Hs.
  pose proof (write_string_size 10 (service_name r)). pose proof (write_string_size 18 (method_name r)).
  pose proof (vsize_nonneg (service_name r)). pose proof (vsize_nonneg (method_name r)).
  rewrite !write_string_vsize by lia. done.
Qed.
Lemma response_ByteSizeLong r :
  vsize (RpcResponseMeta_serialize r) <= max_message ->
  RpcResponseMeta_ByteSizeLong r = vsize (RpcResponseMeta_serialize r).
Proof.
  unfold RpcResponseMeta_serialize, RpcResponseMeta_ByteSizeLong, max_message. rewrite vsize_app. intros Hs.
  pose proof (write_string_size 18 (error_text r)). pose proof (vsize_nonneg (write_int 8 (error_code r))).
  rewrite write_string_vsize, write_int_vsize by lia. lia.
Qed.
Lemma meta_ByteSizeLong m :
  vsize (RpcMeta_serialize m) <= max_message -> RpcMeta_ByteSizeLong m = vsize (RpcMeta_serialize m).
Proof.
  destruct m as [rq rs id]. unfold RpcMeta_serialize, RpcMeta_ByteSizeLong. simpl. rewrite !vsize_app. intros Hs.
  pose proof (vsize_nonneg (write_int 32 id)).
  pose proof (vsize_nonneg (match rq with Some r => write_bytes 10 (RpcRequestMeta_serialize r) | None => [] end)).
  pose proof (vsize_nonneg (match rs with Some r => write_bytes 18 (RpcResponseMeta_serialize r) | None => [] end)).
  assert (match rq with Some r => 1 + LengthDelimitedSize (RpcRequestMeta_ByteSizeLong r) | None => 0 end =
    vsize (match rq with Some r => write_bytes 10 (RpcRequestMeta_serialize r) | None => [] end)) as ->.
  { destruct rq as [r |]; [| done]. pose proof (write_bytes_size 10 (RpcRequestMeta_serialize r)).
    unfold max_message in *. rewrite request_ByteSizeLong, write_bytes_vsize by (unfold max_message; lia). done. }
  assert (match rs with Some r => 1 + LengthDelimitedSize (RpcResponseMeta_ByteSizeLong r) | None => 0 end =
    vsize (match rs with Some r => write_bytes 18 (RpcResponseMeta_serialize r) | None => [] end)) as ->.
  { destruct rs as [r |]; [| done]. pose proof (write_bytes_size 18 (RpcResponseMeta_serialize r)).
    unfold max_message in *. rewrite response_ByteSizeLong, write_bytes_vsize by (unfold max_message; lia). done. }
  by rewrite write_int_vsize, Z.add_assoc.
Qed.

(** ** The types of what is parsed *)

(** Every field that is parsed keeps what holds of the message. *)
Lemma parse_loop_inv {A} (field : Z -> text -> A -> field_result A) (I : A -> Prop) fuel data a a' :
  (forall tag data a rest a', I a -> field tag data a = Parsed rest a' -> I a') ->
  I a -> parse_loop field fuel data a = Some a' -> I a'.
Proof.
  intros Hf. revert data a. induction fuel as [| fuel IH]; intros data a Ha; [destruct data; by intros [= <-] |].
  destruct data as [| b data]; [by intros [= <-] |]. cbn [parse_loop].
  destruct (ReadTag (b :: data)) as [[tag rest] |]; [| done]. cbn [mbind option_bind].
  destruct (field tag rest a) as [rest' a1 | |] eqn:Hfd; [| done |].
  - apply IH. by eapply Hf.
  - destruct (_ || _); [done |]. destruct (UnknownFieldParse tag rest); [| done]. by apply IH.
Qed.

Lemma parse_string_inv {A} data (set : text -> A) rest a (I : A -> Prop) :
  (forall s, VerifyUTF8 s = true -> I (set s)) -> parse_string data set = Parsed rest a -> I a.
Proof.
  unfold parse_string. intros HI. destruct (read_bytes data) as [[s l] |]; [| done].
  destruct (VerifyUTF8 s) eqn:Hu; [| done]. intros [= _ <-]. by apply HI.
Qed.
Lemma parse_int_inv {A} w data (set : Z -> A) rest a (I : A -> Prop) :
  0 < w -> (forall n, - 2 ^ (w - 1) <= n < 2 ^ (w - 1) -> I (set n)) -> parse_int w data set = Parsed rest a -> I a.
Proof.
  unfold parse_int. intros Hw HI. destruct (ReadVarint64 data) as [[n l] |]; [| done].
  intros [= _ <-]. by apply HI, signed_range.
Qed.
Lemma parse_message_inv {A B} (field : Z -> text -> B -> field_result B) data b (set : B -> A) rest a
    (I : A -> Prop) (J : B -> Prop) :
  (forall tag data b rest b', J b -> field tag data b = Parsed rest b' -> J b') -> J b ->
  (forall b, J b -> I (set b)) -> parse_message field data b set = Parsed rest a -> I a.
Proof.
  unfold parse_message. intros Hf Hb HI. destruct (read_bytes data) as [[s l] |]; [| done].
  destruct (InternalParse field s b) as [b' |] eqn:Hp; [| done]. intros [= _ <-].
  by eapply HI, parse_loop_inv.
Qed.

Lemma request_field_typed tag data r rest r' :
  request_meta_ok r -> request_field tag data r = Parsed rest r' -> request_meta_ok r'.
Proof.
  intros [Hs Hm]. unfold request_field. by_fields ltac:(apply parse_string_inv; intros s Hu; by split).
Qed.
Lemma response_field_typed tag data r rest r' :
  response_meta_ok r -> response_field tag data r = Parsed rest r' -> response_meta_ok r'.
Proof.
  intros [Hn Ht]. unfold response_field.
  by_fields ltac:((apply parse_string_inv; intros s Hu; by split) ||
    (apply (parse_int_inv 32); [done |]; intros n Hr; by split)).
Qed.
Lemma meta_field_typed tag data m rest m' :
  meta_ok m -> meta_field tag data m = Parsed rest m' -> meta_ok m'.
Proof.
  intros [Hrq Hrs Hid]. unfold meta_field.
  assert (VerifyUTF8 [] = true) as Hnil by (apply VerifyUTF8_ascii; constructor).
  by_fields ltac:(idtac).
  - apply (parse_int_inv 64); [done |]. intros n Hr. by split.
  - apply (parse_message_inv _ _ _ _ _ _ _ response_meta_ok response_field_typed).
    + unfold mutable_response. destruct (response m) as [r |] eqn:Hr; [by apply Hrs | by split].
    + intros r Hr. split; simpl; [done | by intros ? [= <-] | done].
  - apply (parse_message_inv _ _ _ _ _ _ _ request_meta_ok request_field_typed).
    + unfold mutable_request. destruct (request m) as [r |] eqn:Hr; [by apply Hrq | by split].
    + intros r Hr. split; simpl; [by intros ? [= <-] | done | done].
Qed.

Lemma parsed_typed data m : RpcMeta_parse data = Some m -> meta_ok m.
Proof.
  apply (parse_loop_inv meta_field meta_ok); [apply meta_field_typed |]. by split.
Qed.
End loops.

(** ** Properties *)

(** C20. The meta part is read back, with the types of its fields.  Under the documented
    behaviour of the protobuf runtime: whatever bytes [RpcMeta_parse] accepts, the
    identifier it gives is an [int64], the error code an [int32] and every string UTF-8; and
    a meta part with such fields, of at most the size that the runtime accepts, is parsed
    from the bytes that were written for it, which are as many as [ByteSizeLong] says. *)
Theorem meta_codec `{Protobuf_laws} (data : text) (m : RpcMeta) :
  (RpcMeta_parse data = Some m -> meta_ok m) /\
  (meta_ok m -> vsize (RpcMeta_serialize m) <= max_message ->
   RpcMeta_parse (RpcMeta_serialize m) = Some m /\
   RpcMeta_ByteSizeLong m = vsize (RpcMeta_serialize m)).
Proof.
  split; [apply parsed_typed |]. intros Hm Hs.
  split; [by apply meta_read_back | by apply meta_ByteSizeLong].
Qed.

(** ** A runtime *)

Definition byte (n : Z) : Byte.byte := default Byte.x00 (Byte.of_N (Z.to_N n)).
Fixpoint base128 (fuel : nat) (n : Z) : text :=
  match fuel with
  | O => []
  | S fuel => if n <? 128 then [byte n] else byte (128 + n mod 128) :: base128 fuel (n / 128)
  end.
Fixpoint from_base128 (fuel : nat) (l : text) : option (Z * text) :=
  match fuel, l with
  | S fuel, b :: l =>
      if uchar b <? 128 then Some (uchar b, l)
      else '(n, rest) ← from_base128 fuel l; Some (uchar b - 128 + 128 * n, rest)
  | _, _ => None
  end.

(** UTF-8: the bytes that must follow, the first of them in a range. *)
Fixpoint utf8 (more : nat) (lo hi : Z) (l : text) : bool :=
  match l, more with
  | [], O => true
  | [], S _ => false
  | b :: l, O =>
      let c := uchar b in
      if c <? 0x80 then utf8 0 0x80 0xbf l
      else if c <? 0xc2 then false
      else if c <? 0xe0 then utf8 1 0x80 0xbf l
      else if c =? 0xe0 then utf8 2 0xa0 0xbf l
      else if c =? 0xed then utf8 2 0x80 0x9f l
      else if c <? 0xf0 then utf8 2 0x80 0xbf l
      else if c =? 0xf0 then utf8 3 0x90 0xbf l
      else if c <? 0xf4 then utf8 3 0x80 0xbf l
      else if c =? 0xf4 then utf8 3 0x80 0x8f l
      else false
  | b :: l, S more => (lo <=? uchar b) && (uchar b <=? hi) && utf8 more 0x80 0xbf l
  end.

(** A field of a known wire type, not a group. *)
Definition skip_field (tag : Z) (l : text) : option text :=
  match Z.land tag 7 with
  | 0 => snd <$> from_base128 10 l
  | 1 => if 8 <=? vsize l then Some (drop 8 l) else None
  | 2 => '(n, rest) ← from_base128 5 l; if n <=? vsize rest then Some (drop (Z.to_nat n) rest) else None
  | 5 => if 4 <=? vsize l then Some (drop 4 l) else None
  | _ => None
  end.

Lemma from_base128_advances fuel l n rest :
  from_base128 fuel l = Some (n, rest) -> 0 <= n /\ (length rest < length l)%nat.
Proof.
  revert l n rest. induction fuel as [| fuel IH]; intros l n rest; [done |].
  destruct l as [| b l]; [done |]. cbn [from_base128]. pose proof (uchar_range b).
  destruct (Z.ltb_spec (uchar b) 128); [intros [= <- <-]; simpl; lia |].
  destruct (from_base128 fuel l) as [[m rest'] |] eqn:Hr; [| done]. cbn [mbind option_bind]. intros [= <- <-].
  apply IH in Hr. simpl. lia.
Qed.
Lemma skip_field_advances tag l rest : skip_field tag l = Some rest -> (length rest <= length l)%nat.
Proof.
  assert (forall k n, (if k <=? vsize l then Some (drop n l) else None) = Some rest -> (length rest <= length l)%nat) as Hfixed.
  { intros k n. destruct (k <=? vsize l); [| done]. intros [= <-]. rewrite length_drop. lia. }
  unfold skip_field. destruct (Z.land tag 7) as [| [[p | p |] | [p | p |] |] |]; try done; try apply Hfixed.
  - destruct (from_base128 10 l) as [[n r] |] eqn:Hr; [| done]. intros [= <-].
    apply from_base128_advances in Hr as [_ ?]. simpl. lia.
  - destruct p; try done. apply Hfixed.
  - destruct (from_base128 5 l) as [[n r] |] eqn:Hr; [| done]. cbn [mbind option_bind].
    destruct (n <=? vsize r); [| done]. intros [= <-]. apply from_base128_advances in Hr as [_ ?]. rewrite length_drop. lia.
Qed.

#[export] Instance plain_runtime : Protobuf := {
  WriteVarint n := base128 10 n;
  VarintSize n := vsize (base128 10 n);
  ReadTag l := '(n, rest) ← from_base128 5 l; Some (u32 n, rest);
  ReadSize l := '(n, rest) ← from_base128 5 l; if n <=? max_message then Some (n, rest) else None;
  ReadVarint64 l := '(n, rest) ← from_base128 10 l; Some (u64 n, rest);
  VerifyUTF8 l := utf8 0 0x80 0xbf l;
  UnknownFieldParse := skip_field
}.

Lemma uchar_byte n : 0 <= n < 256 -> uchar (byte n) = n.
Proof.
  intros Hn. unfold byte, uchar. destruct (Byte.of_N (Z.to_N n)) as [b |] eqn:Hb; simpl.
  - apply Byte.to_of_N in Hb. rewrite Hb. lia.
  - apply Byte.of_N_None_iff in Hb. lia.
Qed.

Lemma from_base128_written k fuel n rest :
  (k < fuel)%nat -> 0 <= n < 128 ^ Z.of_nat (S k) ->
  from_base128 (S k) (base128 fuel n ++ rest) = Some (n, rest).
Proof.
  revert fuel n. induction k as [| k IH]; intros fuel n Hf Hn; (destruct fuel as [| fuel]; [lia |]); cbn [base128].
  - change (128 ^ Z.of_nat 1) with 128 in Hn. rewrite (proj2 (Z.ltb_lt n 128)) by lia. cbn [app from_base128].
    rewrite uchar_byte by lia. by rewrite (proj2 (Z.ltb_lt n 128)) by lia.
  - destruct (Z.ltb_spec n 128) as [Hs | Hs].
    + cbn [app from_base128]. rewrite uchar_byte by lia. by rewrite (proj2 (Z.ltb_lt n 128)).
    + pose proof (Z.mod_pos_bound n 128 ltac:(lia)). cbn [app]. rewrite Nat2Z.inj_succ, Z.pow_succ_r in Hn by lia.
      assert (from_base128 (S k) (base128 fuel (n / 128) ++ rest) = Some (n / 128, rest)) as Hr.
      { apply IH; [lia |]. split; [apply Z.div_pos; lia | apply Z.div_lt_upper_bound; lia]. }
      remember (S k) as k' eqn:Hk'. cbn [from_base128]. rewrite uchar_byte by lia.
      rewrite (proj2 (Z.ltb_ge (128 + n mod 128) 128)) by lia. rewrite Hr. cbn [mbind option_bind].
      do 2 f_equal. pose proof (Z.div_mod n 128 ltac:(lia)). lia.
Qed.
(** The varint of ten bytes at most holds every number of 64 bits. *)
#[export] Instance plain_runtime_laws : Protobuf_laws.
Proof.
  split; cbn [WriteVarint VarintSize ReadTag ReadSize ReadVarint64 VerifyUTF8 UnknownFieldParse plain_runtime].
  - done.
  - intros n Hn. cbn [base128]. by rewrite (proj2 (Z.ltb_lt n 128)) by lia.
  - intros n rest Hn. rewrite (from_base128_written 4 10) by (simpl; lia). cbn [mbind option_bind].
    by rewrite u32_small by lia.
  - intros n rest Hn. unfold max_message in *. rewrite (from_base128_written 4 10) by (simpl; lia).
    cbn [mbind option_bind]. by rewrite (proj2 (Z.leb_le _ _)) by lia.
  - intros n rest Hn. rewrite (from_base128_written 9 10) by (simpl; lia). cbn [mbind option_bind].
    by rewrite u64_small by lia.
  - intros l n rest. destruct (from_base128 10 l) as [[m r] |]; [| done]. intros [= <- _]. apply u64_range.
  - intros l n rest. destruct (from_base128 5 l) as [[m r] |] eqn:Hr; [| done]. intros [= _ <-].
    by apply from_base128_advances in Hr as [_ ?].
  - intros l n rest. destruct (from_base128 5 l) as [[m r] |] eqn:Hr; [| done]. cbn [mbind option_bind].
    destruct (m <=? max_message); [| done]. intros [= <- <-]. apply from_base128_advances in Hr as [? ?]. lia.
  - intros l n rest. destruct (from_base128 10 l) as [[m r] |] eqn:Hr; [| done]. intros [= _ <-].
    apply from_base128_advances in Hr as [_ ?]. lia.
  - apply skip_field_advances.
  - intros l Hl. induction Hl as [| b l Hb _ IH]; [done |]. cbn [utf8]. destruct (Z.ltb_spec (uchar b) 128); [exact IH | lia].
Qed.

(** A request, one with a negative error code, and bytes that are no meta part. *)
Definition say_meta : RpcMeta := mk_meta (Some (mk_request_meta (bytes "Echo") (bytes "Say"))) None 300.
Lemma say_meta_bytes :
  RpcMeta_serialize say_meta =
    [Byte.x0a; Byte.x0b; Byte.x0a; Byte.x04] ++ bytes "Echo" ++ [Byte.x12; Byte.x03] ++ bytes "Say" ++
    [Byte.x20; Byte.xac; Byte.x02].
Proof. reflexivity. Qed.
Lemma bad_utf8 : RpcMeta_parse [Byte.x0a; Byte.x03; Byte.x0a; Byte.x01; Byte.xff] = None.
Proof. reflexivity. Qed.

Lemma meta_codec_witness :
  RpcMeta_parse (RpcMeta_serialize (mk_meta None (Some (mk_response_meta (-5) (bytes "no"))) (-1))) =
    Some (mk_meta None (Some (mk_response_meta (-5) (bytes "no"))) (-1)) /\
  meta_ok say_meta.
Proof.
  split.
  - apply (meta_codec []).
    + split; simpl; [done | intros r [= <-]; split; [simpl; lia | reflexivity] | lia].
    + vm_compute. discriminate.
  - apply (meta_codec (RpcMeta_serialize say_meta)). reflexivity.
Defined.
