(* ===== verification/RpcTheorems.v ===== *)
(** * RpcTheorems: frames and calls

    What [pack] writes is a [frame]; [process] takes the frames of a stream one after the
    other however the stream is cut, and the two ends of a channel put together carry
    a call to the method and its response back. *)

From S2P Require Import Prelude.
From S2P Require Import Cpp.
From S2P Require Import Buffer.
From S2P Require Import TcpConnection.
From S2P Require Import Rpc.
From S2P Require Import RpcWire.
From stdpp Require Import gmap list.
Local Open Scope Z_scope.

(** ** Big-endian numbers *)

Lemma uchar_byte_of n : uchar (byte_of n) = n mod 256.
Proof.
  pose proof (Z.mod_pos_bound n 256 ltac:(lia)) as Hn. unfold byte_of, uchar.
  destruct (Byte.of_N (Z.to_N (n mod 256))) as [b |] eqn:Hb; simpl.
  - apply Byte.to_of_N in Hb. rewrite Hb. lia.
  - apply Byte.of_N_None_iff in Hb. lia.
Qed.

Lemma load32_be32 n : 0 <= n < 2 ^ 32 -> load32 (be32 n) = n.
Proof.
  intros Hn. unfold load32, be32. cbn [fold_left]. rewrite !uchar_byte_of, !Z.shiftr_div_pow2 by lia.
  change (2 ^ 24) with (256 * 256 * 256). change (2 ^ 16) with (256 * 256). change (2 ^ 8) with 256.
  rewrite <- !Z.div_div by lia. rewrite (Z.mod_small (n / 256 / 256 / 256)).
  - pose proof (Z.div_mod n 256 ltac:(lia)). pose proof (Z.div_mod (n / 256) 256 ltac:(lia)).
    pose proof (Z.div_mod (n / 256 / 256) 256 ltac:(lia)). lia.
  - rewrite !Z.div_div by lia. split; [apply Z.div_pos; lia | apply Z.div_lt_upper_bound; lia].
Qed.

(** ** Frames *)

Definition frame (meta msg : list Byte.byte) : list Byte.byte :=
  bytes "ERPC" ++ be32 (vsize meta + vsize msg) ++ be32 (vsize meta) ++ meta ++ msg.

Lemma frame_size meta msg : vsize (frame meta msg) = 12 + vsize meta + vsize msg.
Proof. unfold frame. rewrite !vsize_app. change (vsize (bytes "ERPC")) with 4. unfold be32.
  rewrite !vsize_cons, vsize_nil. lia. Qed.

(** Storing what fits. *)
Lemma store_ok l b :
  buffer_ok b -> vsize l <= writable_bytes b ->
  exists b', store l (vsize l) b = Ok b' /\ buffer_ok b' /\ contents b' = contents b ++ l /\
    writable_bytes b' = writable_bytes b - vsize l.
Proof.
  intros Hb Hl. destruct (receive_ok b Hb l Hl) as (b' & Hr & Hok & Hc & Hs).
  exists b'. split_and!; [exact Hr | done | done |].
  pose proof Hr as H. unfold receive in H. apply bind_Ok in H as (p & _ & H).
  apply bind_Ok in H as (v & Hv & H). injection H as <-.
  assert (vsize v = vsize (buff_ b)) as Hvs.
  { unfold vcopy in Hv. case_match eqn:Hin; [| done]. injection Hv as <-. boolify.
    apply vcopy_vsize; lia. }
  rewrite !writable_ok by done. rewrite has_written_ok; simpl.
  - lia.
  - destruct Hb. split; simpl; lia.
  - pose proof (vsize_nonneg l). unfold writable_bytes in *. simpl. by rewrite Hvs.
Qed.

Lemma write_store l b : vsize l <= writable_bytes b -> l <> [] -> write (Some l) b = store l (vsize l) b.
Proof.
  intros Hl Hne. destruct l as [| x l]; [done |]. unfold write, ensure_writable.
  destruct (Z.ltb_spec (writable_bytes b) (vsize (x :: l))); [lia | done].
Qed.

(** Messages of a size that the protobuf runtime accepts. *)
Definition small (meta msg : list Byte.byte) : Prop := vsize meta + vsize msg <= max_message.
Lemma small_size meta msg : small meta msg -> vsize meta + vsize msg < 2 ^ 31.
Proof. unfold small, max_message. lia. Qed.

(** A new buffer grows as far as a vector can. *)
Lemma ensure_writable_new size b n :
  0 < size <= max_size -> Buffer_init size = Ok b -> 0 <= n <= max_size ->
  exists b', ensure_writable n b = Ok b' /\ buffer_ok b' /\ n <= writable_bytes b' /\
    contents b' = contents b.
Proof.
  intros Hs Hi Hn. destruct (Buffer_init_ok size Hs) as (b0 & Hi0 & Hb & _). rewrite Hi in Hi0. injection Hi0 as <-.
  assert (write_index_ b = 0) as Hw.
  { unfold Buffer_init in Hi. apply bind_Ok in Hi as (v & _ & Hi). by injection Hi as <-. }
  pose proof (ensure_writable_ok b Hb n Hn) as H.
  destruct (ensure_writable n b) as [b' | e |] eqn:He; [| | done].
  - destruct H as (H1 & H2 & H3 & _). by exists b'.
  - apply (ensure_writable_throws b Hb) in He as [_ He]; [lia | done].
Qed.

Lemma pack_ok meta msg :
  small meta (default [] msg) ->
  exists b, pack meta msg = Ok b /\ buffer_ok b /\ contents b = frame meta (default [] msg).
Proof.
  intros Hs%small_size. unfold pack. pose proof (vsize_nonneg meta) as H1.
  pose proof (vsize_nonneg (default [] msg)) as H2.
  assert (match msg with Some m => u32 (vsize m) | None => 0 end = vsize (default [] msg)) as ->.
  { destruct msg as [m |]; [| done]. simpl in *. apply u32_small. lia. }
  rewrite (u32_small (vsize meta)), u32_small by lia. rewrite u64_small by (unfold HeaderLen; lia).
  destruct (Buffer_init_ok InitialSize) as (b0 & Hi & Hb0 & Hc0); [done |]. rewrite Hi.
  cbn [mbind outcome_bind].
  destruct (ensure_writable_new InitialSize b0 (vsize meta + vsize (default [] msg) + HeaderLen))
    as (b1 & -> & Hb1 & Hw1 & Hc1); [done | done | unfold HeaderLen, max_size; lia |].
  unfold HeaderLen in Hw1. cbn [mbind outcome_bind].
  set (h := bytes "ERPC" ++ be32 (vsize meta + vsize (default [] msg)) ++ be32 (vsize meta)).
  assert (vsize h = 12) as Hh by reflexivity. rewrite (write_store h) by (done || lia).
  destruct (store_ok h b1 Hb1) as (b2 & -> & Hb2 & Hc2 & Hw2); [lia |]. cbn [mbind outcome_bind].
  destruct (store_ok meta b2 Hb2) as (b3 & -> & Hb3 & Hc3 & Hw3); [lia |]. cbn [mbind outcome_bind].
  assert (contents b3 = h ++ meta) as Hc3' by (by rewrite Hc3, Hc2, Hc1, Hc0).
  unfold frame. destruct (Z.ltb_spec 0 (vsize (default [] msg))).
  - destruct (store_ok (default [] msg) b3 Hb3) as (b4 & -> & Hb4 & Hc4 & _); [lia |].
    exists b4. split_and!; [done.. |]. rewrite Hc4, Hc3'. unfold h. by rewrite <- !app_assoc.
  - destruct (default [] msg) as [| x l]; [| rewrite vsize_cons in *; pose proof (vsize_nonneg l); lia].
    exists b3. split_and!; [done.. |]. rewrite Hc3', app_nil_r. unfold h. by rewrite <- !app_assoc.
Qed.

(** ** One look at the buffer *)

(** What the channel asks of its meta part: what was written is parsed, when it is well
    formed ([ok]) and not too long.  [RpcWire] has it. *)
Class Codec (ok : RpcMeta -> Prop) (meta_bytes : RpcMeta -> list Byte.byte)
    (meta_parse : list Byte.byte -> option RpcMeta) : Prop :=
  parse_serialised m : ok m -> vsize (meta_bytes m) <= max_message -> meta_parse (meta_bytes m) = Some m.

#[export] Instance wire_Codec `{Protobuf_laws} : Codec meta_ok RpcMeta_serialize RpcMeta_parse.
Proof. intros m. apply meta_read_back. Qed.

(** The part of a frame that has arrived. *)
Definition incomplete (rest : list Byte.byte) (meta msg : list Byte.byte) : Prop :=
  exists more, more <> [] /\ rest ++ more = frame meta msg.

Lemma take_frame k meta msg rest :
  (k <= length (frame meta msg))%nat -> take k (frame meta msg ++ rest) = take k (frame meta msg).
Proof. intros. by apply take_app_le. Qed.

(** The header of a frame, from the bytes that start with it. *)
Lemma frame_header meta msg rest :
  small meta msg ->
  take 4 (frame meta msg ++ rest) = bytes "ERPC" /\
  load32 (take 4 (drop 4 (frame meta msg ++ rest))) = vsize meta + vsize msg /\
  load32 (take 4 (drop 8 (frame meta msg ++ rest))) = vsize meta /\
  drop 12 (frame meta msg ++ rest) = meta ++ msg ++ rest.
Proof.
  intros Hs%small_size. pose proof (vsize_nonneg meta). pose proof (vsize_nonneg msg).
  unfold frame. rewrite <- !app_assoc.
  change (drop 12 (bytes "ERPC" ++ be32 (vsize meta + vsize msg) ++ be32 (vsize meta) ++ meta ++ msg ++ rest))
    with (meta ++ msg ++ rest).
  change (take 4 (drop 4 (bytes "ERPC" ++ be32 (vsize meta + vsize msg) ++ be32 (vsize meta) ++ meta ++ msg ++ rest)))
    with (be32 (vsize meta + vsize msg)).
  change (take 4 (drop 8 (bytes "ERPC" ++ be32 (vsize meta + vsize msg) ++ be32 (vsize meta) ++ meta ++ msg ++ rest)))
    with (be32 (vsize meta)).
  rewrite !load32_be32 by lia. done.
Qed.

Lemma examine_frame meta_parse meta msg rest m :
  small meta msg -> meta_parse meta = Some m ->
  examine meta_parse (frame meta msg ++ rest) = Ok (Frame m msg (12 + vsize meta + vsize msg)).
Proof.
  intros Hs Hp. destruct (frame_header meta msg rest Hs) as (H1 & H2 & H3 & H4).
  pose proof (vsize_nonneg meta). pose proof (vsize_nonneg msg). pose proof (vsize_nonneg rest).
  unfold examine, HeaderLen. rewrite vsize_app, frame_size, H1, H2, H3, bool_decide_true by done.
  change (Z.to_nat 12) with 12%nat. rewrite H4, vsize_to_nat. cbn [negb].
  destruct (Z.ltb_spec (12 + vsize meta + vsize msg + vsize rest) 12); [lia |].
  destruct (Z.ltb_spec (vsize meta + vsize msg) (vsize meta)); [lia |].
  destruct (Z.ltb_spec (12 + vsize meta + vsize msg + vsize rest) (12 + (vsize meta + vsize msg))); [lia |].
  apply small_size in Hs. rewrite take_app_length, drop_app_length. unfold ParseFromArray.
  rewrite (proj2 (Z.leb_gt (2 ^ 31) (vsize meta))) by lia. cbn [mbind outcome_bind mret outcome_ret]. rewrite Hp.
  replace (vsize meta + vsize msg - vsize meta) with (vsize msg) by lia.
  rewrite vsize_to_nat, take_app_length. do 2 f_equal. lia.
Qed.

Lemma prefix_lookup {A} (k n : nat) (l l' : list A) : (k + n <= length l)%nat ->
  take n (drop k (l ++ l')) = take n (drop k l).
Proof.
  intros Hk. rewrite drop_app_le by lia. apply take_app_le. rewrite length_drop. lia.
Qed.

Lemma examine_incomplete meta_parse meta msg rest :
  small meta msg -> incomplete rest meta msg -> examine meta_parse rest = Ok Returns.
Proof.
  intros Hs (more & Hne & Heq). destruct (frame_header meta msg [] Hs) as (H1 & H2 & H3 & _).
  rewrite app_nil_r in H1, H2, H3. pose proof (frame_size meta msg) as Hsz.
  rewrite <- Heq in *. rewrite vsize_app in Hsz. pose proof (vsize_nonneg meta). pose proof (vsize_nonneg msg).
  assert (0 < vsize more) by (destruct more as [| x l]; [done |]; rewrite vsize_cons; pose proof (vsize_nonneg l); lia).
  unfold examine, HeaderLen. destruct (Z.ltb_spec (vsize rest) 12); [done |].
  assert (12 <= length rest)%nat by (unfold vsize in *; lia).
  rewrite (take_app_le _ _ 4) in H1 by lia. rewrite prefix_lookup in H2, H3 by lia.
  rewrite H1, H2, H3, bool_decide_true by done. cbn [negb].
  destruct (Z.ltb_spec (vsize meta + vsize msg) (vsize meta)); [done |].
  destruct (Z.ltb_spec (vsize rest) (12 + (vsize meta + vsize msg))); [done | lia].
Qed.

(** ** Streams *)

Section stream.
Context (ok : RpcMeta -> Prop) (meta_bytes : RpcMeta -> list Byte.byte)
  (meta_parse : list Byte.byte -> option RpcMeta) `{!Codec ok meta_bytes meta_parse}.
Context {U : Type}.
Context (invoke : list Byte.byte -> list Byte.byte -> Z -> list Byte.byte -> U -> list completion * U)
  (run_done : Z -> RpcController -> list Byte.byte -> U -> list call * U).
Abbreviation process_message := (process_message meta_bytes invoke run_done).
Abbreviation process := (process meta_bytes meta_parse invoke run_done).
Implicit Types c : RpcChannel.

(** A message on the wire. *)
Definition wire (x : RpcMeta * list Byte.byte) : list Byte.byte := frame (meta_bytes x.1) x.2.
Definition sized (x : RpcMeta * list Byte.byte) : Prop := ok x.1 /\ small (meta_bytes x.1) x.2.
Lemma sized_parse x : sized x -> meta_parse (meta_bytes x.1) = Some x.1.
Proof.
  intros [Hok Hs]. apply parse_serialised; [done |]. unfold small in Hs. pose proof (vsize_nonneg x.2). lia.
Qed.

(** The messages, one after the other. *)
Fixpoint process_all (ms : list (RpcMeta * list Byte.byte)) c (u : U) : outcome (RpcChannel * U) :=
  match ms with
  | [] => mret (c, u)
  | x :: ms => r ← process_message x.1 x.2 c u; process_all ms r.1 r.2
  end.

(** The connection hands over one piece after the other; [left] is what the buffer still
    holds. *)
Fixpoint rpc_feed (pieces : list (list Byte.byte)) (left : list Byte.byte) c (u : U) :
    outcome (option (list Byte.byte * RpcChannel * U)) :=
  match pieces with
  | [] => mret (Some (left, c, u))
  | a :: l =>
      r ← process (S (length (left ++ a))) (left ++ a) c u;
      match r with
      | None => mret None
      | Some x => rpc_feed l (queue_steps x.1.1 (left ++ a)).2 x.1.2 x.2
      end
  end.

(** [rest] is a part of the next frame. *)
Definition waits (rest : list Byte.byte) (ms : list (RpcMeta * list Byte.byte)) : Prop :=
  match ms with [] => rest = [] | x :: _ => incomplete rest (meta_bytes x.1) x.2 end.

Lemma wire_length x : (12 <= length (wire x))%nat.
Proof.
  pose proof (frame_size (meta_bytes x.1) x.2) as H. pose proof (vsize_nonneg (meta_bytes x.1)).
  pose proof (vsize_nonneg x.2). unfold wire, vsize in *. lia.
Qed.

Lemma bind_ret {A B} (m : outcome A) (f : A -> B) (g : B -> outcome B) :
  (forall b, g b = mret b) -> (r ← m; g (f r)) = (r ← m; mret (f r)).
Proof. intros Hg. destruct m; simpl; [apply Hg | done..]. Qed.

Lemma process_frames fuel ms ms' rest c u :
  Forall sized (ms ++ ms') -> waits rest ms' -> (length ms < fuel)%nat ->
  process fuel (concat (wire <$> ms) ++ rest) c u =
  (r ← process_all ms c u; mret (Some ((fun x => Skip (vsize (wire x))) <$> ms, r.1, r.2))).
Proof.
  intros Hs Hw. revert ms c u Hs. induction fuel as [| fuel IH]; intros ms c u Hs Hf; [lia |].
  destruct ms as [| x ms].
  - simpl. assert (examine meta_parse rest = Ok Returns) as ->; [| done].
    destruct ms' as [| y ms']; simpl in Hw; [by subst |].
    apply Forall_cons in Hs as [[_ Hy] _]. by eapply examine_incomplete.
  - simpl in Hs. apply Forall_cons in Hs as [Hx Hs].
    cbn [Rpc.process fmap list_fmap concat]. rewrite <- app_assoc. unfold wire at 1.
    rewrite (examine_frame meta_parse _ _ _ x.1 (proj2 Hx)) by (by apply sized_parse).
    cbn [mbind outcome_bind].
    cbn [process_all]. destruct (process_message x.1 x.2 c u) as [[c1 u1] | |]; cbn [mbind outcome_bind fst snd]; [| done..].
    replace (12 + vsize (meta_bytes x.1) + vsize x.2) with (vsize (wire x))
      by (unfold wire; apply frame_size).
    change (frame (meta_bytes x.1) x.2) with (wire x).
    rewrite vsize_to_nat, drop_app_length, IH by (done || simpl in Hf; lia).
    by destruct (process_all ms c1 u1) as [[c2 u2] | |].
Qed.

Lemma process_all_app ms ms' c u :
  process_all (ms ++ ms') c u = (r ← process_all ms c u; process_all ms' r.1 r.2).
Proof.
  revert c u. induction ms as [| x ms IH]; intros c u; simpl; [done |].
  destruct (process_message x.1 x.2 c u) as [[c1 u1] | |]; simpl; [apply IH | done..].
Qed.

(** What has arrived of a sequence of frames. *)
Lemma arrived d d' ms :
  d ++ d' = concat (wire <$> ms) ->
  exists ms1 ms2 rest, ms = ms1 ++ ms2 /\ d = concat (wire <$> ms1) ++ rest /\ waits rest ms2.
Proof.
  revert d. induction ms as [| x ms IH]; intros d Heq; cbn [fmap list_fmap concat] in Heq.
  - apply app_eq_nil in Heq as [-> ->]. by exists [], [], [].
  - destruct (Nat.lt_ge_cases (length d) (length (wire x))) as [Hlt | Hge].
    + exists [], (x :: ms), d. split_and!; [done | done |]. exists (drop (length d) (wire x)). split.
      * intros H0. apply (f_equal length) in H0. rewrite length_drop, length_nil in H0. lia.
      * apply (f_equal (take (length d))) in Heq.
        rewrite take_app_length, take_app_le in Heq by lia. change (frame _ _) with (wire x).
        rewrite Heq at 1. apply take_drop.
    + assert (d = wire x ++ drop (length (wire x)) d) as Hd.
      { rewrite <- (take_drop (length (wire x)) d) at 1. f_equal.
        apply (f_equal (take (length (wire x)))) in Heq.
        by rewrite take_app_length, take_app_le in Heq by lia. }
      rewrite Hd, <- app_assoc in Heq. apply app_inv_head in Heq.
      destruct (IH _ Heq) as (ms1 & ms2 & rest & -> & Hr & Hw).
      exists (x :: ms1), ms2, rest. split_and!; [done | | done].
      rewrite Hd, Hr. simpl. by rewrite app_assoc.
Qed.

Lemma skip_frames ms rest :
  (queue_steps ((fun x => Skip (vsize (wire x))) <$> ms) (concat (wire <$> ms) ++ rest)).2 = rest.
Proof.
  induction ms as [| x ms IH]; [done |].
  cbn [fmap list_fmap concat queue_steps queue_step fst snd].
  by rewrite <- app_assoc, vsize_to_nat, drop_app_length.
Qed.

Lemma stream_length ms : (length ms <= length (concat (wire <$> ms)))%nat.
Proof.
  induction ms as [| x ms IH]; [done |]. cbn [fmap list_fmap concat length].
  pose proof (wire_length x). rewrite length_app. lia.
Qed.

Lemma rpc_feed_ok pieces left ms c u :
  Forall sized ms -> waits left ms -> left ++ concat pieces = concat (wire <$> ms) ->
  rpc_feed pieces left c u = (r ← process_all ms c u; mret (Some ([], r.1, r.2))).
Proof.
  revert left ms c u. induction pieces as [| a l IH]; intros left ms c u Hs Hw Heq; simpl in Heq.
  - rewrite app_nil_r in Heq. destruct ms as [| x ms]; simpl in Hw; [by subst |].
    destruct Hw as (more & Hne & Hm). apply (f_equal length) in Heq, Hm.
    simpl in Heq. change (frame (meta_bytes x.1) x.2) with (wire x) in Hm. rewrite length_app in *.
    destruct more; [done |]. simpl in Hm. lia.
  - rewrite app_assoc in Heq. cbn [rpc_feed].
    destruct (arrived _ _ _ Heq) as (ms1 & ms2 & rest & -> & Hd & Hw'). rewrite Hd in Heq |- *.
    rewrite (process_frames _ ms1 ms2); [| done | done | rewrite length_app; pose proof (stream_length ms1); lia].
    rewrite process_all_app. destruct (process_all ms1 c u) as [[c1 u1] | |]; simpl; [| done..].
    rewrite skip_frames. apply Forall_app in Hs as [_ Hs2]. apply IH; [done | done |].
    rewrite fmap_app, concat_app, <- app_assoc in Heq. by apply app_inv_head in Heq.
Qed.

Lemma waits_nil ms : waits [] ms.
Proof. destruct ms as [| x ms]; [done |]. by exists (wire x). Qed.

Lemma process_one x c u :
  sized x ->
  process (S (length (wire x))) (wire x) c u =
  (r ← process_message x.1 x.2 c u; mret (Some ([Skip (vsize (wire x))], r.1, r.2))).
Proof.
  intros Hx. pose proof (process_frames (S (length (wire x))) [x] [] [] c u) as H.
  cbn [fmap list_fmap concat] in H. rewrite !app_nil_r in H. rewrite H.
  - cbn [process_all]. by destruct (process_message x.1 x.2 c u) as [[] | |].
  - by apply Forall_singleton.
  - done.
  - pose proof (wire_length x). simpl. lia.
Qed.

(** What [pack_send] gives the connection; it gives it. *)
Lemma pack_send_total meta msg c :
  sized (meta, default [] msg) -> exists c', pack_send meta_bytes meta msg c = Ok c'.
Proof.
  intros [_ Hs]. destruct (pack_ok _ msg Hs) as (b & Hp & _). cbn [fst] in Hp. unfold pack_send.
  rewrite Hp. by eexists.
Qed.
Lemma pack_send_Ok meta msg c c' :
  sized (meta, default [] msg) -> conn_alive c = true -> pack_send meta_bytes meta msg c = Ok c' ->
  exists b, buffer_ok b /\ contents b = wire (meta, default [] msg) /\
    c' = mk_channel true (reqs_ c) (services_ c) (id_ c) (out c ++ [Send_buffer (Some b)]).
Proof.
  intros Hs Ha. unfold pack_send. intros (b & Hp & H)%bind_Ok. injection H as <-.
  destruct (pack_ok _ msg (proj2 Hs)) as (b0 & Hp0 & Hb & Hc). cbn [fst] in Hp0. rewrite Hp in Hp0. injection Hp0 as <-. exists b.
  split_and!; [done | exact Hc |]. unfold with_out. by rewrite Ha.
Qed.

(** The controller a call waits with. *)
Definition pending_controller (k : call) : RpcController :=
  set_done (call_done k) (set_resp (call_response k) (call_controller k)).
Definition request_of (k : call) (id : Z) : RpcMeta :=
  mk_meta (Some (mk_request_meta (call_service k) (call_method k))) None id.
Definition response_of (e : ErrorCode) (id : Z) : RpcMeta :=
  mk_meta None (Some (mk_response_meta (code_num e) (default [] (CodeError e)))) id.

Lemma CallMethod_Ok k c :
  sized (request_of k (id_ c), call_request k) -> conn_alive c = true ->
  exists c', CallMethod meta_bytes k c = Ok c' /\
  reqs_ c' !! id_ c = Some (pending_controller k) /\
  exists b, buffer_ok b /\ contents b = wire (request_of k (id_ c), call_request k) /\
    out c' = out c ++ [Send_buffer (Some b)].
Proof.
  intros Hs Ha. unfold CallMethod. set (c0 := mk_channel _ _ _ _ _).
  destruct (pack_send_total (request_of k (id_ c)) (Some (call_request k)) c0 Hs) as [c' H].
  exists c'. split; [exact H |]. apply pack_send_Ok in H as (b & Hb & Hc & ->); [| exact Hs | done].
  split; [apply lookup_insert_eq |]. by exists b.
Qed.

Lemma ParseFromArray_small {A} (parse : list Byte.byte -> A) meta msg :
  small meta msg -> ParseFromArray parse msg = Ok (parse msg).
Proof.
  intros Hs%small_size. pose proof (vsize_nonneg meta). unfold ParseFromArray.
  by rewrite (proj2 (Z.leb_gt (2 ^ 31) (vsize msg))) by lia.
Qed.

(** A response whose message the client can parse. *)
Lemma response_received k id e m c u :
  reqs_ c !! id = Some (pending_controller k) -> call_done k = true ->
  match call_response k with Some parses => parses m = true | None => True end ->
  sized (response_of e id, m) ->
  process_message (response_of e id) m c u =
  (c' ← CallMethods meta_bytes (run_done id (pending_controller k) m u).1
          (set_reqs (delete id (reqs_ c)) c);
   mret (c', (run_done id (pending_controller k) m u).2)).
Proof.
  intros Hr Hd Hp [_ Hs]. unfold Rpc.process_message, process_response. simpl. rewrite Hr.
  unfold pending_controller in *. simpl. rewrite Hd.
  destruct (call_response k) as [parses |]; [rewrite (ParseFromArray_small _ _ _ Hs); simpl; rewrite Hp |]; done.
Qed.
(** A request whose method is found, and is completed at once; and one without service. *)
Lemma request_completed k id services methods parses failed resp c u u' :
  services_ c = Services services -> services !! call_service k = Some methods ->
  methods !! call_method k = Some parses -> parses (call_request k) = true ->
  sized (request_of k id, call_request k) ->
  invoke (call_service k) (call_method k) id (call_request k) u = ([mk_completion id failed resp], u') ->
  process_message (request_of k id) (call_request k) c u =
  (c' ← pack_send meta_bytes (response_of (if failed then EINTERNAL else ENOERROR) id) (Some resp) c;
   mret (c', u')).
Proof.
  intros Hs Hsvc Hm Hp [_ Hsz] Hi. unfold Rpc.process_message, process_request, find_method. simpl.
  rewrite Hs, Hsvc, Hm, (ParseFromArray_small _ _ _ Hsz). simpl. rewrite Hp. simpl. rewrite Hi. simpl. unfold on_done, send_resp. simpl.
  by destruct (pack_send _ _ _ _).
Qed.
Lemma request_refused k id services c u :
  services_ c = Services services -> services !! call_service k = None ->
  process_message (request_of k id) (call_request k) c u =
  (c' ← pack_send meta_bytes (response_of ENOSERVICE id) None c; mret (c', u)).
Proof.
  intros Hs Hsvc. unfold Rpc.process_message, process_request, find_method. simpl.
  by rewrite Hs, Hsvc.
Qed.

(** A response that is packed is received. *)
Lemma response_packed k id e msg c c' cl u :
  sized (response_of e id, default [] msg) -> conn_alive c = true ->
  reqs_ cl !! id = Some (pending_controller k) -> call_done k = true ->
  match call_response k with Some parses => parses (default [] msg) = true | None => True end ->
  pack_send meta_bytes (response_of e id) msg c = Ok c' ->
  exists b, out c' = out c ++ [Send_buffer (Some b)] /\
    process (S (length (contents b))) (contents b) cl u =
    (cl' ← CallMethods meta_bytes (run_done id (pending_controller k) (default [] msg) u).1
             (set_reqs (delete id (reqs_ cl)) cl);
     mret (Some ([Skip (vsize (contents b))], cl',
                 (run_done id (pending_controller k) (default [] msg) u).2))).
Proof.
  intros Hs Ha Hr Hd Hp H. apply pack_send_Ok in H as (b & _ & Hc & ->); [| done..].
  exists b. split; [done |]. rewrite Hc, process_one by done. cbn [fst snd].
  rewrite (response_received k) by done. by destruct (CallMethods _ _ _).
Qed.
End stream.

(** ** Properties *)

(** A message that can be sent: a meta part with the types of its fields, and a size that the
    runtime accepts. *)
Definition sendable `{Protobuf} : RpcMeta * list Byte.byte -> Prop := sized meta_ok RpcMeta_serialize.

(** The messages of a channel whose identifiers are of their type. *)
Lemma request_of_ok `{Protobuf} k id :
  - 2 ^ 63 <= id < 2 ^ 63 -> VerifyUTF8 (call_service k) = true -> VerifyUTF8 (call_method k) = true ->
  meta_ok (request_of k id).
Proof. intros Hid Hs Hm. split; simpl; [by intros r [= <-] | done | done]. Qed.
Lemma response_of_ok `{Protobuf_laws} e id : - 2 ^ 63 <= id < 2 ^ 63 -> meta_ok (response_of e id).
Proof.
  intros Hid. split; simpl; [done | intros r [= <-] | done]. split; [destruct e; simpl; lia |].
  apply VerifyUTF8_ascii. destruct e; repeat constructor.
Qed.

Section properties.
Context `{Protobuf_laws} {U : Type}.
Context (invoke : list Byte.byte -> list Byte.byte -> Z -> list Byte.byte -> U -> list completion * U)
  (run_done : Z -> RpcController -> list Byte.byte -> U -> list call * U).
Abbreviation process := (process RpcMeta_serialize RpcMeta_parse invoke run_done).
Abbreviation CallMethods := (CallMethods RpcMeta_serialize).

(** C21. Messages survive the network.  Pack any sequence of messages, each with a well-typed
    meta part and below the size limit of protobuf ([sendable]), and cut the bytes of their
    buffers into pieces of any size: the channel that is given the pieces, one after the
    other, processes exactly these messages in their order, and nothing is left in its
    buffer. *)
Theorem rpc_stream (ms : list (RpcMeta * list Byte.byte)) (bs : list Buffer)
    (pieces : list (list Byte.byte)) (c : RpcChannel) (u : U) :
  Forall sendable ms ->
  Forall2 (fun x b => pack (RpcMeta_serialize x.1) (Some x.2) = Ok b) ms bs ->
  concat pieces = concat (contents <$> bs) ->
  rpc_feed RpcMeta_serialize RpcMeta_parse invoke run_done pieces [] c u =
  (r ← process_all RpcMeta_serialize invoke run_done ms c u; mret (Some ([], r.1, r.2))).
Proof.
  intros Hs Hbs Hcat. apply (rpc_feed_ok meta_ok RpcMeta_serialize RpcMeta_parse); [exact Hs | apply waits_nil |].
  rewrite app_nil_l, Hcat. clear Hcat. f_equal.
  induction Hbs as [| x b ms bs Hb _ IH]; [done |]. apply Forall_cons in Hs as [[_ Hx] Hs].
  cbn [fmap list_fmap]. f_equal; [| by apply IH].
  destruct (pack_ok _ (Some x.2) Hx) as (b0 & Hb0 & _ & ?). rewrite Hb in Hb0. by injection Hb0 as <-.
Qed.

(** C22. A call is carried to its method and the answer to its caller, when both messages are
    [sendable] and the method completes the call before it returns.  The client's
    [CallMethod] succeeds, and the buffer it sends makes the server's [process] invoke the
    method with the request, once; [process] succeeds there too, and the buffer the server
    sends makes the client run the closure of this call with the response, and forget the
    call.  Whether the method reported a failure makes no difference to the client: its
    controller is the one it had. *)
Theorem call_roundtrip (k : call) (cl sv : RpcChannel) (uc us us' : U) services methods parses
    (failed : bool) (resp : list Byte.byte) :
  conn_alive cl = true -> conn_alive sv = true -> services_ sv = Services services ->
  services !! call_service k = Some methods -> methods !! call_method k = Some parses ->
  parses (call_request k) = true ->
  invoke (call_service k) (call_method k) (id_ cl) (call_request k) us
    = ([mk_completion (id_ cl) failed resp], us') ->
  match call_response k with Some p => p resp = true | None => True end -> call_done k = true ->
  sendable (request_of k (id_ cl), call_request k) ->
  (forall e, sendable (response_of e (id_ cl), resp)) ->
  exists cl1 b1 sv1 b2,
  CallMethod RpcMeta_serialize k cl = Ok cl1 /\ out cl1 = out cl ++ [Send_buffer (Some b1)] /\
  process (S (length (contents b1))) (contents b1) sv us =
    Ok (Some ([Skip (vsize (contents b1))], sv1, us')) /\ out sv1 = out sv ++ [Send_buffer (Some b2)] /\
  process (S (length (contents b2))) (contents b2) cl1 uc =
  (c ← CallMethods (run_done (id_ cl) (pending_controller k) resp uc).1
         (set_reqs (delete (id_ cl) (reqs_ cl1)) cl1);
   mret (Some ([Skip (vsize (contents b2))], c,
               (run_done (id_ cl) (pending_controller k) resp uc).2))).
Proof.
  intros Hac Has Hsv Hsvc Hm Hp Hinv Hresp Hdone Hsq Hsr. unfold sendable in *.
  destruct (CallMethod_Ok meta_ok RpcMeta_serialize k cl) as (cl1 & Hcall & Hreq & b1 & _ & Hc1 & Hout); [done.. |].
  set (e := if failed then EINTERNAL else ENOERROR).
  destruct (pack_send_total meta_ok RpcMeta_serialize (response_of e (id_ cl)) (Some resp) sv (Hsr e)) as [sv1 Hps].
  destruct (response_packed meta_ok RpcMeta_serialize RpcMeta_parse invoke run_done k (id_ cl) e (Some resp) sv sv1 cl1 uc)
    as (b2 & Ho & Hpr); [done.. |].
  exists cl1, b1, sv1, b2. split_and!; [done | done | | done | done].
  rewrite Hc1, (process_one meta_ok RpcMeta_serialize RpcMeta_parse) by done. cbn [fst snd].
  erewrite (request_completed meta_ok) by done. fold e. by rewrite Hps.
Qed.

(** The errors of the server do not reach the caller.  A request for a service the
    server does not have is answered with the code 1001 and no message.  The client looks only
    at whether it can parse the message, and an empty one is a message of every proto3
    type: the closure runs with the controller it had, which reports no failure, and with
    an empty response. *)
Theorem server_error_is_lost (k : call) (cl sv : RpcChannel) (uc us : U) services :
  conn_alive cl = true -> conn_alive sv = true -> services_ sv = Services services ->
  services !! call_service k = None ->
  match call_response k with Some p => p [] = true | None => True end -> call_done k = true ->
  Failed (call_controller k) = false ->
  sendable (request_of k (id_ cl), call_request k) ->
  sendable (response_of ENOSERVICE (id_ cl), []) ->
  exists cl1 b1 sv1 b2,
  CallMethod RpcMeta_serialize k cl = Ok cl1 /\ out cl1 = out cl ++ [Send_buffer (Some b1)] /\
  process (S (length (contents b1))) (contents b1) sv us =
    Ok (Some ([Skip (vsize (contents b1))], sv1, us)) /\ out sv1 = out sv ++ [Send_buffer (Some b2)] /\
  Failed (pending_controller k) = false /\
  process (S (length (contents b2))) (contents b2) cl1 uc =
  (c ← CallMethods (run_done (id_ cl) (pending_controller k) [] uc).1
         (set_reqs (delete (id_ cl) (reqs_ cl1)) cl1);
   mret (Some ([Skip (vsize (contents b2))], c,
               (run_done (id_ cl) (pending_controller k) [] uc).2))).
Proof.
  intros Hac Has Hsv Hsvc Hresp Hdone Hf Hsq Hsr. unfold sendable in *.
  destruct (CallMethod_Ok meta_ok RpcMeta_serialize k cl) as (cl1 & Hcall & Hreq & b1 & _ & Hc1 & Hout); [done.. |].
  destruct (pack_send_total meta_ok RpcMeta_serialize (response_of ENOSERVICE (id_ cl)) None sv Hsr) as [sv1 Hps].
  destruct (response_packed meta_ok RpcMeta_serialize RpcMeta_parse invoke run_done k (id_ cl) ENOSERVICE None sv sv1 cl1 uc)
    as (b2 & Ho & Hpr); [done.. |].
  exists cl1, b1, sv1, b2. split_and!; [done | done | | done | done | done].
  rewrite Hc1, (process_one meta_ok RpcMeta_serialize RpcMeta_parse) by done. cbn [fst snd].
  erewrite request_refused by done. by rewrite Hps.
Qed.

(** A meta part that is no protobuf message hangs the program.  [process] closes the
    connection but neither leaves the loop nor removes the frame: it looks at the same
    bytes for ever, whatever amount of turns it is given. *)
Theorem bad_meta_hangs (data : list Byte.byte) (c : RpcChannel) (u : U) (fuel : nat) :
  examine RpcMeta_parse data = Ok Bad_meta ->
  process fuel data c u = Ok None.
Proof.
  intros He. revert c. induction fuel as [| fuel IH]; intros c; [done |].
  cbn [Rpc.process]. rewrite He. apply IH.
Qed.
End properties.

(** ** Examples

    An application that echoes, over [plain_runtime]. *)

Definition echo_invoke (service method : list Byte.byte) (id : Z) (req : list Byte.byte) (u : nat) :
    list completion * nat := ([mk_completion id false req], S u).
Definition count_done (id : Z) (ctrl : RpcController) (msg : list Byte.byte) (u : nat) :
    list call * nat := ([], if Failed ctrl then u else S (u + length msg)).

Definition echo_call : call :=
  mk_call (bytes "Echo") (bytes "Say") (bytes "hello") RpcController_init (Some (fun _ => true)) true.
Definition echo_services : gmap (list Byte.byte) Service :=
  {[ bytes "Echo" := {[ bytes "Say" := fun _ => true ]} ]}.
Definition echo_client : RpcChannel := set_conn (RpcChannel_init 7).
Definition echo_server : RpcChannel := set_services echo_services (set_conn (RpcChannel_init 0)).

Definition empty_buffer : Buffer := mk_Buffer [] 0 0.
Definition echo_messages : list (RpcMeta * list Byte.byte) :=
  [(request_of echo_call 7, bytes "hello"); (request_of echo_call 8, bytes "again")].
Definition echo_buffers : list Buffer :=
  (fun x => result empty_buffer (pack (RpcMeta_serialize x.1) (Some x.2))) <$> echo_messages.
Definition echo_bytes : list Byte.byte := concat (contents <$> echo_buffers).

Lemma short_sendable x :
  meta_ok x.1 -> (length (RpcMeta_serialize x.1) + length x.2 <=? 4000)%nat = true -> sendable x.
Proof. intros Hok H%Nat.leb_le. split; [done |]. unfold small, vsize, max_message. lia. Qed.

Ltac request_sendable :=
  apply short_sendable; [apply request_of_ok; [simpl; lia | reflexivity | reflexivity] | vm_compute; reflexivity].

(** Two requests in three pieces, cut inside the first header and inside the second frame. *)
Lemma rpc_stream_witness : exists c,
  rpc_feed RpcMeta_serialize RpcMeta_parse echo_invoke count_done
    [take 5 echo_bytes; take 500 (drop 5 echo_bytes); drop 505 echo_bytes] [] echo_server 0%nat
  = Ok (Some ([], c, 2%nat)) /\ length (out c) = 2%nat.
Proof.
  assert (H : rpc_feed RpcMeta_serialize RpcMeta_parse echo_invoke count_done
    [take 5 echo_bytes; take 500 (drop 5 echo_bytes); drop 505 echo_bytes] [] echo_server 0%nat
    = (r ← process_all RpcMeta_serialize echo_invoke count_done echo_messages echo_server 0%nat;
       mret (Some ([], r.1, r.2)))).
  { apply (rpc_stream echo_invoke count_done echo_messages echo_buffers).
    - apply Forall_cons_2; [request_sendable | apply Forall_cons_2; [request_sendable | constructor]].
    - repeat constructor; vm_compute; reflexivity.
    - vm_compute. reflexivity. }
  eassert (Hall : process_all RpcMeta_serialize echo_invoke count_done echo_messages echo_server 0%nat = Ok (_, 2%nat))
    by (vm_compute; reflexivity).
  rewrite Hall in H. eexists. split; [exact H | vm_compute; reflexivity].
Defined.

Definition echo_client1 : RpcChannel := result echo_client (CallMethod RpcMeta_serialize echo_call echo_client).

(** The five letters come back: the client counts one success and five letters. *)
Lemma call_roundtrip_witness : exists b1 b2 sv1 cl2,
  out echo_client1 = [Send_buffer (Some b1)] /\
  process RpcMeta_serialize RpcMeta_parse echo_invoke count_done (S (length (contents b1))) (contents b1) echo_server 0%nat
    = Ok (Some ([Skip (vsize (contents b1))], sv1, 1%nat)) /\
  out sv1 = [Send_buffer (Some b2)] /\
  process RpcMeta_serialize RpcMeta_parse echo_invoke count_done (S (length (contents b2))) (contents b2) echo_client1 0%nat
    = Ok (Some ([Skip (vsize (contents b2))], cl2, 6%nat)) /\ reqs_ cl2 = ∅.
Proof.
  destruct (call_roundtrip echo_invoke count_done echo_call echo_client echo_server
    0%nat 0%nat 1%nat echo_services {[ bytes "Say" := fun _ => true ]} (fun _ => true)
    false (bytes "hello")) as (cl1 & b1 & sv1 & b2 & Hc & Ho & Hs & Ho2 & H);
    [reflexivity | reflexivity | reflexivity | vm_compute; reflexivity | vm_compute; reflexivity
    | reflexivity | reflexivity | reflexivity | reflexivity | request_sendable | |].
  - intros e. apply short_sendable; [apply response_of_ok; simpl; lia | destruct e; vm_compute; reflexivity].
  - assert (Hc1 : CallMethod RpcMeta_serialize echo_call echo_client = Ok echo_client1) by (vm_compute; reflexivity).
    rewrite Hc1 in Hc. injection Hc as <-. exists b1, b2, sv1. eexists. split; [exact Ho |]. split; [exact Hs |].
    split; [exact Ho2 |]. split; [etransitivity; [exact H |]; reflexivity | vm_compute; reflexivity].
Defined.

(** A call of a service nobody has registered: the closure counts it as a success. *)
Definition lost_call : call :=
  mk_call (bytes "None") (bytes "Say") (bytes "hello") RpcController_init (Some (fun _ => true)) true.
Definition lost_client : RpcChannel := result echo_client (CallMethod RpcMeta_serialize lost_call echo_client).

Lemma server_error_is_lost_witness : exists b1 sv1 b2 cl2,
  out lost_client = [Send_buffer (Some b1)] /\
  process RpcMeta_serialize RpcMeta_parse echo_invoke count_done (S (length (contents b1))) (contents b1) echo_server 0%nat
    = Ok (Some ([Skip (vsize (contents b1))], sv1, 0%nat)) /\
  out sv1 = [Send_buffer (Some b2)] /\
  process RpcMeta_serialize RpcMeta_parse echo_invoke count_done (S (length (contents b2))) (contents b2) lost_client 0%nat
    = Ok (Some ([Skip (vsize (contents b2))], cl2, 1%nat)).
Proof.
  destruct (server_error_is_lost echo_invoke count_done lost_call echo_client
    echo_server 0%nat 0%nat echo_services) as (cl1 & b1 & sv1 & b2 & Hc & Ho & Hs & Ho2 & _ & H);
    [reflexivity | reflexivity | reflexivity | vm_compute; reflexivity | reflexivity | reflexivity
    | reflexivity | request_sendable | |].
  - apply short_sendable; [apply response_of_ok; simpl; lia | vm_compute; reflexivity].
  - assert (Hc1 : CallMethod RpcMeta_serialize lost_call echo_client = Ok lost_client) by (vm_compute; reflexivity).
    rewrite Hc1 in Hc. injection Hc as <-. exists b1, sv1, b2. eexists. split; [exact Ho |]. split; [exact Hs |].
    split; [exact Ho2 |]. etransitivity; [exact H |]. reflexivity.
Defined.

(** A frame whose meta part is the single byte 1. *)
Definition bad_frame : list Byte.byte := frame [Byte.x01] [].
Lemma bad_meta_hangs_witness :
  process RpcMeta_serialize RpcMeta_parse echo_invoke count_done 1000 bad_frame echo_server 0%nat = Ok None.
Proof.
  apply bad_meta_hangs. vm_compute. reflexivity.
Defined.
