(* ===== verification/RpcMemory.v ===== *)
(** * RpcMemory: who owns the objects of a call
    ([src/examples/rpc/RpcChannel.cpp], [RpcController.*], [client.cpp])

    A channel, its controllers, messages and closures hold each other by pointers, and each
    is deleted by hand.  This is the channel of [Rpc] again, with a heap: an access to
    an object that is not there, or is of another class, is undefined, and so is a second
    [delete]. *)

From S2P Require Import Prelude.
From S2P Require Import Cpp.
From S2P Require Import Buffer.
From S2P Require Import TcpConnection.
From S2P Require Import Rpc.
From stdpp Require Import gmap list.
Local Open Scope Z_scope.

Abbreviation addr := nat (only parsing).

(** ** Objects *)

(** The members of a controller; the null pointer is [None]. *)
Record controller := mk_ctrl {
  response_ : option addr;
  done_ : option addr;
  error_text_ : text;
  error_code_ : Z;
  log_id_ : Z
}.

(** What a closure is bound to: that of a client's call to its controller and response, and
    that of a server's to the identifier and the controller; both are made by
    [NewCallback], and delete themselves when they have run. *)
Inductive closure :=
  | Client_done (ctrl : addr) (resp : option addr)
  | Server_done (id : Z) (ctrl : addr).

Inductive object :=
  | Message (parses : text -> bool) (value : text)
  | Controller (c : controller)
  | Closure (k : closure).

(** The channel with the heap; [made] counts the calls. *)
Record channel := mk_chan {
  heap : gmap addr object;
  next : addr;                            (* where the next object is allocated *)
  conn_weak_ : bool;
  reqs_ : gmap Z addr;
  services_ : services_ptr;
  id_ : Z;
  sends : list TcpConnection.request;
  made : Z;
  alive : bool                            (* the destructor has not run *)
}.

Definition RpcChannel_new (id : Z) : channel := mk_chan ∅ 0 false ∅ Indeterminate id [] 0 true.
Definition with_heap (h : gmap addr object) (s : channel) : channel :=
  mk_chan h (next s) (conn_weak_ s) (reqs_ s) (services_ s) (id_ s) (sends s) (made s) (alive s).
Definition with_reqs (m : gmap Z addr) (s : channel) : channel :=
  mk_chan (heap s) (next s) (conn_weak_ s) m (services_ s) (id_ s) (sends s) (made s) (alive s).
Definition set_conn (s : channel) : channel :=
  mk_chan (heap s) (next s) true (reqs_ s) (services_ s) (id_ s) (sends s) (made s) (alive s).
Definition set_services (m : gmap text Service) (s : channel) : channel :=
  mk_chan (heap s) (next s) (conn_weak_ s) (reqs_ s) (Services m) (id_ s) (sends s) (made s) (alive s).

(** [new], [delete], and what is behind a pointer. *)
Definition new (o : object) (s : channel) : addr * channel :=
  (next s, mk_chan (<[next s := o]> (heap s)) (S (next s)) (conn_weak_ s) (reqs_ s) (services_ s) (id_ s)
             (sends s) (made s) (alive s)).
Definition delete_ (p : option addr) (s : channel) : outcome channel :=
  match p with
  | None => mret s
  | Some a =>
      match heap s !! a with
      | Some _ => mret (with_heap (delete a (heap s)) s)
      | None => Undefined "delete of an object that is not there"
      end
  end.
Definition get_controller (a : addr) (s : channel) : outcome controller :=
  match heap s !! a with Some (Controller c) => mret c | _ => Undefined "no controller" end.
Definition get_message (a : addr) (s : channel) : outcome ((text -> bool) * text) :=
  match heap s !! a with Some (Message parses v) => mret (parses, v) | _ => Undefined "no message" end.
Definition get_closure (a : addr) (s : channel) : outcome closure :=
  match heap s !! a with Some (Closure k) => mret k | _ => Undefined "no closure" end.
Definition put (a : addr) (o : object) (s : channel) : channel := with_heap (<[a := o]> (heap s)) s.

Definition set_resp (p : option addr) (c : controller) : controller :=
  mk_ctrl p (done_ c) (error_text_ c) (error_code_ c) (log_id_ c).
Definition set_done (p : option addr) (c : controller) : controller :=
  mk_ctrl (response_ c) p (error_text_ c) (error_code_ c) (log_id_ c).
Definition SetFailed (reason : text) (c : controller) : controller :=
  mk_ctrl (response_ c) (done_ c) reason (-1) (log_id_ c).
Definition Failed (c : controller) : bool := negb (error_code_ c =? 0).
Definition controller_init : controller := mk_ctrl None None [] 0 0.

(** ** The destructor

    The map is iterated in some order. *)
Fixpoint delete_calls (l : list (Z * addr)) (s : channel) : outcome channel :=
  match l with
  | [] => mret s
  | (_, ctrl) :: l =>
      c ← get_controller ctrl s;
      s ← delete_ (response_ c) s;
      c ← get_controller ctrl s;
      s ← delete_ (done_ c) s;
      s ← delete_ (Some ctrl) s;
      delete_calls l s
  end.
Definition RpcChannel_destroy (s : channel) : outcome channel :=
  s ← delete_calls (map_to_list (reqs_ s)) s;
  mret (mk_chan (heap s) (next s) false ∅ Null (id_ s) (sends s) (made s) false).

Section channel.
Context (meta_bytes : RpcMeta -> text).

Definition pack_send (meta : RpcMeta) (msg : option text) (s : channel) : outcome channel :=
  b ← pack (meta_bytes meta) msg;
  mret (if conn_weak_ s
        then mk_chan (heap s) (next s) true (reqs_ s) (services_ s) (id_ s)
               (sends s ++ [Send_buffer (Some b)]) (made s) (alive s)
        else s).

Definition send_resp (id : Z) (code : ErrorCode) (resp : option text) (s : channel) : outcome channel :=
  pack_send (mk_meta None (Some (mk_response_meta (code_num code) (default [] (CodeError code)))) id) resp s.

(** ** The client *)

(** [CallMethod(method, controller, request, response, done)]. *)
Definition CallMethod (service method request : text) (ctrl : addr) (resp done : option addr) (s : channel) :
    outcome channel :=
  let id := id_ s in
  let meta := mk_meta (Some (mk_request_meta service method)) None id in
  c ← get_controller ctrl s;
  let s := put ctrl (Controller (set_done done (set_resp resp c))) s in
  let s := mk_chan (heap s) (next s) (conn_weak_ s) (<[id := ctrl]> (reqs_ s)) (services_ s) (s64 (id + 1))
             (sends s) (made s + 1) (alive s) in
  pack_send meta (Some request) s.

(** A call as the application makes it: a response, a controller and a closure are allocated
    and handed over. *)
Definition start_call (k : call) (s : channel) : outcome channel :=
  let '(resp, s) :=
    match call_response k with
    | Some parses => let r := new (Message parses []) s in (Some r.1, r.2)
    | None => (None, s)
    end in
  let v := call_controller k in
  let '(ctrl, s) := new (Controller (mk_ctrl None None (ctrl_error_text v) (ctrl_error_code v) (Rpc.log_id_ v))) s in
  let '(done, s) :=
    if call_done k then let r := new (Closure (Client_done ctrl resp)) s in (Some r.1, r.2) else (None, s) in
  CallMethod (call_service k) (call_method k) (call_request k) ctrl resp done s.
Fixpoint start_calls (ks : list call) (s : channel) : outcome channel :=
  match ks with
  | [] => mret s
  | k :: ks => s ← start_call k s; start_calls ks s
  end.

(** ** The server

    A service is given the closure, which leads it to the controller and the response, and
    completes calls, this one or earlier ones: it fills the response and runs the closure. *)
Record completion := mk_completion { c_done : addr; c_failed : bool; c_response : text }.

(** [on_done(id, ctrl)], through the pointer to the channel that the closure keeps. *)
Definition on_done (id : Z) (ctrl : addr) (s : channel) : outcome channel :=
  if negb (alive s) then Undefined "the channel was destroyed" else
  c ← get_controller ctrl s;
  let error := if Failed c then EINTERNAL else ENOERROR in
  resp ← match response_ c with
         | Some r => m ← get_message r s; mret (Some m.2)
         | None => mret None
         end;
  s ← send_resp id error resp s;
  s ← delete_ (response_ c) s;
  delete_ (Some ctrl) s.

(** The service fills in its objects, and [done->Run()]; the closure deletes itself. *)
Definition complete (d : completion) (s : channel) : outcome channel :=
  k ← get_closure (c_done d) s;
  match k with
  | Client_done _ _ => Undefined "not the closure of a request"
  | Server_done id ctrl =>
      c ← get_controller ctrl s;
      s ← match response_ c with
          | Some r => m ← get_message r s; mret (put r (Message m.1 (c_response d)) s)
          | None => Undefined "no response"
          end;
      let s := if c_failed d then put ctrl (Controller (SetFailed (bytes "failed") c)) s else s in
      s ← on_done id ctrl s;
      delete_ (Some (c_done d)) s
  end.
Fixpoint completes (ds : list completion) (s : channel) : outcome channel :=
  match ds with
  | [] => mret s
  | d :: ds => s ← complete d s; completes ds s
  end.

(** ** Messages

    [invoke] is the application's services and [run_done] the closures of its calls, of
    which the number names the call, as in [Rpc]. *)
Context {U : Type}.
Context (invoke : text -> text -> addr -> text -> U -> list completion * U).
Context (run_done : Z -> RpcController -> text -> U -> list call * U).

(** What an application sees of a controller. *)
Definition value (h : gmap addr object) (c : controller) : RpcController :=
  mk_controller
    (r ← response_ c; match h !! r with Some (Message parses _) => Some parses | _ => None end)
    (bool_decide (is_Some (done_ c))) (error_text_ c) (error_code_ c) (log_id_ c).

(** [ctrl->get_done()->Run()] of a client. *)
Definition run_closure (id : Z) (d : addr) (msg : text) (s : channel) (u : U) : outcome (channel * U) :=
  k ← get_closure d s;
  match k with
  | Server_done _ _ => Undefined "not the closure of a call"
  | Client_done ctrl _ =>
      c ← get_controller ctrl s;
      let r := run_done id (value (heap s) c) msg u in
      s ← start_calls r.1 s;
      s ← delete_ (Some d) s;
      mret (s, r.2)
  end.

(** The two [unique_ptr] of the response and of the controller delete at the end. *)
Definition process_response (meta : RpcMeta) (msg : text) (s : channel) (u : U) : outcome (channel * U) :=
  let id := correlation_id meta in
  match reqs_ s !! id with
  | None => mret (s, u)
  | Some ctrl =>
      let s := with_reqs (delete id (reqs_ s)) s in
      c ← get_controller ctrl s;
      x ← match response_ c with
          | Some r =>
              m ← get_message r s;
              ok ← ParseFromArray m.1 msg;
              mret (if ok : bool then (ENOERROR, put r (Message m.1 msg) s) else (ERESPONSE, s))
          | None => mret (ENOERROR, s)
          end;
      let c := match CodeError x.1 with Some t => SetFailed t c | None => c end in
      let s := put ctrl (Controller c) x.2 in
      r ← match done_ c with
          | Some d => run_closure id d msg s u
          | None => mret (s, u)
          end;
      s ← delete_ (response_ c) r.1;
      s ← delete_ (Some ctrl) s;
      mret (s, r.2)
  end.

(** The objects of a request, its message apart: the response, the controller and the closure
    that the method is given. *)
Definition prepare (id : Z) (s : channel) : addr * channel :=
  let '(resp, s) := new (Message (fun _ => true) []) s in
  let '(ctrl, s) := new (Controller controller_init) s in
  let '(done, s) := new (Closure (Server_done id ctrl)) s in
  (done, put ctrl (Controller (set_done (Some done) (set_resp (Some resp) controller_init))) s).

Definition invoke_method (rq : RpcRequestMeta) (id : Z) (msg : text) (s : channel) (u : U) :
    outcome (channel * U) :=
  let '(done, s) := prepare id s in
  let r := invoke (service_name rq) (method_name rq) done msg u in
  s ← completes r.1 s;
  mret (s, r.2).

(** The message of the request is deleted when the method returns, or when it cannot be parsed. *)
Definition process_request (rq : RpcRequestMeta) (meta : RpcMeta) (msg : text) (s : channel) (u : U) :
    outcome (channel * U) :=
  let id := correlation_id meta in
  let refuse error s := s ← send_resp id error None s; mret (s, u) in
  match services_ s with
  | Indeterminate => Undefined "services_ was never set"
  | Null => refuse ENOSERVICE s
  | Services m =>
      match m !! service_name rq with
      | None => refuse ENOSERVICE s
      | Some service =>
          match service !! method_name rq with
          | None => refuse ENOMETHOD s
          | Some parses =>
              let '(request, s) := new (Message parses msg) s in
              ok ← ParseFromArray parses msg;
              if negb ok
              then s ← delete_ (Some request) s; refuse EREQUEST s
              else r ← invoke_method rq id msg s u; s ← delete_ (Some request) r.1; mret (s, r.2)
          end
      end
  end.

Definition process_message (meta : RpcMeta) (msg : text) (s : channel) (u : U) : outcome (channel * U) :=
  match response meta, request meta with
  | Some _, _ => process_response meta msg s u
  | None, Some rq => process_request rq meta msg s u
  | None, None => mret (s, u)
  end.

(** ** The life of a channel

    The application calls, messages arrive, and a service completes calls later, from
    [wake]. *)
Context (wake : U -> list completion * U).

Inductive event :=
  | Calls (k : call)
  | Receives (meta : RpcMeta) (msg : text)
  | Wakes.

Definition step (e : event) (s : channel) (u : U) : outcome (channel * U) :=
  match e with
  | Calls k => s ← start_call k s; mret (s, u)
  | Receives meta msg => process_message meta msg s u
  | Wakes => let r := wake u in s ← completes r.1 s; mret (s, r.2)
  end.
Fixpoint run_events (es : list event) (s : channel) (u : U) : outcome (channel * U) :=
  match es with
  | [] => mret (s, u)
  | e :: es => r ← step e s u; run_events es r.1 r.2
  end.
End channel.
