(* ===== verification/RpcOwnership.v ===== *)
(** * RpcOwnership: who owns the objects of a channel

    The invariant [wf] of the heap of [RpcMemory]: every controller holds a block of at most
    three objects, blocks do not overlap, and each belongs to an entry of [reqs_], to the
    closure of a request, or to the function that is running.  Blocks are added, changed,
    handed over and deleted. *)

From S2P Require Import Prelude.
From S2P Require Import Cpp.
From S2P Require Import Buffer.
From S2P Require Import TcpConnection.
From S2P Require Import Rpc.
From S2P Require Import RpcMemory.
From stdpp Require Import gmap list.
Local Open Scope Z_scope.

Lemma nothing_minus (x : gset addr) : ∅ ∖ x = ∅.
Proof. set_solver. Qed.

(** ** The invariant *)

Definition closure_ctrl (k : closure) : addr :=
  match k with Client_done a _ => a | Server_done _ a => a end.
Definition of_client (k : closure) : bool := match k with Client_done _ _ => true | _ => false end.

(** [X] are messages that a function holds, [Y] controllers that it has taken out of
    [reqs_]; [id0] is the first identifier. *)
Record wf (id0 : Z) (X Y : gset addr) (s : channel) : Prop := {
  w_next a o : heap s !! a = Some o -> (a < next s)%nat;
  w_message r p v : heap s !! r = Some (Message p v) ->
    r ∈ X \/ (exists a c, heap s !! a = Some (Controller c) /\ response_ c = Some r);
  w_closure d k : heap s !! d = Some (Closure k) ->
    exists c, heap s !! closure_ctrl k = Some (Controller c) /\ done_ c = Some d;
  w_response a c r : heap s !! a = Some (Controller c) -> response_ c = Some r ->
    (exists p v, heap s !! r = Some (Message p v)) /\ (r ∉ X) /\
    forall a' c', heap s !! a' = Some (Controller c') -> response_ c' = Some r -> a' = a;
  w_done a c d : heap s !! a = Some (Controller c) -> done_ c = Some d ->
    exists k, heap s !! d = Some (Closure k) /\ closure_ctrl k = a /\ (of_client k = false -> is_Some (response_ c));
  w_reqs id a : reqs_ s !! id = Some a -> (a ∉ Y) /\
    exists c, heap s !! a = Some (Controller c) /\
      forall d k, done_ c = Some d -> heap s !! d = Some (Closure k) -> of_client k = true;
  w_inj id id' a : reqs_ s !! id = Some a -> reqs_ s !! id' = Some a -> id = id';
  w_owned : made s <= 2 ^ 64 -> forall a c, heap s !! a = Some (Controller c) ->
    a ∈ Y \/ (exists id, reqs_ s !! id = Some a) \/
    exists d id, done_ c = Some d /\ heap s !! d = Some (Closure (Server_done id a));
  w_id : id_ s = s64 (id0 + made s) /\ 0 <= made s;
  w_ids id : is_Some (reqs_ s !! id) -> exists k, 0 <= k < made s /\ id = s64 (id0 + k);
  w_X r : r ∈ X -> exists p v, heap s !! r = Some (Message p v);
  w_Y a : a ∈ Y -> (a < next s)%nat
}.

(** The objects of one call. *)
Definition call_block (a : addr) (c : controller) : list addr :=
  a :: option_list (response_ c) ++ option_list (done_ c).

Lemma elem_of_block x a c : x ∈ call_block a c <-> x = a \/ response_ c = Some x \/ done_ c = Some x.
Proof.
  unfold call_block. rewrite elem_of_cons, elem_of_app.
  destruct (response_ c), (done_ c); simpl; rewrite ?list_elem_of_singleton, ?elem_of_nil; naive_solver.
Qed.

(** Blocks do not overlap. *)
Lemma blocks_disjoint id0 X Y s a c a' c' x :
  wf id0 X Y s -> heap s !! a = Some (Controller c) -> heap s !! a' = Some (Controller c') ->
  x ∈ call_block a c -> x ∈ call_block a' c' -> a = a'.
Proof.
  intros Hw Ha Ha' [-> | [H | H]]%elem_of_block [-> | [H' | H']]%elem_of_block; try done.
  - destruct (w_response _ _ _ _ Hw _ _ _ Ha' H') as [(p & v & ?) _]. congruence.
  - destruct (w_done _ _ _ _ Hw _ _ _ Ha' H') as (k & ? & _). congruence.
  - destruct (w_response _ _ _ _ Hw _ _ _ Ha H) as [(p & v & ?) _]. congruence.
  - destruct (w_response _ _ _ _ Hw _ _ _ Ha' H') as (_ & _ & Hu). by apply (Hu _ c).
  - destruct (w_response _ _ _ _ Hw _ _ _ Ha H) as [(p & v & ?) _].
    destruct (w_done _ _ _ _ Hw _ _ _ Ha' H') as (k & ? & _). congruence.
  - destruct (w_done _ _ _ _ Hw _ _ _ Ha H) as (k & ? & _). congruence.
  - destruct (w_response _ _ _ _ Hw _ _ _ Ha' H') as [(p & v & ?) _].
    destruct (w_done _ _ _ _ Hw _ _ _ Ha H) as (k & ? & _). congruence.
  - destruct (w_done _ _ _ _ Hw _ _ _ Ha H) as (k & Hk & <- & _).
    destruct (w_done _ _ _ _ Hw _ _ _ Ha' H') as (k' & Hk' & <- & _). congruence.
Qed.

(** A block that nothing in the map refers to can go. *)
Lemma wf_remove id0 X Y s s' a c :
  wf id0 X Y s -> heap s !! a = Some (Controller c) -> (forall id, reqs_ s !! id <> Some a) ->
  (forall x, heap s' !! x = if decide (x ∈ call_block a c) then None else heap s !! x) ->
  next s' = next s -> reqs_ s' = reqs_ s -> id_ s' = id_ s -> made s' = made s ->
  wf id0 X (Y ∖ {[a]}) s'.
Proof.
  intros Hw Ha Hreq Hh Hn Hr Hi Hm.
  assert (forall x o, heap s' !! x = Some o -> heap s !! x = Some o /\ x ∉ call_block a c) as Hold
    by (intros x o; rewrite Hh; by case_decide).
  assert (forall x o, heap s !! x = Some o -> x ∉ call_block a c -> heap s' !! x = Some o) as Hkeep
    by (intros x o Ho Hx; rewrite Hh; by rewrite decide_False).
  assert (forall a' c', heap s' !! a' = Some (Controller c') -> a' <> a /\ forall x, x ∈ call_block a' c' -> x ∉ call_block a c) as Hdis.
  { intros a' c' H'. destruct (Hold _ _ H') as [Ho Hx]. split; [intros ->; apply Hx, elem_of_block; auto |].
    intros x Hx1 Hx2. apply Hx. rewrite <- (blocks_disjoint _ _ _ _ _ _ _ _ _ Hw Ha Ho Hx2 Hx1).
    apply elem_of_block; auto. }
  split; rewrite ?Hn, ?Hr, ?Hi, ?Hm.
  - intros x o [Ho _]%Hold. by eapply w_next.
  - intros r p v [Ho Hx]%Hold. destruct (w_message _ _ _ _ Hw _ _ _ Ho) as [| (a' & c' & Ha' & Hc')]; [by left | right].
    exists a', c'. split; [| done]. apply Hkeep; [done |]. intros Hin. apply Hx.
    pose proof (blocks_disjoint _ _ _ _ a c a' c' _ Hw Ha Ha' Hin) as Heq.
    rewrite <- Heq in Ha' by (apply elem_of_block; auto). rewrite Ha in Ha'. injection Ha' as <-.
    apply elem_of_block. auto.
  - intros d k [Ho Hx]%Hold. destruct (w_closure _ _ _ _ Hw _ _ Ho) as (c' & Hc' & Hd).
    exists c'. split; [| done]. apply Hkeep; [done |]. intros Hin. apply Hx.
    pose proof (blocks_disjoint _ _ _ _ a c (closure_ctrl k) c' _ Hw Ha Hc' Hin) as Heq.
    rewrite <- Heq in Hc' by (apply elem_of_block; auto). rewrite Ha in Hc'. injection Hc' as <-.
    apply elem_of_block. auto.
  - intros a' c' r H' Hr'. destruct (Hold _ _ H') as [Ho _]. destruct (Hdis _ _ H') as [_ Hd].
    destruct (w_response _ _ _ _ Hw _ _ _ Ho Hr') as ((p & v & Hm') & HX & Hu). split_and!; [| done |].
    + exists p, v. apply Hkeep; [done |]. apply Hd, elem_of_block. auto.
    + intros a2 c2 [H2 _]%Hold. by apply Hu.
  - intros a' c' d H' Hd'. destruct (Hold _ _ H') as [Ho _]. destruct (Hdis _ _ H') as [_ Hd].
    destruct (w_done _ _ _ _ Hw _ _ _ Ho Hd') as (k & Hk & H3). exists k. split; [| done].
    apply Hkeep; [done |]. apply Hd, elem_of_block. auto.
  - intros id a' Hid. destruct (w_reqs _ _ _ _ Hw _ _ Hid) as (HY & c' & Hc' & Hcl).
    assert (a' <> a) by (intros ->; by apply (Hreq id)). split; [set_solver |]. exists c'. split.
    + apply Hkeep; [done |]. intros Hin. assert (a = a') by (eapply (blocks_disjoint _ _ _ _ a c a' c' a' Hw); try done; apply elem_of_block; auto).
      congruence.
    + intros d k Hd [Hk _]%Hold. by eapply Hcl.
  - apply (w_inj _ _ _ _ Hw).
  - intros Hle a' c' H'. destruct (Hold _ _ H') as [Ho _]. destruct (Hdis _ _ H') as [Hne Hd].
    destruct (w_owned _ _ _ _ Hw Hle _ _ Ho) as [H | [H | (d & id & Hd' & Hk)]]; [left; set_solver | right; by left |].
    right. right. exists d, id. split; [done |]. apply Hkeep; [done |]. apply Hd, elem_of_block. auto.
  - apply (w_id _ _ _ _ Hw).
  - apply (w_ids _ _ _ _ Hw).
  - intros r HrX. destruct (w_X _ _ _ _ Hw _ HrX) as (p & v & Hv). exists p, v. apply Hkeep; [done |].
    intros [-> | [Hin | Hin]]%elem_of_block; [congruence | |].
    + by destruct (w_response _ _ _ _ Hw _ _ _ Ha Hin) as (_ & ? & _).
    + destruct (w_done _ _ _ _ Hw _ _ _ Ha Hin) as (k & ? & _). congruence.
  - intros y Hy. apply (w_Y _ _ _ _ Hw). set_solver.
Qed.

(** A block at fresh addresses. *)
Lemma wf_add id0 X Y s s' a c p v k :
  wf id0 X Y s -> (forall x, x ∈ call_block a c -> (next s <= x < next s')%nat) -> (next s <= next s')%nat -> NoDup (call_block a c) ->
  (forall x, heap s' !! x = if decide (x = a) then Some (Controller c)
                       else if decide (response_ c = Some x) then Some (Message p v)
                       else if decide (done_ c = Some x) then Some (Closure k) else heap s !! x) ->
  closure_ctrl k = a -> (of_client k = false -> is_Some (response_ c)) ->
  reqs_ s' = reqs_ s -> id_ s' = id_ s -> made s' = made s ->
  wf id0 X (Y ∪ {[a]}) s'.
Proof.
  intros Hw Hfresh Hn Hnd Hh Hk Hres Hr Hi Hm.
  assert (forall x o, heap s !! x = Some o -> x ∉ call_block a c) as Hout.
  { intros x o Ho Hin. apply Hfresh in Hin. apply (w_next _ _ _ _ Hw) in Ho. lia. }
  assert (forall x o, heap s !! x = Some o -> heap s' !! x = Some o) as Hkeep.
  { intros x o Ho. pose proof (Hout x o Ho) as Hx. rewrite elem_of_block in Hx. rewrite Hh.
    repeat case_decide; naive_solver. }
  assert (forall r, response_ c = Some r -> heap s' !! r = Some (Message p v)) as Hmsg.
  { intros r Hrc. rewrite Hh. destruct (decide (r = a)) as [-> |]; [| by rewrite decide_True].
    unfold call_block in Hnd. rewrite Hrc in Hnd. by apply NoDup_cons in Hnd as [[]%not_elem_of_cons _]. }
  assert (forall d, done_ c = Some d -> heap s' !! d = Some (Closure k)) as Hclo.
  { intros d Hd. unfold call_block in Hnd. rewrite Hd in Hnd. apply NoDup_cons in Hnd as [Hna Hnd].
    rewrite Hh. rewrite decide_False by (intros ->; apply Hna; simpl; set_solver).
    rewrite decide_False; [by rewrite decide_True |]. intros Hrc. rewrite Hrc in Hnd. simpl in Hnd.
    apply NoDup_cons in Hnd as [[]%not_elem_of_cons _]. done. }
  assert (heap s' !! a = Some (Controller c)) as Hctrl by (rewrite Hh; by rewrite decide_True).
  assert (forall x o, heap s' !! x = Some o -> heap s !! x = Some o \/ x = a /\ o = Controller c \/
    response_ c = Some x /\ o = Message p v \/ done_ c = Some x /\ o = Closure k) as Hcase.
  { intros x o. rewrite Hh. repeat case_decide; naive_solver. }
  split; rewrite ?Hr, ?Hi, ?Hm.
  - intros x o [Ho | Hnew]%Hcase; [apply (w_next _ _ _ _ Hw) in Ho; lia |].
    destruct (Hfresh x); [| lia]. apply elem_of_block. naive_solver.
  - intros r p' v' [Ho | [[_ [=]] | [[Hrc _] | [_ [=]]]]]%Hcase; [| right; by exists a, c].
    destruct (w_message _ _ _ _ Hw _ _ _ Ho) as [| (a' & c' & ? & ?)]; [by left | right]. exists a', c'. auto.
  - intros d k' [Ho | [[_ [=]] | [[_ [=]] | [Hd [= ->]]]]]%Hcase; [| exists c; by rewrite Hk].
    destruct (w_closure _ _ _ _ Hw _ _ Ho) as (c' & ? & ?). exists c'. auto.
  - intros a' c' r [Ho | [[-> [= ->]] | [[_ [=]] | [_ [=]]]]]%Hcase Hrc.
    + destruct (w_response _ _ _ _ Hw _ _ _ Ho Hrc) as ((p' & v' & Hm') & HX & Hu). split_and!; [by eauto | done |].
      intros a2 c2 [H2 | [[-> [= ->]] | [[_ [=]] | [_ [=]]]]]%Hcase H3; [by eapply Hu |].
      destruct (Hout _ _ Hm'). apply elem_of_block. auto.
    + split_and!; [by eauto | |].
      * intros HX. destruct (w_X _ _ _ _ Hw _ HX) as (p' & v' & H'). apply (Hout _ _ H'), elem_of_block. auto.
      * intros a2 c2 [H2 | [[-> _] | [[_ [=]] | [_ [=]]]]]%Hcase H3; [| done].
        destruct (w_response _ _ _ _ Hw _ _ _ H2 H3) as ((p' & v' & H') & _). destruct (Hout _ _ H'). apply elem_of_block. auto.
  - intros a' c' d [Ho | [[-> [= ->]] | [[_ [=]] | [_ [=]]]]]%Hcase Hd.
    + destruct (w_done _ _ _ _ Hw _ _ _ Ho Hd) as (k' & ? & ?). eauto.
    + exists k. auto.
  - intros id a' Hid. destruct (w_reqs _ _ _ _ Hw _ _ Hid) as (HY & c' & Hc' & Hcl).
    assert (a' <> a) by (intros ->; apply (Hout _ _ Hc'), elem_of_block; auto).
    split; [set_solver |]. exists c'. split; [auto |]. intros d k' Hd Hk'. destruct (w_done _ _ _ _ Hw _ _ _ Hc' Hd) as (k2 & H2 & _).
    pose proof (Hkeep _ _ H2). eapply Hcl; [exact Hd |]. congruence.
  - apply (w_inj _ _ _ _ Hw).
  - intros Hle a' c' [Ho | [[-> _] | [[_ [=]] | [_ [=]]]]]%Hcase; [| left; set_solver].
    destruct (w_owned _ _ _ _ Hw Hle _ _ Ho) as [? | [? | (d & id & ? & ?)]]; [left; set_solver | by auto |].
    right. right. exists d, id. auto.
  - apply (w_id _ _ _ _ Hw).
  - apply (w_ids _ _ _ _ Hw).
  - intros r HX. destruct (w_X _ _ _ _ Hw _ HX) as (p' & v' & ?). eauto.
  - intros y [Hy%(w_Y _ _ _ _ Hw) | ->%elem_of_singleton]%elem_of_union; [lia |].
    apply Hfresh, elem_of_block. auto.
Qed.

(** The contents of messages and controllers do not matter. *)
Definition skeleton (o : object) : object :=
  match o with
  | Message _ _ => Message (fun _ => true) []
  | Controller c => Controller (mk_ctrl (response_ c) (done_ c) [] 0 0)
  | Closure k => Closure k
  end.
Lemma wf_skeleton id0 X Y s s' :
  wf id0 X Y s -> (forall x, skeleton <$> heap s' !! x = skeleton <$> heap s !! x) ->
  next s' = next s -> reqs_ s' = reqs_ s -> id_ s' = id_ s -> made s' = made s -> wf id0 X Y s'.
Proof.
  intros Hw Hh Hn Hr Hi Hm.
  assert (forall x k, heap s' !! x = Some (Closure k) <-> heap s !! x = Some (Closure k)) as Hk.
  { intros x k. specialize (Hh x). destruct (heap s' !! x) as [[] |], (heap s !! x) as [[] |]; naive_solver. }
  assert (forall x, (exists p v, heap s' !! x = Some (Message p v)) <-> exists p v, heap s !! x = Some (Message p v)) as Hmsg.
  { intros x. specialize (Hh x). destruct (heap s' !! x) as [[] |], (heap s !! x) as [[] |]; naive_solver. }
  assert (forall x c, heap s' !! x = Some (Controller c) ->
    exists c', heap s !! x = Some (Controller c') /\ response_ c' = response_ c /\ done_ c' = done_ c) as Hc.
  { intros x c Hc. specialize (Hh x). rewrite Hc in Hh. destruct (heap s !! x) as [[] |]; naive_solver. }
  assert (forall x c, heap s !! x = Some (Controller c) ->
    exists c', heap s' !! x = Some (Controller c') /\ response_ c' = response_ c /\ done_ c' = done_ c) as Hc'.
  { intros x c Hc0. specialize (Hh x). rewrite Hc0 in Hh. destruct (heap s' !! x) as [[] |]; naive_solver. }
  split; rewrite ?Hn, ?Hr, ?Hi, ?Hm.
  - intros a o Ho. specialize (Hh a). rewrite Ho in Hh. destruct (heap s !! a) eqn:Hs; [| done]. by eapply w_next.
  - intros r p v Ho. destruct (proj1 (Hmsg r)) as (p' & v' & Hs); [by eauto |].
    destruct (w_message _ _ _ _ Hw _ _ _ Hs) as [| (a & c & Ha & Hrc)]; [by left | right].
    destruct (Hc' _ _ Ha) as (c' & ? & ? & _). exists a, c'. split; congruence.
  - intros d k Ho%Hk. destruct (w_closure _ _ _ _ Hw _ _ Ho) as (c & Ha & Hd).
    destruct (Hc' _ _ Ha) as (c' & ? & _ & ?). exists c'. split; congruence.
  - intros a c r Ha Hrc. destruct (Hc _ _ Ha) as (c1 & H1 & H2 & _). rewrite <- H2 in Hrc.
    destruct (w_response _ _ _ _ Hw _ _ _ H1 Hrc) as (Hm' & HX & Hu). split_and!; [by apply Hmsg | done |].
    intros a2 c2 Ha2 Hr2. destruct (Hc _ _ Ha2) as (c3 & H3 & H4 & _). eapply Hu; [exact H3 | congruence].
  - intros a c d Ha Hd. destruct (Hc _ _ Ha) as (c1 & H1 & H2 & H3). rewrite <- H3 in Hd.
    destruct (w_done _ _ _ _ Hw _ _ _ H1 Hd) as (k & ? & ? & Hres). exists k. rewrite Hk, <- H2. done.
  - intros id a Hid. destruct (w_reqs _ _ _ _ Hw _ _ Hid) as (HY & c & Ha & Hcl). split; [done |].
    destruct (Hc' _ _ Ha) as (c' & ? & _ & Hd'). exists c'. split; [done |]. intros d k Hd Hk'%Hk.
    eapply Hcl; [| exact Hk']. congruence.
  - apply (w_inj _ _ _ _ Hw).
  - intros Hle a c Ha. destruct (Hc _ _ Ha) as (c1 & H1 & _ & H3).
    destruct (w_owned _ _ _ _ Hw Hle _ _ H1) as [? | [? | (d & id & Hd & Hs)]]; [by auto.. |].
    right. right. exists d, id. rewrite Hk. split; congruence.
  - apply (w_id _ _ _ _ Hw).
  - apply (w_ids _ _ _ _ Hw).
  - intros r HX. apply Hmsg. by apply (w_X _ _ _ _ Hw).
  - apply (w_Y _ _ _ _ Hw).
Qed.

(** A controller is taken out of the map, or put into it; a request's objects belong to its
    closure. *)
Lemma wf_unlink id0 X Y s id a :
  wf id0 X Y s -> reqs_ s !! id = Some a -> wf id0 X (Y ∪ {[a]}) (with_reqs (delete id (reqs_ s)) s).
Proof.
  intros Hw Hid. pose proof Hw as []. split; simpl; try done.
  - intros id' a' [Hne Ha']%lookup_delete_Some. destruct (w_reqs0 _ _ Ha') as [HY Hc]. split; [| done].
    rewrite not_elem_of_union, not_elem_of_singleton. split; [done |]. intros ->. apply Hne. by eapply w_inj0.
  - intros id1 id2 a' [_ H1]%lookup_delete_Some [_ H2]%lookup_delete_Some. by eapply w_inj0.
  - intros Hle a' c Ha. destruct (w_owned0 Hle _ _ Ha) as [? | [[id' Hid'] | ?]]; [left; set_solver | | by auto].
    destruct (decide (id' = id)) as [-> | Hne]; [left; set_solver |].
    right. left. exists id'. by rewrite lookup_delete_ne.
  - intros id' [_ H]%lookup_delete_is_Some. by apply w_ids0.
  - intros y [Hy | ->%elem_of_singleton]%elem_of_union; [by apply w_Y0 |].
    destruct (w_reqs0 _ _ Hid) as (_ & c & Hc & _). by eapply w_next0.
Qed.

Lemma s64_distinct id0 i j : 0 <= i < j -> j < 2 ^ 64 -> s64 (id0 + i) <> s64 (id0 + j).
Proof.
  unfold s64. intros Hij Hj Heq.
  assert ((id0 + i + 2 ^ 63) mod 2 ^ 64 = (id0 + j + 2 ^ 63) mod 2 ^ 64) as Hmod by lia.
  apply Z.cong_iff_0 in Hmod. replace (_ - _) with (- (j - i)) in Hmod by lia.
  apply Z.mod_opp_l_z in Hmod; [| lia]. rewrite Z.opp_involutive, Z.mod_small in Hmod by lia. lia.
Qed.
Lemma s64_next n : s64 (s64 n + 1) = s64 (n + 1).
Proof.
  unfold s64. replace ((n + 2 ^ 63) mod 2 ^ 64 - 2 ^ 63 + 1 + 2 ^ 63) with ((n + 2 ^ 63) mod 2 ^ 64 + 1) by lia.
  rewrite Z.add_mod_idemp_l by lia. do 2 f_equal. lia.
Qed.

Lemma wf_link id0 X Y s s' a c k :
  wf id0 X (Y ∪ {[a]}) s -> a ∉ Y -> heap s !! a = Some (Controller c) ->
  (forall d, done_ c = Some d -> heap s !! d = Some (Closure k)) -> of_client k = true ->
  heap s' = heap s -> next s' = next s -> reqs_ s' = <[id_ s := a]> (reqs_ s) -> id_ s' = s64 (id_ s + 1) ->
  made s' = made s + 1 -> wf id0 X Y s'.
Proof.
  intros Hw HaY Ha Hclo Hk Hh Hn Hr Hi Hm. pose proof Hw as [].
  assert (forall id, reqs_ s !! id <> Some a) as Hna.
  { intros id Hid. apply w_reqs0 in Hid as [Hid _]. set_solver. }
  split; rewrite ?Hh, ?Hn; try done.
  - intros id a'. rewrite Hr. intros [[<- <-] | [Hne Hid]]%lookup_insert_Some.
    + split; [done |]. exists c. split; [done |]. intros d k' Hd Hk'. rewrite (Hclo _ Hd) in Hk'. by injection Hk' as <-.
    + destruct (w_reqs0 _ _ Hid) as [HY Hc]. split; [set_solver | done].
  - intros id1 id2 a'. rewrite Hr. intros [[<- <-] | [_ H1]]%lookup_insert_Some [[<- Heq] | [_ H2]]%lookup_insert_Some;
      try done; [by apply Hna in H2 | subst; by apply Hna in H1 | by eapply w_inj0].
  - rewrite Hm, Hr. intros Hle a' c' Ha'. destruct (w_owned0 ltac:(lia) _ _ Ha') as [HY | [[id Hid] | ?]]; [| | by auto].
    + destruct (decide (a' = a)) as [-> |]; [| left; set_solver]. right. left. exists (id_ s). apply lookup_insert_eq.
    + right. left. exists id. rewrite lookup_insert_ne; [done |]. intros Heq.
      destruct (w_ids0 id ltac:(by eexists)) as (i & Hi1 & ->). destruct w_id0 as [Hid0 ?]. rewrite Hid0 in Heq.
      symmetry in Heq. apply s64_distinct in Heq; [done | lia | lia].
  - rewrite Hi, Hm. destruct w_id0 as [-> ?]. split; [| lia]. rewrite s64_next. f_equal. lia.
  - rewrite Hm, Hr. intros id [Heq | Hid]%lookup_insert_is_Some'.
    + exists (made s). destruct w_id0 as [Hid0 ?]. split; [lia | congruence].
    + destruct (w_ids0 _ Hid) as (i & ? & ->). exists i. split; [lia | done].
  - intros y Hy. apply w_Y0. set_solver.
Qed.

Lemma wf_release id0 X Y s a c d id :
  wf id0 X (Y ∪ {[a]}) s -> heap s !! a = Some (Controller c) -> done_ c = Some d ->
  heap s !! d = Some (Closure (Server_done id a)) -> wf id0 X Y s.
Proof.
  intros Hw Ha Hd Hk. pose proof Hw as []. split; try done.
  - intros id' a' Hid. destruct (w_reqs0 _ _ Hid) as [HY Hc]. split; [set_solver | done].
  - intros Hle a' c' Ha'. destruct (w_owned0 Hle _ _ Ha') as [HY | ?]; [| by auto].
    destruct (decide (a' = a)) as [-> |]; [| left; set_solver]. right. right. exists d, id. split; [congruence | done].
  - intros y Hy. apply w_Y0. set_solver.
Qed.

(** ** The values behind the pointers *)

Definition ctrl_value (h : gmap addr object) (a : addr) : option RpcController :=
  match h !! a with Some (Controller c) => Some (value h c) | _ => None end.
Definition as_channel (s : channel) : RpcChannel :=
  mk_channel (conn_weak_ s) (omap (ctrl_value (heap s)) (reqs_ s)) (services_ s) (id_ s) (sends s).

(** The closures that services have been given and have not run. *)
Definition is_pending (o : object) : bool :=
  match o with Closure (Server_done _ _) => true | _ => false end.
Definition pending (h : gmap addr object) : gset addr := dom (filter (fun x => is_pending x.2 = true) h).

Lemma elem_of_pending h d : d ∈ pending h <-> exists id a, h !! d = Some (Closure (Server_done id a)).
Proof.
  unfold pending. rewrite elem_of_dom. split.
  - intros [o [Ho Hp]%map_lookup_filter_Some]. destruct o as [| | []]; try done. by eauto.
  - intros (id & a & H). eexists. apply map_lookup_filter_Some. by split.
Qed.
Lemma pending_ext h h' :
  (forall x id a, h !! x = Some (Closure (Server_done id a)) <-> h' !! x = Some (Closure (Server_done id a))) ->
  pending h = pending h'.
Proof. intros H. apply leibniz_equiv. intros x. rewrite !elem_of_pending. by setoid_rewrite H. Qed.

Lemma omap_ext_values h h' (m : gmap Z addr) :
  (forall id a, m !! id = Some a -> ctrl_value h a = ctrl_value h' a) ->
  omap (ctrl_value h) m = omap (ctrl_value h') m.
Proof.
  intros H. apply map_eq. intros id. rewrite !lookup_omap. destruct (m !! id) as [a |] eqn:Ha; [| done]. by apply H in Ha.
Qed.

Lemma ctrl_value_frame id0 X Y s h' id a :
  wf id0 X Y s -> reqs_ s !! id = Some a ->
  (forall c, heap s !! a = Some (Controller c) -> forall x, x ∈ call_block a c -> h' !! x = heap s !! x) ->
  ctrl_value h' a = ctrl_value (heap s) a.
Proof.
  intros Hw Hid Hf. destruct (w_reqs _ _ _ _ Hw _ _ Hid) as (_ & c & Ha & _). specialize (Hf c Ha).
  unfold ctrl_value. rewrite Hf, Ha by (apply elem_of_block; auto). unfold value.
  destruct (response_ c) as [r |] eqn:Hr; [| done]. simpl. by rewrite Hf by (apply elem_of_block; auto).
Qed.

(** What is kept of a state when nothing but what is sent changes. *)
Definition with_sends (l : list TcpConnection.request) (s : channel) : channel :=
  mk_chan (heap s) (next s) (conn_weak_ s) (reqs_ s) (services_ s) (id_ s) l (made s) (alive s).

Ltac lookups := repeat first [rewrite lookup_insert_eq | rewrite lookup_insert_ne by (lia || congruence)].

Lemma wf_sends id0 X Y s l : wf id0 X Y s -> wf id0 X Y (with_sends l s).
Proof. intros Hw. by eapply wf_skeleton. Qed.

(** What a call of the application keeps. *)
Definition kept (s s' : channel) : Prop :=
  pending (heap s') = pending (heap s) /\ alive s' = alive s /\
  forall x o, heap s !! x = Some o -> heap s' !! x = Some o.

(** A new call is in the map. *)
Record linked (s s1 : channel) (a : addr) (c : controller) (p : list Byte.byte -> bool) (k : closure) : Prop := {
  l_fresh x : x ∈ call_block a c -> (next s <= x < next s1)%nat;
  l_next : (next s <= next s1)%nat;
  l_nodup : NoDup (call_block a c);
  l_heap x : heap s1 !! x = if decide (x = a) then Some (Controller c)
                       else if decide (response_ c = Some x) then Some (Message p [])
                       else if decide (done_ c = Some x) then Some (Closure k) else heap s !! x;
  l_ctrl : closure_ctrl k = a;
  l_client : of_client k = true;
  l_reqs : reqs_ s1 = <[id_ s := a]> (reqs_ s);
  l_id : id_ s1 = s64 (id_ s + 1);
  l_made : made s1 = made s + 1;
  l_rest : (alive s1, conn_weak_ s1, services_ s1, sends s1) = (alive s, conn_weak_ s, services_ s, sends s)
}.

Lemma link_call id0 X Y s s1 a c p k :
  wf id0 X Y s -> linked s s1 a c p k ->
  omap (ctrl_value (heap s1)) (reqs_ s1) =
    <[id_ s := mk_controller ((fun _ => p) <$> response_ c) (bool_decide (is_Some (done_ c))) (error_text_ c) (error_code_ c) (log_id_ c)]>
      (Rpc.reqs_ (as_channel s)) /\
  wf id0 X Y s1 /\ kept s s1.
Proof.
  intros Hw [Hfresh Hn Hnd Hh Hk Hcl Hr Hi Hm [= Hal _ _ _]].
  assert (forall x, (x < next s)%nat -> heap s1 !! x = heap s !! x) as Hold.
  { intros x Hx. rewrite Hh. assert (x ∉ call_block a c) as Hin by (intros Hin%Hfresh; lia).
    rewrite elem_of_block in Hin. repeat case_decide; naive_solver. }
  assert (forall x o, heap s !! x = Some o -> heap s1 !! x = Some o) as Hkeep.
  { intros x o Ho. rewrite Hold; [done |]. by eapply w_next. }
  split_and!.
  - apply map_eq. intros id. rewrite Hr. destruct (decide (id = id_ s)) as [-> | Hne].
    + rewrite lookup_omap, !lookup_insert_eq. simpl. unfold ctrl_value. rewrite Hh, decide_True by done. unfold value.
      f_equal. f_equal. destruct (response_ c) as [r |] eqn:Hrc; [| done]. simpl.
      rewrite Hh, decide_False, decide_True; [done.. |]. intros ->. unfold call_block in Hnd. rewrite Hrc in Hnd.
      apply NoDup_cons in Hnd as [Hna _]. apply Hna. simpl. set_solver.
    + rewrite lookup_omap, !lookup_insert_ne by done. simpl. rewrite lookup_omap.
      destruct (reqs_ s !! id) as [a' |] eqn:Hid; [| done]. simpl.
      apply (ctrl_value_frame id0 X Y s _ id); [done | done |]. intros c' Hc' x Hx. apply Hold.
      apply elem_of_block in Hx as [-> | [Hx | Hx]]; [by eapply w_next | |].
      * destruct (w_response _ _ _ _ Hw _ _ _ Hc' Hx) as [(p' & v' & ?) _]. by eapply w_next.
      * destruct (w_done _ _ _ _ Hw _ _ _ Hc' Hx) as (k' & ? & _). by eapply w_next.
  - set (s0 := mk_chan (heap s1) (next s1) (conn_weak_ s) (reqs_ s) (services_ s) (id_ s) (sends s) (made s) (alive s)).
    assert (wf id0 X (Y ∪ {[a]}) s0) as Hw0 by (eapply (wf_add id0 X Y s s0 a c p [] k); try done; by rewrite Hcl).
    eapply (wf_link id0 X Y s0 s1 a c k); try done.
    + intros HaY%(w_Y _ _ _ _ Hw). specialize (Hfresh a). rewrite elem_of_block in Hfresh. destruct Hfresh; [by left | lia].
    + simpl. rewrite Hh. by rewrite decide_True.
    + intros d Hd. simpl. destruct (w_done _ _ _ _ Hw0 a c d) as (k' & Hk' & _); simpl; [| done |].
      * rewrite Hh. by rewrite decide_True.
      * simpl in Hk'. rewrite Hk'. rewrite Hh in Hk'. repeat case_decide; try done.
  - split_and!; [| done | done]. apply pending_ext. intros x id a'. split; [| by apply Hkeep].
    rewrite Hh. repeat case_decide; try done. intros [= ->]. done.
Qed.

(** ** Deleting a block *)

Definition delete_opt (p : option addr) (h : gmap addr object) : gmap addr object :=
  match p with Some x => delete x h | None => h end.
Lemma delete_ok p s :
  (forall x, p = Some x -> is_Some (heap s !! x)) -> delete_ p s = Ok (with_heap (delete_opt p (heap s)) s).
Proof. destruct p as [x |]; simpl; [| by destruct s]. intros H. by destruct (H x eq_refl) as [o ->]. Qed.
Lemma lookup_delete_opt p h x : delete_opt p h !! x = if decide (p = Some x) then None else h !! x.
Proof.
  destruct p as [y |]; simpl; [| done]. destruct (decide (y = x)) as [-> | Hne].
  - by rewrite lookup_delete_eq, decide_True.
  - rewrite lookup_delete_ne, decide_False; congruence.
Qed.

(** The heap without a block, in whatever order its objects are deleted. *)
Lemma block_lookup id0 X Y s a c x :
  wf id0 X Y s -> heap s !! a = Some (Controller c) -> x ∈ call_block a c -> is_Some (heap s !! x).
Proof.
  intros Hw Ha [-> | [Hx | Hx]]%elem_of_block; [by eexists | |].
  - destruct (w_response _ _ _ _ Hw _ _ _ Ha Hx) as [(p & v & ->) _]. by eexists.
  - destruct (w_done _ _ _ _ Hw _ _ _ Ha Hx) as (k & -> & _). by eexists.
Qed.
Lemma block_distinct id0 X Y s a c r d :
  wf id0 X Y s -> heap s !! a = Some (Controller c) -> response_ c = Some r -> done_ c = Some d ->
  r <> a /\ d <> a /\ r <> d.
Proof.
  intros Hw Ha Hr Hd. destruct (w_response _ _ _ _ Hw _ _ _ Ha Hr) as [(p & v & Hm) _].
  destruct (w_done _ _ _ _ Hw _ _ _ Ha Hd) as (k & Hk & _). split_and!; congruence.
Qed.

Definition without (a : addr) (c : controller) (s : channel) : channel :=
  with_heap (delete a (delete_opt (response_ c) (delete_opt (done_ c) (heap s)))) s.
Lemma lookup_without a c s x : heap (without a c s) !! x = if decide (x ∈ call_block a c) then None else heap s !! x.
Proof.
  unfold without. simpl. destruct (decide (x = a)) as [-> | Hne].
  - by rewrite lookup_delete_eq, decide_True by (apply elem_of_block; auto).
  - rewrite lookup_delete_ne, !lookup_delete_opt by done. pose proof (elem_of_block x a c).
    repeat case_decide; naive_solver.
Qed.

Lemma wf_without id0 X Y s a c :
  wf id0 X Y s -> heap s !! a = Some (Controller c) -> (forall id, reqs_ s !! id <> Some a) ->
  wf id0 X (Y ∖ {[a]}) (without a c s) /\ as_channel (without a c s) = as_channel s.
Proof.
  intros Hw Ha Hreq. split.
  - eapply (wf_remove id0 X Y s _ a c); try done. intros x. apply lookup_without.
  - unfold as_channel. simpl. f_equal. apply omap_ext_values. intros id a' Hid.
    eapply ctrl_value_frame; [done | exact Hid |]. intros c' Hc' x Hx. fold (without a c s).
    change (heap (without a c s) !! x = heap s !! x). rewrite lookup_without, decide_False; [done |]. intros Hin.
    apply (Hreq id). rewrite Hid. f_equal. symmetry. by eapply (blocks_disjoint _ _ _ _ a c a' c').
Qed.

(** Deleting the closure first, as it deletes itself before the controller goes, or last. *)
Lemma deletes_first id0 X Y s a c :
  wf id0 X Y s -> heap s !! a = Some (Controller c) ->
  (s ← delete_ (done_ c) s; s ← delete_ (response_ c) s; delete_ (Some a) s) = Ok (without a c s).
Proof.
  intros Hw Ha. rewrite delete_ok by (intros x Hx; eapply block_lookup; [done.. | apply elem_of_block; auto]). cbn [mbind outcome_bind].
  rewrite delete_ok; cbn [mbind outcome_bind].
  - rewrite delete_ok; [done |]. intros x [= <-]. simpl. rewrite !lookup_delete_opt.
    rewrite decide_False, decide_False by (intros Hx; destruct (block_lookup id0 X Y s a c a); [done.. | apply elem_of_block; auto |];
      first [destruct (w_response _ _ _ _ Hw _ _ _ Ha Hx) as [(? & ? & ?) _] | destruct (w_done _ _ _ _ Hw _ _ _ Ha Hx) as (? & ? & _)]; congruence).
    by eexists.
  - intros x Hx. simpl. rewrite lookup_delete_opt, decide_False.
    + eapply block_lookup; [done.. | apply elem_of_block; auto].
    + intros Hd. by destruct (block_distinct _ _ _ _ _ _ _ _ Hw Ha Hx Hd) as (_ & _ & []).
Qed.

Lemma delete_comm p q s :
  (forall x, p = Some x -> is_Some (heap s !! x)) -> (forall x, q = Some x -> is_Some (heap s !! x)) ->
  (forall x, p = Some x -> q <> Some x) ->
  (s ← delete_ p s; delete_ q s) = (s ← delete_ q s; delete_ p s).
Proof.
  intros Hp Hq Hne. rewrite (delete_ok p s), (delete_ok q s) by done. cbn [mbind outcome_bind].
  rewrite !delete_ok.
  - unfold with_heap. simpl. do 2 f_equal. apply map_eq. intros x. rewrite !lookup_delete_opt. by repeat case_decide.
  - intros x Hx. simpl. rewrite lookup_delete_opt. case_decide as Hd; [by destruct (Hne x Hx) | by apply Hp].
  - intros x Hx. simpl. rewrite lookup_delete_opt. case_decide as Hd; [by destruct (Hne x Hd) | by apply Hq].
Qed.

Section orders.
Context {id0 : Z} {X Y : gset addr} {s : channel} {a : addr} {c : controller}.
Context (Hw : wf id0 X Y s) (Ha : heap s !! a = Some (Controller c)).

Lemma in_heap x : x ∈ call_block a c -> is_Some (heap s !! x).
Proof. by eapply block_lookup. Qed.
Lemma done_response x : done_ c = Some x -> response_ c <> Some x.
Proof. intros Hd Hr. by destruct (block_distinct _ _ _ _ _ _ _ _ Hw Ha Hr Hd) as (_ & _ & []). Qed.
Lemma done_self x : done_ c = Some x -> Some a <> Some x.
Proof. intros Hd [= ->]. destruct (w_done _ _ _ _ Hw _ _ _ Ha Hd) as (k & ? & _). congruence. Qed.

(** The destructor: the response, the closure, the controller. *)
Lemma deletes_middle :
  (s ← delete_ (response_ c) s; s ← delete_ (done_ c) s; delete_ (Some a) s) = Ok (without a c s).
Proof.
  rewrite <- (deletes_first id0 X Y) by done.
  assert (forall m : outcome channel, (s ← m; s ← delete_ (done_ c) s; delete_ (Some a) s) =
    (s ← (s ← m; delete_ (done_ c) s); delete_ (Some a) s)) as -> by (by intros []).
  assert (forall m : outcome channel, (s ← m; s ← delete_ (response_ c) s; delete_ (Some a) s) =
    (s ← (s ← m; delete_ (response_ c) s); delete_ (Some a) s)) as -> by (by intros []).
  rewrite (delete_comm (done_ c)); [done | | | apply done_response];
    intros x Hx; apply in_heap, elem_of_block; auto.
Qed.

(** [on_done] of the server: the response, the controller, and at last the closure. *)
Lemma deletes_last :
  (s ← delete_ (response_ c) s; s ← delete_ (Some a) s; delete_ (done_ c) s) = Ok (without a c s).
Proof.
  rewrite <- deletes_middle. rewrite delete_ok by (intros x Hx; apply in_heap, elem_of_block; auto).
  cbn [mbind outcome_bind]. symmetry. apply delete_comm.
  - intros x Hx. simpl. rewrite lookup_delete_opt, decide_False by (by apply done_response).
    apply in_heap, elem_of_block. auto.
  - intros x [= <-]. simpl. rewrite lookup_delete_opt, decide_False; [by eexists |]. intros Hr.
    destruct (w_response _ _ _ _ Hw _ _ _ Ha Hr) as [(? & ? & ?) _]. congruence.
  - intros x Hx. by apply done_self.
Qed.
End orders.

(** Writing to an object of a block that the map does not refer to. *)
Lemma put_ok id0 X Y s a c x o o' :
  wf id0 X Y s -> heap s !! a = Some (Controller c) -> (forall id, reqs_ s !! id <> Some a) -> x ∈ call_block a c ->
  heap s !! x = Some o -> skeleton o' = skeleton o ->
  wf id0 X Y (put x o' s) /\ as_channel (put x o' s) = as_channel s /\ pending (heap (put x o' s)) = pending (heap s).
Proof.
  intros Hw Ha Hreq Hx Ho Hsk. split_and!.
  - eapply wf_skeleton; [exact Hw | | done..]. intros y. simpl. destruct (decide (x = y)) as [-> |].
    + rewrite lookup_insert_eq, Ho. simpl. by rewrite Hsk.
    + by rewrite lookup_insert_ne.
  - unfold as_channel. simpl. f_equal. apply omap_ext_values. intros id a' Hid.
    eapply ctrl_value_frame; [done | exact Hid |]. intros c' Hc' y Hy. rewrite lookup_insert_ne; [done |]. intros ->.
    apply (Hreq id). rewrite Hid. f_equal. symmetry. by eapply (blocks_disjoint _ _ _ _ a c a' c').
  - apply pending_ext. intros y id b. simpl. destruct (decide (x = y)) as [-> |]; [| by rewrite lookup_insert_ne].
    rewrite lookup_insert_eq, Ho. destruct o as [| | []], o'; naive_solver.
Qed.

Lemma pending_without id0 X Y s a c :
  wf id0 X Y s -> heap s !! a = Some (Controller c) ->
  pending (heap (without a c s)) = pending (heap s) ∖ list_to_set (option_list (done_ c)).
Proof.
  intros Hw Ha. apply leibniz_equiv. intros x. rewrite elem_of_difference, !elem_of_pending, elem_of_list_to_set.
  setoid_rewrite lookup_without. split.
  - intros (id & b & H). case_decide as Hx; [done |]. split; [by eauto |].
    intros Hd. apply Hx, elem_of_block. destruct (done_ c); simpl in *; [| by apply elem_of_nil in Hd].
    apply list_elem_of_singleton in Hd. subst. auto.
  - intros [(id & b & H) Hd]. exists id, b. rewrite decide_False; [done |].
    intros [-> | [Hx | Hx]]%elem_of_block; [congruence | |].
    + destruct (w_response _ _ _ _ Hw _ _ _ Ha Hx) as [(? & ? & ?) _]. congruence.
    + apply Hd. rewrite Hx. simpl. set_solver.
Qed.

(** ** The objects of a request *)

(** The objects of a request that is pending. *)
Lemma pending_block id0 X Y s d id a :
  wf id0 X Y s -> heap s !! d = Some (Closure (Server_done id a)) ->
  exists c r p v, heap s !! a = Some (Controller c) /\ done_ c = Some d /\ response_ c = Some r /\
    heap s !! r = Some (Message p v) /\ forall id', reqs_ s !! id' <> Some a.
Proof.
  intros Hw Hd. destruct (w_closure _ _ _ _ Hw _ _ Hd) as (c & Hc & Hdc). simpl in Hc.
  destruct (w_done _ _ _ _ Hw _ _ _ Hc Hdc) as (k & Hk & _ & Hr). rewrite Hd in Hk. injection Hk as <-.
  destruct (Hr eq_refl) as [r Hrc]. destruct (w_response _ _ _ _ Hw _ _ _ Hc Hrc) as [(p & v & Hm) _].
  exists c, r, p, v. split_and!; [done.. |]. intros id' Hid. destruct (w_reqs _ _ _ _ Hw _ _ Hid) as (_ & c' & Hc' & Hcl).
  rewrite Hc in Hc'. injection Hc' as <-. by specialize (Hcl _ _ Hdc Hd).
Qed.

(** A message that the function itself holds. *)
Lemma wf_hold id0 s p v :
  wf id0 ∅ ∅ s -> wf id0 {[next s]} ∅ (new (Message p v) s).2 /\
    as_channel (new (Message p v) s).2 = as_channel s /\ pending (heap (new (Message p v) s).2) = pending (heap s).
Proof.
  intros Hw. pose proof Hw as []. assert (forall o, heap s !! next s <> Some o) as Hf.
  { intros o Ho. apply w_next0 in Ho. lia. }
  assert (forall a o, heap s !! a = Some o -> a <> next s) as Hne by (intros a o Ho ->; by apply Hf in Ho).
  assert (forall a o, o <> Message p v -> <[next s := Message p v]> (heap s) !! a = Some o -> heap s !! a = Some o) as Hold.
  { intros a o Ho. rewrite lookup_insert. by case_decide; [intros [= <-] |]. }
  assert (forall a o, heap s !! a = Some o -> <[next s := Message p v]> (heap s) !! a = Some o) as Hkeep.
  { intros a o Ho. rewrite lookup_insert_ne; [done |]. apply not_eq_sym. by eapply Hne. }
  split_and!.
  - split; simpl; try done.
    + intros a o [[<- _] | [_ Ho]]%lookup_insert_Some; [lia |]. apply w_next0 in Ho. lia.
    + intros r p' v' [[<- _] | [_ Ho]]%lookup_insert_Some; [left; set_solver |].
      destruct (w_message0 _ _ _ Ho) as [| (a & c & ? & ?)]; [set_solver | right; exists a, c; auto].
    + intros d k Ho%Hold; [| done]. destruct (w_closure0 _ _ Ho) as (c & ? & ?). exists c. auto.
    + intros a c r Ho%Hold Hr; [| done]. destruct (w_response0 _ _ _ Ho Hr) as ((p' & v' & Hm) & _ & Hu). split_and!.
      * eauto.
      * rewrite not_elem_of_singleton. by eapply Hne.
      * intros a' c' Ho'%Hold; [| done]. by apply Hu.
    + intros a c d Ho%Hold Hd; [| done]. destruct (w_done0 _ _ _ Ho Hd) as (k & ? & ?). eauto.
    + intros id a Hid. destruct (w_reqs0 _ _ Hid) as (HY & c & Hc & Hcl). split; [done |]. exists c. split; [auto |].
      intros d k Hd Hk%Hold; [| done]. by eapply Hcl.
    + intros Hle a c Ho%Hold; [| done]. destruct (w_owned0 Hle _ _ Ho) as [? | [? | (d & id & ? & ?)]]; [by auto.. |].
      right. right. exists d, id. auto.
    + intros r ->%elem_of_singleton. exists p, v. apply lookup_insert_eq.
  - unfold as_channel. simpl. f_equal. apply omap_ext_values. intros id a Hid. eapply ctrl_value_frame; [exact Hw | done |].
    intros c Hc x Hx. destruct (block_lookup _ _ _ _ _ _ _ Hw Hc Hx) as [o Ho]. rewrite (Hkeep _ _ Ho). done.
  - apply pending_ext. intros x id a. simpl. split; [by apply Hold | apply Hkeep].
Qed.
Lemma wf_unhold id0 s r :
  wf id0 {[r]} ∅ s -> exists s', delete_ (Some r) s = Ok s' /\ wf id0 ∅ ∅ s' /\ as_channel s' = as_channel s /\
    pending (heap s') = pending (heap s) /\ alive s' = alive s.
Proof.
  intros Hw. pose proof Hw as []. destruct (w_X0 r ltac:(set_solver)) as (p & v & Hr).
  exists (with_heap (delete r (heap s)) s). split; [simpl; by rewrite Hr |].
  assert (forall a o, delete r (heap s) !! a = Some o -> heap s !! a = Some o /\ a <> r) as Hold.
  { intros a o [? ?]%lookup_delete_Some. auto. }
  assert (forall a o, heap s !! a = Some o -> a <> r -> delete r (heap s) !! a = Some o) as Hkeep.
  { intros a o Ho Hne. by rewrite lookup_delete_ne. }
  assert (forall a c, heap s !! a = Some (Controller c) -> forall x, x ∈ call_block a c -> x <> r) as Hout.
  { intros a c Hc x [-> | [Hx | Hx]]%elem_of_block ->; [congruence | |].
    - destruct (w_response0 _ _ _ Hc Hx) as (_ & Hn & _). set_solver.
    - destruct (w_done0 _ _ _ Hc Hx) as (k & ? & _). congruence. }
  split_and!.
  - split; simpl; try done.
    + intros a o [Ho _]%Hold. by eapply w_next0.
    + intros r' p' v' [Ho Hne]%Hold. destruct (w_message0 _ _ _ Ho) as [| (a & c & Hc & ?)]; [set_solver |].
      right. exists a, c. split; [apply Hkeep; [done |]; eapply Hout; [done |]; apply elem_of_block; auto | done].
    + intros d k [Ho _]%Hold. destruct (w_closure0 _ _ Ho) as (c & Hc & ?). exists c. split; [| done].
      apply Hkeep; [done |]. eapply Hout; [done |]. apply elem_of_block; auto.
    + intros a c r' [Ho _]%Hold Hr'. destruct (w_response0 _ _ _ Ho Hr') as ((p' & v' & Hm) & _ & Hu). split_and!.
      * exists p', v'. apply Hkeep; [done |]. eapply Hout; [done |]. apply elem_of_block; auto.
      * set_solver.
      * intros a' c' [Ho' _]%Hold. by apply Hu.
    + intros a c d [Ho _]%Hold Hd. destruct (w_done0 _ _ _ Ho Hd) as (k & Hk & ?). exists k. split; [| done].
      apply Hkeep; [done |]. eapply Hout; [exact Ho |]. apply elem_of_block; auto.
    + intros id a Hid. destruct (w_reqs0 _ _ Hid) as (HY & c & Hc & Hcl). split; [done |]. exists c. split.
      * apply Hkeep; [done |]. eapply Hout; [done |]. apply elem_of_block; auto.
      * intros d k Hd [Hk _]%Hold. by eapply Hcl.
    + intros Hle a c [Ho _]%Hold. destruct (w_owned0 Hle _ _ Ho) as [? | [? | (d & id & Hd & ?)]]; [by auto.. |].
      right. right. exists d, id. split; [done |]. apply Hkeep; [done |]. eapply Hout; [exact Ho |]. apply elem_of_block; auto.
  - unfold as_channel. simpl. f_equal. apply omap_ext_values. intros id a Hid. eapply ctrl_value_frame; [exact Hw | done |].
    intros c Hc x Hx. rewrite lookup_delete_ne; [done |]. apply not_eq_sym. by eapply Hout.
  - apply pending_ext. intros x id a. simpl. split; [by intros [? _]%Hold |]. intros Hx. apply Hkeep; [done |]. congruence.
  - done.
Qed.

(** The objects of a request belong to its closure. *)
Lemma wf_prepare id0 X id s :
  wf id0 X ∅ s ->
  let '(done, s1) := prepare id s in
  wf id0 X ∅ s1 /\ as_channel s1 = as_channel s /\ pending (heap s1) = pending (heap s) ∪ {[done]} /\
    (done ∉ pending (heap s)) /\ alive s1 = alive s.
Proof.
  intros Hw. unfold prepare. cbn [new].
  assert (Some (next s) <> Some (S (S (next s)))) as Hn1 by (intros H%(inj Some); lia).
  set (n := next s). set (c := set_done (Some (S (S n))) (set_resp (Some n) controller_init)).
  match goal with |- wf _ _ _ ?x /\ _ => set (s1 := x) end.
  assert (forall x, heap s1 !! x = if decide (x = S n) then Some (Controller c)
                       else if decide (response_ c = Some x) then Some (Message (fun _ => true) [])
                       else if decide (done_ c = Some x) then Some (Closure (Server_done id (S n))) else heap s !! x) as Hh.
  { intros x. simpl. repeat case_decide; simplify_eq; by lookups. }
  assert (forall x o, heap s !! x = Some o -> x <> n /\ x <> S n /\ x <> S (S n)) as Hlt.
  { intros x o Ho%(w_next _ _ _ _ Hw). unfold n. lia. }
  assert (forall x o, heap s !! x = Some o -> heap s1 !! x = Some o) as Hkeep.
  { intros x o Ho. destruct (Hlt _ _ Ho) as (? & ? & ?). rewrite Hh. repeat case_decide; naive_solver. }
  assert (wf id0 X (∅ ∪ {[S n]}) s1) as Hw1.
  { eapply (wf_add id0 X ∅ s s1 (S n) c (fun _ => true) [] (Server_done id (S n))); try done.
    - intros x [-> | [[= <-] | [= <-]]]%elem_of_block; unfold n; simpl; lia.
    - simpl. lia.
    - unfold call_block; simpl; rewrite ?NoDup_cons, ?elem_of_cons, ?elem_of_nil; split_and?; first [apply NoDup_nil_2 | lia]. }
  split_and!.
  - eapply (wf_release id0 X ∅ s1 (S n) c (S (S n)) id); [done | by rewrite Hh, decide_True | done |].
    rewrite Hh. by rewrite decide_False, decide_False, decide_True by (done || lia).
  - unfold as_channel. cbn [reqs_ s1 put with_heap conn_weak_ services_ id_ sends]. f_equal. apply omap_ext_values.
    intros i a Hid. eapply ctrl_value_frame; [exact Hw | done |]. intros c' Hc' x Hx.
    destruct (block_lookup _ _ _ _ _ _ _ Hw Hc' Hx) as [o Ho]. change (heap s1 !! x = heap s !! x). by rewrite (Hkeep _ _ Ho).
  - apply leibniz_equiv. intros x. rewrite elem_of_union, elem_of_singleton, !elem_of_pending. split.
    + intros (i & a & Hx). rewrite Hh in Hx. repeat case_decide; naive_solver.
    + intros [(i & a & Hx) | ->]; [exists i, a; auto |]. exists id, (S n). rewrite Hh.
      by rewrite decide_False, decide_False, decide_True by (done || lia).
  - rewrite elem_of_pending. intros (i & a & Hx). by destruct (Hlt _ _ Hx) as (_ & _ & []).
  - done.
Qed.

(** ** The destructor *)

Lemma delete_with_reqs p m s : delete_ p (with_reqs m s) = with_reqs m <$> delete_ p s.
Proof. destruct p as [a |]; [| done]. simpl. by destruct (heap s !! a). Qed.
Lemma delete_calls_with_reqs l m s : delete_calls l (with_reqs m s) = with_reqs m <$> delete_calls l s.
Proof.
  revert s. induction l as [| [id a] l IH]; intros s; [done |]. cbn [delete_calls].
  change (get_controller a (with_reqs m s)) with (get_controller a s).
  destruct (get_controller a s) as [c | |]; cbn [mbind outcome_bind fmap outcome_fmap]; [| done..].
  rewrite delete_with_reqs. destruct (delete_ (response_ c) s) as [s1 | |]; cbn [mbind outcome_bind fmap outcome_fmap]; [| done..].
  change (get_controller a (with_reqs m s1)) with (get_controller a s1).
  destruct (get_controller a s1) as [c1 | |]; cbn [mbind outcome_bind fmap outcome_fmap]; [| done..].
  rewrite delete_with_reqs. destruct (delete_ (done_ c1) s1) as [s2 | |]; cbn [mbind outcome_bind fmap outcome_fmap]; [| done..].
  rewrite delete_with_reqs. destruct (delete_ (Some a) s2) as [s3 | |]; cbn [mbind outcome_bind fmap outcome_fmap]; [| done..].
  apply IH.
Qed.

(** One entry of the map: its block goes. *)
Lemma delete_entry id0 s id a l :
  wf id0 ∅ ∅ s -> reqs_ s !! id = Some a ->
  exists s1, delete_calls ((id, a) :: l) (with_reqs (delete id (reqs_ s)) s) = delete_calls l s1 /\
    wf id0 ∅ ∅ s1 /\ reqs_ s1 = delete id (reqs_ s) /\ pending (heap s1) = pending (heap s) /\
    (next s1, id_ s1, made s1) = (next s, id_ s, made s).
Proof.
  intros Hw Hid. destruct (w_reqs _ _ _ _ Hw _ _ Hid) as (_ & c & Hc & Hcl).
  pose proof (wf_unlink _ _ _ _ _ _ Hw Hid) as Hw1. rewrite (left_id_L ∅ _) in Hw1.
  set (s1 := with_reqs (delete id (reqs_ s)) s) in *.
  assert (forall i, reqs_ s1 !! i <> Some a) as Hreq by (intros i [Hn _]%(w_reqs _ _ _ _ Hw1); set_solver).
  exists (without a c s1). destruct (wf_without _ _ _ _ _ _ Hw1 Hc Hreq) as [Hw2 _]. rewrite difference_diag_L in Hw2.
  split_and!; [| done | done | | done].
  - cbn [delete_calls]. assert (get_controller a s1 = Ok c) as -> by (unfold get_controller; simpl; by rewrite Hc).
    cbn [mbind outcome_bind mret outcome_ret].
    pose proof (deletes_middle Hw1 Hc) as Hdel. apply bind_Ok in Hdel as (s2 & H2 & (s3 & H3 & H4)%bind_Ok).
    rewrite H2. cbn [mbind outcome_bind]. assert (get_controller a s2 = Ok c) as ->.
    { rewrite delete_ok in H2 by (intros x Hx; eapply block_lookup; [exact Hw1 | exact Hc | apply elem_of_block; auto]).
      injection H2 as <-. unfold get_controller. simpl. rewrite lookup_delete_opt, decide_False, Hc; [done |].
      intros Hr. destruct (w_response _ _ _ _ Hw _ _ _ Hc Hr) as [(? & ? & ?) _]. congruence. }
    cbn [mbind outcome_bind]. rewrite H3. cbn [mbind outcome_bind]. rewrite H4. done.
  - rewrite (pending_without _ _ _ _ _ _ Hw1 Hc). change (heap s1) with (heap s).
    apply leibniz_equiv. intros x. rewrite elem_of_difference. split; [tauto |]. intros Hx. split; [done |].
    destruct (done_ c) as [d |] eqn:Hd; simpl; [| set_solver]. rewrite right_id, elem_of_singleton by apply _.
    intros ->. apply elem_of_pending in Hx as (i & b & Hx). by specialize (Hcl d _ eq_refl Hx).
Qed.

Lemma delete_calls_ok id0 l s :
  l ≡ₚ map_to_list (reqs_ s) -> wf id0 ∅ ∅ s ->
  exists s', delete_calls l s = Ok s' /\ wf id0 ∅ ∅ (with_reqs ∅ s') /\ pending (heap s') = pending (heap s) /\
    made s' = made s.
Proof.
  revert s. induction l as [| [id a] l IH]; intros s Hl Hw.
  - exists s. split_and!; [done | | done..]. symmetry in Hl. apply Permutation_nil_r, map_to_list_empty_iff in Hl.
    unfold with_reqs. rewrite <- Hl. by destruct s.
  - assert (reqs_ s !! id = Some a) as Hid by (apply elem_of_map_to_list; rewrite <- Hl; set_solver).
    destruct (delete_entry id0 s id a l Hw Hid) as (s1 & Hdel & Hw1 & Hr1 & Hp1 & [= _ _ Hm1]).
    destruct (IH s1) as (s2 & H2 & Hw2 & Hp2 & Hm2); [| done |].
    { rewrite Hr1. apply (Permutation_cons_inv (a := (id, a))). rewrite Hl.
      rewrite <- map_to_list_insert by apply lookup_delete_eq. by rewrite insert_delete_id. }
    rewrite delete_calls_with_reqs, H2 in Hdel. destruct (delete_calls ((id, a) :: l) s) as [s3 | |]; try done.
    injection Hdel as <-. exists s3. split_and!; [done | exact Hw2 | by rewrite <- Hp1, <- Hp2 | by rewrite <- Hm1, <- Hm2].
Qed.
Lemma destroy_ok id0 s :
  wf id0 ∅ ∅ s ->
  exists s', RpcChannel_destroy s = Ok s' /\ wf id0 ∅ ∅ s' /\ reqs_ s' = ∅ /\ pending (heap s') = pending (heap s) /\
    made s' = made s /\ alive s' = false.
Proof.
  intros Hw. destruct (delete_calls_ok id0 (map_to_list (reqs_ s)) s) as (s1 & H1 & Hw1 & Hp1 & Hm1); [done.. |].
  unfold RpcChannel_destroy. rewrite H1. cbn [mbind outcome_bind]. eexists. split; [reflexivity |].
  split_and!; [by eapply wf_skeleton | done..].
Qed.

(** Without calls all that is left belongs to requests. *)
Lemma only_pending id0 s x o :
  wf id0 ∅ ∅ s -> reqs_ s = ∅ -> made s <= 2 ^ 64 -> heap s !! x = Some o ->
  exists d id a c, heap s !! d = Some (Closure (Server_done id a)) /\ heap s !! a = Some (Controller c) /\
    done_ c = Some d /\ x ∈ call_block a c.
Proof.
  intros Hw Hr Hm Hx.
  assert (forall a c, heap s !! a = Some (Controller c) ->
    exists d id, heap s !! d = Some (Closure (Server_done id a)) /\ done_ c = Some d) as Hctrl.
  { intros a c Hc. destruct (w_owned _ _ _ _ Hw Hm _ _ Hc) as [[]%not_elem_of_empty | [[id Hid] | (d & id & ? & ?)]].
    - by rewrite Hr in Hid.
    - by exists d, id. }
  destruct o as [p v | c | k].
  - destruct (w_message _ _ _ _ Hw _ _ _ Hx) as [[]%not_elem_of_empty | (a & c & Hc & Hrc)].
    destruct (Hctrl _ _ Hc) as (d & id & ? & ?). exists d, id, a, c. split_and!; [done.. |]. apply elem_of_block. auto.
  - destruct (Hctrl _ _ Hx) as (d & id & ? & ?). exists d, id, x, c. split_and!; [done.. |]. apply elem_of_block. auto.
  - destruct (w_closure _ _ _ _ Hw _ _ Hx) as (c & Hc & Hd). destruct (Hctrl _ _ Hc) as (d & id & ? & ?).
    exists d, id, (closure_ctrl k), c. split_and!; [done.. |]. apply elem_of_block. auto.
Qed.
