(* ===== verification/RpcMemoryTheorems.v ===== *)
(** * RpcMemoryTheorems: every object of a call is deleted once

    Under the invariant of [RpcOwnership] the channel with pointers does what the channel of
    [Rpc] does ([sim]), and its destructor leaves nothing but the objects of the requests that
    a service has not completed. *)

From S2P Require Import Prelude.
From S2P Require Import Cpp.
From S2P Require Import Buffer.
From S2P Require Import TcpConnection.
From S2P Require Import Rpc.
From S2P Require Import RpcWire.
From S2P Require Import RpcTheorems.
From S2P Require Import RpcMemory.
From S2P Require Import RpcOwnership.
From stdpp Require Import gmap list.
Local Open Scope Z_scope.

(** ** Two programs that do the same *)

Definition sim {A B} (R : A -> B -> Prop) (m : outcome A) (v : outcome B) : Prop :=
  match m, v with
  | Ok a, Ok b => R a b
  | Throw e, Throw e' => e = e'
  | Undefined w, Undefined w' => w = w'
  | _, _ => False
  end.

Lemma sim_bind {A B A' B'} (R : A -> B -> Prop) (R' : A' -> B' -> Prop) m v f g :
  sim R m v -> (forall a b, R a b -> sim R' (f a) (g b)) -> sim R' (m ≫= f) (v ≫= g).
Proof. destruct m, v; simpl; intuition. Qed.
Lemma sim_mono {A B} (R R' : A -> B -> Prop) m v :
  sim R m v -> (forall a b, R a b -> R' a b) -> sim R' m v.
Proof. destruct m, v; simpl; auto. Qed.
Lemma sim_refl {A} (m : outcome A) : sim eq m m.
Proof. by destruct m. Qed.

Lemma bind_assoc {A B C} (m : outcome A) (f : A -> outcome B) (g : B -> outcome C) :
  (m ≫= f) ≫= g = m ≫= (fun a => f a ≫= g).
Proof. by destruct m. Qed.

Lemma sim_after {A B A'} (R : A -> B -> Prop) (R' : A' -> B -> Prop) m v f :
  sim R m v -> (forall a b, R a b -> exists a', f a = Ok a' /\ R' a' b) -> sim R' (m ≫= f) v.
Proof.
  destruct m, v; simpl; try done. intros HR Hf. by destruct (Hf _ _ HR) as (a' & -> & ?).
Qed.

(** The new objects are where they belong. *)
Ltac link := split; cbn [next reqs_ id_ made alive conn_weak_ services_ sends];
  [ intros x [-> | [[= <-] | [= <-]]]%elem_of_block; simpl; lia
  | simpl; lia
  | unfold call_block; simpl; rewrite ?NoDup_cons, ?elem_of_cons, ?elem_of_nil; split_and?; first [apply NoDup_nil_2 | lia]
  | intros x; simpl; repeat case_decide; simplify_eq; by lookups
  | done.. ].

Section ops.
Context (meta_bytes : RpcMeta -> list Byte.byte).

Lemma pack_send_sim meta msg s :
  sim (fun s' c' => c' = as_channel s' /\ exists l, s' = with_sends l s)
    (pack_send meta_bytes meta msg s) (Rpc.pack_send meta_bytes meta msg (as_channel s)).
Proof.
  unfold pack_send, Rpc.pack_send. eapply sim_bind; [apply sim_refl |]. intros b ? <-. unfold with_out. simpl.
  destruct s as [h n cw m sv i l md al]. destruct cw; simpl; (split; [done | by eexists]).
Qed.

Definition call_meta (k : call) (id : Z) : RpcMeta :=
  mk_meta (Some (mk_request_meta (call_service k) (call_method k))) None id.

Lemma linked_sim id0 X Y k s s1 a c p kk :
  wf id0 X Y s -> linked s s1 a c p kk ->
  mk_controller ((fun _ => p) <$> response_ c) (bool_decide (is_Some (done_ c))) (error_text_ c) (error_code_ c) (log_id_ c)
    = Rpc.set_done (call_done k) (Rpc.set_resp (call_response k) (call_controller k)) ->
  sim (fun s' c' => c' = as_channel s' /\ wf id0 X Y s' /\ kept s s')
    (pack_send meta_bytes (call_meta k (id_ s)) (Some (call_request k)) s1)
    (Rpc.CallMethod meta_bytes k (as_channel s)).
Proof.
  intros Hw Hl Hc. destruct (link_call id0 X Y s s1 a c p kk Hw Hl) as (Hreqs & Hw1 & Hp & Ha & Hkeep).
  rewrite Hc in Hreqs. unfold Rpc.CallMethod. fold (call_meta k (Rpc.id_ (as_channel s))).
  change (Rpc.id_ (as_channel s)) with (id_ s).
  match goal with |- sim _ _ (Rpc.pack_send _ _ _ ?c1) => assert (c1 = as_channel s1) as -> end.
  { pose proof (l_rest _ _ _ _ _ _ Hl) as [= _ Hcw Hsv Hse]. pose proof (l_id _ _ _ _ _ _ Hl) as Hid.
    unfold as_channel in Hreqs |- *. cbn [Rpc.reqs_ conn_alive Rpc.services_ out Rpc.id_] in Hreqs |- *.
    rewrite Hreqs, Hcw, Hsv, Hse, Hid. done. }
  eapply sim_mono; [apply pack_send_sim |]. intros s' c' (-> & l & ->). split_and!; [done | by apply wf_sends | done..].
Qed.

Lemma start_call_sim id0 X Y k s :
  wf id0 X Y s ->
  sim (fun s' c' => c' = as_channel s' /\ wf id0 X Y s' /\ kept s s')
    (start_call meta_bytes k s) (Rpc.CallMethod meta_bytes k (as_channel s)).
Proof.
  intros Hw. unfold start_call, CallMethod. destruct (call_controller k) as [x1 x2 et ec lg] eqn:Hctrl.
  destruct (call_response k) as [parses |] eqn:Hresp, (call_done k) eqn:Hdone;
    cbn [new fst snd heap next ctrl_error_text ctrl_error_code Rpc.log_id_]; unfold get_controller; cbn [heap]; simplify_map_eq; cbn [mbind outcome_bind].
  - eapply (linked_sim id0 X Y k s _ (S (next s)) (mk_ctrl (Some (next s)) (Some (S (S (next s)))) et ec lg) parses (Client_done (S (next s)) (Some (next s))) Hw);
      [link | by rewrite Hresp, Hdone, Hctrl].
  - eapply (linked_sim id0 X Y k s _ (S (next s)) (mk_ctrl (Some (next s)) None et ec lg) parses (Client_done (S (next s)) None) Hw);
      [link | by rewrite Hresp, Hdone, Hctrl].
  - eapply (linked_sim id0 X Y k s _ (next s) (mk_ctrl None (Some (S (next s))) et ec lg) (fun _ => true) (Client_done (next s) None) Hw);
      [link | by rewrite Hresp, Hdone, Hctrl].
  - eapply (linked_sim id0 X Y k s _ (next s) (mk_ctrl None None et ec lg) (fun _ => true) (Client_done (next s) None) Hw);
      [link | by rewrite Hresp, Hdone, Hctrl].
Qed.
Lemma start_calls_sim id0 X Y ks s :
  wf id0 X Y s ->
  sim (fun s' c' => c' = as_channel s' /\ wf id0 X Y s' /\ kept s s')
    (start_calls meta_bytes ks s) (CallMethods meta_bytes ks (as_channel s)).
Proof.
  revert s. induction ks as [| k ks IH]; intros s Hw; [by split_and! |]. cbn [start_calls CallMethods].
  eapply sim_bind; [by apply start_call_sim |]. intros s1 c1 (-> & Hw1 & Hp & Ha & Hk).
  eapply sim_mono; [by apply IH |]. intros s2 c2 (-> & Hw2 & Hp2 & Ha2 & Hk2). split_and!; [done | done |].
  split_and!; [congruence.. | auto].
Qed.
End ops.

(** ** Messages *)

(** What a service promises: it completes only requests that it was given and has not
    completed.  [P pend u] holds when the closures of [pend] are with the service. *)
Definition completes_ok (pend : gset addr) (ds : list completion) : Prop :=
  NoDup (c_done <$> ds) /\ forall d, d ∈ c_done <$> ds -> d ∈ pend.
Class Service_contract {U : Type} (invoke : list Byte.byte -> list Byte.byte -> addr -> list Byte.byte -> U -> list completion * U)
    (run_done : Z -> RpcController -> list Byte.byte -> U -> list call * U) (wake : U -> list completion * U)
    (P : gset addr -> U -> Prop) : Prop := {
  invoke_ok pend u sv me d msg : P pend u -> d ∉ pend ->
    completes_ok (pend ∪ {[d]}) (invoke sv me d msg u).1 /\
    P ((pend ∪ {[d]}) ∖ list_to_set (c_done <$> (invoke sv me d msg u).1)) (invoke sv me d msg u).2;
  wake_ok pend u : P pend u ->
    completes_ok pend (wake u).1 /\ P (pend ∖ list_to_set (c_done <$> (wake u).1)) (wake u).2;
  run_done_ok pend u id c msg : P pend u -> P pend (run_done id c msg u).2
}.

Section messages.
Context (meta_bytes : RpcMeta -> list Byte.byte) {U : Type}.
Context (invoke : list Byte.byte -> list Byte.byte -> addr -> list Byte.byte -> U -> list completion * U)
  (run_done : Z -> RpcController -> list Byte.byte -> U -> list call * U) (wake : U -> list completion * U)
  (P : gset addr -> U -> Prop) `{!Service_contract invoke run_done wake P}.

(** Between two events. *)
Definition good (id0 : Z) (s : channel) (u : U) : Prop :=
  wf id0 ∅ ∅ s /\ alive s = true /\ P (pending (heap s)) u.
Definition sames (id0 : Z) (r : channel * U) (v : RpcChannel * U) : Prop :=
  v = (as_channel r.1, r.2) /\ good id0 r.1 r.2.

(** The controller of a call that is answered, and the calls its closure makes. *)
Lemma answered id0 s id ctrl c msg u :
  wf id0 ∅ {[ctrl]} s -> alive s = true -> heap s !! ctrl = Some (Controller c) -> P (pending (heap s)) u ->
  (forall d k, done_ c = Some d -> heap s !! d = Some (Closure k) -> of_client k = true) ->
  sim (sames id0)
    (r ← match done_ c with Some d => run_closure meta_bytes run_done id d msg s u | None => mret (s, u) end;
     s ← delete_ (response_ c) r.1; s ← delete_ (Some ctrl) s; mret (s, r.2))
    (if Rpc.done_ (value (heap s) c)
     then r ← CallMethods meta_bytes (run_done id (value (heap s) c) msg u).1 (as_channel s);
          mret (r, (run_done id (value (heap s) c) msg u).2)
     else mret (as_channel s, u)).
Proof.
  intros Hw Hal Hc HP Hcl.
  assert (forall s1 u1, wf id0 ∅ {[ctrl]} s1 -> kept s s1 -> P (pending (heap s)) u1 ->
    exists s2, (s' ← delete_ (done_ c) s1; s' ← delete_ (response_ c) s'; delete_ (Some ctrl) s') = Ok s2 /\
      as_channel s2 = as_channel s1 /\ good id0 s2 u1) as Hend.
  { intros s1 u1 Hw1 (Hp1 & Ha1 & Hk1) HP1. pose proof (Hk1 _ _ Hc) as Hc1.
    assert (forall id, reqs_ s1 !! id <> Some ctrl) as Hreq
      by (intros id' [Hn _]%(w_reqs _ _ _ _ Hw1); set_solver).
    exists (without ctrl c s1). destruct (wf_without _ _ _ _ _ _ Hw1 Hc1 Hreq) as [Hw2 Has].
    split_and!; [by eapply deletes_first | done |]. split_and!; [| by rewrite <- Hal, <- Ha1 |].
    - by rewrite difference_diag_L in Hw2.
    - rewrite (pending_without _ _ _ _ _ _ Hw1 Hc1), Hp1. replace (_ ∖ _) with (pending (heap s)); [done |].
      apply leibniz_equiv. intros x. rewrite elem_of_difference. split; [| tauto]. intros Hx. split; [done |].
      destruct (done_ c) as [d |] eqn:Hd; simpl; [| set_solver]. rewrite right_id, elem_of_singleton by apply _.
      intros ->. apply elem_of_pending in Hx as (i & b & Hx). by specialize (Hcl d _ eq_refl Hx). }
  unfold value at 1. cbn [Rpc.done_]. destruct (done_ c) as [d |] eqn:Hd.
  - rewrite bool_decide_true by (by eexists). unfold run_closure, get_closure.
    destruct (w_done _ _ _ _ Hw _ _ _ Hc Hd) as (k & Hk & Hka & _). rewrite Hk.
    specialize (Hcl d k eq_refl Hk). destruct k as [ctrl' r |]; [| done]. simpl in Hka. subst ctrl'.
    cbn [mbind outcome_bind mret outcome_ret]. unfold get_controller. rewrite Hc. cbn [mbind outcome_bind mret outcome_ret].
    rewrite bind_assoc. eapply sim_bind; [by eapply start_calls_sim |]. intros s1 c1 (-> & Hw1 & Hk1).
    destruct (Hend s1 (run_done id (value (heap s) c) msg u).2 Hw1 Hk1) as (s2 & Hs2 & Has & Hg).
    { by eapply run_done_ok. }
    apply bind_Ok in Hs2 as (s3 & H3 & (s4 & H4 & H5)%bind_Ok). rewrite H3. cbn [mbind outcome_bind mret outcome_ret fst snd].
    rewrite H4. cbn [mbind outcome_bind]. rewrite H5. cbn [sim mbind outcome_bind mret outcome_ret].
    split; [cbn [fst snd]; by rewrite Has | done].
  - rewrite bool_decide_false by (by intros []). cbn [mbind outcome_bind mret outcome_ret fst snd].
    destruct (Hend s u Hw) as (s2 & Hs2 & Has & Hg); [by split_and! | done |].
    apply bind_Ok in Hs2 as (s3 & [= <-] & (s4 & H4 & H5)%bind_Ok). rewrite H4. cbn [mbind outcome_bind].
    rewrite H5. split; [cbn [fst snd]; by rewrite Has | done].
Qed.
(** The same after a change of the controller. *)
Lemma answered_put id0 s id ctrl c c' msg u :
  wf id0 ∅ {[ctrl]} s -> alive s = true -> heap s !! ctrl = Some (Controller c) -> P (pending (heap s)) u ->
  skeleton (Controller c') = skeleton (Controller c) ->
  (forall d k, done_ c = Some d -> heap s !! d = Some (Closure k) -> of_client k = true) ->
  sim (sames id0)
    (r ← match done_ c' with
         | Some d => run_closure meta_bytes run_done id d msg (put ctrl (Controller c') s) u
         | None => mret (put ctrl (Controller c') s, u)
         end;
     s ← delete_ (response_ c') r.1; s ← delete_ (Some ctrl) s; mret (s, r.2))
    (if Rpc.done_ (value (heap s) c')
     then r ← CallMethods meta_bytes (run_done id (value (heap s) c') msg u).1 (as_channel s);
          mret (r, (run_done id (value (heap s) c') msg u).2)
     else mret (as_channel s, u)).
Proof.
  intros Hw Hal Hc HP Hsk Hcl. injection Hsk as Hr Hd.
  destruct (put_ok id0 ∅ {[ctrl]} s ctrl c ctrl (Controller c) (Controller c') Hw Hc) as (Hw1 & Has & Hp);
    [by intros id' [Hn _]%(w_reqs _ _ _ _ Hw); set_solver | apply elem_of_block; auto | done | simpl; by rewrite Hr, Hd |].
  assert (value (heap (put ctrl (Controller c') s)) c' = value (heap s) c') as Hv.
  { unfold value. f_equal. destruct (response_ c') as [r |] eqn:Hrc; [| done]. simpl. rewrite lookup_insert_ne; [done |].
    intros <-. destruct (w_response _ _ _ _ Hw _ _ _ Hc (eq_sym Hr)) as [(? & ? & ?) _]. congruence. }
  rewrite <- Has, <- Hv. apply answered; [done | done | by simpl; rewrite lookup_insert_eq | by rewrite Hp |].
  intros d k Hdc. rewrite Hd in Hdc. simpl. rewrite lookup_insert_ne; [by apply Hcl |].
  intros <-. destruct (w_done _ _ _ _ Hw _ _ _ Hc Hdc) as (k' & ? & _). congruence.
Qed.

Lemma process_response_sim id0 meta msg s u :
  good id0 s u ->
  sim (sames id0) (process_response meta_bytes run_done meta msg s u)
    (Rpc.process_response meta_bytes run_done meta msg (as_channel s) u).
Proof.
  intros (Hw & Hal & HP). unfold process_response, Rpc.process_response. set (id := correlation_id meta).
  cbn [as_channel Rpc.reqs_]. rewrite lookup_omap.
  destruct (reqs_ s !! id) as [ctrl |] eqn:Hid; cbn [mbind option_bind]; [| by split].
  destruct (w_reqs _ _ _ _ Hw _ _ Hid) as (_ & c & Hc & Hcl).
  assert (ctrl_value (heap s) ctrl = Some (value (heap s) c)) as -> by (unfold ctrl_value; by rewrite Hc).
  pose proof (wf_unlink _ _ _ _ _ _ Hw Hid) as Hw1. rewrite (left_id_L ∅ _) in Hw1.
  set (s1 := with_reqs (delete id (reqs_ s)) s) in *.
  assert (set_reqs (delete id (omap (ctrl_value (heap s)) (reqs_ s))) (as_channel s) = as_channel s1) as Has.
  { unfold as_channel, set_reqs. simpl. by rewrite omap_delete. }
  change (mk_channel _ _ _ _ _) with (as_channel s). rewrite Has.
  unfold get_controller at 1. change (heap s1) with (heap s) at 1. rewrite Hc. cbn [mbind outcome_bind mret outcome_ret].
  assert (forall id, reqs_ s1 !! id <> Some ctrl) as Hreq by (intros id' [Hn _]%(w_reqs _ _ _ _ Hw1); set_solver).
  destruct (response_ c) as [r |] eqn:Hr.
  - destruct (w_response _ _ _ _ Hw _ _ _ Hc Hr) as ((p & v & Hm) & _).
    unfold get_message. change (heap s1) with (heap s) at 1. rewrite Hm. cbn [mbind outcome_bind mret outcome_ret fst snd].
    assert (Rpc.response_ (value (heap s) c) = Some p) as -> by (unfold value; rewrite Hr; simpl; by rewrite Hm).
    unfold ParseFromArray. destruct (2 ^ 31 <=? vsize msg); [done |]. cbn [mbind outcome_bind mret outcome_ret].
    destruct (p msg) eqn:Hp; cbn [fst snd CodeError].
    + destruct (put_ok id0 ∅ {[ctrl]} s1 ctrl c r (Message p v) (Message p msg) Hw1 Hc Hreq) as (Hw2 & Has2 & Hp2);
        [apply elem_of_block; auto | done | done |].
      rewrite <- Has2.
      assert (value (heap s) c = value (heap (put r (Message p msg) s1)) c) as ->.
      { unfold value. rewrite Hr. simpl. by rewrite Hm, lookup_insert_eq. }
      assert (forall x, r <> x -> heap (put r (Message p msg) s1) !! x = heap s !! x) as Hx
        by (intros x Hx; simpl; by rewrite lookup_insert_ne).
      apply (answered_put id0 (put r (Message p msg) s1) id ctrl c c); try done.
      * by rewrite Hx by congruence.
      * by rewrite Hp2.
      * intros d k Hd Hk. apply (Hcl d k Hd). rewrite <- Hx; [done |].
        intros <-. destruct (w_done _ _ _ _ Hw _ _ _ Hc Hd) as (k' & ? & _). congruence.
    + match goal with |- context [SetFailed ?t c] => apply (answered_put id0 s1 id ctrl c (SetFailed t c)); done end.
  - assert (Rpc.response_ (value (heap s) c) = None) as -> by (unfold value; by rewrite Hr).
    cbn [mbind outcome_bind mret outcome_ret fst snd CodeError].
    apply (answered_put id0 s1 id ctrl c c); done.
Qed.
(** ** The server *)

(** A completion as [Rpc] has it: the closure leads to the identifier, and to the controller,
    which may have failed before. *)
Definition as_completion (h : gmap addr object) (d : completion) : Rpc.completion :=
  match h !! c_done d with
  | Some (Closure (Server_done id a)) =>
      Rpc.mk_completion id
        (c_failed d || match h !! a with Some (Controller c) => Failed c | _ => false end) (c_response d)
  | _ => Rpc.mk_completion 0 (c_failed d) (c_response d)
  end.

Lemma complete_sim id0 X s d :
  wf id0 X ∅ s -> alive s = true -> c_done d ∈ pending (heap s) ->
  sim (fun s' c' => c' = as_channel s' /\ wf id0 X ∅ s' /\ alive s' = true /\
      pending (heap s') = pending (heap s) ∖ {[c_done d]} /\
      forall d', c_done d' ∈ pending (heap s') -> as_completion (heap s') d' = as_completion (heap s) d')
    (complete meta_bytes d s) (Rpc.on_done meta_bytes (as_completion (heap s) d) (as_channel s)).
Proof.
  intros Hw Hal (id & a & Hd)%elem_of_pending. destruct (pending_block _ _ _ _ _ _ _ Hw Hd) as (c & r & p & v & Hc & Hdc & Hr & Hm & Hreq).
  unfold complete, get_closure. rewrite Hd. cbn [mbind outcome_bind mret outcome_ret].
  unfold get_controller at 1. rewrite Hc. cbn [mbind outcome_bind mret outcome_ret]. rewrite Hr.
  unfold get_message at 1. rewrite Hm. cbn [mbind outcome_bind mret outcome_ret fst].
  set (c1 := if c_failed d then SetFailed (bytes "failed") c else c).
  destruct (put_ok id0 X ∅ s a c r (Message p v) (Message p (c_response d)) Hw Hc Hreq) as (Hw1 & Has1 & Hp1);
    [apply elem_of_block; auto | done | done |].
  set (s1 := put r (Message p (c_response d)) s) in *.
  assert (r <> a) as Hra by congruence.
  assert (heap s1 !! a = Some (Controller c)) as Hc1 by (simpl; by rewrite lookup_insert_ne).
  destruct (put_ok id0 X ∅ s1 a c a (Controller c) (Controller c1) Hw1 Hc1 Hreq) as (Hw2 & Has2 & Hp2);
    [apply elem_of_block; auto | done | unfold c1; by destruct (c_failed d) |].
  assert ((if c_failed d then put a (Controller (SetFailed (bytes "failed") c)) s1 else s1) = put a (Controller c1) s1) as ->.
  { unfold c1. destruct (c_failed d); [done |]. unfold put, with_heap. rewrite insert_id by done. by destruct s. }
  set (s2 := put a (Controller c1) s1) in *.
  assert (heap s2 !! a = Some (Controller c1)) as Hc2 by (simpl; by rewrite lookup_insert_eq).
  assert (heap s2 !! r = Some (Message p (c_response d))) as Hm2 by (simpl; by rewrite lookup_insert_ne, lookup_insert_eq).
  assert (response_ c1 = Some r) as Hr1 by (unfold c1; by destruct (c_failed d)).
  assert (done_ c1 = Some (c_done d)) as Hdc1 by (unfold c1; by destruct (c_failed d)).
  assert (Failed c1 = c_failed d || Failed c) as Hf by (unfold c1; by destruct (c_failed d)).
  unfold on_done, Rpc.on_done. assert (alive s2 = true) as -> by done. cbn [negb].
  unfold get_controller. rewrite Hc2. cbn [mbind outcome_bind mret outcome_ret]. rewrite Hr1.
  unfold get_message. rewrite Hm2. cbn [mbind outcome_bind mret outcome_ret snd].
  assert (as_completion (heap s) d = Rpc.mk_completion id (c_failed d || Failed c) (c_response d)) as ->
    by (unfold as_completion; by rewrite Hd, Hc).
  cbn [Rpc.done_id Rpc.done_failed Rpc.done_response]. rewrite Hf.
  assert (as_channel s = as_channel s2) as -> by congruence.
  unfold send_resp, Rpc.send_resp. rewrite bind_assoc.
  eapply (sim_after _ _ _ _ _ (pack_send_sim meta_bytes _ _ _)). intros s3 c3 (-> & l & ->). exists (without a c1 (with_sends l s2)).
  pose proof (wf_sends _ _ _ _ l Hw2) as Hw3.
  pose proof (deletes_last Hw3 Hc2) as Hdel. rewrite Hr1, Hdc1 in Hdel. split; [rewrite bind_assoc; exact Hdel |].
  destruct (wf_without id0 X ∅ (with_sends l s2) a c1 Hw3 Hc2 Hreq) as [Hw4 Has4].
  assert (pending (heap (without a c1 (with_sends l s2))) = pending (heap s) ∖ {[c_done d]}) as Hp4.
  { rewrite (pending_without _ _ _ _ _ _ Hw3 Hc2), Hdc1. change (heap (with_sends l s2)) with (heap s2).
    rewrite Hp2, Hp1. simpl. by rewrite (right_id_L ∅ _). }
  split_and!; [done | by rewrite nothing_minus in Hw4 | done | done |].
  intros d' Hd'. rewrite Hp4 in Hd'. apply elem_of_difference in Hd' as [(id' & a' & Hx)%elem_of_pending Hne].
  rewrite not_elem_of_singleton in Hne.
  destruct (pending_block _ _ _ _ _ _ _ Hw Hx) as (c' & r' & p' & v' & Hc' & Hdc' & Hr' & _).
  assert (forall y, y ∈ call_block a' c' -> heap (without a c1 (with_sends l s2)) !! y = heap s !! y) as Hkeep.
  { intros y Hy. assert (y ∉ call_block a c) as Hout.
    { intros Hin. pose proof (blocks_disjoint id0 X ∅ s a c a' c' y Hw Hc Hc' Hin Hy) as <-. congruence. }
    rewrite elem_of_block in Hout. rewrite lookup_without, decide_False.
    - simpl. rewrite !lookup_insert_ne; [done | |]; intros ->; apply Hout; auto.
    - rewrite elem_of_block, Hr1, Hdc1. rewrite Hr, Hdc in Hout. done. }
  unfold as_completion. rewrite Hkeep, Hx by (apply elem_of_block; auto). by rewrite Hkeep by (apply elem_of_block; auto).
Qed.
Lemma completes_sim id0 X ds s :
  wf id0 X ∅ s -> alive s = true -> completes_ok (pending (heap s)) ds ->
  sim (fun s' c' => c' = as_channel s' /\ wf id0 X ∅ s' /\ alive s' = true /\
      pending (heap s') = pending (heap s) ∖ list_to_set (c_done <$> ds))
    (completes meta_bytes ds s) (on_dones meta_bytes (as_completion (heap s) <$> ds) (as_channel s)).
Proof.
  revert s. induction ds as [| d ds IH]; intros s Hw Hal [Hnd Hin].
  { split_and!; [done.. |]. simpl. by rewrite difference_empty_L. }
  cbn [fmap list_fmap] in Hnd, Hin. apply NoDup_cons in Hnd as [Hd Hnd]. cbn [completes fmap list_fmap on_dones].
  eapply sim_bind; [apply (complete_sim id0 X); [done | done | apply Hin; set_solver] |].
  intros s1 c1 (-> & Hw1 & Ha1 & Hp1 & Hsame).
  assert (forall x, x ∈ c_done <$> ds -> x ∈ pending (heap s1)) as Hin1.
  { intros x Hx. rewrite Hp1. apply elem_of_difference. split; [apply Hin; set_solver |].
    rewrite elem_of_singleton. by intros ->. }
  assert (as_completion (heap s) <$> ds = as_completion (heap s1) <$> ds) as ->.
  { apply list_fmap_ext. intros i d' Hd'. symmetry. apply Hsame, Hin1, list_elem_of_fmap_2.
    by eapply list_elem_of_lookup_2. }
  eapply sim_mono; [by apply IH |]. intros s2 c2 (-> & Hw2 & Ha2 & Hp2). split_and!; [done.. |].
  rewrite Hp2, Hp1. simpl. set_solver.
Qed.

(** The services of [Rpc], which know a call by its number. *)
Definition named_invoke (s : channel) (sv me : list Byte.byte) (id : Z) (msg : list Byte.byte) (u : U) :
    list Rpc.completion * U :=
  let '(done, s1) := prepare id (new (Message (fun _ => true) msg) s).2 in
  let r := invoke sv me done msg u in
  (as_completion (heap s1) <$> r.1, r.2).

Lemma as_completion_ext h h' d :
  (forall x, h !! x = h' !! x \/ exists p v p' v', h !! x = Some (Message p v) /\ h' !! x = Some (Message p' v')) ->
  as_completion h d = as_completion h' d.
Proof.
  intros Hh. unfold as_completion. destruct (Hh (c_done d)) as [<- | (p & v & p' & v' & -> & ->)]; [| done].
  destruct (h !! c_done d) as [[| | [] ] |]; try done. by destruct (Hh ctrl) as [<- | (p & v & p' & v' & -> & ->)].
Qed.

Lemma prepare_hold id p p' v s d :
  (prepare id (new (Message p v) s).2).1 = (prepare id (new (Message p' v) s).2).1 /\
  as_completion (heap (prepare id (new (Message p v) s).2).2) d =
  as_completion (heap (prepare id (new (Message p' v) s).2).2) d.
Proof.
  split; [done |]. apply as_completion_ext. intros x. simpl. rewrite !lookup_insert. repeat case_decide; eauto 10.
Qed.

Lemma invoke_method_sim id0 rq id msg p s u :
  good id0 s u ->
  sim (fun r v => v = (as_channel r.1, r.2) /\ wf id0 {[next s]} ∅ r.1 /\ alive r.1 = true /\ P (pending (heap r.1)) r.2)
    (invoke_method meta_bytes invoke rq id msg (new (Message p msg) s).2 u)
    (let r := named_invoke s (service_name rq) (method_name rq) id msg u in
     c ← on_dones meta_bytes r.1 (as_channel s); mret (c, r.2)).
Proof.
  intros (Hw & Hal & HP). destruct (wf_hold id0 s p msg Hw) as (Hw1 & Has1 & Hp1).
  set (s1 := (new (Message p msg) s).2) in *. unfold invoke_method, named_invoke.
  pose proof (wf_prepare id0 _ id s1 Hw1) as Hprep.
  assert (forall d, (prepare id (new (Message (fun _ => true) msg) s).2).1 = (prepare id s1).1 /\
    as_completion (heap (prepare id (new (Message (fun _ => true) msg) s).2).2) d = as_completion (heap (prepare id s1).2) d) as Hsame
    by (intros d; apply prepare_hold).
  destruct (prepare id (new (Message (fun _ => true) msg) s).2) as [done' s2'], (prepare id s1) as [done s2].
  cbn [fst snd] in Hsame. destruct (Hsame (mk_completion 0 false [])) as [-> _].
  destruct Hprep as (Hw2 & Has2 & Hp2 & Hd & Ha2).
  destruct (invoke_ok (P := P) (pending (heap s)) u (service_name rq) (method_name rq) done msg HP) as [Hok HP'];
    [by rewrite Hp1 in Hd |].
  cbn [fst snd]. rewrite (list_fmap_ext _ (as_completion (heap s2))) by (intros; apply Hsame).
  rewrite <- Has1, <- Has2. eapply sim_bind.
  - apply (completes_sim id0 {[next s]}); [done | by rewrite Ha2 | by rewrite Hp2, Hp1].
  - intros s3 c3 (-> & Hw3 & Ha3 & Hp3). split_and!; [done.. |]. cbn [fst snd]. by rewrite Hp3, Hp2, Hp1.
Qed.

Lemma process_request_sim id0 rq meta msg s u :
  good id0 s u ->
  sim (sames id0) (process_request meta_bytes invoke rq meta msg s u)
    (Rpc.process_request meta_bytes (named_invoke s) rq meta msg (as_channel s) u).
Proof.
  intros Hg. pose proof Hg as (Hw & Hal & HP).
  assert (forall e s', wf id0 ∅ ∅ s' -> as_channel s' = as_channel s -> pending (heap s') = pending (heap s) -> alive s' = true ->
    sim (sames id0) (s ← send_resp meta_bytes (correlation_id meta) e None s'; mret (s, u))
      (c ← Rpc.send_resp meta_bytes (correlation_id meta) e None (as_channel s); mret (c, u))) as Hrefuse.
  { intros e s' Hw' Has' Hp' Ha'. rewrite <- Has'. eapply sim_bind; [apply pack_send_sim |].
    intros s1 c1 (-> & l & ->). split; [done |]. split_and!; [by apply wf_sends | done | by simpl; rewrite Hp']. }
  unfold process_request, Rpc.process_request, find_method. cbn [as_channel Rpc.services_].
  destruct (services_ s) as [| | m]; [done | by apply Hrefuse |].
  destruct (m !! service_name rq) as [service |]; [| by apply Hrefuse].
  destruct (service !! method_name rq) as [parses |]; [| by apply Hrefuse].
  destruct (wf_hold id0 s parses msg Hw) as (Hw1 & Has1 & Hp1).
  pose proof (invoke_method_sim id0 rq (correlation_id meta) msg parses s u Hg) as Hinv.
  change (new (Message parses msg) s) with ((new (Message parses msg) s).1, (new (Message parses msg) s).2).
  cbv beta iota. change (new (Message parses msg) s).1 with (next s).
  set (s1 := (new (Message parses msg) s).2) in *.
  unfold ParseFromArray. destruct (2 ^ 31 <=? vsize msg); [done |]. cbn [mbind outcome_bind mret outcome_ret].
  destruct (parses msg); cbn [negb mbind outcome_bind mret outcome_ret].
  - eapply sim_after; [exact Hinv |]. intros [s2 u2] v (-> & Hw2 & Ha2 & HP2). cbn [fst snd] in *.
    destruct (wf_unhold id0 s2 (next s) Hw2) as (s3 & -> & Hw3 & Has3 & Hp3 & Ha3).
    eexists. split; [reflexivity |]. split; [cbn [fst snd]; by rewrite Has3 |].
    split_and!; [done | by rewrite <- Ha2 | by cbn [fst snd]; rewrite Hp3].
  - destruct (wf_unhold id0 s1 (next s) Hw1) as (s3 & -> & Hw3 & Has3 & Hp3 & Ha3).
    apply Hrefuse; [done | congruence | congruence | by rewrite Ha3].
Qed.

Lemma process_message_sim id0 meta msg s u :
  good id0 s u ->
  sim (sames id0) (process_message meta_bytes invoke run_done meta msg s u)
    (Rpc.process_message meta_bytes (named_invoke s) run_done meta msg (as_channel s) u).
Proof.
  intros Hg. unfold process_message, Rpc.process_message.
  destruct (response meta), (request meta); [by apply process_response_sim.. | by apply process_request_sim | by split].
Qed.
(** ** The life of a channel *)

(** The same event for the channel of [Rpc]. *)
Definition value_step (e : event) (s : channel) (c : RpcChannel) (u : U) : outcome (RpcChannel * U) :=
  match e with
  | Calls k => c ← Rpc.CallMethod meta_bytes k c; mret (c, u)
  | Receives meta msg => Rpc.process_message meta_bytes (named_invoke s) run_done meta msg c u
  | Wakes =>
      let r := wake u in
      c ← on_dones meta_bytes (as_completion (heap s) <$> r.1) c; mret (c, r.2)
  end.

Lemma step_sim id0 e s u :
  good id0 s u -> sim (sames id0) (step meta_bytes invoke run_done wake e s u) (value_step e s (as_channel s) u).
Proof.
  intros Hg. pose proof Hg as (Hw & Hal & HP). destruct e as [k | meta msg |]; cbn [step value_step].
  - eapply sim_bind; [by apply start_call_sim |]. intros s1 c1 (-> & Hw1 & Hp1 & Ha1 & _).
    split; [done |]. split_and!; [done | by cbn [fst snd]; rewrite Ha1 | by cbn [fst snd]; rewrite Hp1].
  - by apply process_message_sim.
  - destruct (wake_ok (P := P) (pending (heap s)) u HP) as [Hok HP'].
    eapply sim_bind; [by apply (completes_sim id0 ∅) |]. intros s1 c1 (-> & Hw1 & Ha1 & Hp1).
    split; [done |]. split_and!; [done | done | by cbn [fst snd]; rewrite Hp1].
Qed.

Lemma sim_Ok {A B} (R : A -> B -> Prop) m v a : sim R m v -> m = Ok a -> exists b, R a b.
Proof. intros H ->. destruct v; simpl in H; try done. by eexists. Qed.

Lemma run_good id0 es s u s' u' :
  good id0 s u -> run_events meta_bytes invoke run_done wake es s u = Ok (s', u') -> good id0 s' u'.
Proof.
  revert s u. induction es as [| e es IH]; intros s u Hg; [by intros [= <- <-] |]. cbn [run_events].
  intros ([s1 u1] & H1 & H2)%bind_Ok. eapply IH; [| exact H2].
  by destruct (sim_Ok _ _ _ _ (step_sim id0 e s u Hg) H1) as (b & _ & ?).
Qed.

(** A channel that has been made and connected, before anything has happened. *)
Definition started (s : channel) : Prop := heap s = ∅ /\ reqs_ s = ∅ /\ made s = 0 /\ alive s = true.

Lemma started_good s u : started s -> s64 (id_ s) = id_ s -> P ∅ u -> good (id_ s) s u.
Proof.
  intros (Hh & Hr & Hm & Ha) Hid HP. split_and!; [| done |].
  - split; rewrite ?Hh, ?Hr, ?Hm; try (intros *; rewrite ?lookup_empty); try done.
    by rewrite Z.add_0_r.
  - rewrite Hh. by change (pending ∅) with (∅ : gset addr).
Qed.

(** ** Properties *)

(** C23. The pointers do what the values do.  Whatever has happened to a channel, calls,
    messages of any content and completions by a service that keeps its promise, at once or
    later: the next event does to the channel with its heap exactly what it does to the
    channel of [Rpc], which has no pointers.  It sends the same, calls the application with
    the same, throws the same; and no object is used after it was deleted, or deleted
    twice, since that would be undefined on one side only. *)
Theorem pointers_refine_values es e s0 u0 s u :
  started s0 -> s64 (id_ s0) = id_ s0 -> P ∅ u0 ->
  run_events meta_bytes invoke run_done wake es s0 u0 = Ok (s, u) ->
  (r ← step meta_bytes invoke run_done wake e s u; mret (as_channel r.1, r.2)) = value_step e s (as_channel s) u.
Proof.
  intros Hs Hid HP Hrun. pose proof (run_good _ _ _ _ _ _ (started_good _ _ Hs Hid HP) Hrun) as Hg.
  pose proof (step_sim _ e s u Hg) as H.
  destruct (step meta_bytes invoke run_done wake e s u) as [r | |], (value_step e s (as_channel s) u) as [v | |];
    simpl in *; try done; [by destruct H as [-> _] | by subst..].
Qed.

(** C24. Every object of a call is deleted.  After any events, fewer than 2 ^ 64 calls among
    them, the destructor runs without an error, and what is left in the heap are exactly the
    response, the controller and the closure of each request that the service has not
    completed; nothing, when it has completed all. *)
Theorem channel_leaves_nothing es s0 u0 s u :
  started s0 -> s64 (id_ s0) = id_ s0 -> P ∅ u0 ->
  run_events meta_bytes invoke run_done wake es s0 u0 = Ok (s, u) -> made s <= 2 ^ 64 ->
  exists s', RpcChannel_destroy s = Ok s' /\ pending (heap s') = pending (heap s) /\
    (forall x, is_Some (heap s' !! x) <-> exists d id a c, heap s' !! d = Some (Closure (Server_done id a)) /\
       heap s' !! a = Some (Controller c) /\ done_ c = Some d /\ x ∈ call_block a c) /\
    (pending (heap s) = ∅ -> heap s' = ∅).
Proof.
  intros Hs Hid HP Hrun Hm. destruct (run_good _ _ _ _ _ _ (started_good _ _ Hs Hid HP) Hrun) as (Hw & _ & _).
  destruct (destroy_ok _ _ Hw) as (s' & Hd & Hw' & Hr' & Hp' & Hm' & _). rewrite <- Hm' in Hm.
  exists s'. split_and!; [done | done | |].
  - intros x. split; [intros [o Ho]; by eapply only_pending |].
    intros (d & id & a & c & _ & Hc & _ & Hx). by eapply block_lookup.
  - intros Hnone. apply map_eq. intros x. rewrite lookup_empty. destruct (heap s' !! x) as [o |] eqn:Ho; [| done].
    destruct (only_pending _ _ _ _ Hw' Hr' Hm Ho) as (d & id & a & c & Hk & _).
    assert (d ∈ pending (heap s')) as Hin by (apply elem_of_pending; by eauto). rewrite Hp', Hnone in Hin. set_solver.
Qed.

(** A service that answers too late uses the channel after its end.  When the
    connection is lost and its channel destroyed, a request may still be with its service;
    completing it runs [on_done] on the destroyed channel. *)
Theorem late_completion_is_undefined es s0 u0 s u s' d failed resp :
  started s0 -> s64 (id_ s0) = id_ s0 -> P ∅ u0 ->
  run_events meta_bytes invoke run_done wake es s0 u0 = Ok (s, u) -> RpcChannel_destroy s = Ok s' ->
  d ∈ pending (heap s) ->
  complete meta_bytes (mk_completion d failed resp) s' = Undefined "the channel was destroyed".
Proof.
  intros Hs Hid HP Hrun Hdes Hd. destruct (run_good _ _ _ _ _ _ (started_good _ _ Hs Hid HP) Hrun) as (Hw & _ & _).
  destruct (destroy_ok _ _ Hw) as (s1 & Hd1 & Hw' & _ & Hp' & _ & Ha'). rewrite Hdes in Hd1. injection Hd1 as <-.
  rewrite <- Hp' in Hd. apply elem_of_pending in Hd as (id & a & Hk).
  destruct (pending_block _ _ _ _ _ _ _ Hw' Hk) as (c & r & p & v & Hc & _ & Hr & Hm & _).
  unfold complete, get_closure, get_controller, get_message. cbn [c_done]. rewrite Hk.
  cbn [mbind outcome_bind mret outcome_ret]. rewrite Hc. cbn [mbind outcome_bind mret outcome_ret]. rewrite Hr, Hm.
  cbn [mbind outcome_bind mret outcome_ret]. unfold on_done. by destruct failed; cbn; rewrite Ha'.
Qed.
End messages.

(** ** Examples

    A service that keeps the closures and completes one each time it wakes. *)
Definition keep_invoke (sv me : list Byte.byte) (d : addr) (msg : list Byte.byte) (u : list addr) :
    list completion * list addr := ([], u ++ [d]).
Definition keep_wake (u : list addr) : list completion * list addr :=
  match u with [] => ([], []) | d :: u => ([mk_completion d false (bytes "late")], u) end.
Definition keep_done (id : Z) (c : RpcController) (msg : list Byte.byte) (u : list addr) : list call * list addr := ([], u).
Definition kept_closures (pend : gset addr) (u : list addr) : Prop := NoDup u /\ forall d, d ∈ u -> d ∈ pend.

#[export] Instance keep_contract : Service_contract keep_invoke keep_done keep_wake kept_closures.
Proof.
  split.
  - intros pend u sv me d msg [Hnd Hin] Hd. split; [split; [constructor | set_solver] |]. split; simpl; [| set_solver].
    apply NoDup_app. split_and!; [done | set_solver | apply NoDup_singleton].
  - intros pend [| d u] [Hnd Hin]; [split; [split; [constructor | set_solver] | split; [constructor | set_solver]] |].
    apply NoDup_cons in Hnd as [Hd Hnd]. split; [split; simpl; [apply NoDup_singleton | set_solver] |]. split; simpl; set_solver.
  - done.
Qed.

Lemma kept_start : kept_closures ∅ [].
Proof. split; [constructor | set_solver]. Qed.

Definition both_ends : channel := set_services echo_services (set_conn (RpcChannel_new 7)).
Definition both_events : list event :=
  [Calls echo_call; Calls echo_call; Receives (request_of echo_call 1) (bytes "hello");
   Receives (request_of echo_call 2) (bytes "again"); Receives (response_of ENOERROR 7) (bytes "hello"); Wakes].
Definition both_run : outcome (channel * list addr) :=
  run_events RpcMeta_serialize keep_invoke keep_done keep_wake both_events both_ends [].
Definition both_state : channel := (result (both_ends, []) both_run).1.
Definition both_kept : list addr := (result (both_ends, []) both_run).2.

Lemma both_run_Ok : both_run = Ok (both_state, both_kept).
Proof. vm_compute. reflexivity. Qed.
Lemma both_started : started both_ends.
Proof. by split_and!. Qed.

(** One call is answered and one waits, one request is completed and one is kept; the service
    wakes again. *)
Lemma pointers_refine_values_witness : exists v,
  (r ← step RpcMeta_serialize keep_invoke keep_done keep_wake Wakes both_state both_kept; mret (as_channel r.1, r.2)) = Ok v /\
  v.2 = [] /\ length (out v.1) = 4%nat /\ size (Rpc.reqs_ v.1) = 1%nat.
Proof.
  assert (H : (r ← step RpcMeta_serialize keep_invoke keep_done keep_wake Wakes both_state both_kept; mret (as_channel r.1, r.2))
    = value_step RpcMeta_serialize keep_invoke keep_done keep_wake Wakes both_state (as_channel both_state) both_kept).
  { apply (pointers_refine_values RpcMeta_serialize keep_invoke keep_done keep_wake kept_closures both_events Wakes both_ends []
      both_state both_kept).
    - apply both_started.
    - reflexivity.
    - apply kept_start.
    - apply both_run_Ok. }
  rewrite H. eexists. split; [vm_compute; reflexivity |]. split; [reflexivity |]. split; vm_compute; reflexivity.
Defined.

Lemma channel_leaves_nothing_witness : exists s', RpcChannel_destroy both_state = Ok s' /\
  size (heap both_state) = 6%nat /\ size (heap s') = 3%nat.
Proof.
  destruct (channel_leaves_nothing RpcMeta_serialize keep_invoke keep_done keep_wake kept_closures both_events both_ends []
    both_state both_kept) as (s' & Hd & _).
  - apply both_started.
  - reflexivity.
  - apply kept_start.
  - apply both_run_Ok.
  - vm_compute. discriminate.
  - exists s'. split; [exact Hd |]. split; [vm_compute; reflexivity |].
    assert (He : (fun s => size (heap s)) <$> RpcChannel_destroy both_state = Ok 3%nat) by (vm_compute; reflexivity).
    rewrite Hd in He. injection He as ->. reflexivity.
Defined.

Lemma late_completion_is_undefined_witness : exists s' d,
  RpcChannel_destroy both_state = Ok s' /\ both_kept = [d] /\
  complete RpcMeta_serialize (mk_completion d false (bytes "late")) s' = Undefined "the channel was destroyed".
Proof.
  destruct (destroy_ok 7 both_state) as (s' & Hd & _).
  { destruct (run_good RpcMeta_serialize keep_invoke keep_done keep_wake kept_closures 7 both_events both_ends [] both_state both_kept)
      as [Hw _]; [| apply both_run_Ok | exact Hw].
    apply (started_good kept_closures both_ends []); [apply both_started | reflexivity | apply kept_start]. }
  exists s'. eexists. split; [exact Hd |]. split; [vm_compute; reflexivity |].
  apply (late_completion_is_undefined RpcMeta_serialize keep_invoke keep_done keep_wake kept_closures both_events both_ends []
    both_state both_kept s').
  - apply both_started.
  - reflexivity.
  - apply kept_start.
  - apply both_run_Ok.
  - exact Hd.
  - apply elem_of_pending. eexists _, _. vm_compute. reflexivity.
Defined.
