(* ===== verification/TimingWheel.v ===== *)
(** * TimingWheel: the timers of an event loop ([src/code/TimingWheel.h], [.cpp])

    A wheel of 60 buckets turns by one bucket per second.  The timers are objects on
    the heap, which the wheel and the application share by their addresses: reading a
    timer that was deleted is undefined.  Buckets are unordered sets; [place] is the
    position the implementation gives a new element. *)

From S2P Require Import Prelude.
From S2P Require Import Cpp.
From stdpp Require Import gmap list.
Local Open Scope Z_scope.

Definition Count_Ticks : Z := 60.
Abbreviation addr := nat (only parsing).

(** A callback is known by its number; 0 is the empty [std::function].  The fields
    [rotation_] and [slot_] have no value until the timer is put in a bucket. *)
Record Timer := mk_Timer {
  interval_ : Z;           (* size_t *)
  task_ : nat;
  repeat_ : bool;
  rotation_ : option Z;    (* size_t *)
  slot_ : option Z;        (* size_t *)
  seq_ : Z                 (* uint64_t *)
}.

(** [TimerId]: the null pointer is [None]. *)
Record TimerId := mk_TimerId { tid_timer_ : option addr; tid_seq_ : Z }.
Definition TimerId_null : TimerId := mk_TimerId None 0.

(** What a callback asks the loop for; [store] is what it does with the new id. *)
Inductive treq (U : Type) :=
  | Add (interval : Z) (task : nat) (repeat : bool) (store : TimerId -> U -> U)
  | Del (tid : U -> TimerId).
Arguments Add {U}.
Arguments Del {U}.

Record wheel (U : Type) := mk_wheel {
  heap : gmap addr Timer;
  next : addr;                  (* where the next object is allocated *)
  num_created_ : Z;             (* std::atomic<uint64_t> *)
  wheel_ : list (list addr);    (* std::array<Bucket, Count_Ticks> *)
  cur_slot_ : Z;                (* size_t *)
  visiting : option Z;          (* the bucket handle_timeout is iterating over *)
  armed : nat;                  (* outstanding async_wait *)
  fired : list addr;            (* the timers whose task was run, oldest first *)
  user : U
}.
Arguments mk_wheel {U}.
Arguments heap {U}.
Arguments next {U}.
Arguments num_created_ {U}.
Arguments wheel_ {U}.
Arguments cur_slot_ {U}.
Arguments visiting {U}.
Arguments armed {U}.
Arguments fired {U}.
Arguments user {U}.

Definition set_rotation (r : Z) (t : Timer) : Timer :=
  mk_Timer (interval_ t) (task_ t) (repeat_ t) (Some r) (slot_ t) (seq_ t).
Definition set_slot (s : Z) (t : Timer) : Timer :=
  mk_Timer (interval_ t) (task_ t) (repeat_ t) (rotation_ t) (Some s) (seq_ t).

Section wheel.
Context {U : Type}.
Context (place : addr -> list addr -> list addr).
Context (tasks : nat -> U -> list (treq U) * U).

Definition with_heap (h : gmap addr Timer) (w : wheel U) : wheel U :=
  mk_wheel h (next w) (num_created_ w) (wheel_ w) (cur_slot_ w) (visiting w) (armed w) (fired w) (user w).
Definition with_wheel (l : list (list addr)) (w : wheel U) : wheel U :=
  mk_wheel (heap w) (next w) (num_created_ w) l (cur_slot_ w) (visiting w) (armed w) (fired w) (user w).
Definition with_user (u : U) (w : wheel U) : wheel U :=
  mk_wheel (heap w) (next w) (num_created_ w) (wheel_ w) (cur_slot_ w) (visiting w) (armed w) (fired w) u.
Definition with_visiting (v : option Z) (w : wheel U) : wheel U :=
  mk_wheel (heap w) (next w) (num_created_ w) (wheel_ w) (cur_slot_ w) v (armed w) (fired w) (user w).
Definition with_cur_slot (s : Z) (w : wheel U) : wheel U :=
  mk_wheel (heap w) (next w) (num_created_ w) (wheel_ w) s (visiting w) (armed w) (fired w) (user w).
Definition with_fired (a : addr) (w : wheel U) : wheel U :=
  mk_wheel (heap w) (next w) (num_created_ w) (wheel_ w) (cur_slot_ w) (visiting w) (armed w)
    (fired w ++ [a]) (user w).

(** [TimingWheel(loop)]. *)
Definition TimingWheel_init (u : U) : wheel U :=
  mk_wheel ∅ 0%nat 0 (replicate 60 []) 0 None 0 [] u.

(** [timer->...]. *)
Definition deref (a : addr) (w : wheel U) : outcome Timer :=
  match heap w !! a with Some t => Ok t | None => Undefined "use of a deleted timer" end.

(** A field that was never assigned has an indeterminate value. *)
Definition assigned (z : option Z) : outcome Z :=
  match z with Some z => Ok z | None => Undefined "indeterminate value" end.

Definition start (w : wheel U) : wheel U :=
  mk_wheel (heap w) (next w) (num_created_ w) (wheel_ w) (cur_slot_ w) (visiting w) (S (armed w))
    (fired w) (user w).

(** [timer_.cancel()]: the outstanding wait completes with an error, and
    [handle_timeout] then does nothing. *)
Definition stop (w : wheel U) : wheel U :=
  mk_wheel (heap w) (next w) (num_created_ w) (wheel_ w) (cur_slot_ w) (visiting w) 0
    (fired w) (user w).

(** [new Timer(interval, task, repeat)]. *)
Definition new_Timer (interval : Z) (task : nat) (repeat : bool) (w : wheel U) : addr * wheel U :=
  (next w,
   mk_wheel (<[next w := mk_Timer interval task repeat None None (num_created_ w)]> (heap w))
     (S (next w)) (u64 (num_created_ w + 1)) (wheel_ w) (cur_slot_ w) (visiting w) (armed w)
     (fired w) (user w)).

(** [wheel_[s].insert(a)]: nothing happens when [a] is there.  Otherwise the set may be
    rehashed, which ends the life of the iterators of a loop over it. *)
Definition insert_bucket (s : Z) (a : addr) (w : wheel U) : outcome (wheel U) :=
  l ← vget (wheel_ w) s;
  if decide (a ∈ l) then mret w
  else if decide (visiting w = Some s) then Undefined "iterator invalidated by insert"
  else v ← vset (wheel_ w) s (place a l); mret (with_wheel v w).

Definition erase_bucket (s : Z) (a : addr) (w : wheel U) : outcome (wheel U) :=
  l ← vget (wheel_ w) s;
  v ← vset (wheel_ w) s (filter (fun x => x <> a) l);
  mret (with_wheel v w).

Definition add_timer_loop (a : addr) (w : wheel U) : outcome (wheel U) :=
  t ← deref a w;
  let r := interval_ t / Count_Ticks in
  let s := u64 (cur_slot_ w + interval_ t) mod Count_Ticks in
  insert_bucket s a (with_heap (<[a := set_slot s (set_rotation r t)]> (heap w)) w).

Definition add_timer (interval : Z) (task : nat) (repeat : bool) (w : wheel U) :
    outcome (TimerId * wheel U) :=
  if (interval =? 0) || (task =? 0)%nat then mret (TimerId_null, w)
  else
    let '(a, w) := new_Timer interval task repeat w in
    t ← deref a w;
    w ← add_timer_loop a w;
    mret (mk_TimerId (Some a) (seq_ t), w).

Definition del_timer_loop (a : addr) (w : wheel U) : outcome (wheel U) :=
  t ← deref a w;
  s ← assigned (slot_ t);
  l ← vget (wheel_ w) s;
  if decide (a ∈ l) then
    w ← erase_bucket s a w;
    mret (with_heap (delete a (heap w)) w)
  else mret w.

Definition del_timer (tid : TimerId) (w : wheel U) : outcome (wheel U) :=
  match tid_timer_ tid with None => mret w | Some a => del_timer_loop a w end.

Definition do_request (r : treq U) (w : wheel U) : outcome (wheel U) :=
  match r with
  | Add interval task repeat store =>
      p ← add_timer interval task repeat w;
      mret (with_user (store p.1 (user p.2)) p.2)
  | Del tid => del_timer (tid (user w)) w
  end.

Fixpoint do_requests (rs : list (treq U)) (w : wheel U) : outcome (wheel U) :=
  match rs with
  | [] => mret w
  | r :: rs => w ← do_request r w; do_requests rs w
  end.

(** The element after [a] in the order of the iteration. *)
Fixpoint following (a : addr) (l : list addr) : option addr :=
  match l with
  | [] => None
  | x :: l => if decide (x = a) then head l else following a l
  end.

(** The body of the loop of [handle_timeout] for the element [a] of the bucket [s],
    with the next position of the iterator. *)
Definition visit (s : Z) (a : addr) (w : wheel U) : outcome (option addr * wheel U) :=
  t ← deref a w;
  r ← assigned (rotation_ t);
  if 0 <? r then
    l ← vget (wheel_ w) s;
    mret (following a l, with_heap (<[a := set_rotation (r - 1) t]> (heap w)) w)
  else
    w ← (if (task_ t =? 0)%nat then mret w
         else let q := tasks (task_ t) (user w) in
              do_requests q.1 (with_fired a (with_user q.2 w)));
    t ← deref a w;
    w ← (if repeat_ t then add_timer_loop a w else mret (with_heap (delete a (heap w)) w));
    l ← vget (wheel_ w) s;
    w ← erase_bucket s a w;
    mret (following a l, w).

(** The loop, from the iterator [it] on ([None] is [end()]). *)
Fixpoint sweep (fuel : nat) (s : Z) (it : option addr) (w : wheel U) : outcome (wheel U) :=
  match it with
  | None => mret w
  | Some a =>
      match fuel with
      | O => Undefined "out of fuel"
      | S fuel => p ← visit s a w; sweep fuel s p.1 p.2
      end
  end.

Definition handle_timeout (ec : bool) (w : wheel U) : outcome (wheel U) :=
  if ec then mret w
  else
    let w := start w in
    let s := (cur_slot_ w + 1) mod Count_Ticks in
    let w := with_cur_slot s w in
    l ← vget (wheel_ w) s;
    w ← sweep (length l) s (head l) (with_visiting (Some s) w);
    mret (with_visiting None w).

(** [~TimingWheel()]. *)
Definition TimingWheel_destroy (w : wheel U) : wheel U :=
  with_wheel (replicate 60 [])
    (with_heap (fold_right delete (heap w) (concat (wheel_ w))) w).

(** ** The loop of events *)

Inductive wevent := Tick | Call (r : treq U).

Definition handle (e : wevent) (w : wheel U) : outcome (wheel U) :=
  match e with
  | Tick =>
      if (armed w =? 0)%nat then mret w
      else handle_timeout false
             (mk_wheel (heap w) (next w) (num_created_ w) (wheel_ w) (cur_slot_ w) (visiting w)
                (pred (armed w)) (fired w) (user w))
  | Call r => do_request r w
  end.

Fixpoint run (es : list wevent) (w : wheel U) : outcome (wheel U) :=
  match es with
  | [] => mret w
  | e :: es => w ← handle e w; run es w
  end.

End wheel.
Arguments Tick {U}.
Arguments Call {U}.

(** ** The invariant *)

(** [a] is in the bucket [s]. *)
Definition member {U} (a : addr) (s : nat) (w : wheel U) : Prop :=
  match wheel_ w !! s with Some l => a ∈ l | None => False end.
#[export] Instance member_dec {U} a s (w : wheel U) : Decision (member a s w).
Proof. unfold member. destruct (wheel_ w !! s); apply _. Defined.

Definition unqueued {U} (a : addr) (w : wheel U) : Prop := forall s, ~ member a s w.

(** A timer and whether it is in the bucket of its slot. *)
Definition view {U} (a : addr) (w : wheel U) : option (Timer * bool) :=
  match heap w !! a with
  | None => None
  | Some t => Some (t, match slot_ t with
                       | None => false
                       | Some s => bool_decide (member a (Z.to_nat s) w)
                       end)
  end.

Definition interval_ok (i : Z) : Prop := 0 <= i < 2 ^ 64 - 60.

Record wf {U} (w : wheel U) : Prop := {
  wf_length : length (wheel_ w) = 60%nat;
  wf_cur : 0 <= cur_slot_ w < 60;
  wf_next a t : heap w !! a = Some t -> (a < next w)%nat;
  wf_bucket s l : wheel_ w !! s = Some l -> NoDup l;
  wf_member a s : member a s w -> exists t r,
    heap w !! a = Some t /\ slot_ t = Some (Z.of_nat s) /\ rotation_ t = Some r /\ 0 <= r;
  wf_fields a t : heap w !! a = Some t -> interval_ok (interval_ t) /\ 0 < interval_ t /\ task_ t <> 0%nat
}.

(** The bucket a timer with this interval goes to, when the wheel is at [cur]. *)
Definition slot_of (cur interval : Z) : Z := (cur + interval) mod Count_Ticks.
Definition placed (cur : Z) (t : Timer) : Timer :=
  set_slot (slot_of cur (interval_ t)) (set_rotation (interval_ t / Count_Ticks) t).

Section lemmas.
Context {U : Type} (w : wheel U) (Hw : wf w).
Implicit Types a b : addr.
Implicit Types s : nat.

Lemma bucket_lookup (s : Z) : 0 <= s < 60 -> exists l,
  vget (wheel_ w) s = Ok l /\ wheel_ w !! Z.to_nat s = Some l.
Proof.
  intros Hs. destruct (lookup_lt_is_Some_2 (wheel_ w) (Z.to_nat s)) as [l Hl].
  { rewrite (wf_length _ Hw). lia. }
  exists l. split; [| done]. apply vget_Ok; [lia | done].
Qed.

Lemma bucket_set (s : Z) l : 0 <= s < 60 ->
  vset (wheel_ w) s l = Ok (<[Z.to_nat s := l]> (wheel_ w)).
Proof. intros Hs. apply vset_Ok. unfold vsize. rewrite (wf_length _ Hw). lia. Qed.

Lemma member_lt a s : member a s w -> (s < 60)%nat.
Proof.
  unfold member. destruct (wheel_ w !! s) eqn:Hl; [| done]. intros _.
  apply lookup_lt_Some in Hl. rewrite (wf_length _ Hw) in Hl. lia.
Qed.

(** A timer is in one bucket at most. *)
Lemma member_unique a s s' : member a s w -> member a s' w -> s = s'.
Proof.
  intros H1 H2. destruct (wf_member _ Hw _ _ H1) as (t & r & Ht & Hs & _).
  destruct (wf_member _ Hw _ _ H2) as (t' & r' & Ht' & Hs' & _). simplify_eq. lia.
Qed.

Lemma member_live a s : member a s w -> is_Some (heap w !! a).
Proof. intros H. destruct (wf_member _ Hw _ _ H) as (t & r & -> & _). eauto. Qed.

Lemma member_insert_bucket a s l' b s' :
  (s < 60)%nat ->
  member b s' (with_wheel (<[s := l']> (wheel_ w)) w) <->
  if decide (s = s') then b ∈ l' else member b s' w.
Proof.
  intros Hs. unfold member. simpl. destruct (decide (s = s')) as [<- |].
  - rewrite list_lookup_insert_eq; [done |]. rewrite (wf_length _ Hw). lia.
  - by rewrite list_lookup_insert_ne.
Qed.

(** Taking a timer out of its bucket. *)
Lemma member_erase a s l b s' :
  wheel_ w !! s = Some l ->
  member b s' (with_wheel (<[s := filter (fun x => x <> a) l]> (wheel_ w)) w) <->
  member b s' w /\ ~ (s = s' /\ b = a).
Proof.
  intros Hl. pose proof (lookup_lt_Some _ _ _ Hl) as Hlt. rewrite (wf_length _ Hw) in Hlt.
  rewrite member_insert_bucket by done. destruct (decide (s = s')) as [<- |]; [| tauto].
  rewrite list_elem_of_filter. unfold member. rewrite Hl. tauto.
Qed.

Lemma wf_erase a s l :
  wheel_ w !! s = Some l ->
  wf (with_wheel (<[s := filter (fun x => x <> a) l]> (wheel_ w)) w).
Proof.
  intros Hl. destruct Hw as [H1 H2 H3 H4 H5 H6]. split; simpl; try done.
  - by rewrite length_insert.
  - intros s' l'. rewrite list_lookup_insert_Some.
    intros [(<- & <- & _) | [_ Hl']]; [| by eapply H4]. by apply list.NoDup_filter, (H4 s).
  - intros b s'. rewrite member_erase by done. intros [Hm _]. by apply H5.
Qed.

(** Changing or deleting a timer that is in no bucket. *)
Lemma wf_put a t :
  (a < next w)%nat -> unqueued a w ->
  interval_ok (interval_ t) /\ 0 < interval_ t /\ task_ t <> 0%nat ->
  wf (with_heap (<[a := t]> (heap w)) w).
Proof.
  intros Ha Hu Ht. destruct Hw as [H1 H2 H3 H4 H5 H6]. split; simpl; try done.
  - intros b t'. rewrite lookup_insert_Some. intros [[<- _] | [_ Hb]]; eauto.
  - intros b s Hm. destruct (decide (a = b)) as [<- |]; [by destruct (Hu s) |].
    rewrite lookup_insert_ne by done. by apply H5.
  - intros b t'. rewrite lookup_insert_Some. intros [[_ <-] | [_ Hb]]; eauto.
Qed.

Lemma wf_delete a : unqueued a w -> wf (with_heap (delete a (heap w)) w).
Proof.
  intros Hu. destruct Hw as [H1 H2 H3 H4 H5 H6]. split; simpl; try done.
  - intros b t' Hb. apply lookup_delete_Some in Hb as [_ Hb]. eauto.
  - intros b s Hm. destruct (decide (a = b)) as [<- |]; [by destruct (Hu s) |].
    rewrite lookup_delete_ne by done. by apply H5.
  - intros b t' Hb. apply lookup_delete_Some in Hb as [_ Hb]. eauto.
Qed.

(** Changing the rotation of a timer. *)
Lemma wf_rotate a t r :
  heap w !! a = Some t -> 0 <= r ->
  wf (with_heap (<[a := set_rotation r t]> (heap w)) w).
Proof.
  intros Ht Hr. destruct Hw as [H1 H2 H3 H4 H5 H6]. split; simpl; try done.
  - intros b t'. rewrite lookup_insert_Some. intros [[<- _] | [_ Hb]]; eauto.
  - intros b s Hm. destruct (H5 b s Hm) as (t' & r' & Ht' & Hs & Hr' & Hr0).
    destruct (decide (a = b)) as [<- |].
    + simplify_eq. exists (set_rotation r t), r. by rewrite lookup_insert_eq.
    + rewrite lookup_insert_ne by done. eauto 10.
  - intros b t'. rewrite lookup_insert_Some. intros [[<- <-] | [_ Hb]]; simpl; eauto.
Qed.

(** Putting a timer that is in no bucket in the bucket of its slot. *)
Lemma wf_enqueue a t s l r (l' : list addr) :
  unqueued a w -> heap w !! a = Some t -> slot_ t = Some (Z.of_nat s) ->
  rotation_ t = Some r -> 0 <= r -> wheel_ w !! s = Some l -> l' ≡ₚ a :: l ->
  wf (with_wheel (<[s := l']> (wheel_ w)) w).
Proof.
  intros Hu Ht Hs Hr Hr0 Hl Hp. pose proof (lookup_lt_Some _ _ _ Hl) as Hlt.
  rewrite (wf_length _ Hw) in Hlt.
  assert (forall b s', member b s' (with_wheel (<[s := l']> (wheel_ w)) w) ->
    member b s' w \/ s' = s /\ b = a) as Hmem.
  { intros b s'. rewrite member_insert_bucket by done. destruct (decide (s = s')) as [<- |]; [| by left].
    rewrite Hp, elem_of_cons. unfold member. rewrite Hl. intros [-> | H]; auto. }
  destruct Hw as [H1 H2 H3 H4 H5 H6]. split; simpl; try done.
  - by rewrite length_insert.
  - intros s' l1. rewrite list_lookup_insert_Some.
    intros [(<- & <- & _) | [_ Hl']]; [| by eapply H4]. rewrite Hp. constructor; [| by eapply H4].
    intros Ha. apply (Hu s). unfold member. by rewrite Hl.
  - intros b s' [Hm | [-> ->]]%Hmem; [by apply H5 | eauto 10].
Qed.

Lemma view_ext (w' : wheel U) a :
  heap w' !! a = heap w !! a -> (forall s, member a s w' <-> member a s w) ->
  view a w' = view a w.
Proof.
  intros Hh Hm. unfold view. rewrite Hh. destruct (heap w !! a) as [t |]; [| done].
  do 2 f_equal. destruct (slot_ t); [| done]. by apply bool_decide_ext.
Qed.
End lemmas.

(** ** The operations *)

(** What a callback may ask for while the wheel turns: a timer for a multiple of 60
    would go to the bucket under iteration, and deleting a timer may delete the one
    that is running. *)
Definition inside_ok {U} (r : treq U) : Prop :=
  match r with
  | Add interval _ _ _ => interval_ok interval /\ (interval <> 0 -> interval mod Count_Ticks <> 0)
  | Del _ => False
  end.
Class Contract {U} (tasks : nat -> U -> list (treq U) * U) : Prop :=
  tasks_inside k u : Forall inside_ok (tasks k u).1.

(** An implementation of the buckets: a new element gets some position. *)
Class Bucket (place : addr -> list addr -> list addr) : Prop :=
  place_Permutation a l : place a l ≡ₚ a :: l.

(** The wheel with new timers and nothing else changed. *)
Record grows {U} (w w' : wheel U) : Prop := {
  grows_wf : wf w';
  grows_cur : cur_slot_ w' = cur_slot_ w;
  grows_visiting : visiting w' = visiting w;
  grows_armed : armed w' = armed w;
  grows_fired : fired w' = fired w;
  grows_next : (next w <= next w')%nat;
  grows_heap b : (b < next w)%nat -> heap w' !! b = heap w !! b;
  grows_member b s : (b < next w)%nat -> member b s w' <-> member b s w;
  grows_bucket s : visiting w = Some s -> wheel_ w' !! Z.to_nat s = wheel_ w !! Z.to_nat s;
  grows_new b t : (next w <= b)%nat -> heap w' !! b = Some t ->
    (exists s, member b s w') /\ (visiting w <> None -> interval_ t mod Count_Ticks <> 0)
}.

Section operations.
Context {U : Type} (place : addr -> list addr -> list addr) `{!Bucket place}.
Implicit Types w : wheel U.

Lemma grows_refl w : wf w -> grows w w.
Proof. intros Hw. split; try done. intros b t Hb Ht%(wf_next _ Hw). lia. Qed.
Lemma grows_trans w1 w2 w3 : grows w1 w2 -> grows w2 w3 -> grows w1 w3.
Proof.
  intros [_ H2 H3 H4 H5 H6 H7 H8 H9 H10] [H1' H2' H3' H4' H5' H6' H7' H8' H9' H10'].
  split; [done | congruence | congruence | congruence | congruence | lia | | | |].
  - intros b Hb. rewrite H7' by lia. by apply H7.
  - intros b s Hb. rewrite H8' by lia. by apply H8.
  - intros s Hs. rewrite H9' by congruence. by apply H9.
  - intros b t Hb Ht. destruct (Nat.lt_ge_cases b (next w2)) as [Hb2 | Hb2].
    + rewrite H7' in Ht by done. destruct (H10 b t Hb Ht) as [[s Hm] Hv]. split; [| done].
      exists s. by apply H8'.
    + destruct (H10' b t Hb2 Ht) as [Hs Hv]. split; [done |]. by rewrite <- H3.
Qed.
Lemma grows_user w u : wf w -> grows w (with_user u w).
Proof.
  intros Hw. split; [destruct Hw; by split | done.. |]. intros b t Hb Ht%(wf_next _ Hw). lia.
Qed.

Lemma unallocated a w : wf w -> (next w <= a)%nat -> heap w !! a = None /\ unqueued a w.
Proof.
  intros Hw Ha. assert (heap w !! a = None) as Hn.
  { destruct (heap w !! a) as [t |] eqn:Ht; [| done]. apply (wf_next _ Hw) in Ht. lia. }
  split; [done |]. intros s Hm. apply (member_live w Hw) in Hm as [t Ht]. congruence.
Qed.

Lemma slot_of_range cur i : 0 <= slot_of cur i < 60.
Proof. unfold slot_of, Count_Ticks. apply Z.mod_pos_bound. lia. Qed.

Lemma slot_of_cur cur i : 0 <= cur < 60 -> slot_of cur i = cur <-> i mod Count_Ticks = 0.
Proof.
  intros Hc. unfold slot_of, Count_Ticks. pose proof (Z.mod_pos_bound i 60 ltac:(lia)).
  rewrite <- Zplus_mod_idemp_r. destruct (Z.lt_ge_cases (cur + i mod 60) 60).
  - rewrite Z.mod_small by lia. lia.
  - rewrite <- (Z.mod_unique _ 60 1 (cur + i mod 60 - 60)) by lia. lia.
Qed.

(** A timer in no bucket is put in the bucket of its slot. *)
Lemma add_timer_loop_ok a t w :
  wf w -> heap w !! a = Some t -> unqueued a w ->
  visiting w <> Some (slot_of (cur_slot_ w) (interval_ t)) ->
  exists l w', wheel_ w !! Z.to_nat (slot_of (cur_slot_ w) (interval_ t)) = Some l /\
    add_timer_loop place a w = Ok w' /\ wf w' /\
    w' = with_wheel (<[Z.to_nat (slot_of (cur_slot_ w) (interval_ t)) := place a l]> (wheel_ w))
           (with_heap (<[a := placed (cur_slot_ w) t]> (heap w)) w).
Proof.
  intros Hw Ht Hu Hv. pose proof (slot_of_range (cur_slot_ w) (interval_ t)) as Hs.
  destruct (wf_fields _ Hw _ _ Ht) as (Hi & Hi0 & Htask).
  destruct (bucket_lookup w Hw _ Hs) as (l & Hg & Hl). exists l. eexists. split; [done |].
  assert (wf (with_heap (<[a := placed (cur_slot_ w) t]> (heap w)) w)) as Hw1.
  { apply wf_put; try done. by eapply wf_next. }
  pose proof (wf_cur _ Hw). unfold interval_ok in Hi.
  unfold add_timer_loop, deref, insert_bucket. rewrite Ht. cbn [mbind outcome_bind].
  rewrite u64_small by lia. fold (slot_of (cur_slot_ w) (interval_ t)). simpl. rewrite Hg. simpl.
  rewrite decide_False, decide_False by (done || (intros Ha; apply (Hu (Z.to_nat
    (slot_of (cur_slot_ w) (interval_ t)))); unfold member; by rewrite Hl)).
  rewrite bucket_set by done. simpl. split; [done |]. split; [| done].
  eapply (wf_enqueue _ Hw1 a (placed (cur_slot_ w) t) _ l); simpl.
  - exact Hu.
  - by rewrite lookup_insert_eq.
  - f_equal. lia.
  - done.
  - apply Z.div_pos; unfold Count_Ticks; lia.
  - done.
  - apply place_Permutation.
Qed.

Definition fresh_timer (interval : Z) (task : nat) (repeat : bool) (w : wheel U) : Timer :=
  placed (cur_slot_ w) (mk_Timer interval task repeat None None (num_created_ w)).

Lemma add_timer_ok interval task repeat w :
  wf w -> interval_ok interval ->
  (visiting w = None \/
   visiting w = Some (cur_slot_ w) /\ (interval <> 0 -> interval mod Count_Ticks <> 0)) ->
  exists tid w', add_timer place interval task repeat w = Ok (tid, w') /\ grows w w' /\
    user w' = user w /\
    if decide (interval = 0 \/ task = 0%nat) then tid = TimerId_null /\ w' = w
    else tid = mk_TimerId (Some (next w)) (num_created_ w) /\ next w' = S (next w) /\
      view (next w) w' = Some (fresh_timer interval task repeat w, true).
Proof.
  intros Hw Hi Hv. unfold add_timer. case_decide as Hz.
  { exists TimerId_null, w. split; [| split; [by apply grows_refl | done]].
    destruct Hz as [-> | ->]; [done |]. by rewrite orb_true_r. }
  assert (((interval =? 0) || (task =? 0)%nat) = false) as ->.
  { apply orb_false_iff. split; [apply Z.eqb_neq | apply Nat.eqb_neq]; tauto. }
  destruct (unallocated (next w) w Hw (le_n _)) as [Hnone Hu]. simpl.
  set (t := mk_Timer interval task repeat None None (num_created_ w)).
  set (w1 := mk_wheel (<[next w := t]> (heap w)) _ _ _ _ _ _ _ _).
  assert (wf w1) as Hw1.
  { destruct Hw as [H1 H2 H3 H4 H5 H6]. split; try done.
    - intros b t'. simpl. rewrite lookup_insert_Some. intros [[<- _] | [_ Hb%H3]]; lia.
    - intros b s Hm. assert (next w <> b) by (intros <-; by apply (Hu s)).
      simpl. rewrite lookup_insert_ne by done. by apply H5.
    - intros b t'. simpl. rewrite lookup_insert_Some. intros [[_ <-] | [_ Hb%H6]]; [| done].
      simpl. unfold interval_ok in Hi. split_and!; [done | lia | tauto]. }
  unfold deref at 1. simpl. rewrite lookup_insert_eq. simpl.
  destruct (add_timer_loop_ok (next w) t w1) as (l & w' & Hl & Hadd & Hw' & Heq).
  { done. } { unfold w1. simpl. by rewrite lookup_insert_eq. } { done. }
  { simpl. destruct Hv as [-> | [-> Hmod]]; [done |]. intros [= Hc].
    apply Hmod; [tauto |]. apply (slot_of_cur (cur_slot_ w)); [by apply wf_cur | done]. }
  rewrite Hadd. simpl. exists (mk_TimerId (Some (next w)) (num_created_ w)), w'. split; [done |].
  simpl in Hl. set (s := slot_of (cur_slot_ w) interval) in *. simpl in Heq.
  assert (Z.to_nat s < 60)%nat as Hs60 by (pose proof (slot_of_range (cur_slot_ w) interval); lia).
  assert (forall b s', member b s' w' <-> member b s' w \/ s' = Z.to_nat s /\ b = next w) as Hmem.
  { intros b s'. rewrite Heq. unfold member. simpl. destruct (decide (Z.to_nat s = s')) as [<- |].
    - rewrite list_lookup_insert_eq by (rewrite (wf_length _ Hw); lia).
      rewrite place_Permutation, elem_of_cons, Hl. tauto.
    - rewrite list_lookup_insert_ne by done. split; [by left | intros [Hm | [-> _]]; done]. }
  split_and!; [| by rewrite Heq | done | by rewrite Heq |].
  - split; [done | by rewrite Heq.. | rewrite Heq; simpl; lia | | | |].
    + intros b Hb. rewrite Heq. simpl. by rewrite !lookup_insert_ne by lia.
    + intros b s' Hb. rewrite Hmem. split; [| by left]. intros [Hm | [_ ->]]; [done | lia].
    + intros s' Hvis. rewrite Heq. simpl. rewrite list_lookup_insert_ne; [done |].
      intros Hss. unfold s in Hss. destruct Hv as [Hv | [Hv Hmod]]; rewrite Hv in Hvis; [done |].
      injection Hvis as <-. apply Hmod; [tauto |].
      pose proof (slot_of_range (cur_slot_ w) interval). pose proof (wf_cur _ Hw).
      apply (slot_of_cur (cur_slot_ w)); lia.
    + intros b t' Hb Ht'. assert (b = next w) as ->.
      { rewrite Heq in Ht'. simpl in Ht'. destruct (decide (b = next w)) as [-> | Hne]; [done |].
        rewrite !lookup_insert_ne in Ht' by done. apply (wf_next _ Hw) in Ht'. lia. }
      split; [exists (Z.to_nat s); apply Hmem; by right |]. intros Hvis.
      rewrite Heq in Ht'. simpl in Ht'. rewrite lookup_insert_eq in Ht'. injection Ht' as <-.
      simpl. destruct Hv as [Hv | [_ Hmod]]; [done |]. apply Hmod. tauto.
  - unfold view. rewrite Heq at 1. simpl. rewrite lookup_insert_eq. unfold fresh_timer. simpl.
    do 2 f_equal. apply bool_decide_true, Hmem. right. done.
Qed.

Lemma do_requests_inside rs w :
  wf w -> visiting w = Some (cur_slot_ w) -> Forall inside_ok rs ->
  exists w', do_requests place rs w = Ok w' /\ grows w w'.
Proof.
  intros Hw Hv Hrs. revert w Hw Hv.
  induction Hrs as [| [interval task repeat store | tid] rs Hr Hrs IH]; intros w Hw Hv; simpl in *.
  - exists w. split; [done | by apply grows_refl].
  - destruct Hr as [Hi Hmod].
    destruct (add_timer_ok interval task repeat w Hw Hi) as (tid & w1 & Hadd & Hg & _); [by right |].
    rewrite Hadd. simpl. pose proof (grows_user w1 (store tid (user w1)) (grows_wf _ _ Hg)) as Hu.
    destruct (IH (with_user (store tid (user w1)) w1)) as (w2 & Hrun & Hg2).
    + apply Hu.
    + simpl. by rewrite (grows_visiting _ _ Hg), (grows_cur _ _ Hg).
    + exists w2. split; [done |]. eapply grows_trans; [done |]. by eapply grows_trans.
  - done.
Qed.

(** ** One timer of the bucket under iteration *)

(** What becomes of a timer when the wheel, at the slot [cur], visits it. *)
Definition aged (cur : Z) (t : Timer) : option (Timer * bool) :=
  match rotation_ t with
  | None => None
  | Some r =>
      if 0 <? r then Some (set_rotation (r - 1) t, true)
      else if repeat_ t then Some (placed cur t, negb (interval_ t mod Count_Ticks =? 0))
      else None
  end.

(** The end of the life of a timer whose time has come, or its next round. *)
Definition expire (a : addr) (t : Timer) (w : wheel U) : outcome (wheel U) :=
  if repeat_ t then add_timer_loop place a w else mret (with_heap (delete a (heap w)) w).

Lemma expire_ok a t l w :
  wf w -> visiting w = Some (cur_slot_ w) -> heap w !! a = Some t ->
  wheel_ w !! Z.to_nat (cur_slot_ w) = Some l -> a ∈ l ->
  exists w3 w4, expire a t w = Ok w3 /\ vget (wheel_ w3) (cur_slot_ w) = Ok l /\
    erase_bucket (cur_slot_ w) a w3 = Ok w4 /\ wf w4 /\
    cur_slot_ w4 = cur_slot_ w /\ visiting w4 = visiting w /\ armed w4 = armed w /\
    fired w4 = fired w /\ next w4 = next w /\
    wheel_ w4 !! Z.to_nat (cur_slot_ w) = Some (filter (fun x => x <> a) l) /\
    view a w4 = (if repeat_ t
                 then Some (placed (cur_slot_ w) t, negb (interval_ t mod Count_Ticks =? 0))
                 else None) /\
    forall b, b <> a -> heap w4 !! b = heap w !! b /\ forall s, member b s w4 <-> member b s w.
Proof.
  intros Hw Hvis Ht Hl Ha. pose proof (wf_cur _ Hw) as Hcur.
  set (cur := cur_slot_ w) in *. set (l1 := filter (fun x => x <> a) l).
  set (e := with_wheel (<[Z.to_nat cur := l1]> (wheel_ w)) w).
  assert (wf e) as He by by apply wf_erase.
  assert (forall b s, member b s e <-> member b s w /\ ~ (Z.to_nat cur = s /\ b = a)) as Hmem.
  { intros b s. by apply member_erase. }
  assert (unqueued a e) as Hu.
  { intros s [Hm Hn]%Hmem. apply Hn. split; [| done]. apply (member_unique w Hw a); [| done].
    unfold member. by rewrite Hl. }
  assert (length (wheel_ w) = 60%nat) as Hlen by apply (wf_length _ Hw).
  assert (vget (wheel_ w) cur = Ok l) as Hget by (apply vget_Ok; [lia | done]).
  assert (forall h, erase_bucket cur a (with_heap h w) = Ok (with_heap h e)) as Herase.
  { intros h. unfold erase_bucket. simpl. rewrite Hget. simpl. rewrite bucket_set by done. done. }
  assert (wheel_ e !! Z.to_nat cur = Some l1) as Hl1 by (apply list_lookup_insert_eq; lia).
  unfold expire. destruct (repeat_ t) eqn:Hrep.
  2: { eexists _, (with_heap (delete a (heap w)) e). split; [done |]. split; [done |].
    split; [apply Herase |]. split; [by apply (wf_delete e He) |]. split_and!; try done.
    - unfold view. simpl. by rewrite lookup_delete_eq.
    - intros b Hb. simpl. rewrite lookup_delete_ne by done. split; [done |].
      intros s. rewrite (Hmem b s). tauto. }
  destruct (wf_fields _ Hw _ _ Ht) as (Hi & Hi0 & Htask). unfold interval_ok in Hi.
  set (s' := slot_of cur (interval_ t)).
  pose proof (slot_of_range cur (interval_ t)) as Hs'. fold s' in Hs'.
  pose proof (slot_of_cur cur (interval_ t) Hcur) as Hsc. fold s' in Hsc.
  assert (add_timer_loop place a w = insert_bucket place s' a
    (with_heap (<[a := placed cur t]> (heap w)) w)) as ->.
  { unfold add_timer_loop, deref. rewrite Ht. cbn [mbind outcome_bind].
    rewrite u64_small by (fold cur; lia). done. }
  unfold insert_bucket. cbn [with_heap wheel_].
  destruct (decide (interval_ t mod Count_Ticks = 0)) as [Hmod | Hmod].
  - assert (s' = cur) as Hsame by by apply Hsc.
    rewrite Hsame, Hget. cbn [mbind outcome_bind]. rewrite decide_True by done.
    eexists _, (with_heap (<[a := placed cur t]> (heap w)) e). split; [done |]. split; [done |].
    split; [apply Herase |].
    split; [apply (wf_put e He); [by eapply wf_next | done | done] |]. split_and!; try done.
    + unfold view. simpl. rewrite lookup_insert_eq. simpl. rewrite Hmod. do 2 f_equal.
      apply bool_decide_false. apply Hu.
    + intros b Hb. simpl. rewrite lookup_insert_ne by done. split; [done |].
      intros s. rewrite (Hmem b s). tauto.
  - assert (s' <> cur) as Hne by tauto.
    destruct (bucket_lookup w Hw s' Hs') as (l' & Hg' & Hl').
    rewrite Hg'. cbn [mbind outcome_bind].
    rewrite decide_False.
    2: { intros Ha'. apply Hne. assert (member a (Z.to_nat s') w) as Hm1 by (unfold member; by rewrite Hl').
      assert (member a (Z.to_nat cur) w) as Hm2 by (unfold member; by rewrite Hl).
      pose proof (member_unique w Hw a _ _ Hm1 Hm2). lia. }
    rewrite decide_False by (cbn [visiting with_heap]; congruence). rewrite bucket_set by done.
    destruct (add_timer_loop_ok a t e) as (l2 & w' & Hl2 & _ & Hw' & Heq); try done.
    { simpl. fold cur s'. congruence. }
    simpl in Hl2, Heq. fold cur s' in Hl2, Heq. rewrite list_lookup_insert_ne in Hl2 by lia.
    assert (l2 = l') as -> by congruence.
    eexists _, w'. split; [done |].
    assert (vget (<[Z.to_nat s' := place a l']> (wheel_ w)) cur = Ok l) as Hget'.
    { apply vget_Ok; [lia |]. rewrite list_lookup_insert_ne by lia. done. }
    split; [exact Hget' |]. split.
    { unfold erase_bucket. cbn [with_wheel with_heap wheel_]. rewrite Hget'. simpl.
      rewrite vset_Ok by (unfold vsize; rewrite length_insert, Hlen; lia). rewrite Heq.
      cbn [mbind outcome_bind]. unfold mret, outcome_ret. f_equal. unfold e, with_wheel. simpl.
      by rewrite list_insert_insert_ne by lia. }
    split; [done |].
    assert (forall b s, member b s w' <-> member b s e \/ s = Z.to_nat s' /\ b = a) as Hmem'.
    { intros b s. rewrite Heq. unfold member. simpl. destruct (decide (Z.to_nat s' = s)) as [<- |].
      - rewrite list_lookup_insert_eq by (rewrite length_insert; lia).
        rewrite place_Permutation, elem_of_cons, list_lookup_insert_ne, Hl' by lia. tauto.
      - rewrite list_lookup_insert_ne by done. split; [by left | intros [Hm | [-> _]]; done]. }
    split_and!; try (by rewrite Heq).
    + rewrite Heq. simpl. rewrite list_lookup_insert_ne by lia. done.
    + unfold view. rewrite Heq at 1. simpl. rewrite lookup_insert_eq. simpl. fold cur s'.
      do 2 f_equal. apply Z.eqb_neq in Hmod. rewrite Hmod. simpl.
      apply bool_decide_true, Hmem'. by right.
    + intros b Hb. split.
      * rewrite Heq. simpl. by rewrite lookup_insert_ne.
      * intros s. rewrite Hmem', Hmem. tauto.
Qed.

Context (tasks : nat -> U -> list (treq U) * U).

Lemma following_app (a : addr) d r : NoDup (d ++ a :: r) -> following a (d ++ a :: r) = head r.
Proof.
  induction d as [| x d IH]; simpl; intros Hnd.
  - by rewrite decide_True.
  - apply list.NoDup_cons in Hnd as [Hx Hnd]. rewrite decide_False; [by apply IH |].
    intros ->. apply Hx. apply elem_of_app. right. left.
Qed.

Lemma filter_not_elem (a : addr) (l : list addr) : a ∉ l -> filter (fun x => x <> a) l = l.
Proof.
  induction l as [| x l IH]; intros Ha; [done |]. apply not_elem_of_cons in Ha as [Hx Ha].
  rewrite filter_cons_True by congruence. f_equal. by apply IH.
Qed.

Lemma filter_ext_in (P Q : addr -> Prop) `{!forall x, Decision (P x), !forall x, Decision (Q x)}
    (l : list addr) :
  (forall x, x ∈ l -> P x <-> Q x) -> filter P l = filter Q l.
Proof.
  induction l as [| x l IH]; intros Hpq; [done |]. rewrite !filter_cons.
  assert (P x <-> Q x) as Hx by (apply Hpq; left). rewrite IH by (intros; apply Hpq; by right).
  destruct (decide (P x)), (decide (Q x)); tauto || done.
Qed.

(** What one visit does to the wheel [w]. *)
Record visited (a : addr) (t : Timer) (r : list addr) (w w' : wheel U) : Prop := {
  visited_wf : wf w';
  visited_cur : cur_slot_ w' = cur_slot_ w;
  visited_visiting : visiting w' = visiting w;
  visited_armed : armed w' = armed w;
  visited_next : (next w <= next w')%nat;
  visited_rest : exists d, wheel_ w' !! Z.to_nat (cur_slot_ w) = Some (d ++ r);
  visited_self : view a w' = aged (cur_slot_ w) t;
  visited_others b : (b < next w)%nat -> b <> a ->
    heap w' !! b = heap w !! b /\ forall s, member b s w' <-> member b s w;
  visited_fired : fired w' = fired w ++ (if decide (rotation_ t = Some 0) then [a] else []);
  visited_new b t' : (next w <= b)%nat -> heap w' !! b = Some t' ->
    (exists s, member b s w') /\ interval_ t' mod Count_Ticks <> 0
}.

Lemma visit_ok `{!Contract tasks} a t d r w :
  wf w -> visiting w = Some (cur_slot_ w) -> heap w !! a = Some t ->
  wheel_ w !! Z.to_nat (cur_slot_ w) = Some (d ++ a :: r) ->
  exists w', visit place tasks (cur_slot_ w) a w = Ok (head r, w') /\ visited a t r w w'.
Proof.
  intros Hw Hvis Ht Hl. pose proof (wf_cur _ Hw) as Hcur. pose proof (wf_bucket _ Hw _ _ Hl) as Hnd.
  assert (member a (Z.to_nat (cur_slot_ w)) w) as Hm.
  { unfold member. rewrite Hl. apply elem_of_app. right. left. }
  assert (a < next w)%nat as Hlt by by eapply wf_next.
  destruct (wf_member _ Hw _ _ Hm) as (t' & rot & Ht' & Hslot & Hrot & Hrot0).
  assert (t' = t) as -> by congruence. clear Ht'.
  destruct (wf_fields _ Hw _ _ Ht) as (Hi & Hi0 & Htask).
  unfold visit, deref. rewrite Ht. cbn [mbind outcome_bind]. rewrite Hrot. cbn [assigned mbind outcome_bind].
  destruct (Z.ltb_spec 0 rot) as [Hpos | Hzero].
  - rewrite (vget_Ok _ _ _ (proj1 Hcur) Hl). cbn [mbind outcome_bind].
    rewrite following_app by done. eexists. split; [done |].
    split; try done; simpl.
    + by apply wf_rotate; [| | lia].
    + by exists (d ++ [a]); rewrite <- app_assoc.
    + unfold view, aged. simpl. rewrite lookup_insert_eq, Hrot. simpl. rewrite Hslot.
      rewrite (proj2 (Z.ltb_lt 0 rot)) by done. do 2 f_equal. apply bool_decide_true.
      by rewrite Nat2Z.id.
    + intros b Hb Hne. by rewrite lookup_insert_ne.
    + rewrite Hrot. rewrite decide_False by (intros [=]; lia). by rewrite app_nil_r.
    + intros b t' Hb. rewrite lookup_insert_ne by lia. intros Ht'%(wf_next _ Hw). lia.
  - assert (rot = 0) as -> by lia.
    rewrite (proj2 (Nat.eqb_neq _ _) Htask). set (q := tasks (task_ t) (user w)).
    set (w1 := with_fired a (with_user q.2 w)).
    assert (wf w1) as Hw1 by (destruct Hw; by split).
    destruct (do_requests_inside q.1 w1 Hw1 Hvis (tasks_inside _ _)) as (w2 & Hrun & Hg).
    cbn [mbind outcome_bind]. rewrite Hrun. cbn [mbind outcome_bind].
    pose proof (grows_cur _ _ Hg) as Hc2. simpl in Hc2.
    pose proof (grows_heap _ _ Hg a Hlt) as Hh2. simpl in Hh2.
    pose proof (grows_bucket _ _ Hg _ Hvis) as Hb2. simpl in Hb2. rewrite Hl, <- Hc2 in Hb2.
    pose proof (grows_visiting _ _ Hg) as Hv2. simpl in Hv2. rewrite Hvis, <- Hc2 in Hv2.
    destruct (expire_ok a t (d ++ a :: r) w2 (grows_wf _ _ Hg) Hv2 ltac:(congruence) Hb2)
      as (w3 & w4 & He & Hg3 & Her & Hw4 & Hc4 & Hv4 & Ha4 & Hf4 & Hn4 & Hl4 & Hview & Hoth).
    { apply elem_of_app. right. left. }
    rewrite Hh2, Ht. cbn [mbind outcome_bind]. fold (expire a t w2). rewrite He.
    cbn [mbind outcome_bind]. rewrite <- Hc2, Hg3. cbn [mbind outcome_bind]. rewrite Her.
    cbn [mbind outcome_bind]. rewrite following_app by done. exists w4. split; [done |].
    pose proof (grows_next _ _ Hg) as Hn2. simpl in Hn2.
    split; try done; rewrite ?Hc4, ?Hv4, ?Ha4, ?Hn4.
    + done.
    + by rewrite Hv2, Hc2, Hvis.
    + apply (grows_armed _ _ Hg).
    + lia.
    + exists d. rewrite <- Hc2, Hl4. f_equal. rewrite filter_app, filter_cons.
      apply list.NoDup_app in Hnd as (_ & Hd & Hnd). apply list.NoDup_cons in Hnd as [Har _].
      rewrite decide_False by tauto. f_equal; apply filter_not_elem; [| done].
      intros Had. apply (Hd a Had). left.
    + rewrite Hview. unfold aged. rewrite Hrot, Hc2. simpl. by case_match.
    + intros b Hb Hne. destruct (Hoth b Hne) as [Hh Hms]. split.
      * rewrite Hh. by apply (grows_heap _ _ Hg).
      * intros s. rewrite Hms. by apply (grows_member _ _ Hg).
    + rewrite Hf4, (grows_fired _ _ Hg), Hrot, decide_True by done. done.
    + intros b t' Hb. destruct (Hoth b ltac:(lia)) as [Hh Hms]. rewrite Hh. intros Ht'.
      destruct (grows_new _ _ Hg b t' Hb Ht') as [[s Hs] Hmod].
      split; [exists s; by apply Hms | apply Hmod; simpl; congruence].
Qed.

(** ** A tick *)

(** Every timer of the bucket is visited once, in the order of the iteration; the
    others are not touched. *)
Lemma sweep_ok `{!Contract tasks} todo d w :
  wf w -> visiting w = Some (cur_slot_ w) ->
  wheel_ w !! Z.to_nat (cur_slot_ w) = Some (d ++ todo) ->
  exists w', sweep place tasks (length todo) (cur_slot_ w) (head todo) w = Ok w' /\ wf w' /\
    cur_slot_ w' = cur_slot_ w /\ armed w' = armed w /\ (next w <= next w')%nat /\
    (forall b t, b ∈ todo -> heap w !! b = Some t -> view b w' = aged (cur_slot_ w) t) /\
    (forall b, (b < next w)%nat -> b ∉ todo -> view b w' = view b w) /\
    fired w' = fired w ++ filter (fun b => (heap w !! b) ≫= rotation_ = Some 0) todo /\
    (forall b t, (next w <= b)%nat -> heap w' !! b = Some t ->
      (exists s, member b s w') /\ interval_ t mod Count_Ticks <> 0).
Proof.
  revert d w. induction todo as [| a r IH]; intros d w Hw Hvis Hl.
  { exists w. simpl. split_and!; try done; [by intros b t ?%not_elem_of_nil | by rewrite app_nil_r |].
    intros b t Hb Ht%(wf_next _ Hw). lia. }
  pose proof (wf_bucket _ Hw _ _ Hl) as Hnd.
  assert (a ∉ r) as Har.
  { apply list.NoDup_app in Hnd as (_ & _ & Hnd). by apply list.NoDup_cons in Hnd as [? _]. }
  assert (forall b, b ∈ a :: r -> member b (Z.to_nat (cur_slot_ w)) w) as Hmem.
  { intros b Hb. unfold member. rewrite Hl. apply elem_of_app. by right. }
  destruct (member_live w Hw a _ (Hmem a ltac:(left))) as [t Ht].
  destruct (visit_ok a t d r w Hw Hvis Ht Hl) as (w1 & Hv & [Hw1 Hc1 Hv1 Ha1 Hn1 [d1 Hl1] Hs1 Ho1 Hf1 Hnew1]).
  cbn [length sweep head]. rewrite Hv. cbn [mbind outcome_bind fst snd]. rewrite <- Hc1 in *.
  destruct (IH d1 w1 Hw1 ltac:(congruence) Hl1)
    as (w' & Hrun & Hw' & Hc' & Ha' & Hn' & Hin & Hout & Hf' & Hnew').
  assert (forall b, b ∈ r -> (b < next w)%nat /\ b <> a) as Hr.
  { intros b Hb. split; [| by intros ->]. destruct (member_live w Hw b _ (Hmem b ltac:(by right))) as [tb Htb].
    by eapply wf_next. }
  assert (a < next w)%nat as Halt by by eapply wf_next.
  exists w'. split; [done |]. split; [done |]. split_and!; [congruence | congruence | lia | | | |].
  - intros b tb [-> | Hb]%elem_of_cons Htb.
    + rewrite Hout by (done || lia). rewrite Hs1. congruence.
    + destruct (Hr b Hb) as [Hlt Hne]. apply Hin; [done |]. by rewrite (proj1 (Ho1 b Hlt Hne)).
  - intros b Hb [Hne Hbr]%not_elem_of_cons. rewrite Hout by (done || lia).
    apply view_ext; by apply Ho1.
  - rewrite Hf', Hf1, filter_cons, Ht. simpl. rewrite <- app_assoc. f_equal.
    assert (filter (fun b => (heap w1 !! b) ≫= rotation_ = Some 0) r =
            filter (fun b => (heap w !! b) ≫= rotation_ = Some 0) r) as ->.
    { apply filter_ext_in. intros b Hb. destruct (Hr b Hb) as [Hlt Hne].
      by rewrite (proj1 (Ho1 b Hlt Hne)). }
    by case_decide.
  - intros b tb Hb Htb. destruct (Nat.lt_ge_cases b (next w1)) as [Hb1 | Hb1]; [| by apply Hnew'].
    assert (b ∉ r) as Hbr by (intros [? _]%Hr; lia).
    pose proof (Hout b Hb1 Hbr) as Hview. unfold view in Hview. rewrite Htb in Hview.
    destruct (heap w1 !! b) as [tb1 |] eqn:Htb1; [| done]. injection Hview as <- Hms.
    destruct (Hnew1 b tb Hb Htb1) as [[s Hs] Hmod]. split; [| done].
    destruct (wf_member _ Hw1 _ _ Hs) as (t2 & r2 & Ht2 & Hsl2 & _). assert (t2 = tb) as -> by congruence.
    rewrite Hsl2, Nat2Z.id in Hms. exists s.
    rewrite (bool_decide_true (member b s w1)) in Hms by done. by apply bool_decide_eq_true in Hms.
Qed.
End operations.
