(* ===== verification/TimingWheelSpec.v ===== *)
(** * TimingWheelSpec: what a timer promises, and that the wheel keeps it

    Seen from outside a timer waits for a number of ticks, is dead, or is lost: still
    allocated, but in no bucket.  [status] reads this off the wheel and [elapse] is
    what one second does to it; [tick_ok] is the simulation. *)

From S2P Require Import Prelude.
From S2P Require Import Cpp.
From S2P Require Import TimingWheel.
From stdpp Require Import gmap list.
Local Open Scope Z_scope.

Inductive status :=
  | Waiting (due : Z) (interval : Z) (again : bool)
  | Lost
  | Dead.

Definition elapse (x : status) : status :=
  match x with
  | Waiting due interval again =>
      if due =? 1 then
        if again then
          if interval mod Count_Ticks =? 0 then Lost else Waiting interval interval again
        else Dead
      else Waiting (due - 1) interval again
  | Lost => Lost
  | Dead => Dead
  end.

(** The number of steps from the slot [cur] to the slot [s], at least one. *)
Definition distance (cur s : Z) : Z :=
  let d := (s - cur) mod Count_Ticks in if d =? 0 then Count_Ticks else d.

Definition status_of (cur : Z) (v : option (Timer * bool)) : status :=
  match v with
  | None => Dead
  | Some (_, false) => Lost
  | Some (t, true) =>
      match slot_ t, rotation_ t with
      | Some s, Some r => Waiting (distance cur s + Count_Ticks * r) (interval_ t) (repeat_ t)
      | _, _ => Lost
      end
  end.
Definition status_at {U} (a : addr) (w : wheel U) : status := status_of (cur_slot_ w) (view a w).

(** The number of seconds a new timer waits. *)
Definition delay (interval : Z) : Z :=
  if interval mod Count_Ticks =? 0 then interval + Count_Ticks else interval.

Lemma distance_step cur s :
  0 <= cur < 60 -> 0 <= s < 60 -> s <> (cur + 1) mod Count_Ticks ->
  distance ((cur + 1) mod Count_Ticks) s = distance cur s - 1 /\ 1 < distance cur s.
Proof.
  unfold distance, Count_Ticks. intros Hc Hs Hne.
  destruct (Z.eqb_spec ((s - (cur + 1) mod 60) mod 60) 0), (Z.eqb_spec ((s - cur) mod 60) 0);
    Z.div_mod_to_equations; lia.
Qed.

Lemma distance_next cur : 0 <= cur < 60 -> distance cur ((cur + 1) mod Count_Ticks) = 1.
Proof.
  unfold distance, Count_Ticks. intros Hc.
  destruct (Z.eqb_spec (((cur + 1) mod 60 - cur) mod 60) 0); Z.div_mod_to_equations; lia.
Qed.

Lemma distance_same cur : distance cur cur = 60.
Proof. unfold distance. by rewrite Z.sub_diag. Qed.

Lemma distance_slot cur i :
  0 <= cur < 60 -> distance cur (slot_of cur i) + Count_Ticks * (i / Count_Ticks) = delay i.
Proof.
  unfold distance, slot_of, delay, Count_Ticks. intros Hc.
  destruct (Z.eqb_spec (((cur + i) mod 60 - cur) mod 60) 0), (Z.eqb_spec (i mod 60) 0);
    Z.div_mod_to_equations; lia.
Qed.

Section spec.
Context {U : Type} (place : addr -> list addr -> list addr) `{!Bucket place}.
Context (tasks : nat -> U -> list (treq U) * U) `{!Contract tasks}.
Implicit Types w : wheel U.

(** Between two events. *)
Record idle w : Prop := {
  idle_wf : wf w;
  idle_visiting : visiting w = None;
  idle_armed : armed w = 1%nat
}.

(** A visit is what [elapse] says. *)
Lemma aged_elapse cur t r :
  0 <= cur < 60 -> 0 <= r -> slot_ t = Some ((cur + 1) mod Count_Ticks) -> rotation_ t = Some r ->
  status_of ((cur + 1) mod Count_Ticks) (aged ((cur + 1) mod Count_Ticks) t) =
  elapse (Waiting (1 + Count_Ticks * r) (interval_ t) (repeat_ t)).
Proof.
  intros Hc Hr Hs Hrot. unfold aged, elapse. rewrite Hrot.
  assert (0 <= (cur + 1) mod Count_Ticks < 60) by (apply Z.mod_pos_bound; unfold Count_Ticks; lia).
  destruct (Z.ltb_spec 0 r) as [Hpos | Hz].
  - destruct (Z.eqb_spec (1 + Count_Ticks * r) 1) as [He | He]; [unfold Count_Ticks in He; lia |].
    unfold status_of. simpl. rewrite Hs, distance_same. f_equal. unfold Count_Ticks. lia.
  - assert (r = 0) as -> by lia. simpl. destruct (repeat_ t) eqn:Hrep; [| done].
    destruct (Z.eqb_spec (interval_ t mod Count_Ticks) 0) as [Hm | Hm]; [done |].
    unfold status_of. simpl. rewrite distance_slot by done. unfold delay. rewrite Hrep.
    by rewrite (proj2 (Z.eqb_neq _ _) Hm).
Qed.

(** A timer that is not in the next bucket comes one step closer. *)
Lemma kept_elapse a w :
  wf w -> ~ member a (Z.to_nat ((cur_slot_ w + 1) mod Count_Ticks)) w ->
  status_of ((cur_slot_ w + 1) mod Count_Ticks) (view a w) = elapse (status_at a w) /\
  forall i again, status_at a w <> Waiting 1 i again.
Proof.
  intros Hw Hn. unfold status_at, view. destruct (heap w !! a) as [t |] eqn:Ht; [| done].
  destruct (slot_ t) as [s |] eqn:Hs; [| done]. case_bool_decide as Hm; [| done].
  destruct (wf_member _ Hw _ _ Hm) as (t' & r & Ht' & Hs' & Hr & Hr0).
  assert (t' = t) as -> by congruence. assert (Z.of_nat (Z.to_nat s) = s) as Hsz by congruence.
  pose proof (member_lt w Hw _ _ Hm) as Hlt. pose proof (wf_cur _ Hw) as Hc.
  assert (s <> (cur_slot_ w + 1) mod Count_Ticks) as Hne by (by intros ->).
  destruct (distance_step (cur_slot_ w) s Hc ltac:(lia) Hne) as [Hd Hd1].
  unfold status_of, elapse. rewrite Hs, Hr.
  destruct (Z.eqb_spec (distance (cur_slot_ w) s + Count_Ticks * r) 1) as [He | He];
    [unfold Count_Ticks in He; lia |].
  split; [f_equal; lia |]. intros i again [= ? _ _]. done.
Qed.

(** One tick: it always succeeds, every timer makes one step, and those that were due
    are run, each once. *)
Lemma tick_ok w :
  idle w -> exists w' l, handle place tasks Tick w = Ok w' /\ idle w' /\
    (next w <= next w')%nat /\
    (forall a, (a < next w)%nat -> status_at a w' = elapse (status_at a w)) /\
    (forall a, (next w <= a)%nat -> match status_at a w' with Lost => False | _ => True end) /\
    (forall a t, (next w <= a)%nat -> heap w' !! a = Some t -> interval_ t mod Count_Ticks <> 0) /\
    (forall a t, (a < next w)%nat -> heap w' !! a = Some t ->
       exists t0, heap w !! a = Some t0 /\ interval_ t = interval_ t0 /\ repeat_ t = repeat_ t0) /\
    fired w' = fired w ++ l /\ NoDup l /\
    (forall a, a ∈ l <-> exists i again, status_at a w = Waiting 1 i again).
Proof.
  intros [Hw Hvis Harm]. pose proof (wf_cur _ Hw) as Hc.
  cbn [handle]. rewrite Harm. cbn [Nat.eqb]. unfold handle_timeout.
  set (s := (cur_slot_ w + 1) mod Count_Ticks).
  assert (0 <= s < 60) as Hs by (apply Z.mod_pos_bound; unfold Count_Ticks; lia).
  destruct (bucket_lookup w Hw s Hs) as (l & Hget & Hl). simpl. fold s. rewrite Hget.
  cbn [mbind outcome_bind]. set (w1 := with_visiting _ _).
  assert (wf w1) as Hw1 by (destruct Hw; by split).
  destruct (sweep_ok place tasks l [] w1 Hw1 eq_refl Hl)
    as (w' & Hrun & Hw' & Hcur' & Harm' & Hn' & Hin & Hout & Hf & Hnew).
  simpl in Hrun, Hcur', Harm', Hn', Hin, Hout, Hf, Hnew. rewrite Hrun. cbn [mbind outcome_bind].
  assert (forall a, a ∈ l <-> member a (Z.to_nat s) w) as Hmem.
  { intros a. unfold member. by rewrite Hl. }
  assert (forall a, a ∈ l -> exists t r, heap w !! a = Some t /\ slot_ t = Some s /\
    rotation_ t = Some r /\ 0 <= r /\
    status_at a w = Waiting (1 + Count_Ticks * r) (interval_ t) (repeat_ t)) as Hdue.
  { intros a Ha. pose proof (proj1 (Hmem a) Ha) as Hm.
    destruct (wf_member _ Hw _ _ Hm) as (t & r & Ht & Hst & Hr & Hr0).
    rewrite Z2Nat.id in Hst by lia. exists t, r. split_and!; try done.
    unfold status_at, view. rewrite Ht, Hst, bool_decide_true by done. simpl. rewrite Hst, Hr.
    unfold s. by rewrite distance_next. }
  exists (with_visiting None w'), (filter (fun b => (heap w !! b) ≫= rotation_ = Some 0) l).
  split; [done |]. split; [split; [destruct Hw'; by split | done | done] |]. split; [done |].
  split_and!.
  - intros a Ha. unfold status_at at 1. simpl. rewrite Hcur'.
    change (view a (with_visiting None w')) with (view a w').
    destruct (decide (a ∈ l)) as [Hal | Hal].
    + destruct (Hdue a Hal) as (t & r & Ht & Hst & Hr & Hr0 & ->).
      rewrite (Hin a t) by done. by apply aged_elapse.
    + rewrite Hout by done. change (view a w1) with (view a w).
      apply kept_elapse; [done |]. fold s. by rewrite <- Hmem.
  - intros a Ha. unfold status_at. simpl. change (view a (with_visiting None w')) with (view a w').
    unfold view. destruct (heap w' !! a) as [t |] eqn:Ht; [| done].
    destruct (Hnew a t Ha Ht) as [[s' Hm] _].
    destruct (wf_member _ Hw' _ _ Hm) as (t' & r & Ht' & Hst & Hr & _).
    assert (t' = t) as -> by congruence. rewrite Hst, Nat2Z.id, bool_decide_true by done.
    simpl. by rewrite Hst, Hr.
  - intros a t Ha Ht. by apply (Hnew a t).
  - intros a t Ha Ht. destruct (decide (a ∈ l)) as [Hal | Hal].
    + destruct (Hdue a Hal) as (t0 & r & Ht0 & _ & Hr & _). exists t0. split; [done |].
      pose proof (Hin a t0 Hal Ht0) as Hv. unfold view in Hv. simpl in Ht. rewrite Ht in Hv.
      unfold aged in Hv. rewrite Hr in Hv. destruct (0 <? r); [by injection Hv as -> _ |].
      destruct (repeat_ t0) eqn:Hrep; [| done]. injection Hv as -> _. by rewrite <- Hrep.
    + pose proof (Hout a Ha Hal) as Hv. unfold view in Hv. simpl in Ht, Hv. rewrite Ht in Hv.
      destruct (heap w !! a) as [t0 |] eqn:Ht0; [| done]. injection Hv as -> _. by exists t0.
  - done.
  - apply list.NoDup_filter. by apply (wf_bucket _ Hw _ _ Hl).
  - intros a. rewrite list_elem_of_filter. split.
    + intros [Hr Hal]. destruct (Hdue a Hal) as (t & r & Ht & _ & Hrot & _ & ->).
      rewrite Ht in Hr. simpl in Hr. assert (r = 0) as -> by congruence. simpl. eauto.
    + intros (i & again & Hst). destruct (decide (a ∈ l)) as [Hal | Hal].
      * split; [| done]. destruct (Hdue a Hal) as (t & r & Ht & _ & Hrot & Hr0 & Hst').
        rewrite Hst in Hst'. injection Hst' as Hr _ _. rewrite Ht. simpl. rewrite Hrot. f_equal.
        unfold Count_Ticks in Hr. lia.
      * exfalso. rewrite Hmem in Hal. destruct (kept_elapse a w Hw Hal) as [_ H]. by apply (H i again).
Qed.
End spec.
