(* ===== verification/TimingWheelTheorems.v ===== *)
(** * TimingWheelTheorems: when timers run, and what becomes of them *)

From S2P Require Import Prelude.
From S2P Require Import Cpp.
From S2P Require Import TimingWheel.
From S2P Require Import TimingWheelSpec.
From stdpp Require Import gmap list.
Local Open Scope Z_scope.

(** What the rest of the program may do while the timer [a] waits. *)
Definition spares {U} (a : addr) (e : @wevent U) : Prop :=
  match e with
  | Tick => True
  | Call (TimingWheel.Add interval _ _ _) => interval_ok interval
  | Call (TimingWheel.Del tid) => forall u : U, tid_timer_ (tid u) <> Some a
  end.

Fixpoint ticks {U} (es : list (@wevent U)) : nat :=
  match es with
  | [] => 0
  | Tick :: es => S (ticks es)
  | Call _ :: es => ticks es
  end.

(** How often a timer runs in [n] seconds. *)
Definition is_due (x : status) : bool :=
  match x with Waiting due _ _ => due =? 1 | _ => false end.
Fixpoint runs (n : nat) (x : status) : nat :=
  match n with
  | O => 0
  | S n => (if is_due x then 1 else 0) + runs n (elapse x)
  end.

Lemma runs_once n k i again :
  1 <= k -> (again = true -> i mod Count_Ticks = 0) ->
  Z.of_nat (runs n (Waiting k i again)) = (if k <=? Z.of_nat n then 1 else 0) /\
  Nat.iter n elapse (Waiting k i again) =
    (if k <=? Z.of_nat n then if again then Lost else Dead else Waiting (k - Z.of_nat n) i again).
Proof.
  intros Hk Hagain.
  assert (forall n, runs n Lost = 0%nat /\ runs n Dead = 0%nat /\
    Nat.iter n elapse Lost = Lost /\ Nat.iter n elapse Dead = Dead) as Hend.
  { intros m. induction m as [| m (H1 & H2 & H3 & H4)]; [done |]. simpl. rewrite H1, H2, H3, H4. done. }
  revert k Hk. induction n as [| n IH]; intros k Hk.
  - destruct (Z.leb_spec k (Z.of_nat 0)); [lia |]. simpl. by rewrite Z.sub_0_r.
  - rewrite Nat.iter_succ_r. cbn [runs is_due elapse]. destruct (Z.eqb_spec k 1) as [-> | Hne].
    + destruct (Z.leb_spec 1 (Z.of_nat (S n))); [| lia].
      destruct (Hend n) as (H1 & H2 & H3 & H4). destruct again.
      * rewrite Hagain by done. cbn [Z.eqb]. by rewrite H1, H3.
      * by rewrite H2, H4.
    + rewrite Nat.add_0_l. destruct (IH (k - 1) ltac:(lia)) as [-> ->].
      destruct (Z.leb_spec (k - 1) (Z.of_nat n)), (Z.leb_spec k (Z.of_nat (S n))); try lia.
      * done.
      * split; [done |]. f_equal. lia.
Qed.

Lemma runs_again n k i :
  1 <= k <= i -> i mod Count_Ticks <> 0 ->
  Z.of_nat (runs n (Waiting k i true)) = (Z.of_nat n + i - k) / i.
Proof.
  intros Hk Hi. revert k Hk. induction n as [| n IH]; intros k Hk.
  - simpl. rewrite Z.div_small; lia.
  - cbn [runs is_due elapse]. destruct (Z.eqb_spec k 1) as [-> | Hne].
    + rewrite (proj2 (Z.eqb_neq _ _) Hi). rewrite Nat2Z.inj_add, IH by lia.
      replace (Z.of_nat (S n) + i - 1) with (1 * i + Z.of_nat n) by lia.
      rewrite Z.div_add_l by lia. f_equal. f_equal. lia.
    + rewrite Nat.add_0_l, IH by lia. f_equal. lia.
Qed.

Section events.
Context {U : Type} (place : addr -> list addr -> list addr) `{!Bucket place}.
Context (tasks : nat -> U -> list (treq U) * U) `{!Contract tasks}.
Implicit Types w : wheel U.

(** A request from outside leaves the other timers as they are. *)
Lemma del_timer_ok b w w' :
  idle w -> del_timer_loop b w = Ok w' ->
  idle w' /\ next w' = next w /\ fired w' = fired w /\
  forall a, a <> b -> view a w' = view a w /\ cur_slot_ w' = cur_slot_ w.
Proof.
  intros [Hw Hv Ha]. unfold del_timer_loop, deref.
  destruct (heap w !! b) as [t |] eqn:Ht; [| done]. cbn [mbind outcome_bind].
  destruct (slot_ t) as [s |] eqn:Hs; [| done]. cbn [assigned mbind outcome_bind].
  destruct (vget (wheel_ w) s) as [l | |] eqn:Hg; [| done..]. cbn [mbind outcome_bind].
  case_decide as Hb; [| by intros [= <-]].
  unfold erase_bucket. rewrite Hg. cbn [mbind outcome_bind].
  assert (wheel_ w !! Z.to_nat s = Some l /\ 0 <= s) as [Hl Hs0].
  { unfold vget in Hg. destruct (wheel_ w !! Z.to_nat s); [| done].
    destruct (Z.ltb_spec s 0); [done |]. split; [congruence | done]. }
  pose proof (lookup_lt_Some _ _ _ Hl) as Hlt. rewrite (wf_length _ Hw) in Hlt.
  rewrite (bucket_set w Hw) by lia. cbn [mbind outcome_bind]. intros [= <-].
  pose proof (wf_erase w Hw b _ l Hl) as He.
  assert (unqueued b (with_wheel (<[Z.to_nat s := filter (fun x => x <> b) l]> (wheel_ w)) w)) as Hu.
  { intros s' Hm. apply (member_erase w Hw b _ l b s' Hl) in Hm as [Hm Hn]. apply Hn. split; [| done].
    apply (member_unique w Hw b); [| done]. unfold member. by rewrite Hl. }
  split; [split; [exact (wf_delete _ He b Hu) | done | done] |]. split_and!; [done.. |].
  intros a Hab. split; [| done]. apply view_ext; simpl.
  - by rewrite lookup_delete_ne.
  - intros s'. pose proof (member_erase w Hw b _ l a s' Hl) as Hm. unfold member in *. simpl in *.
    rewrite Hm. tauto.
Qed.

Lemma request_ok r w w' :
  idle w -> (match r with TimingWheel.Add i _ _ _ => interval_ok i | TimingWheel.Del _ => True end) ->
  do_request place r w = Ok w' ->
  idle w' /\ (next w <= next w')%nat /\ fired w' = fired w /\
  forall a, (a < next w)%nat -> spares a (Call r) -> view a w' = view a w /\ cur_slot_ w' = cur_slot_ w.
Proof.
  intros Hidle Hr Hdo. pose proof Hidle as [Hw Hv Ha]. destruct r as [i k again store | tid]; simpl in Hdo.
  - destruct (add_timer_ok place i k again w Hw Hr (or_introl Hv)) as (tid & w1 & Hadd & Hg & _).
    rewrite Hadd in Hdo. simpl in Hdo. injection Hdo as <-.
    pose proof (grows_user w1 (store tid (user w1)) (grows_wf _ _ Hg)) as Hgu.
    pose proof (grows_trans _ _ _ Hg Hgu) as [H1 H2 H3 H4 H5 H6 H7 H8 _ _].
    split; [by split; [| congruence..] |]. split; [done |]. split; [done |].
    intros a Hlt _. split; [apply view_ext; [by apply H7 | intros s; by apply H8] | done].
  - unfold del_timer in Hdo. destruct (tid_timer_ (tid (user w))) as [b |] eqn:Ht.
    2: { injection Hdo as <-. split; [done |]. by split_and!. }
    destruct (del_timer_ok b w w' Hidle Hdo) as (H1 & H2 & H3 & H4). split; [done |].
    split; [lia |]. split; [done |]. intros a Hlt Hsp. apply H4. intros ->. by apply (Hsp (user w)).
Qed.

(** The life of one timer through any sequence of events. *)
Lemma run_status es a w w' :
  idle w -> (a < next w)%nat -> Forall (spares a) es -> run place tasks es w = Ok w' ->
  idle w' /\ (a < next w')%nat /\ status_at a w' = Nat.iter (ticks es) elapse (status_at a w) /\
  exists l, fired w' = fired w ++ l /\
    count_occ Nat.eq_dec l a = runs (ticks es) (status_at a w).
Proof.
  intros Hidle Ha Hes. revert w Hidle Ha. induction Hes as [| e es He Hes IH]; intros w Hidle Ha Hrun.
  { simpl in Hrun. injection Hrun as <-. split_and!; try done. exists []. by rewrite app_nil_r. }
  cbn [run] in Hrun. apply bind_Ok in Hrun as (w1 & H1 & Hrun). destruct e as [| r].
  - destruct (tick_ok place tasks w Hidle)
      as (w1' & l & Htick & Hid1 & Hn1 & Hst & _ & _ & _ & Hf & Hnd & Hl).
    rewrite Htick in H1. injection H1 as ->.
    destruct (IH w1 Hid1 ltac:(lia) Hrun) as (Hid & Hn & Hs & l' & Hf' & Hc).
    split; [done |]. split; [done |]. rewrite (Hst a Ha) in Hs, Hc.
    cbn [ticks].
    split; [by rewrite Nat.iter_succ_r |]. exists (l ++ l'). split; [by rewrite Hf', Hf, app_assoc |].
    rewrite count_occ_app, Hc. cbn [runs]. f_equal. specialize (Hl a).
    destruct (is_due (status_at a w)) eqn:Hdue.
    + apply NoDup_count_occ'; [by apply NoDup_ListNoDup |].
      apply list_elem_of_In, Hl. destruct (status_at a w) as [k i again | |]; try done.
      apply Z.eqb_eq in Hdue as ->. eauto.
    + apply count_occ_not_In. rewrite <- list_elem_of_In, Hl. intros (i & again & Hs1). by rewrite Hs1 in Hdue.
  - destruct (request_ok r w w1 Hidle) as (Hid1 & Hn1 & Hf1 & Hv1); [by destruct r | done |].
    destruct (Hv1 a Ha He) as [Hview Hcur].
    destruct (IH w1 Hid1 ltac:(lia) Hrun) as (Hid & Hn & Hs & l' & Hf' & Hc).
    assert (status_at a w1 = status_at a w) as Hst by (unfold status_at; by rewrite Hview, Hcur).
    rewrite Hst in Hs, Hc. cbn [ticks].
    split_and!; try done. exists l'. by rewrite Hf', Hf1.
Qed.

(** A new timer. *)
Lemma add_timer_status i k again w tid w1 :
  idle w -> interval_ok i -> i <> 0 -> k <> 0%nat ->
  add_timer place i k again w = Ok (tid, w1) ->
  idle w1 /\ tid_timer_ tid = Some (next w) /\ (next w < next w1)%nat /\ fired w1 = fired w /\
  status_at (next w) w1 = Waiting (delay i) i again.
Proof.
  intros [Hw Hv Ha] Hi Hi0 Hk Hadd.
  destruct (add_timer_ok place i k again w Hw Hi (or_introl Hv)) as (tid' & w1' & Hadd' & Hg & _ & Hres).
  rewrite Hadd in Hadd'. injection Hadd' as <- <-. rewrite decide_False in Hres by tauto.
  destruct Hres as (-> & Hn & Hview). destruct Hg as [H1 H2 H3 H4 H5 _ _ _ _ _].
  split; [by split; [| congruence..] |]. split; [done |]. split; [lia |]. split; [done |].
  unfold status_at. rewrite Hview. simpl. rewrite H2, distance_slot by by apply wf_cur. done.
Qed.

Lemma idle_init (u : U) : idle (start (TimingWheel_init u)).
Proof.
  assert (forall s l, wheel_ (TimingWheel_init u) !! s = Some l -> l = []) as Hempty.
  { intros s l Hl. by apply lookup_replicate in Hl as [-> _]. }
  split; [| done | done]. split; try done.
  - intros s l Hl. rewrite (Hempty s l Hl). constructor.
  - intros a s Hm. exfalso. unfold member in Hm. change (wheel_ (start (TimingWheel_init u)))
      with (wheel_ (TimingWheel_init u)) in Hm.
    destruct (wheel_ (TimingWheel_init u) !! s) as [l |] eqn:Hl; [| done].
    rewrite (Hempty s l Hl) in Hm. by apply not_elem_of_nil in Hm.
Qed.

(** Without deletions nothing can go wrong. *)
Definition adds_only (e : @wevent U) : Prop :=
  match e with
  | Tick => True
  | Call (TimingWheel.Add i _ _ _) => interval_ok i
  | Call (TimingWheel.Del _) => False
  end.

Lemma run_total es w :
  idle w -> Forall adds_only es -> exists w', run place tasks es w = Ok w' /\ idle w'.
Proof.
  intros Hidle Hes. revert w Hidle. induction Hes as [| e es He Hes IH]; intros w Hidle; cbn [run]; [by eauto |].
  destruct e as [| [i k again store | tid]]; [| | done].
  - destruct (tick_ok place tasks w Hidle) as (w1 & l & -> & Hid1 & _). cbn [mbind outcome_bind]. by apply IH.
  - pose proof Hidle as [Hw Hv Ha].
    destruct (add_timer_ok place i k again w Hw He (or_introl Hv)) as (tid & w1 & Hadd & _).
    assert (do_request place (TimingWheel.Add i k again store) w
      = Ok (with_user (store tid (user w1)) w1)) as Hdo by (simpl; by rewrite Hadd).
    cbn [handle]. rewrite Hdo. cbn [mbind outcome_bind]. apply IH.
    by apply (request_ok (TimingWheel.Add i k again store) w _ Hidle He).
Qed.

(** ** Nothing is lost *)

Definition kept w : Prop :=
  idle w /\ forall a t, heap w !! a = Some t ->
    (repeat_ t = true -> interval_ t mod Count_Ticks <> 0) /\
    exists due, status_at a w = Waiting due (interval_ t) (repeat_ t).

(** No repeated timer has a multiple of 60 seconds. *)
Definition keeps (e : @wevent U) : Prop :=
  match e with
  | Call (TimingWheel.Add i _ again _) =>
      interval_ok i /\ (again = true -> i mod Count_Ticks <> 0)
  | _ => True
  end.

Lemma view_status a t q w w' :
  view a w' = Some (t, q) -> view a w = Some (t, q) -> cur_slot_ w' = cur_slot_ w ->
  status_at a w' = status_at a w.
Proof. intros H1 H2 H3. unfold status_at. by rewrite H1, H2, H3. Qed.

Lemma heap_view a w : heap w !! a = fst <$> view a w.
Proof. unfold view. by destruct (heap w !! a). Qed.

(** A live timer that is not lost waits with its own interval. *)
Lemma status_live a t w :
  wf w -> heap w !! a = Some t -> status_at a w <> Lost ->
  exists due, status_at a w = Waiting due (interval_ t) (repeat_ t).
Proof.
  intros Hw Ht Hs. unfold status_at, view in *. rewrite Ht in *. unfold status_of in *.
  destruct (slot_ t) as [s |]; [| done]. case_bool_decide; [| done].
  destruct (rotation_ t); [eauto | done].
Qed.

Lemma tick_keeps w w' : kept w -> handle place tasks Tick w = Ok w' -> kept w'.
Proof.
  intros [Hidle Hk] Hh.
  destruct (tick_ok place tasks w Hidle)
    as (w1 & l & Ht & Hid & Hn & Hst & Hnew & Hmod & Hold & _).
  rewrite Hh in Ht. injection Ht as <-. split; [done |]. intros a t Ha.
  destruct (Nat.lt_ge_cases a (next w)) as [Hlt | Hge].
  - destruct (Hold a t Hlt Ha) as (t0 & Ht0 & Hi & Hr). destruct (Hk a t0 Ht0) as [Hrep [due Hdue]].
    rewrite Hi, Hr. split; [done |]. rewrite <- Hi, <- Hr.
    apply status_live; [apply Hid | done |]. rewrite Hst, Hdue by done. simpl.
    destruct (due =? 1); [| done]. destruct (repeat_ t0); [| done].
    destruct (Z.eqb_spec (interval_ t0 mod Count_Ticks) 0); [by destruct Hrep | done].
  - split; [intros _; by eapply Hmod |]. apply status_live; [apply Hid | done |].
    specialize (Hnew a Hge). by destruct (status_at a w').
Qed.

Lemma request_keeps r w w' :
  kept w -> keeps (Call r) -> do_request place r w = Ok w' -> kept w'.
Proof.
  intros [Hidle Hk] Hr Hdo. pose proof Hidle as [Hw Hv Harm].
  assert (idle w') as Hid'.
  { destruct (request_ok r w w' Hidle) as [? _]; [destruct r; [apply Hr | done] | done | done]. }
  split; [done |]. intros a t Ha.
  assert (view a w' = view a w /\ cur_slot_ w' = cur_slot_ w ->
    (repeat_ t = true -> interval_ t mod Count_Ticks <> 0) /\
    exists due, status_at a w' = Waiting due (interval_ t) (repeat_ t)) as Hsame.
  { intros [Hview Hcur]. rewrite heap_view, Hview, <- heap_view in Ha. unfold status_at.
    rewrite Hview, Hcur. by apply Hk. }
  destruct r as [i k again store | tid]; simpl in Hdo.
  - destruct Hr as [Hi Hagain].
    destruct (add_timer_ok place i k again w Hw Hi (or_introl Hv)) as (tid & w1 & Hadd & Hg & _ & Hres).
    rewrite Hadd in Hdo. injection Hdo as <-. simpl in Ha.
    destruct (Nat.lt_ge_cases a (next w)) as [Hlt | Hge].
    { apply Hsame. split; [| apply (grows_cur _ _ Hg)]. apply view_ext; simpl.
      - by apply (grows_heap _ _ Hg).
      - intros s. by apply (grows_member _ _ Hg). }
    case_decide as Hz.
    { destruct Hres as [_ ->]. apply (wf_next _ Hw) in Ha. lia. }
    destruct Hres as (_ & Hn & Hview). assert (a = next w) as ->.
    { apply (wf_next _ (grows_wf _ _ Hg)) in Ha. lia. }
    rewrite heap_view, Hview in Ha. injection Ha as <-. split; [done |].
    unfold status_at. change (view (next w) (with_user (store tid (user w1)) w1)) with (view (next w) w1).
    rewrite Hview. simpl. eauto.
  - unfold del_timer in Hdo. destruct (tid_timer_ (tid (user w))) as [b |]; [| by injection Hdo as <-; apply Hsame].
    destruct (del_timer_ok b w w' Hidle Hdo) as (_ & _ & _ & Hoth).
    destruct (decide (a = b)) as [-> | Hab]; [| by apply Hsame, Hoth].
    unfold del_timer_loop, deref in Hdo. destruct (heap w !! b) as [tb |] eqn:Htb; [| done].
    cbn [mbind outcome_bind] in Hdo. destruct (slot_ tb) as [s |]; [| done]. cbn [assigned mbind outcome_bind] in Hdo.
    destruct (vget (wheel_ w) s) as [l | |]; [| done..]. cbn [mbind outcome_bind] in Hdo.
    case_decide; [| by injection Hdo as <-; apply Hsame].
    apply bind_Ok in Hdo as (w2 & _ & Hdo). injection Hdo as <-. simpl in Ha.
    by rewrite lookup_delete_eq in Ha.
Qed.

Lemma run_keeps es w w' : kept w -> Forall keeps es -> run place tasks es w = Ok w' -> kept w'.
Proof.
  intros Hk Hes. revert w Hk. induction Hes as [| e es He Hes IH]; intros w Hk; cbn [run].
  - by intros [= <-].
  - intros (w1 & H1 & H2)%bind_Ok. apply (IH w1); [| done].
    destruct e as [| r]; [by eapply tick_keeps | by eapply request_keeps].
Qed.

(** The destructor deletes the timers that are in a bucket. *)
Lemma lookup_fold_delete (l : list addr) (h : gmap addr Timer) a :
  fold_right delete h l !! a = if decide (a ∈ l) then None else h !! a.
Proof.
  induction l as [| b l IH]; cbn [fold_right].
  { case_decide as Ha; [by apply not_elem_of_nil in Ha | done]. }
  destruct (decide (a = b)) as [-> | Hne].
  - rewrite lookup_delete_eq. destruct (decide (b ∈ b :: l)) as [_ | Hn]; [reflexivity |].
    destruct Hn. left.
  - rewrite lookup_delete_ne, IH by done.
    assert (a ∈ b :: l <-> a ∈ l) as Hiff by (rewrite elem_of_cons; tauto).
    destruct (decide (a ∈ l)), (decide (a ∈ b :: l)); tauto || done.
Qed.

Lemma elem_of_buckets a w : a ∈ concat (wheel_ w) <-> exists s, member a s w.
Proof.
  rewrite list_elem_of_In, in_concat. unfold member. split.
  - intros (l & Hl & Ha). apply list_elem_of_In, list_elem_of_lookup_1 in Hl as [s Hs].
    exists s. rewrite Hs. by apply list_elem_of_In.
  - intros [s Hm]. destruct (wheel_ w !! s) as [l |] eqn:Hl; [| done]. exists l.
    split; apply list_elem_of_In; [by eapply list_elem_of_lookup_2 | done].
Qed.

Lemma destroy_kept w : kept w -> heap (TimingWheel_destroy w) = ∅.
Proof.
  intros [Hidle Hk]. apply map_eq. intros a. rewrite lookup_empty. simpl.
  rewrite lookup_fold_delete. case_decide as Ha; [done |].
  destruct (heap w !! a) as [t |] eqn:Ht; [| done]. exfalso. apply Ha, elem_of_buckets.
  destruct (Hk a t Ht) as [_ [due Hs]]. unfold status_at, view in Hs. rewrite Ht in Hs.
  unfold status_of in Hs. destruct (slot_ t) as [s |]; [| done]. case_bool_decide; [eauto | done].
Qed.

Lemma destroy_lost a w :
  idle w -> status_at a w = Lost -> is_Some (heap (TimingWheel_destroy w) !! a).
Proof.
  intros [Hw _ _] Hs. simpl. rewrite lookup_fold_delete.
  unfold status_at, view in Hs. destruct (heap w !! a) as [t |] eqn:Ht; [| done].
  rewrite decide_False; [by exists t |]. rewrite elem_of_buckets. intros [s Hm].
  destruct (wf_member _ Hw _ _ Hm) as (t' & r & Ht' & Hsl & Hr & _).
  assert (t' = t) as -> by congruence.
  rewrite Hsl, Nat2Z.id, bool_decide_true in Hs by done. unfold status_of in Hs.
  by rewrite Hsl, Hr in Hs.
Qed.
End events.

(** ** Properties *)

Lemma interval_ok_small i : 0 <= i < 1000000 -> interval_ok i.
Proof. unfold interval_ok. lia. Qed.

(** For the witnesses: a new element comes first in its bucket, and a task counts its
    runs. *)
#[export] Instance cons_Bucket : Bucket cons.
Proof. by intros a l. Qed.
Definition counting_tasks (k : nat) (u : nat) : list (treq nat) * nat := ([], S u).
#[export] Instance counting_Contract : Contract counting_tasks.
Proof. intros k u. constructor. Qed.
Definition no_store (_ : TimerId) (u : nat) : nat := u.
Definition new_wheel : wheel nat := start (TimingWheel_init 0%nat).

(** The wheel after a timer is added, and after some events. *)
Definition added (interval : Z) (again : bool) : TimerId * wheel nat :=
  result (TimerId_null, new_wheel) (add_timer cons interval 1 again new_wheel).
Definition later (es : list wevent) (w : wheel nat) : wheel nat :=
  result new_wheel (run cons counting_tasks es w).

(** C29. The wheel refines its specification.  As long as the callbacks of timers delete no
    timer and add none whose interval is a multiple of 60 ([Contract]), a tick of the wheel
    never fails; every timer makes exactly the step [elapse] of its status, whatever the other timers and their
    callbacks do; and the timers whose callback runs are those that had one second
    left, each of them once. *)
Theorem tick_refines {U} (place : addr -> list addr -> list addr) `{!Bucket place}
    (tasks : nat -> U -> list (treq U) * U) `{!Contract tasks} (w : wheel U) :
  idle w ->
  exists w' l, handle place tasks Tick w = Ok w' /\ idle w' /\
    (forall a, (a < next w)%nat -> status_at a w' = elapse (status_at a w)) /\
    fired w' = fired w ++ l /\ NoDup l /\
    (forall a, a ∈ l <-> exists interval again, status_at a w = Waiting 1 interval again).
Proof.
  intros Hw. destruct (tick_ok place tasks w Hw)
    as (w' & l & H1 & H2 & _ & H3 & _ & _ & _ & H4 & H5 & H6). eauto 10.
Qed.

Lemma tick_refines_witness : exists w' l,
  handle cons counting_tasks Tick new_wheel = Ok w' /\ idle w' /\ fired w' = l /\ NoDup l.
Proof.
  destruct (tick_refines cons counting_tasks new_wheel (idle_init 0%nat))
    as (w' & l & H1 & H2 & _ & H4 & H5 & _).
  exists w', l. split; [exact H1 |]. split; [exact H2 |]. split; [exact H4 | exact H5].
Defined.

(** C30. When a timer runs.  After [add_timer(interval, task, again)], as long as nobody
    deletes it: a repeated timer whose interval is not a multiple of 60 has run once in
    every [interval] seconds; any other timer has run once, after [delay interval]
    seconds, which is [interval] or, for a multiple of 60, a minute more.  This holds
    for any other timers and requests in between. *)
Theorem timer_runs_on_time {U} (place : addr -> list addr -> list addr) `{!Bucket place}
    (tasks : nat -> U -> list (treq U) * U) `{!Contract tasks}
    (w w1 w' : wheel U) (interval : Z) (task : nat) (again : bool) (tid : TimerId)
    (es : list wevent) :
  idle w -> 0 < interval -> interval_ok interval -> task <> 0%nat ->
  add_timer place interval task again w = Ok (tid, w1) ->
  Forall (spares (next w)) es -> run place tasks es w1 = Ok w' ->
  exists l, fired w' = fired w ++ l /\
    Z.of_nat (count_occ Nat.eq_dec l (next w)) =
      if again && negb (interval mod Count_Ticks =? 0)
      then Z.of_nat (ticks es) / interval
      else if delay interval <=? Z.of_nat (ticks es) then 1 else 0.
Proof.
  intros Hw Hi0 Hi Ht Hadd Hes Hrun.
  destruct (add_timer_status place interval task again w tid w1 Hw Hi ltac:(lia) Ht Hadd)
    as (Hw1 & _ & Hn & Hf & Hs).
  destruct (run_status place tasks es (next w) w1 w' Hw1 Hn Hes Hrun) as (_ & _ & _ & l & Hf' & Hc).
  exists l. split; [congruence |]. rewrite Hc, Hs. unfold delay.
  destruct (Z.eqb_spec (interval mod Count_Ticks) 0) as [Hm | Hm]; simpl.
  - rewrite andb_false_r. by apply (runs_once _ _ interval again); [unfold Count_Ticks; lia |].
  - destruct again; simpl; [| by apply runs_once; [lia |]].
    rewrite runs_again by (done || lia). f_equal. lia.
Qed.

(** A timer of seven seconds that repeats, and another that runs once. *)
Definition three_weeks : list (@wevent nat) :=
  Call (TimingWheel.Add 3 1 false no_store) :: replicate 20 Tick ++ [Tick].

Lemma timer_runs_on_time_witness : exists l,
  add_timer cons 7 1 true new_wheel = Ok ((added 7 true).1, (added 7 true).2) /\
  run cons counting_tasks three_weeks (added 7 true).2 = Ok (later three_weeks (added 7 true).2) /\
  fired (later three_weeks (added 7 true).2) = l /\
  Z.of_nat (count_occ Nat.eq_dec l 0%nat) = 21 / 7.
Proof.
  assert (Hadd : add_timer cons 7 1 true new_wheel = Ok ((added 7 true).1, (added 7 true).2)) by (vm_compute; reflexivity).
  assert (Hrun : run cons counting_tasks three_weeks (added 7 true).2
    = Ok (later three_weeks (added 7 true).2)) by (vm_compute; reflexivity).
  destruct (timer_runs_on_time cons counting_tasks new_wheel (added 7 true).2
    (later three_weeks (added 7 true).2) 7 1 true (added 7 true).1 three_weeks) as (l & Hf & Hc).
  - apply idle_init.
  - lia.
  - apply interval_ok_small; lia.
  - lia.
  - exact Hadd.
  - constructor; [apply interval_ok_small; lia |]. apply Forall_app.
    split; [apply Forall_replicate; exact I | repeat constructor].
  - exact Hrun.
  - exists l. split; [exact Hadd |]. split; [exact Hrun |]. split; [exact Hf | exact Hc].
Defined.

(** C31. Timers do not fail: from the start of the loop on, any sequence of seconds and new
    timers, with callbacks that delete no timer and may add timers themselves (not of a
    whole number of minutes: [Contract]), ends without a use of freed memory, an invalid iterator or an index
    outside the wheel. *)
Theorem wheel_never_fails {U} (place : addr -> list addr -> list addr) `{!Bucket place}
    (tasks : nat -> U -> list (treq U) * U) `{!Contract tasks} (u : U) (es : list wevent) :
  Forall adds_only es ->
  exists w', run place tasks es (start (TimingWheel_init u)) = Ok w' /\ idle w'.
Proof. intros Hes. apply run_total; [done | done | apply idle_init | done]. Qed.

Lemma wheel_never_fails_witness : exists w',
  run cons counting_tasks [Call (TimingWheel.Add 60 1 true no_store); Tick; Tick] new_wheel = Ok w' /\
  idle w'.
Proof.
  apply (wheel_never_fails cons counting_tasks 0%nat
    [Call (TimingWheel.Add 60 1 true no_store); Tick; Tick]).
  constructor; [apply interval_ok_small; lia | repeat constructor].
Defined.

(** C32. No timer is leaked.  When no repeated timer has a multiple of 60 seconds, every
    timer that is alive waits in its bucket, and the destructor of the wheel deletes
    them all. *)
Theorem wheel_leaks_nothing {U} (place : addr -> list addr -> list addr) `{!Bucket place}
    (tasks : nat -> U -> list (treq U) * U) `{!Contract tasks} (u : U) (es : list wevent)
    (w' : wheel U) :
  Forall keeps es -> run place tasks es (start (TimingWheel_init u)) = Ok w' ->
  heap (TimingWheel_destroy w') = ∅.
Proof.
  intros Hes Hrun. apply destroy_kept.
  apply (run_keeps place tasks es (start (TimingWheel_init u))); [| done | done].
  split; [apply idle_init | done].
Qed.

Definition two_timers : list (@wevent nat) :=
  [Call (TimingWheel.Add 2 1 true no_store); Tick; Tick; Call (TimingWheel.Add 90 1 false no_store)].

Lemma wheel_leaks_nothing_witness :
  run cons counting_tasks two_timers new_wheel = Ok (later two_timers new_wheel) /\
  size (heap (later two_timers new_wheel)) = 2%nat /\
  heap (TimingWheel_destroy (later two_timers new_wheel)) = ∅.
Proof.
  assert (Hrun : run cons counting_tasks two_timers new_wheel = Ok (later two_timers new_wheel))
    by (vm_compute; reflexivity).
  split; [exact Hrun |]. split; [vm_compute; reflexivity |].
  apply (wheel_leaks_nothing cons counting_tasks 0%nat two_timers); [| exact Hrun].
  clear Hrun. repeat constructor; by vm_compute.
Defined.

(** A timer that repeats every whole number of minutes does not repeat: it runs once, a
    minute late, is then in no bucket, and is not deleted by the destructor either. *)
Theorem repeated_minutes_are_lost {U} (place : addr -> list addr -> list addr) `{!Bucket place}
    (tasks : nat -> U -> list (treq U) * U) `{!Contract tasks}
    (w w1 w' : wheel U) (interval : Z) (task : nat) (tid : TimerId) (es : list wevent) :
  idle w -> 0 < interval -> interval_ok interval -> interval mod Count_Ticks = 0 ->
  task <> 0%nat -> add_timer place interval task true w = Ok (tid, w1) ->
  Forall (spares (next w)) es -> run place tasks es w1 = Ok w' ->
  interval + Count_Ticks <= Z.of_nat (ticks es) ->
  status_at (next w) w' = Lost /\ is_Some (heap (TimingWheel_destroy w') !! next w) /\
  exists l, fired w' = fired w ++ l /\ count_occ Nat.eq_dec l (next w) = 1%nat.
Proof.
  intros Hw Hi0 Hi Hm Ht Hadd Hes Hrun Hlate.
  destruct (add_timer_status place interval task true w tid w1 Hw Hi ltac:(lia) Ht Hadd)
    as (Hw1 & _ & Hn & Hf & Hs).
  destruct (run_status place tasks es (next w) w1 w' Hw1 Hn Hes Hrun) as (Hw' & _ & Hst & l & Hf' & Hc).
  unfold delay in Hs. rewrite Hm in Hs. simpl in Hs.
  destruct (runs_once (ticks es) (interval + Count_Ticks) interval true) as [H1 H2];
    [unfold Count_Ticks; lia | done |].
  rewrite (proj2 (Z.leb_le _ _) Hlate) in H1, H2. rewrite Hs in Hst, Hc. rewrite H2 in Hst.
  split; [done |]. split; [by apply destroy_lost |]. exists l. split; [congruence | lia].
Qed.

Definition minutes : list (@wevent nat) := replicate 200 Tick.

Lemma repeated_minutes_are_lost_witness :
  run cons counting_tasks minutes (added 60 true).2 = Ok (later minutes (added 60 true).2) /\
  user (later minutes (added 60 true).2) = 1%nat /\
  status_at 0%nat (later minutes (added 60 true).2) = Lost /\
  is_Some (heap (TimingWheel_destroy (later minutes (added 60 true).2)) !! 0%nat).
Proof.
  assert (Hadd : add_timer cons 60 1 true new_wheel = Ok ((added 60 true).1, (added 60 true).2)) by (vm_compute; reflexivity).
  assert (Hrun : run cons counting_tasks minutes (added 60 true).2
    = Ok (later minutes (added 60 true).2)) by (vm_compute; reflexivity).
  destruct (repeated_minutes_are_lost cons counting_tasks new_wheel (added 60 true).2
    (later minutes (added 60 true).2) 60 1 (added 60 true).1 minutes) as (H1 & H2 & _).
  - apply idle_init.
  - lia.
  - apply interval_ok_small; lia.
  - reflexivity.
  - lia.
  - exact Hadd.
  - apply Forall_replicate. exact I.
  - exact Hrun.
  - vm_compute. discriminate.
  - split; [exact Hrun |]. split; [vm_compute; reflexivity |]. split; [exact H1 | exact H2].
Defined.

(** The id of a timer that has run must not be used again: once a timer that does not
    repeat has run, [del_timer] of its id reads the freed timer. *)
Theorem stale_id_is_undefined {U} (place : addr -> list addr -> list addr) `{!Bucket place}
    (tasks : nat -> U -> list (treq U) * U) `{!Contract tasks}
    (w w1 w' : wheel U) (interval : Z) (task : nat) (tid : TimerId) (es : list wevent) :
  idle w -> 0 < interval -> interval_ok interval -> task <> 0%nat ->
  add_timer place interval task false w = Ok (tid, w1) ->
  Forall (spares (next w)) es -> run place tasks es w1 = Ok w' ->
  delay interval <= Z.of_nat (ticks es) ->
  del_timer tid w' = Undefined "use of a deleted timer".
Proof.
  intros Hw Hi0 Hi Ht Hadd Hes Hrun Hlate.
  destruct (add_timer_status place interval task false w tid w1 Hw Hi ltac:(lia) Ht Hadd)
    as (Hw1 & Htid & Hn & _ & Hs).
  destruct (run_status place tasks es (next w) w1 w' Hw1 Hn Hes Hrun) as (_ & _ & Hst & _).
  destruct (runs_once (ticks es) (delay interval) interval false) as [_ H2].
  { unfold delay, Count_Ticks. case_match; lia. } { done. }
  rewrite (proj2 (Z.leb_le _ _) Hlate) in H2. rewrite Hs, H2 in Hst.
  unfold del_timer. rewrite Htid. unfold del_timer_loop, deref.
  unfold status_at, view in Hst. destruct (heap w' !! next w) as [t |]; [| done].
  unfold status_of in Hst. repeat case_match; done.
Qed.

Lemma stale_id_is_undefined_witness :
  run cons counting_tasks (replicate 5 Tick) (added 5 false).2
    = Ok (later (replicate 5 Tick) (added 5 false).2) /\
  del_timer (added 5 false).1 (later (replicate 5 Tick) (added 5 false).2)
    = Undefined "use of a deleted timer".
Proof.
  assert (Hadd : add_timer cons 5 1 false new_wheel = Ok ((added 5 false).1, (added 5 false).2)) by (vm_compute; reflexivity).
  assert (Hrun : run cons counting_tasks (replicate 5 Tick) (added 5 false).2
    = Ok (later (replicate 5 Tick) (added 5 false).2)) by (vm_compute; reflexivity).
  split; [exact Hrun |].
  apply (stale_id_is_undefined cons counting_tasks new_wheel (added 5 false).2 _ 5 1
    (added 5 false).1 (replicate 5 Tick)).
  - apply idle_init.
  - lia.
  - apply interval_ok_small; lia.
  - lia.
  - exact Hadd.
  - apply Forall_replicate. exact I.
  - exact Hrun.
  - vm_compute. discriminate.
Defined.
