(* ===== verification/TcpClient.v ===== *)
(** * TcpClient: connecting, and connecting again ([src/code/TcpClient.h], [TcpClient.cpp])

    A client keeps at most one connection and tries again after an interval when it
    could not connect.  Its functions run in its loop; the world ([client]) holds its
    fields, the tasks posted to the loop, the connections it has made with what [asio] does
    for them, and the timers of the wheel that are still there. *)

From S2P Require Import Prelude.
From S2P Require Import Cpp.
From stdpp Require Import gmap list.
Local Open Scope Z_scope.

(** A connection: [async_connect] is outstanding; the socket was closed or destroyed before
    [handle_connect] could run; [init()] threw, so nothing was started; the connection is
    established; it was shut down; [handle_close] has run once, and may run a second time
    for a send. *)
Inductive status := Attempting | Cancelled | Dead | Open | Closing | Lingering.
#[export] Instance status_eq_dec : EqDecision status.
Proof. solve_decision. Defined.

Inductive task := Connect_loop | Disconnect_loop.

Record client := mk_client {
  connecting_ : bool;                (* std::atomic_flag *)
  conn_ : option nat;
  interval_ : Z;
  timer_ : option nat;               (* the timer of a TimerId, None for TimerId() *)
  count_ : Z;                        (* uint32_t *)
  posted : list task;
  conns : gmap nat status;
  timers : gset nat;                 (* not run and not deleted *)
  fresh : nat
}.

Definition TcpClient_init : client := mk_client false None 0 None 1 [] ∅ ∅ 0.

Definition set_connecting (b : bool) (c : client) : client :=
  mk_client b (conn_ c) (interval_ c) (timer_ c) (count_ c) (posted c) (conns c) (timers c) (fresh c).
Definition post (t : task) (c : client) : client :=
  mk_client (connecting_ c) (conn_ c) (interval_ c) (timer_ c) (count_ c) (posted c ++ [t]) (conns c)
    (timers c) (fresh c).
Definition set_interval (i : Z) (c : client) : client :=
  mk_client (connecting_ c) (conn_ c) i (timer_ c) (count_ c) (posted c) (conns c) (timers c) (fresh c).
Definition set_conns (m : gmap nat status) (c : client) : client :=
  mk_client (connecting_ c) (conn_ c) (interval_ c) (timer_ c) (count_ c) (posted c) m (timers c) (fresh c).

(** [conn_ = p]: a connection that is only trying to connect has no other owner, and is
    destroyed with its socket. *)
Definition cancel (a : nat) (m : gmap nat status) : gmap nat status :=
  match m !! a with Some Attempting => <[a := Cancelled]> m | _ => m end.
Definition set_conn (p : option nat) (c : client) : client :=
  mk_client (connecting_ c) p (interval_ c) (timer_ c) (count_ c) (posted c)
    (match conn_ c with Some a => cancel a (conns c) | None => conns c end) (timers c) (fresh c).

(** [connect(ip_str, port, interval)], with whether the strings name an address. *)
Definition connect (address : option bool) (port interval : Z) (c : client) : bool * client :=
  match address with
  | None => (false, c)
  | Some valid =>
      if (port =? 0) || (interval =? 0) then (false, c)
      else if connecting_ c then (false, c)
      else
        let c := set_connecting true c in
        if valid : bool then (true, post Connect_loop (set_interval interval c)) else (false, c)
  end.

(** [disconnect()], in another thread than the loop's: [dispatch] posts. *)
Definition disconnect (c : client) : client :=
  if connecting_ c then post Disconnect_loop c else c.

Definition connect_loop (c : client) : client :=
  let a := fresh c in
  let c := set_conn (Some a) c in
  mk_client (connecting_ c) (conn_ c) (interval_ c) (timer_ c) (count_ c) (posted c)
    (<[a := Attempting]> (conns c)) (timers c) (S a).

(** [loop_->del_timer(timer_)]: the id of a timer that is gone points to freed memory
    (see [TimingWheelTheorems]). *)
Definition del_timer (c : client) : outcome client :=
  match timer_ c with
  | None => mret c
  | Some t =>
      if decide (t ∈ timers c)
      then mret (mk_client (connecting_ c) (conn_ c) (interval_ c) (timer_ c) (count_ c) (posted c)
                   (conns c) (timers c ∖ {[t]}) (fresh c))
      else Undefined "del_timer of a timer that was deleted"
  end.

Definition disconnect_loop (c : client) : outcome client :=
  c ← del_timer c;
  match conn_ c with
  | Some a =>
      match conns c !! a with
      | Some Open => mret (set_conns (<[a := Closing]> (conns c)) c)
      | _ => mret (set_conns (cancel a (conns c)) c)
      end
  | None => mret (set_connecting false c)
  end.

(** [loop_->add_timer(interval_, handle_timeout)]. *)
Definition add_timer (c : client) : client :=
  mk_client (connecting_ c) (conn_ c) (interval_ c) (Some (fresh c)) (count_ c) (posted c) (conns c)
    (timers c ∪ {[fresh c]}) (S (fresh c)).

(** With whether [init()] returns: its [set_option] and [remote_endpoint] throw when the peer
    has reset the connection already, and when the socket was closed since it connected. *)
Inductive connect_result := Connected (init : bool) | Aborted | Failed.

(** The [async_connect] of the connection [a] completes.  The exception of [init()] leaves
    [handle_connect] before [handle_establish], and with it [EventLoop::loop]: if nothing
    catches it the program ends, and the state here is what a caller that runs the loop
    again has. *)
Definition handle_connect (a : nat) (ec : connect_result) (c : client) : outcome client :=
  let c := set_conns (delete a (conns c)) c in
  match ec with
  | Aborted => mret (set_connecting false (set_conn None c))
  | Failed => mret (add_timer (set_conn None c))
  | Connected init =>
      match conn_ c with
      | None => Undefined "conn_ is null"
      | Some b =>
          mret (mk_client (connecting_ c) (conn_ c) (interval_ c) (timer_ c) (u32 (count_ c + 1))
                  (posted c) (<[b := if init then Open else Dead]> (conns c)) (timers c) (fresh c))
      end
  end.

Definition handle_timeout (t : nat) (c : client) : client :=
  connect_loop (mk_client (connecting_ c) (conn_ c) (interval_ c) (timer_ c) (count_ c) (posted c)
    (conns c) (timers c ∖ {[t]}) (fresh c)).

(** The close callback of the connection [a]. *)
Definition remove_conn (a : nat) (c : client) : client :=
  set_connecting false (set_conn None
    (set_conns (match conns c !! a with
                | Some Lingering => delete a (conns c)
                | _ => <[a := Lingering]> (conns c)
                end) c)).

(** ** Events *)

Inductive event :=
  | Connect (address : option bool) (port interval : Z)
  | Disconnect
  | Disconnect_in_loop                           (* [dispatch] runs it at once *)
  | Run_posted                                   (* the oldest posted task *)
  | Completed (a : nat) (ec : connect_result)
  | Timeout (t : nat)
  | Closed (a : nat).

Definition enabled (e : event) (c : client) : bool :=
  match e with
  | Connect _ _ _ | Disconnect | Disconnect_in_loop => true
  | Run_posted => negb (length (posted c) =? 0)%nat
  | Completed a (Connected true) => bool_decide (conns c !! a = Some Attempting)
  | Completed a (Connected false) | Completed a Failed =>
      (* it may have completed before the socket was closed *)
      bool_decide (conns c !! a ∈ [Some Attempting; Some Cancelled])
  | Completed a Aborted => bool_decide (conns c !! a = Some Cancelled)
  | Timeout t => bool_decide (t ∈ timers c)
  | Closed a => bool_decide (conns c !! a ∈ [Some Open; Some Closing; Some Lingering])
  end.

Definition handle (e : event) (c : client) : outcome client :=
  match e with
  | Connect address port interval => mret (connect address port interval c).2
  | Disconnect => mret (disconnect c)
  | Disconnect_in_loop => if connecting_ c then disconnect_loop c else mret c
  | Run_posted =>
      let c' := mk_client (connecting_ c) (conn_ c) (interval_ c) (timer_ c) (count_ c)
                  (tail (posted c)) (conns c) (timers c) (fresh c) in
      match posted c with
      | [] => mret c
      | Connect_loop :: _ => mret (connect_loop c')
      | Disconnect_loop :: _ => disconnect_loop c'
      end
  | Completed a ec => handle_connect a ec c
  | Timeout t => mret (handle_timeout t c)
  | Closed a => mret (remove_conn a c)
  end.

Fixpoint run (es : list event) (c : client) : outcome client :=
  match es with
  | [] => mret c
  | e :: es => if enabled e c then c ← handle e c; run es c else run es c
  end.

(** ** Normal operation

    A connection is closed once, and a [disconnect] is made in the loop, when nothing is
    posted and [timer_] is not the id of a timer that has run or was deleted. *)

Definition timer_valid (c : client) : bool :=
  match timer_ c with None => true | Some t => bool_decide (t ∈ timers c) end.
Definition normal (e : event) (c : client) : bool :=
  match e with
  | Disconnect => false
  | Disconnect_in_loop =>
      negb (connecting_ c) || (timer_valid c && (length (posted c) =? 0)%nat)
  | Closed a => bool_decide (conns c !! a <> Some Lingering)
  | _ => true
  end.

(** The events that can happen and are normal, in this order; others are left out. *)
Fixpoint normal_run (es : list event) (c : client) : outcome client :=
  match es with
  | [] => mret c
  | e :: es => if enabled e c && normal e c then c ← handle e c; normal_run es c else normal_run es c
  end.

(** The two events that leave the client stuck. *)
Definition jams (e : event) : bool :=
  match e with Connect (Some false) _ _ | Completed _ (Connected false) => true | _ => false end.

(** All connections but [p] are gone. *)
Definition only (p : option nat) (c : client) : Prop :=
  forall b s, conns c !! b = Some s -> Some b <> p -> s = Lingering.

(** What the client is doing; nothing, only when an event has jammed it. *)
Inductive activity (jammed : bool) (c : client) : Prop :=
  | About_to_connect :
      posted c = [Connect_loop] -> conn_ c = None -> timers c = ∅ -> only None c -> activity jammed c
  | Has_connection a s :
      posted c = [] -> conn_ c = Some a -> timers c = ∅ -> conns c !! a = Some s ->
      s <> Lingering -> (s = Dead -> jammed = true) -> only (Some a) c -> activity jammed c
  | Waits t :
      posted c = [] -> conn_ c = None -> timers c = {[t]} -> timer_ c = Some t -> only None c ->
      activity jammed c
  | Refuses :
      posted c = [] -> conn_ c = None -> timers c = ∅ -> only None c -> jammed = true -> activity jammed c.
Definition idle (c : client) : Prop :=
  posted c = [] /\ conn_ c = None /\ timers c = ∅ /\ only None c.

Record client_ok (jammed : bool) (c : client) : Prop := {
  cl_activity : if connecting_ c then activity jammed c else idle c;
  cl_fresh : forall a, (fresh c <= a)%nat -> conns c !! a = None
}.

(** Whether the loop has something to do for the client: a task, an attempt that will
    complete, a connection that is open or will report that it is closed, or a timer. *)
Definition busy (c : client) : Prop :=
  exists e, enabled e c = true /\ normal e c = true /\
    match e with Connect _ _ _ | Disconnect | Disconnect_in_loop => False | _ => True end.
Definition stuck (c : client) : Prop :=
  posted c = [] /\ timers c = ∅ /\ forall a s, conns c !! a = Some s -> s = Lingering \/ s = Dead.

Lemma client_ok_init : client_ok false TcpClient_init.
Proof. split; [| done]. by split_and!. Qed.

Lemma only_insert p q c m :
  only p c -> m = <[q := Lingering]> (conns c) -> (p = None \/ p = Some q) -> only None (set_conns m c).
Proof.
  intros Ho -> Hp b s. simpl. destruct (decide (b = q)) as [-> | Hb].
  - rewrite lookup_insert_eq. by intros [= <-].
  - rewrite lookup_insert_ne by done. intros Hs _. apply (Ho b); [done |]. destruct Hp; congruence.
Qed.

Lemma connect_loop_ok j c :
  (forall a, (fresh c <= a)%nat -> conns c !! a = None) ->
  connecting_ c = true -> posted c = [] -> conn_ c = None -> timers c = ∅ -> only None c ->
  client_ok j (connect_loop c).
Proof.
  intros Hf Hc Hp Hn Ht Ho. unfold connect_loop, set_conn. simpl. rewrite Hc, Hp, Hn, Ht. split; simpl.
  - apply (Has_connection _ _ (fresh c) Attempting); simpl; try done; [by rewrite lookup_insert_eq |].
    intros b s. simpl. destruct (decide (b = fresh c)) as [-> |]; [done |].
    rewrite lookup_insert_ne by done. intros Hs _. by apply (Ho b).
  - intros a Ha. rewrite lookup_insert_ne by lia. apply Hf. lia.
Qed.

Lemma only_delete p q c : only p c -> p = Some q -> only None (set_conns (delete q (conns c)) c).
Proof.
  intros Ho -> b s. simpl. destruct (decide (b = q)) as [-> |]; [by rewrite lookup_delete_eq |].
  rewrite lookup_delete_ne by done. intros Hs _. apply (Ho b); [done | congruence].
Qed.

Lemma fresh_delete c q (k : nat) :
  (forall a, (k <= a)%nat -> conns c !! a = None) -> forall a, (k <= a)%nat -> delete q (conns c) !! a = None.
Proof.
  intros Hf a Ha. destruct (decide (a = q)) as [-> |]; [by rewrite lookup_delete_eq |].
  rewrite lookup_delete_ne by done. by apply Hf.
Qed.

(** Only one connection is alive, and then nothing else is going on. *)
Lemma activity_unique j c a s :
  activity j c -> conns c !! a = Some s -> s <> Lingering ->
  posted c = [] /\ conn_ c = Some a /\ timers c = ∅ /\ (s = Dead -> j = true) /\ only (Some a) c.
Proof.
  intros Ha Hs Hsl. inversion Ha as [Hp Hco Ht Ho | b s' Hp Hco Ht Hs' Hst Hj Ho | t Hp Hco Ht Hti Ho | Hp Hco Ht Ho];
    try (by pose proof (Ho a _ Hs ltac:(done))).
  destruct (decide (a = b)) as [-> | Hab]; [| by pose proof (Ho a _ Hs ltac:(congruence))].
  rewrite Hs in Hs'. injection Hs' as ->. done.
Qed.
Lemma idle_lingering c a s : idle c -> conns c !! a = Some s -> s = Lingering.
Proof. intros (_ & _ & _ & Ho) Hs. by apply (Ho a). Qed.

(** A connection that is alive, in a client that works. *)
Lemma alive_activity j c a s :
  client_ok j c -> conns c !! a = Some s -> s <> Lingering ->
  connecting_ c = true /\ posted c = [] /\ conn_ c = Some a /\ timers c = ∅ /\ only (Some a) c /\
  (a < fresh c)%nat.
Proof.
  intros [Ha Hf] Hs Hsl. destruct (connecting_ c); [| by pose proof (idle_lingering c a s Ha Hs)].
  destruct (activity_unique j c a s Ha Hs Hsl) as (? & ? & ? & _ & ?). split_and!; try done.
  destruct (decide (a < fresh c)%nat); [done |]. rewrite Hf in Hs by lia. done.
Qed.

(** The connection [a] gets the state [s]. *)
Lemma only_update a s c : only (Some a) c -> only (Some a) (set_conns (<[a := s]> (conns c)) c).
Proof.
  intros Ho b s'. simpl. destruct (decide (b = a)) as [-> |]; [done |]. rewrite lookup_insert_ne by done. apply Ho.
Qed.
Lemma client_ok_update j a s s' c :
  client_ok j c -> conns c !! a = Some s -> s <> Lingering -> s' <> Lingering -> s' <> Dead ->
  client_ok j (set_conns (<[a := s']> (conns c)) c).
Proof.
  intros Hok Hs Hsl Hsl' Hd. destruct (alive_activity j c a s Hok Hs Hsl) as (Hc & Hp & Hco & Ht & Ho & Hlt).
  split; simpl.
  - rewrite Hc. apply (Has_connection _ _ a s'); simpl; try done; [by rewrite lookup_insert_eq |].
    by apply only_update.
  - intros b Hb. rewrite lookup_insert_ne by lia. by apply Hok.
Qed.

Lemma handle_connect_ok j a ec c :
  client_ok j c -> enabled (Completed a ec) c = true ->
  exists c', handle_connect a ec c = Ok c' /\ client_ok (j || jams (Completed a ec)) c'.
Proof.
  intros Hok He.
  assert (exists s, conns c !! a = Some s /\ s <> Lingering) as (s & Hs & Hsl).
  { destruct ec as [[] | |]; simpl in He; apply bool_decide_eq_true in He;
      [by eexists | | by eexists |]; repeat (apply list_elem_of_cons in He as [He | He]; [by eexists |]); set_solver. }
  destruct (alive_activity j c a s Hok Hs Hsl) as (Hc & Hp & Hco & Ht & Ho & Hlt). destruct Hok as [_ Hf].
  assert (forall b, (fresh c <= b)%nat -> delete a (conns c) !! b = None) as Hfd by (by apply fresh_delete).
  assert (only None (set_conns (delete a (conns c)) c)) as Hod by (by apply (only_delete (Some a))).
  destruct ec as [init | |]; unfold handle_connect; cbn [set_conns conn_].
  - rewrite Hco. eexists. split; [reflexivity |]. split; simpl.
    + rewrite Hc. apply (Has_connection _ _ a (if init then Open else Dead)); simpl; try done;
        [by rewrite lookup_insert_eq | by destruct init | destruct init; [done | by rewrite orb_true_r] |].
      intros b s'. simpl. destruct (decide (b = a)) as [-> | Hb]; [done |].
      rewrite lookup_insert_ne, lookup_delete_ne by done. apply Ho.
    + intros b Hb. rewrite lookup_insert_ne by lia. by apply Hfd.
  - eexists. split; [reflexivity |]. unfold set_conn. simpl. rewrite Hco. unfold cancel. rewrite lookup_delete_eq.
    split; simpl; [| done]. by split_and!.
  - eexists. split; [reflexivity |]. unfold set_conn. simpl. rewrite Hco, Ht. unfold cancel. rewrite lookup_delete_eq.
    split; simpl.
    + rewrite Hc. apply (Waits _ _ (fresh c)); simpl; try done. set_solver.
    + intros b Hb. apply Hfd. lia.
Qed.

Lemma disconnect_loop_ok j c :
  client_ok j c -> connecting_ c = true -> timer_valid c = true -> posted c = [] ->
  exists c', disconnect_loop c = Ok c' /\ client_ok j c'.
Proof.
  intros Hok Hc Hv Hp. unfold disconnect_loop.
  assert (exists m, del_timer c = Ok (mk_client (connecting_ c) (conn_ c) (interval_ c) (timer_ c) (count_ c)
    (posted c) (conns c) m (fresh c)) /\ (timers c = ∅ -> m = ∅) /\
    (forall t, timers c = {[t]} -> timer_ c = Some t -> m = ∅)) as (m & -> & Hm & Hm').
  { unfold del_timer. unfold timer_valid in Hv. destruct (timer_ c) as [t |] eqn:Ht.
    - apply bool_decide_eq_true in Hv. rewrite decide_True by done. exists (timers c ∖ {[t]}).
      split_and!; [done | set_solver |]. intros t' Ht' [= <-]. set_solver.
    - exists (timers c). split; [destruct c; simpl in *; by subst |]. by split. }
  cbn [mbind outcome_bind conn_ conns]. destruct Hok as [Ha Hf]. rewrite Hc in Ha.
  inversion Ha as [Hp' | a s _ Hco Ht Hs Hsl Hd Ho | t _ Hco Ht Hti Ho | _ Hco Ht Ho]; [congruence | | |].
  - rewrite Hco, Hs. specialize (Hm Ht). subst m.
    assert (client_ok j c) as Hok by (split; [by rewrite Hc | done]).
    assert (forall m, client_ok j (set_conns m c) -> client_ok j (set_conns m (mk_client (connecting_ c) (Some a)
      (interval_ c) (timer_ c) (count_ c) (posted c) (conns c) ∅ (fresh c)))) as Hback
      by (intros m; unfold set_conns; simpl; by rewrite Hco, Ht).
    assert (forall s', s' = s -> exists c', Ok (set_conns (cancel a (conns c)) (mk_client (connecting_ c) (Some a)
      (interval_ c) (timer_ c) (count_ c) (posted c) (conns c) ∅ (fresh c))) = Ok c' /\ client_ok j c') as Hcancel.
    { intros _ _. eexists. split; [reflexivity |]. apply Hback. unfold cancel. rewrite Hs.
      destruct s; try (destruct c; exact Hok). by eapply client_ok_update. }
    destruct s; try (by apply (Hcancel _ eq_refl)).
    eexists. split; [reflexivity |]. apply Hback. by eapply client_ok_update.
  - rewrite Hco. eexists. split; [reflexivity |]. split; simpl; [| done].
    rewrite (Hm' t Ht Hti). by split_and!.
  - rewrite Hco. eexists. split; [reflexivity |]. rewrite (Hm Ht). split; simpl; [| done]. by split_and!.
Qed.
Lemma client_ok_weaken j j' c : client_ok j c -> client_ok (j || j') c.
Proof.
  intros [Ha Hf]. split; [| done]. destruct (connecting_ c); [| done].
  destruct Ha as [? ? ? ? | a s ? ? ? ? ? Hd ? | t ? ? ? ? ? | ? ? ? ? Hj].
  - by apply About_to_connect.
  - apply (Has_connection _ _ a s); try done. intros Hs. by rewrite Hd.
  - by apply (Waits _ _ t).
  - apply Refuses; try done. by rewrite Hj.
Qed.

Lemma client_handle_ok j e c :
  client_ok j c -> enabled e c = true -> normal e c = true ->
  exists c', handle e c = Ok c' /\ client_ok (j || jams e) c'.
Proof.
  intros Hok He Hn. destruct e as [address port i | | | | a ec | t | a]; cbn [handle].
  - eexists. split; [reflexivity |]. unfold connect. destruct address as [valid |]; [| by apply client_ok_weaken].
    destruct ((port =? 0) || (i =? 0)); [by apply client_ok_weaken |]. destruct (connecting_ c) eqn:Hc; [by apply client_ok_weaken |].
    destruct Hok as [Ha Hf]. rewrite Hc in Ha. destruct Ha as (Hp & Hco & Ht & Ho).
    destruct valid; split; simpl; try done.
    + apply About_to_connect; simpl; try done. by rewrite Hp.
    + apply Refuses; try done. by rewrite orb_true_r.
  - done.
  - rewrite orb_false_r. destruct (connecting_ c) eqn:Hc; [| by exists c]. simpl in Hn. rewrite Hc in Hn. simpl in Hn.
    apply andb_true_iff in Hn as [Hv Hp]. apply Nat.eqb_eq, length_zero_iff_nil in Hp. by apply disconnect_loop_ok.
  - rewrite orb_false_r. destruct Hok as [Ha Hf]. simpl in He. destruct (posted c) as [| t ts] eqn:Hp; [done |].
    destruct (connecting_ c) eqn:Hc; [| destruct Ha as (Hp' & _); congruence].
    inversion Ha as [Hp' Hco Ht Ho | ? ? Hp' | ? Hp' | Hp']; rewrite Hp in Hp'; try done.
    injection Hp' as -> ->. eexists. split; [reflexivity |]. by apply connect_loop_ok.
  - by apply handle_connect_ok.
  - rewrite orb_false_r. destruct Hok as [Ha Hf]. apply bool_decide_eq_true in He. destruct (connecting_ c) eqn:Hc.
    2: { destruct Ha as (_ & _ & Ht & _). rewrite Ht in He. set_solver. }
    inversion Ha as [? ? Ht | ? ? ? ? Ht | t' Hp Hco Ht Hti Ho | ? ? Ht]; rewrite Ht in He; try set_solver.
    apply elem_of_singleton in He as ->. eexists. split; [reflexivity |].
    apply connect_loop_ok; simpl; try done. rewrite Ht. set_solver.
  - rewrite orb_false_r. apply bool_decide_eq_true in He, Hn. eexists. split; [reflexivity |].
    destruct (conns c !! a) as [s |] eqn:Hs; [| set_solver].
    assert (s <> Lingering) as Hsl by congruence.
    destruct (alive_activity j c a s Hok Hs Hsl) as (Hc & Hp & Hco & Ht & Ho & Hlt).
    assert (match conns c !! a with Some Lingering => delete a (conns c)
            | _ => <[a := Lingering]> (conns c) end = <[a := Lingering]> (conns c)) as Hm
      by (rewrite Hs; by destruct s).
    unfold remove_conn, set_conn. rewrite Hm. simpl. rewrite Hco. unfold cancel.
    rewrite lookup_insert_eq. split; simpl.
    + split_and!; try done. apply (only_insert (Some a) a c _ Ho eq_refl). by right.
    + intros b Hb. rewrite lookup_insert_ne by lia. by apply Hok.
Qed.

Lemma normal_run_ok j es c :
  client_ok j c -> exists c', normal_run es c = Ok c' /\ client_ok (j || existsb jams es) c'.
Proof.
  revert j c. induction es as [| e es IH]; intros j c Hok; cbn [normal_run existsb].
  - exists c. by rewrite orb_false_r.
  - rewrite orb_assoc. destruct (enabled e c && normal e c) eqn:He.
    + apply andb_true_iff in He as [He Hn]. destruct (client_handle_ok j e c Hok He Hn) as (c1 & -> & Hc1). by apply IH.
    + apply IH. by apply client_ok_weaken.
Qed.

(** A connecting client has something to do, or is jammed. *)
Lemma activity_busy j c : activity j c -> busy c \/ (stuck c /\ j = true).
Proof.
  intros [Hp _ _ _ | a s Hp Hco Ht Hs Hsl Hd Ho | t _ _ Ht _ _ | Hp _ Ht Ho Hj].
  - left. exists Run_posted. simpl. by rewrite Hp.
  - destruct s; try (left; by exists (Closed a); simpl; rewrite Hs).
    + left. exists (Completed a (Connected true)). simpl. by rewrite bool_decide_true.
    + left. exists (Completed a Aborted). simpl. by rewrite bool_decide_true.
    + right. split; [| by apply Hd]. split_and!; [done | done |]. intros b s Hb.
      destruct (decide (b = a)) as [-> |]; [right; congruence | left; apply (Ho b); [done | congruence]].
  - left. exists (Timeout t). simpl. rewrite bool_decide_true by (rewrite Ht; set_solver). done.
  - right. split; [| done]. split_and!; [done | done |]. intros b s Hb. left. by apply (Ho b).
Qed.

(** ** Properties *)

(** C40. The client does one thing at a time.  For every sequence of events without a second
    [handle_close] of a connection and without a [disconnect] from another thread, made
    before the posted [connect_loop] has run, or when [timer_] is stale: no event is
    undefined; at most one connection is alive; [connect] is accepted exactly when
    [connecting_] is clear, and then the client is idle: nothing is posted, no connection is
    held or alive, no timer is set.  Otherwise the loop has something to do for it, or
    it is stuck: an address was invalid or [init()] threw before, and no task, no timer and
    no connection will ever bring it on. *)
Theorem client_one_activity (es : list event) :
  exists c, normal_run es TcpClient_init = Ok c /\
  (forall a b s s', conns c !! a = Some s -> conns c !! b = Some s' ->
     s <> Lingering -> s' <> Lingering -> a = b) /\
  (forall port i, port <> 0 -> i <> 0 ->
     (connect (Some true) port i c).1 = negb (connecting_ c)) /\
  (connecting_ c = false -> idle c) /\
  (connecting_ c = true -> busy c \/ (stuck c /\ exists e, e ∈ es /\ jams e = true)).
Proof.
  destruct (normal_run_ok false es _ client_ok_init) as (c & Hr & Hok). exists c. split; [done |]. split_and!.
  - intros a b s s' Hs Hs' Hl Hl'.
    destruct (alive_activity _ c a s Hok Hs Hl) as (_ & _ & H1 & _).
    destruct (alive_activity _ c b s' Hok Hs' Hl') as (_ & _ & H2 & _). congruence.
  - intros port i Hp Hi. unfold connect. destruct (Z.eqb_spec port 0), (Z.eqb_spec i 0); try done. simpl.
    by destruct (connecting_ c).
  - intros Hc. destruct Hok as [Ha _]. by rewrite Hc in Ha.
  - intros Hc. destruct Hok as [Ha _]. rewrite Hc in Ha. apply activity_busy in Ha as [| [? Hj]]; [by left | right].
    split; [done |]. apply existsb_exists in Hj as (e & He & Hj). exists e. split; [by apply list_elem_of_In | done].
Qed.

(** A client whose first attempt fails, which connects then, disconnects and connects again. *)
Lemma client_reconnects :
  exists c, normal_run [Connect (Some true) 80 10; Run_posted; Completed 0 Failed; Timeout 1;
                        Completed 2 (Connected true); Closed 2; Connect (Some true) 80 10; Run_posted;
                        Completed 3 (Connected true)] TcpClient_init = Ok c /\
    conns c = {[2%nat := Lingering; 3%nat := Open]}.
Proof. eexists. split; vm_compute; reflexivity. Qed.

(** Disconnecting after a retry is undefined.  The timer of the first retry runs once and
    is freed, but the client keeps its id: the next [disconnect], of a connection that works,
    makes the wheel read the freed timer.  *)
Theorem disconnect_after_retry (port interval : Z) :
  port <> 0 -> interval <> 0 ->
  exists c,
    run [Connect (Some true) port interval; Run_posted; Completed 0 Failed; Timeout 1;
         Completed 2 (Connected true)] TcpClient_init = Ok c /\
    conns c !! 2%nat = Some Open /\ timers c = ∅ /\
    run [Disconnect; Run_posted] c = Undefined "del_timer of a timer that was deleted" /\
    run [Disconnect_in_loop] c = Undefined "del_timer of a timer that was deleted".
Proof.
  intros Hp Hi. unfold run at 1. simpl. unfold connect.
  destruct (Z.eqb_spec port 0), (Z.eqb_spec interval 0); try done. simpl.
  eexists. split; [vm_compute; reflexivity |]. split_and!; vm_compute; reflexivity.
Qed.

Lemma disconnect_after_retry_witness : exists c,
  run [Connect (Some true) 80 10; Run_posted; Completed 0 Failed; Timeout 1; Completed 2 (Connected true)]
    TcpClient_init = Ok c /\
  run [Disconnect; Run_posted] c = Undefined "del_timer of a timer that was deleted".
Proof.
  destruct (disconnect_after_retry 80 10) as (c & H1 & _ & _ & H2 & _); [lia | lia |].
  exists c. split; [exact H1 | exact H2].
Defined.

(** What the flag [connecting_] does not cover.  After an invalid address the client is
    idle but refuses every [connect]; so does a client whose [init()] has thrown, after
    [disconnect] too.  A second [handle_close] of an old connection (see [tcp_closings])
    drops the attempt that was started after the first, and if that had connected already
    its [handle_connect] uses the null [conn_].  And a [disconnect] that overtakes the posted
    [connect_loop] is forgotten: the client connects although it was told not to, and
    reports itself idle while it does. *)
Theorem client_flag_defects :
  (exists c, run [Connect (Some false) 80 10] TcpClient_init = Ok c /\ idle (set_connecting false c) /\
     forall port i, (connect (Some true) port i c).1 = false) /\
  (exists c, run [Connect (Some true) 80 10; Run_posted; Completed 0 (Connected false); Disconnect_in_loop]
               TcpClient_init = Ok c /\
     conns c = {[0%nat := Dead]} /\ forall port i, (connect (Some true) port i c).1 = false) /\
  (exists c, run [Connect (Some true) 80 10; Run_posted; Completed 0 (Connected true); Closed 0;
                  Connect (Some true) 80 10; Run_posted; Closed 0] TcpClient_init = Ok c /\
     conn_ c = None /\ connecting_ c = false /\ conns c = {[1%nat := Cancelled]} /\
     run [Completed 1 (Connected false)] c = Undefined "conn_ is null") /\
  (exists c, run [Connect (Some true) 80 10; Disconnect_in_loop; Run_posted] TcpClient_init = Ok c /\
     connecting_ c = false /\ conns c = {[0%nat := Attempting]}).
Proof.
  split_and!; eexists; (split; [vm_compute; reflexivity |]).
  - split; [| intros port i; simpl; by destruct ((port =? 0) || (i =? 0))].
    split_and!; [done.. |]. intros b s Hs.
    change ((∅ : gmap nat status) !! b = Some s) in Hs. by rewrite lookup_empty in Hs.
  - split; [vm_compute; reflexivity |]. intros port i. simpl. by destruct ((port =? 0) || (i =? 0)).
  - split_and!; vm_compute; reflexivity.
  - split_and!; vm_compute; reflexivity.
Qed.
