(* ===== verification/BlockingQueue.v ===== *)
(** * BlockingQueue: the queue of tasks between threads ([src/code/BlockingQueue.hpp])

    Every operation holds the mutex, so it is atomic; [pop] gives it up while it waits
    on the condition variable.  The operations are functions on the queue; the threads
    that wait, and those that were woken but have not yet got the mutex back, are the
    two sets of the step relation. *)

From S2P Require Import Prelude.
From S2P Require Import Cpp.
From stdpp Require Import gmap list.
Local Open Scope Z_scope.

Record BlockingQueue (T : Type) := mk_bq {
  queue_ : list T;
  max_count_ : Z;      (* size_t; 0 is no limit *)
  exit_ : bool
}.
Arguments mk_bq {T}.
Arguments queue_ {T}.
Arguments max_count_ {T}.
Arguments exit_ {T}.

(** What [pop] does when it has the mutex. *)
Inductive pop_result (T : Type) :=
  | Blocks          (* the predicate of the wait is false *)
  | Exits           (* it returns false *)
  | Takes (item : T).
Arguments Blocks {T}.
Arguments Exits {T}.
Arguments Takes {T}.

Section queue.
Context {T : Type}.
Implicit Types q : BlockingQueue T.

Definition BlockingQueue_new : BlockingQueue T := mk_bq [] 0 false.
Definition init (max_count : Z) (q : BlockingQueue T) : BlockingQueue T := mk_bq [] max_count false.

Definition full q : bool := (0 <? max_count_ q) && (max_count_ q <=? vsize (queue_ q)).
Definition empty q : bool := match queue_ q with [] => true | _ => false end.
Definition size q : Z := vsize (queue_ q).

Definition push (item : T) q : bool * BlockingQueue T :=
  if (0 <? max_count_ q) && (max_count_ q <=? vsize (queue_ q)) then (false, q)
  else (true, mk_bq (queue_ q ++ [item]) (max_count_ q) (exit_ q)).

Definition pop q : pop_result T * BlockingQueue T :=
  if negb (empty q) || exit_ q then
    if exit_ q then (Exits, q)
    else match queue_ q with
         | [] => (Blocks, q)
         | x :: l => (Takes x, mk_bq l (max_count_ q) (exit_ q))
         end
  else (Blocks, q).

Definition front q : option T := head (queue_ q).
Definition back q : option T := last (queue_ q).
Definition notify_exit q : BlockingQueue T := mk_bq (queue_ q) (max_count_ q) true.

(** ** Threads *)

(** The history is what was pushed and what each thread has popped, oldest first. *)
Record monitor := mk_monitor {
  bq : BlockingQueue T;
  waiting : gset nat;
  woken : gset nat;
  pushed : list T;
  popped : list (nat * T)
}.

Definition start_monitor (max_count : Z) : monitor :=
  mk_monitor (init max_count BlockingQueue_new) ∅ ∅ [] [].

(** One step of one thread.  [notify_one] wakes one of the waiting threads, if there
    is one; a thread may also wake without reason. *)
Inductive step : monitor -> monitor -> Prop :=
  | Push_full m item q :
      push item (bq m) = (false, q) ->
      step m (mk_monitor q (waiting m) (woken m) (pushed m) (popped m))
  | Push_nobody m item q :
      push item (bq m) = (true, q) -> waiting m = ∅ ->
      step m (mk_monitor q ∅ (woken m) (pushed m ++ [item]) (popped m))
  | Push_wakes m item q t :
      push item (bq m) = (true, q) -> t ∈ waiting m ->
      step m (mk_monitor q (waiting m ∖ {[t]}) (woken m ∪ {[t]}) (pushed m ++ [item]) (popped m))
  | Spurious m t :
      t ∈ waiting m ->
      step m (mk_monitor (bq m) (waiting m ∖ {[t]}) (woken m ∪ {[t]}) (pushed m) (popped m))
  | Pop_blocks m t q :
      t ∉ waiting m -> pop (bq m) = (Blocks, q) ->
      step m (mk_monitor q (waiting m ∪ {[t]}) (woken m ∖ {[t]}) (pushed m) (popped m))
  | Pop_exits m t q :
      t ∉ waiting m -> pop (bq m) = (Exits, q) ->
      step m (mk_monitor q (waiting m) (woken m ∖ {[t]}) (pushed m) (popped m))
  | Pop_takes m t q item :
      t ∉ waiting m -> pop (bq m) = (Takes item, q) ->
      step m (mk_monitor q (waiting m) (woken m ∖ {[t]}) (pushed m) (popped m ++ [(t, item)]))
  | Notify_exit m :
      step m (mk_monitor (notify_exit (bq m)) ∅ (woken m ∪ waiting m) (pushed m) (popped m)).

Definition reachable (max_count : Z) : monitor -> Prop := rtc step (start_monitor max_count).

(** ** The invariant *)

Record monitor_ok (max_count : Z) (m : monitor) : Prop := {
  mon_max : max_count_ (bq m) = max_count;
  mon_fifo : pushed m = (popped m).*2 ++ queue_ (bq m);
  mon_room : 0 < max_count -> vsize (queue_ (bq m)) <= max_count;
  mon_disjoint : waiting m ## woken m;
  mon_exit : exit_ (bq m) = true -> waiting m = ∅;
  mon_awake : waiting m <> ∅ -> (length (queue_ (bq m)) <= base.size (woken m))%nat
}.

Lemma push_true item q q' :
  push item q = (true, q') ->
  q' = mk_bq (queue_ q ++ [item]) (max_count_ q) (exit_ q) /\
  (0 < max_count_ q -> vsize (queue_ q) < max_count_ q).
Proof.
  unfold push. destruct (_ && _) eqn:Hc; intros [= <-]. split; [done |]. intros Hm.
  apply andb_false_iff in Hc as [Hc | Hc]; boolify; lia.
Qed.

Lemma pop_inv q r q' :
  pop q = (r, q') ->
  match r with
  | Blocks => q' = q /\ queue_ q = [] /\ exit_ q = false
  | Exits => q' = q /\ exit_ q = true
  | Takes x => queue_ q = x :: queue_ q' /\ exit_ q = false /\ exit_ q' = false /\
      max_count_ q' = max_count_ q
  end.
Proof.
  unfold pop, empty. destruct (queue_ q) as [| x l] eqn:Hq, (exit_ q) eqn:He; simpl;
    by intros [= <- <-].
Qed.

Lemma start_ok max_count : monitor_ok max_count (start_monitor max_count).
Proof. split; unfold vsize; simpl; try done; try lia. Qed.

(** A woken thread that goes to sleep, leaves or takes an item. *)
Lemma size_unwake (woken : gset nat) t :
  (base.size woken <= S (base.size (woken ∖ {[t]})))%nat.
Proof.
  destruct (decide (t ∈ woken)) as [Ht | Ht].
  - rewrite (size_difference woken {[t]}), size_singleton by set_solver. lia.
  - replace (woken ∖ {[t]}) with woken by set_solver. lia.
Qed.

Lemma size_wake (woken : gset nat) t :
  t ∉ woken -> base.size (woken ∪ {[t]}) = S (base.size woken).
Proof. intros Ht. rewrite size_union, size_singleton by set_solver. lia. Qed.

Lemma step_ok max_count m m' : monitor_ok max_count m -> step m m' -> monitor_ok max_count m'.
Proof.
  intros [Hmax Hf Hr Hd He Ha] Hstep. destruct Hstep as
    [m item q Hp | m item q Hp Hw | m item q t Hp Ht | m t Ht | m t q Ht Hp | m t q Ht Hp
    | m t q item Ht Hp | m].
  - assert (q = bq m) as -> by (unfold push in Hp; destruct (_ && _); congruence). by split.
  - destruct (push_true _ _ _ Hp) as [-> Hroom]. split; simpl; try done.
    + by rewrite Hf, app_assoc.
    + rewrite vsize_app. change (vsize [item]) with 1. intros. rewrite Hmax in Hroom. lia.
  - destruct (push_true _ _ _ Hp) as [-> Hroom]. split; simpl; try done.
    + by rewrite Hf, app_assoc.
    + rewrite vsize_app. change (vsize [item]) with 1. intros. rewrite Hmax in Hroom. lia.
    + set_solver.
    + intros Hx. specialize (He Hx). set_solver.
    + intros _. rewrite length_app, size_wake by set_solver. simpl.
      pose proof (Ha ltac:(set_solver)). lia.
  - split; simpl; try done.
    + set_solver.
    + intros Hx. specialize (He Hx). set_solver.
    + intros _. rewrite size_wake by set_solver. pose proof (Ha ltac:(set_solver)). lia.
  - apply pop_inv in Hp as (-> & Hq & Hx). split; simpl; try done.
    + set_solver.
    + congruence.
    + rewrite Hq. simpl. lia.
  - apply pop_inv in Hp as (-> & Hx). specialize (He Hx). split; simpl; try done. set_solver.
  - apply pop_inv in Hp as (Hq & Hx & Hx' & Hm). rewrite Hq in Hf, Ha, Hr. simpl in *.
    split; simpl.
    + congruence.
    + rewrite Hf, fmap_app. simpl. by rewrite <- app_assoc.
    + intros Hpos. specialize (Hr Hpos). rewrite vsize_cons in Hr. lia.
    + set_solver.
    + congruence.
    + intros Hw. specialize (Ha Hw). pose proof (size_unwake (woken m) t). lia.
  - split; simpl; try done; set_solver.
Qed.

Lemma reachable_ok max_count m : reachable max_count m -> monitor_ok max_count m.
Proof.
  intros Hr. unfold reachable in Hr. apply (rtc_ind_r (monitor_ok max_count)) in Hr; [done | |].
  - apply start_ok.
  - intros. by eapply step_ok.
Qed.
End queue.
Arguments monitor : clear implicits.

(** ** Properties *)

(** C33. The queue is first in, first out, loses nothing and keeps its limit, for any number
    of threads: what the threads have popped, in the order of their pops, followed by
    what is in the queue, is what was pushed; and a queue with a limit never holds
    more. *)
Theorem queue_fifo {T} (max_count : Z) (m : monitor T) :
  reachable max_count m ->
  pushed m = (popped m).*2 ++ queue_ (bq m) /\
  (0 < max_count -> vsize (queue_ (bq m)) <= max_count).
Proof. intros Hm%reachable_ok. by destruct Hm. Qed.

(** Two threads wait, one item wakes the first of them, a third thread takes it. *)
Definition barging : monitor nat :=
  mk_monitor (mk_bq [] 5 false) {[2%nat]} {[1%nat]} [7%nat] [(3%nat, 7%nat)].

Lemma reachable_barging : reachable 5 barging.
Proof.
  assert (barging = mk_monitor (mk_bq [] 5 false) ((∅ ∪ {[1%nat]} ∪ {[2%nat]}) ∖ {[1%nat]})
    (((∅ ∖ {[1%nat]}) ∖ {[2%nat]} ∪ {[1%nat]}) ∖ {[3%nat]}) ([] ++ [7%nat]) ([] ++ [(3%nat, 7%nat)]))
    as -> by (unfold barging; f_equal; set_solver).
  eapply rtc_l; [apply (Pop_blocks (start_monitor 5) 1%nat); [set_solver | done] |]. simpl.
  eapply rtc_l; [eapply (Pop_blocks _ 2%nat); [set_solver | done] |]. simpl.
  eapply rtc_l; [eapply (Push_wakes _ 7%nat _ 1%nat); [done | set_solver] |]. simpl.
  eapply rtc_l; [eapply (Pop_takes _ 3%nat); [set_solver | done] |]. simpl.
  apply rtc_refl.
Qed.

Lemma queue_fifo_witness :
  reachable 5 barging /\ pushed barging = (popped barging).*2 ++ queue_ (bq barging).
Proof.
  split; [exact reachable_barging |].
  exact (proj1 (queue_fifo 5 barging reachable_barging)).
Defined.

(** C34. No wake-up is lost.  Whenever a thread waits in [pop] although there is an item,
    another thread has been woken and has not yet run, and that thread can take the
    item: a queue with items and a waiting thread is never stuck. *)
Theorem queue_no_lost_wakeup {T} (max_count : Z) (m : monitor T) :
  reachable max_count m -> waiting m <> ∅ -> queue_ (bq m) <> [] ->
  exists t item q, (t ∈ woken m) /\ (t ∉ waiting m) /\ pop (bq m) = (Takes item, q) /\
    step m (mk_monitor q (waiting m) (woken m ∖ {[t]}) (pushed m) (popped m ++ [(t, item)])).
Proof.
  intros [Hmax Hf Hr Hd He Ha]%reachable_ok Hw Hq. specialize (Ha Hw).
  destruct (queue_ (bq m)) as [| x l] eqn:Hl; [done |].
  destruct (set_choose_L (woken m)) as [t Ht].
  { intros H0. rewrite H0, size_empty in Ha. simpl in Ha. lia. }
  assert (exit_ (bq m) = false) as Hx.
  { destruct (exit_ (bq m)); [by specialize (He eq_refl) | done]. }
  assert (pop (bq m) = (Takes x, mk_bq l (max_count_ (bq m)) false)) as Hp.
  { unfold pop, empty. by rewrite Hl, Hx. }
  assert (t ∉ waiting m) by set_solver.
  exists t, x, (mk_bq l (max_count_ (bq m)) false). split_and!; try done. by apply Pop_takes.
Qed.

(** Two threads wait and one item arrives. *)
Definition handed : monitor nat :=
  mk_monitor (mk_bq [7%nat] 5 false) ((∅ ∪ {[1%nat]} ∪ {[2%nat]}) ∖ {[1%nat]})
    ((∅ ∖ {[1%nat]}) ∖ {[2%nat]} ∪ {[1%nat]}) ([] ++ [7%nat]) [].
Lemma reachable_handed : reachable 5 handed.
Proof.
  eapply rtc_l; [apply (Pop_blocks (start_monitor 5) 1%nat); [set_solver | done] |]. simpl.
  eapply rtc_l; [eapply (Pop_blocks _ 2%nat); [set_solver | done] |]. simpl.
  eapply rtc_l; [eapply (Push_wakes _ 7%nat _ 1%nat); [done | set_solver] |]. simpl.
  apply rtc_refl.
Qed.

Lemma queue_no_lost_wakeup_witness : exists t item q,
  (t ∈ woken handed) /\ (t ∉ waiting handed) /\ pop (bq handed) = (Takes item, q) /\
  step handed (mk_monitor q (waiting handed) (woken handed ∖ {[t]}) (pushed handed)
    (popped handed ++ [(t, item)])).
Proof.
  apply (queue_no_lost_wakeup 5 handed reachable_handed); [| done].
  intros H. assert (2%nat ∈ waiting handed) as H2 by set_solver. rewrite H in H2. set_solver.
Defined.

(** After [notify_exit] nothing is popped any more, nobody waits, and every call of
    [pop] returns false at once, even when items are left: they are dropped. *)
Theorem queue_exit {T} (max_count : Z) (m m' : monitor T) :
  reachable max_count m -> exit_ (bq m) = true -> rtc step m m' ->
  exit_ (bq m') = true /\ popped m' = popped m /\ waiting m' = ∅ /\
  (pop (bq m')).1 = Exits.
Proof.
  intros Hm Hx Hsteps.
  assert (exit_ (bq m') = true /\ popped m' = popped m) as [Hx' Hp'].
  { induction Hsteps as [m | m1 m2 m3 Hs _ IH]; [done |].
    assert (exit_ (bq m2) = true /\ popped m2 = popped m1) as [Hx2 <-].
    { destruct Hs as [m item q Hp | m item q Hp Hw | m item q t Hp Ht | m t Ht | m t q Ht Hp
        | m t q Ht Hp | m t q item Ht Hp | m]; simpl; try done.
      - unfold push in Hp. destruct (_ && _); by simplify_eq.
      - by destruct (push_true _ _ _ Hp) as [-> _].
      - by destruct (push_true _ _ _ Hp) as [-> _].
      - by apply pop_inv in Hp as (-> & _).
      - by apply pop_inv in Hp as (-> & _).
      - apply pop_inv in Hp as (_ & Hx2 & _). congruence. }
    apply IH; [| done]. eapply rtc_r; [exact Hm |]. done. }
  split; [done |]. split; [done |]. split.
  - assert (reachable max_count m') as Hr by (unfold reachable in *; by etrans).
    apply reachable_ok in Hr. by apply (mon_exit _ _ Hr).
  - unfold pop. by rewrite Hx', orb_true_r.
Qed.

Definition exited : monitor nat :=
  mk_monitor (notify_exit (bq handed)) ∅ (woken handed ∪ waiting handed) (pushed handed) (popped handed).
Lemma reachable_exited : reachable 5 exited.
Proof. eapply rtc_r; [exact reachable_handed | apply Notify_exit]. Qed.

Lemma queue_exit_witness :
  queue_ (bq exited) = [7%nat] /\ popped exited = [] /\ (pop (bq exited)).1 = Exits.
Proof.
  split; [reflexivity |].
  destruct (queue_exit 5 exited exited reachable_exited eq_refl (rtc_refl _ _)) as (_ & H1 & _ & H2).
  split; [exact H1 | exact H2].
Defined.
