(* ===== verification/CircularQueue.v ===== *)
(** * CircularQueue: the ring buffer ([src/code/CircularQueue.hpp])

    [init] reserves memory for the vector but gives it no elements, so [push] writes
    outside of it.  On a vector that does have [max_count_] elements the operations are
    a bounded queue that drops its oldest element when it is full. *)

From S2P Require Import Prelude.
From S2P Require Import Cpp.
From stdpp Require Import list.
Local Open Scope Z_scope.

Record CircularQueue (T : Type) := mk_cq {
  vector_ : list T;
  max_count_ : Z;     (* size_t *)
  head_ : Z;          (* size_t *)
  tail_ : Z           (* size_t *)
}.
Arguments mk_cq {T}.
Arguments vector_ {T}.
Arguments max_count_ {T}.
Arguments head_ {T}.
Arguments tail_ {T}.

Section ring.
Context {T : Type}.
Implicit Types q : CircularQueue T.

Definition CircularQueue_new : CircularQueue T := mk_cq [] 0 0 0.

(** [vector_.reserve(max_count_)] changes the capacity, not the elements. *)
Definition init (max_count : Z) q : CircularQueue T := mk_cq (vector_ q) (u64 (max_count + 1)) 0 0.

(** [% max_count_], which is undefined for 0. *)
Definition modulo (a m : Z) : outcome Z :=
  if m =? 0 then Undefined "modulo by zero" else Ok (a mod m).

Definition next_index (idx : Z) q : outcome Z := modulo (u64 (idx + 1)) (max_count_ q).
Definition prev_index (idx : Z) q : outcome Z :=
  modulo (u64 (idx + max_count_ q - 1)) (max_count_ q).

Definition empty q : bool := head_ q =? tail_ q.
Definition full q : outcome bool := n ← next_index (tail_ q) q; mret (head_ q =? n).
Definition size q : outcome Z := modulo (u64 (tail_ q - head_ q + max_count_ q)) (max_count_ q).

Definition push (item : T) q : outcome (CircularQueue T) :=
  f ← full q;
  h ← (if f : bool then next_index (head_ q) q else mret (head_ q));
  v ← vset (vector_ q) (tail_ q) item;
  t ← next_index (tail_ q) q;
  mret (mk_cq v (max_count_ q) h t).

Definition pop q : outcome (option T * CircularQueue T) :=
  if empty q then mret (None, q)
  else
    x ← vget (vector_ q) (head_ q);
    h ← next_index (head_ q) q;
    mret (Some x, mk_cq (vector_ q) (max_count_ q) h (tail_ q)).

Definition front q : outcome (option T) :=
  if empty q then mret None else Some <$> vget (vector_ q) (head_ q).

Definition back q : outcome (option T) :=
  if empty q then mret None
  else p ← prev_index (tail_ q) q; Some <$> vget (vector_ q) p.

(** ** The ring as a list *)

(** The vector has the elements [init] means to give it, and the indices are inside. *)
Record ring_ok q : Prop := {
  ring_size : vsize (vector_ q) = max_count_ q;
  ring_max : 2 <= max_count_ q < 2 ^ 62;
  ring_head : 0 <= head_ q < max_count_ q;
  ring_tail : 0 <= tail_ q < max_count_ q
}.

(** The queue holds the list [l], the oldest element first. *)
Record represents q (l : list T) : Prop := {
  rep_ok : ring_ok q;
  rep_count : (tail_ q - head_ q) mod max_count_ q = vsize l;
  rep_elem i x : l !! i = Some x ->
    vector_ q !! Z.to_nat ((head_ q + Z.of_nat i) mod max_count_ q) = Some x
}.

(** What [push] does to a queue of at most [limit] elements. *)
Definition push_bounded (limit : Z) (item : T) (l : list T) : list T :=
  (if vsize l =? limit then list.tail l else l) ++ [item].

(** ** Indices *)

Lemma mod_up a n : 0 <= a < 2 * n -> a mod n = if a <? n then a else a - n.
Proof.
  intros Ha. destruct (Z.ltb_spec a n); [apply Z.mod_small; lia |].
  symmetry. apply (Z.mod_unique _ _ 1); lia.
Qed.
Lemma mod_down a n : - n < a < n -> a mod n = if a <? 0 then a + n else a.
Proof.
  intros Ha. destruct (Z.ltb_spec a 0); [| apply Z.mod_small; lia].
  symmetry. apply (Z.mod_unique _ _ (-1)); lia.
Qed.

Lemma next_index_ok q idx :
  ring_ok q -> 0 <= idx < max_count_ q -> next_index idx q = Ok ((idx + 1) mod max_count_ q).
Proof.
  intros [] Hi. unfold next_index, modulo. rewrite u64_small by lia.
  destruct (Z.eqb_spec (max_count_ q) 0); [lia | done].
Qed.

Lemma full_ok q l : represents q l -> full q = Ok (vsize l =? max_count_ q - 1).
Proof.
  intros [Hok Hc _]. pose proof Hok as [H1 H2 H3 H4]. unfold full.
  rewrite next_index_ok by done. simpl. f_equal. rewrite <- Hc.
  rewrite mod_up, mod_down by lia. case_match; case_match; boolify;
    apply Bool.eq_iff_eq_true; rewrite !Z.eqb_eq; lia.
Qed.

Lemma rep_bound q l : represents q l -> vsize l <= max_count_ q - 1.
Proof.
  intros [[] Hc _]. rewrite <- Hc.
  pose proof (Z.mod_pos_bound (tail_ q - head_ q) (max_count_ q) ltac:(lia)). lia.
Qed.

(** The position of the [i]th element. *)
Lemma position q l i :
  represents q l -> 0 <= i <= max_count_ q ->
  0 <= (head_ q + i) mod max_count_ q < max_count_ q /\
  ((head_ q + i) mod max_count_ q = tail_ q <-> i = vsize l \/ i = vsize l + max_count_ q).
Proof.
  intros Hr Hi. pose proof (rep_bound q l Hr). destruct Hr as [[H1 H2 H3 H4] Hc _].
  rewrite mod_down in Hc by lia. rewrite mod_up by lia. pose proof (vsize_nonneg l).
  case_match; case_match; boolify; lia.
Qed.

Lemma empty_ok q l : represents q l -> empty q = (vsize l =? 0).
Proof.
  intros Hr. pose proof (position q l 0 Hr) as Hp. destruct Hr as [[H1 H2 H3 H4] Hc _].
  destruct Hp as [_ Hp]; [lia |]. rewrite Z.add_0_r, Z.mod_small in Hp by lia.
  pose proof (vsize_nonneg l). unfold empty. apply Bool.eq_iff_eq_true. rewrite !Z.eqb_eq. lia.
Qed.

Lemma size_ok q l : represents q l -> size q = Ok (vsize l).
Proof.
  intros [[H1 H2 H3 H4] Hc _]. unfold size, modulo. rewrite u64_small by lia.
  destruct (Z.eqb_spec (max_count_ q) 0); [lia |]. f_equal. rewrite <- Hc.
  rewrite mod_up, mod_down by lia. case_match; case_match; boolify; lia.
Qed.

(** ** The operations *)

Lemma push_ok item q l :
  represents q l -> exists q', push item q = Ok q' /\
    represents q' (push_bounded (max_count_ q - 1) item l) /\ max_count_ q' = max_count_ q.
Proof.
  intros Hr. pose proof (full_ok q l Hr) as Hf. pose proof (rep_bound q l Hr) as Hb.
  pose proof (fun i Hi => position q l i Hr Hi) as Hp.
  pose proof Hr as [Hok Hc He]. pose proof Hok as [H1 H2 H3 H4]. pose proof (vsize_nonneg l).
  assert (vset (vector_ q) (tail_ q) item = Ok (<[Z.to_nat (tail_ q) := item]> (vector_ q))) as Hset.
  { apply vset_Ok. lia. }
  unfold push. rewrite Hf. simpl. unfold push_bounded.
  assert (forall i, (i < length l)%nat ->
    <[Z.to_nat (tail_ q) := item]> (vector_ q) !! Z.to_nat ((head_ q + Z.of_nat i) mod max_count_ q)
    = vector_ q !! Z.to_nat ((head_ q + Z.of_nat i) mod max_count_ q)) as Hkeep.
  { intros i Hi. unfold vsize in *. destruct (Hp (Z.of_nat i)) as [Hpos Hne]; [lia |].
    apply list_lookup_insert_ne. lia. }
  assert (<[Z.to_nat (tail_ q) := item]> (vector_ q) !! Z.to_nat (tail_ q) = Some item) as Hnew.
  { apply list_lookup_insert_eq. unfold vsize in *. lia. }
  assert (forall a, 0 <= a < max_count_ q -> 0 <= (a + 1) mod max_count_ q < max_count_ q) as Hmod.
  { intros. apply Z.mod_pos_bound. lia. }
  destruct (Z.eqb_spec (vsize l) (max_count_ q - 1)) as [Hfull | Hfull].
  - rewrite next_index_ok by done. simpl. rewrite Hset. simpl. rewrite next_index_ok by done. simpl.
    eexists. split; [done |]. split; [| done]. split; simpl.
    + split; simpl; try lia; [| apply Hmod; lia | apply Hmod; lia].
      unfold vsize in *. rewrite length_insert. lia.
    + rewrite vsize_app. change (vsize [item]) with 1.
      destruct l as [| x l]; [unfold vsize in *; simpl in *; lia |]. simpl. rewrite vsize_cons in *.
      rewrite mod_down in Hc by lia. rewrite !(mod_up (_ + 1)) by lia.
      rewrite mod_down; repeat case_match; boolify; lia.
    + intros i x. destruct l as [| y l]; [unfold vsize in *; simpl in *; lia |]. simpl.
      rewrite vsize_cons in *. replace ((head_ q + 1) mod max_count_ q + Z.of_nat i) with
        (Z.of_nat i + (head_ q + 1) mod max_count_ q) by lia.
      rewrite Zplus_mod_idemp_r. replace (Z.of_nat i + (head_ q + 1)) with (head_ q + Z.of_nat (S i)) by lia.
      rewrite lookup_app_Some. intros [Hi | [Hge Hi]].
      * rewrite Hkeep by (apply lookup_lt_Some in Hi; simpl; lia). by apply He.
      * apply list_lookup_singleton_Some in Hi as [Hi <-].
        destruct (Hp (Z.of_nat (S i))) as [_ Hp']; [unfold vsize in *; lia |].
        rewrite (proj2 Hp'); [done |]. unfold vsize in *. lia.
  - simpl. rewrite Hset. simpl. rewrite next_index_ok by done. simpl.
    eexists. split; [done |]. split; [| done]. split; simpl.
    + split; simpl; try lia; [| apply Hmod; lia]. unfold vsize in *. rewrite length_insert. lia.
    + rewrite vsize_app. change (vsize [item]) with 1. rewrite mod_down in Hc by lia.
      rewrite (mod_up (_ + 1)) by lia. rewrite mod_down; repeat case_match; boolify; lia.
    + intros i x. rewrite lookup_app_Some. intros [Hi | [Hge Hi]].
      * rewrite Hkeep by (by eapply lookup_lt_Some). by apply He.
      * apply list_lookup_singleton_Some in Hi as [Hi <-].
        destruct (Hp (Z.of_nat i)) as [_ Hp']; [unfold vsize in *; lia |].
        rewrite (proj2 Hp'); [done |]. unfold vsize in *. lia.
Qed.

Lemma pop_ok q l :
  represents q l -> exists q', pop q = Ok (head l, q') /\ represents q' (list.tail l) /\
    max_count_ q' = max_count_ q.
Proof.
  intros Hr. pose proof Hr as [Hok Hc He]. pose proof Hok as [H1 H2 H3 H4].
  unfold pop. rewrite (empty_ok q l Hr). destruct l as [| x l].
  - by exists q.
  - rewrite vsize_cons in *. pose proof (vsize_nonneg l).
    destruct (Z.eqb_spec (vsize l + 1) 0); [lia |].
    specialize (He 0%nat x eq_refl) as Hx. rewrite Z.add_0_r, Z.mod_small in Hx by lia.
    rewrite (vget_Ok _ _ x) by (done || lia). simpl. rewrite next_index_ok by done. simpl.
    assert (0 <= (head_ q + 1) mod max_count_ q < max_count_ q) by (apply Z.mod_pos_bound; lia).
    eexists. split; [done |]. split; [| done]. split; simpl; [by split | |].
    + rewrite mod_down in Hc by lia. rewrite (mod_up (_ + 1)) by lia.
      rewrite mod_down; repeat case_match; boolify; lia.
    + intros i y Hi. replace ((head_ q + 1) mod max_count_ q + Z.of_nat i) with
        (Z.of_nat i + (head_ q + 1) mod max_count_ q) by lia.
      rewrite Zplus_mod_idemp_r. replace (Z.of_nat i + (head_ q + 1)) with (head_ q + Z.of_nat (S i)) by lia.
      by apply (He (S i)).
Qed.

Lemma front_ok q l : represents q l -> front q = Ok (head l).
Proof.
  intros Hr. pose proof Hr as [[H1 H2 H3 H4] Hc He]. unfold front. rewrite (empty_ok q l Hr).
  destruct l as [| x l]; [done |]. rewrite vsize_cons. pose proof (vsize_nonneg l).
  destruct (Z.eqb_spec (vsize l + 1) 0); [lia |].
  specialize (He 0%nat x eq_refl) as Hx. rewrite Z.add_0_r, Z.mod_small in Hx by lia.
  by rewrite (vget_Ok _ _ x) by (done || lia).
Qed.

Lemma back_ok q l : represents q l -> back q = Ok (last l).
Proof.
  intros Hr. pose proof (rep_bound q l Hr). pose proof Hr as [[H1 H2 H3 H4] Hc He].
  unfold back. rewrite (empty_ok q l Hr).
  destruct l as [| x l _] using rev_ind; [done |]. rewrite last_snoc, vsize_app in *.
  change (vsize [x]) with 1 in *. pose proof (vsize_nonneg l).
  destruct (Z.eqb_spec (vsize l + 1) 0); [lia |].
  unfold prev_index, modulo. rewrite u64_small by lia.
  destruct (Z.eqb_spec (max_count_ q) 0); [lia |]. simpl.
  assert ((tail_ q + max_count_ q - 1) mod max_count_ q
    = (head_ q + Z.of_nat (length l)) mod max_count_ q) as ->.
  { unfold vsize in *. rewrite mod_down in Hc by lia. rewrite !mod_up by lia.
    repeat case_match; boolify; lia. }
  rewrite (vget_Ok _ _ x); [done | apply Z.mod_pos_bound; lia |].
  apply He. by apply list_lookup_middle.
Qed.
End ring.

(** ** Properties *)

Inductive ring_op (T : Type) := Push (item : T) | Pop.
Arguments Push {T}.
Arguments Pop {T}.

Fixpoint ring_run {T} (os : list (ring_op T)) (q : CircularQueue T) :
    outcome (list (option T) * CircularQueue T) :=
  match os with
  | [] => mret ([], q)
  | Push x :: os => q ← push x q; ring_run os q
  | Pop :: os => p ← pop q; r ← ring_run os p.2; mret (p.1 :: r.1, r.2)
  end.

Fixpoint list_run {T} (limit : Z) (os : list (ring_op T)) (l : list T) : list (option T) * list T :=
  match os with
  | [] => ([], l)
  | Push x :: os => list_run limit os (push_bounded limit x l)
  | Pop :: os => let r := list_run limit os (tail l) in (head l :: r.1, r.2)
  end.

Lemma ring_run_ok {T} (os : list (ring_op T)) q l :
  represents q l -> exists outs q', ring_run os q = Ok (outs, q') /\
    represents q' (list_run (max_count_ q - 1) os l).2 /\
    outs = (list_run (max_count_ q - 1) os l).1 /\ max_count_ q' = max_count_ q.
Proof.
  revert q l. induction os as [| [x |] os IH]; intros q l Hr; simpl.
  - by exists [], q.
  - destruct (push_ok x q l Hr) as (q1 & -> & Hr1 & Hm). simpl.
    destruct (IH q1 _ Hr1) as (outs & q' & Hrun & H1 & H2 & H3). rewrite Hm in *. eauto 10.
  - destruct (pop_ok q l Hr) as (q1 & -> & Hr1 & Hm). simpl.
    destruct (IH q1 _ Hr1) as (outs & q' & -> & H1 & H2 & H3). rewrite Hm in *. simpl.
    exists (head l :: outs), q'. rewrite <- H2. split_and!; congruence || done.
Qed.

(** What the ring is meant to be.  If [init] resized the vector instead of reserving memory
    for it, the ring would be a bounded queue that drops its oldest element when it is
    full: any sequence of pushes and pops stays inside the vector and gives the same
    results as on a list, and the size is that of the list.  As the code is, no vector has
    the elements that [represents] asks for: see [first_push_is_undefined]. *)
Theorem ring_refines_queue {T} (os : list (ring_op T)) (q : CircularQueue T) (l : list T) :
  represents q l ->
  exists outs q', ring_run os q = Ok (outs, q') /\
    outs = (list_run (max_count_ q - 1) os l).1 /\
    size q' = Ok (vsize (list_run (max_count_ q - 1) os l).2) /\
    front q' = Ok (head (list_run (max_count_ q - 1) os l).2) /\
    back q' = Ok (last (list_run (max_count_ q - 1) os l).2).
Proof.
  intros Hr. destruct (ring_run_ok os q l Hr) as (outs & q' & H1 & H2 & H3 & _).
  exists outs, q'. split_and!; [done | done | by apply size_ok | by apply front_ok | by apply back_ok].
Qed.

Lemma represents_empty {T} (d : T) (limit : Z) :
  1 <= limit < 2 ^ 61 ->
  represents (mk_cq (replicate (Z.to_nat (limit + 1)) d) (limit + 1) 0 0) [].
Proof.
  intros Hl. split; simpl; [split; simpl; try lia | | done].
  - unfold vsize. rewrite length_replicate. lia.
  - by rewrite Zmod_0_l.
Qed.

Definition ring_session : list (ring_op nat) :=
  [Push 1; Push 2; Push 3; Push 4; Pop; Push 5; Pop; Pop; Pop; Pop]%nat.

Lemma ring_refines_queue_witness : exists outs q',
  ring_run ring_session (mk_cq (replicate 4 0%nat) 4 0 0) = Ok (outs, q') /\
  outs = [Some 2; Some 3; Some 4; Some 5; None]%nat /\ size q' = Ok 0.
Proof.
  destruct (ring_refines_queue ring_session (mk_cq (replicate 4 0%nat) 4 0 0) [])
    as (outs & q' & H1 & H2 & H3 & _).
  - apply (represents_empty 0%nat 3). lia.
  - exists outs, q'. split; [exact H1 |]. split; [exact H2 | exact H3].
Defined.

(** As written the ring cannot be used: [init] reserves memory but leaves the vector
    without elements, so the first [push] assigns to an element that does not exist. *)
Theorem first_push_is_undefined {T} (max_count : Z) (item : T) :
  1 <= max_count < 2 ^ 63 ->
  push item (init max_count CircularQueue_new) = Undefined "vector index".
Proof.
  intros Hm. unfold push, full, next_index, modulo, init. simpl. rewrite u64_small by lia.
  destruct (Z.eqb_spec (max_count + 1) 0); [lia |]. simpl. by destruct (u64 (0 + 1) mod (max_count + 1)).
Qed.

Lemma first_push_is_undefined_witness :
  push 7%nat (init 16 CircularQueue_new) = Undefined "vector index".
Proof. apply (first_push_is_undefined 16). lia. Defined.
