(* ===== verification/EventLoop.v ===== *)
(** * EventLoop: tasks and signals of a loop ([src/code/EventLoop.h], [EventLoop.cpp])

    A loop runs handlers one at a time: the functions that were posted, and
    [handle_signal].  Its operations may be called by a handler or by another thread, and
    a handler may be any list of them.  [io_context] and [signal_set] are those of [asio];
    of a [signal_set] the model has the signals that are registered, the waits that are
    outstanding and the notifications that are queued because nothing waited.  The timers
    of a loop are those of [TimingWheel]. *)

From S2P Require Import Prelude.
From S2P Require Import Cpp.
From stdpp Require Import gmap list.
Local Open Scope Z_scope.

Section loop.
(** Callbacks for signals; what [signal_set::add] accepts. *)
Context {SignalCallback : Type} (addable : Z -> bool).

(** The functions of the interface. *)
Inductive operation :=
  | Post (f : list operation)
  | Dispatch (f : list operation)
  | Quit
  | Set_signal_handle (cb : option SignalCallback)
  | Add_signal (signal_num : Z)
  | Remove_signal (signal_num : Z).

(** What a callback does. *)
Context (run_callback : SignalCallback -> Z -> list operation).

Inductive handler :=
  | Task (f : list operation)
  | Handle_signal (ec : bool) (signal_number : Z).

(** The last four fields are the history: the calls of the callback, or of the empty
    function; the signals that occurred while they were registered, each with the number
    of waits it found; those that were discarded with [remove]; and how often a callback
    was set. *)
Record EventLoop := mk_loop {
  stopped : bool;
  cb_signale_ : option SignalCallback;
  signals_ : gset Z;
  waits : nat;
  queued : list Z;
  ready : list handler;
  calls : list (option SignalCallback * Z);
  occurred : list (Z * nat);
  discarded : list Z;
  sets : nat
}.

Definition EventLoop_init : EventLoop := mk_loop false None ∅ 0 [] [] [] [] [] 0.

Definition enqueue (h : handler) (s : EventLoop) : EventLoop :=
  mk_loop (stopped s) (cb_signale_ s) (signals_ s) (waits s) (queued s) (ready s ++ [h]) (calls s)
    (occurred s) (discarded s) (sets s).

(** [signals_.async_wait(handle_signal)]: a queued notification, that of the smallest
    number, is taken at once. *)
Definition async_wait (s : EventLoop) : EventLoop :=
  match queued s with
  | [] => mk_loop (stopped s) (cb_signale_ s) (signals_ s) (S (waits s)) [] (ready s) (calls s)
            (occurred s) (discarded s) (sets s)
  | n :: l => mk_loop (stopped s) (cb_signale_ s) (signals_ s) (waits s) l
                (ready s ++ [Handle_signal false n]) (calls s) (occurred s) (discarded s) (sets s)
  end.
(** [signals_.cancel()]. *)
Definition cancel (s : EventLoop) : EventLoop :=
  mk_loop (stopped s) (cb_signale_ s) (signals_ s) 0 (queued s)
    (ready s ++ repeat (Handle_signal true 0) (waits s)) (calls s) (occurred s) (discarded s) (sets s).

Fixpoint insert_signal (n : Z) (l : list Z) : list Z :=
  match l with
  | [] => [n]
  | m :: l' => if n <? m then n :: l else m :: insert_signal n l'
  end.
(** A signal arrives; that it is not registered is not the loop's business.  It completes
    every wait that is outstanding, and is queued when there is none. *)
Definition signal_occurs (n : Z) (s : EventLoop) : EventLoop :=
  if bool_decide (n ∈ signals_ s) then
    mk_loop (stopped s) (cb_signale_ s) (signals_ s) 0
      (match waits s with O => insert_signal n (queued s) | S _ => queued s end)
      (ready s ++ repeat (Handle_signal false n) (waits s)) (calls s)
      (occurred s ++ [(n, waits s)]) (discarded s) (sets s)
  else s.

(** ** The operations, in the loop *)

Definition quit_loop (s : EventLoop) : EventLoop :=
  if stopped s then s
  else mk_loop true (cb_signale_ s) (signals_ s) (waits s) (queued s) (ready s) (calls s)
         (occurred s) (discarded s) (sets s).

Definition set_cb (cb : option SignalCallback) (s : EventLoop) : EventLoop :=
  mk_loop (stopped s) cb (signals_ s) (waits s) (queued s) (ready s) (calls s) (occurred s)
    (discarded s) (S (sets s)).
Definition set_signal_handle_loop (cb : option SignalCallback) (s : EventLoop) : EventLoop :=
  let s := cancel s in
  let s := set_cb cb s in
  async_wait s.

Definition add_signal_loop (n : Z) (s : EventLoop) : outcome EventLoop :=
  if addable n then
    mret (mk_loop (stopped s) (cb_signale_ s) ({[n]} ∪ signals_ s) (waits s) (queued s) (ready s)
            (calls s) (occurred s) (discarded s) (sets s))
  else Throw "boost::system::system_error".

Definition remove_signal_loop (n : Z) (s : EventLoop) : EventLoop :=
  mk_loop (stopped s) (cb_signale_ s) (signals_ s ∖ {[n]}) (waits s) (filter (fun m => m <> n) (queued s))
    (ready s) (calls s) (occurred s) (discarded s ++ filter (fun m => m = n) (queued s)) (sets s).

(** A call made in the loop: what is dispatched runs at once, what is posted later. *)
Fixpoint exec (op : operation) (s : EventLoop) : outcome EventLoop :=
  match op with
  | Post f => mret (enqueue (Task f) s)
  | Dispatch f =>
      (fix exec_all (f : list operation) (s : EventLoop) : outcome EventLoop :=
         match f with
         | [] => mret s
         | op :: f => s ← exec op s; exec_all f s
         end) f s
  | Quit => mret (quit_loop s)
  | Set_signal_handle cb => mret (set_signal_handle_loop cb s)
  | Add_signal n => add_signal_loop n s
  | Remove_signal n => mret (remove_signal_loop n s)
  end.
Fixpoint exec_all (f : list operation) (s : EventLoop) : outcome EventLoop :=
  match f with
  | [] => mret s
  | op :: f => s ← exec op s; exec_all f s
  end.

Definition called (n : Z) (s : EventLoop) : EventLoop :=
  mk_loop (stopped s) (cb_signale_ s) (signals_ s) (waits s) (queued s) (ready s)
    (calls s ++ [(cb_signale_ s, n)]) (occurred s) (discarded s) (sets s).
Definition handle_signal (ec : bool) (n : Z) (s : EventLoop) : outcome EventLoop :=
  if ec then mret s
  else
    let s := async_wait s in
    match cb_signale_ s with
    | Some cb => exec_all (run_callback cb n) (called n s)
    | None => mret (called n s)
    end.

(** ** The loop *)

(** A call made in another thread: it is queued whether it posts or dispatches. *)
Definition call (op : operation) (s : EventLoop) : EventLoop :=
  match op with
  | Post f | Dispatch f => enqueue (Task f) s
  | _ => enqueue (Task [op]) s
  end.

Inductive event :=
  | Call (op : operation)
  | Occurs (n : Z)
  | Run (i : nat).                (* the loop runs the handler at this place *)

Definition run_handler (h : handler) (s : EventLoop) : outcome EventLoop :=
  match h with
  | Task f => exec_all f s
  | Handle_signal ec n => handle_signal ec n s
  end.
Definition take_ready (i : nat) (s : EventLoop) : EventLoop :=
  mk_loop (stopped s) (cb_signale_ s) (signals_ s) (waits s) (queued s) (delete i (ready s)) (calls s)
    (occurred s) (discarded s) (sets s).
Definition step (s : EventLoop) (e : event) : outcome EventLoop :=
  match e with
  | Call op => mret (call op s)
  | Occurs n => mret (signal_occurs n s)
  | Run i =>
      if stopped s then mret s
      else match ready s !! i with
           | None => mret s
           | Some h => run_handler h (take_ready i s)
           end
  end.
Fixpoint steps (s : EventLoop) (es : list event) : outcome EventLoop :=
  match es with
  | [] => mret s
  | e :: es => s ← step s e; steps s es
  end.

(** ** No signal is lost *)

Definition in_flight (l : list handler) : list Z :=
  omap (fun h => match h with Handle_signal false n => Some n | _ => None end) l.

(** What an occurrence owes to the callback: a call for each wait it found, and one when it
    found none. *)
Definition owed (x : Z * nat) : list Z := repeat x.1 (x.2 `max` 1).

(** [lost] are the signals that are neither counted nor to be delivered, [k] the waits
    that are about to be started. *)
Record signals_ok (lost : list Z) (k : nat) (s : EventLoop) : Prop := {
  so_all : occurred s ≫= owed ≡ₚ (calls s).*2 ++ discarded s ++ in_flight (ready s) ++ queued s ++ lost;
  so_found : Forall (fun x => x.2 <= sets s)%nat (occurred s);
  so_queued : queued s <> [] -> waits s = 0%nat;
  so_armed : (0 < sets s)%nat -> (0 < waits s + length (in_flight (ready s)) + k)%nat;
  so_sets : (waits s + length (in_flight (ready s)) + k <= sets s)%nat
}.
Abbreviation loop_ok := (signals_ok [] 0).

Lemma in_flight_app l l' : in_flight (l ++ l') = in_flight l ++ in_flight l'.
Proof. apply omap_app. Qed.
Lemma in_flight_repeat n k : in_flight (repeat (Handle_signal false n) k) = repeat n k.
Proof. induction k as [| k IH]; [done |]. simpl. by f_equal. Qed.
Lemma in_flight_aborted n : in_flight (repeat (Handle_signal true 0) n) = [].
Proof. by induction n. Qed.

Lemma enqueue_ok f s : loop_ok s -> loop_ok (enqueue (Task f) s).
Proof. intros []. split; simpl; rewrite ?in_flight_app; simpl; by rewrite ?app_nil_r in *. Qed.

Lemma async_wait_ok lost k s : signals_ok lost (S k) s -> signals_ok lost k (async_wait s).
Proof.
  intros [Hall Hfound Hq Harmed Hsets]. unfold async_wait. destruct (queued s) as [| n l] eqn:Heq.
  - split; simpl; try done; lia.
  - split; simpl; rewrite ?in_flight_app, ?length_app; simpl; try done; try lia.
    + rewrite Hall. by rewrite <- !app_assoc.
    + intros _. by apply Hq.
Qed.

Lemma insert_signal_perm n l : insert_signal n l ≡ₚ n :: l.
Proof.
  induction l as [| m l IH]; simpl; [done |]. destruct (n <? m); [done |]. rewrite IH. constructor.
Qed.

Lemma signal_occurs_ok n s : loop_ok s -> loop_ok (signal_occurs n s).
Proof.
  intros [Hall Hfound Hq Harmed Hsets]. unfold signal_occurs. case_bool_decide; [| by split].
  split; simpl; rewrite ?in_flight_app, ?in_flight_repeat, ?length_app, ?repeat_length; try done; try lia.
  - rewrite bind_app, Hall. simpl. rewrite app_nil_r. unfold owed. cbn [fst snd].
    destruct (waits s) as [| w].
    + cbn [Nat.max repeat]. rewrite insert_signal_perm. solve_Permutation.
    + rewrite Nat.max_l by lia. solve_Permutation.
  - apply Forall_app_2; [done |]. apply Forall_singleton. simpl. lia.
Qed.

Lemma set_signal_handle_ok cb s : loop_ok s -> loop_ok (set_signal_handle_loop cb s).
Proof.
  intros [Hall Hfound Hq Harmed Hsets]. apply async_wait_ok.
  split; simpl; rewrite ?in_flight_app, ?length_app, ?in_flight_aborted; simpl; rewrite ?app_nil_r in *; try done; try lia.
  eapply Forall_impl; [exact Hfound |]. simpl. lia.
Qed.

Lemma filter_split n (l : list Z) : l ≡ₚ filter (fun m => m = n) l ++ filter (fun m => m <> n) l.
Proof.
  induction l as [| m l IH]; [done |]. rewrite !filter_cons. destruct (decide (m = n)) as [Heq | Hne].
  - rewrite decide_False by (intros H; by apply H). simpl. by constructor.
  - rewrite decide_True by done. rewrite IH at 1. solve_Permutation.
Qed.

Lemma remove_signal_ok n s : loop_ok s -> loop_ok (remove_signal_loop n s).
Proof.
  intros [Hall Hfound Hq Harmed Hsets]. split; simpl; try done.
  - rewrite Hall. rewrite (filter_split n (queued s)) at 1. solve_Permutation.
  - intros Hne. apply Hq. intros He. by rewrite He in Hne.
Qed.

Lemma called_ok n k s : signals_ok [n] k s -> signals_ok [] k (called n s).
Proof.
  intros [Hall Hfound Hq Harmed Hsets]. split; simpl; try done. rewrite Hall, fmap_app. simpl. solve_Permutation.
Qed.

Lemma quit_ok s : loop_ok s -> loop_ok (quit_loop s).
Proof. unfold quit_loop. destruct (stopped s); [done |]. intros []. by split. Qed.
Lemma add_signal_ok n s : loop_ok s -> wp (add_signal_loop n s) loop_ok.
Proof. unfold add_signal_loop. destruct (addable n); [| done]. intros []. by split. Qed.

Lemma exec_dispatch f s : exec (Dispatch f) s = exec_all f s.
Proof. revert s. induction f as [| op f IH]; intros s; [done |]. simpl. destruct (exec op s); [apply IH | done..]. Qed.

Lemma exec_all_step f :
  Forall (fun op => forall s, loop_ok s -> wp (exec op s) loop_ok) f ->
  forall s, loop_ok s -> wp (exec_all f s) loop_ok.
Proof.
  induction 1 as [| op f Hop Hf IH]; intros s Hs; [done |].
  apply after_bind. eapply after_mono; [by apply Hop | done].
Qed.

Lemma exec_ok : forall op s, loop_ok s -> wp (exec op s) loop_ok.
Proof.
  fix IH 1. intros op s Hs. destruct op as [f | f | | cb | n | n].
  - by apply enqueue_ok.
  - rewrite exec_dispatch. apply exec_all_step; [| done].
    exact ((fix all (f : list operation) : Forall (fun op => forall s, loop_ok s -> wp (exec op s) loop_ok) f :=
      match f with [] => Forall_nil_2 _ | op :: f => Forall_cons_2 _ _ _ (IH op) (all f) end) f).
  - by apply quit_ok.
  - by apply set_signal_handle_ok.
  - by apply add_signal_ok.
  - by apply remove_signal_ok.
Qed.

Lemma exec_all_ok f s : loop_ok s -> wp (exec_all f s) loop_ok.
Proof. apply exec_all_step, Forall_true. intros op s0. apply exec_ok. Qed.

Lemma handle_signal_ok (ec : bool) n s :
  signals_ok (if ec then [] else [n]) (if ec then 0 else 1) s -> wp (handle_signal ec n s) loop_ok.
Proof.
  unfold handle_signal. destruct ec; [done |]. intros Hs. apply async_wait_ok, called_ok in Hs.
  destruct (cb_signale_ _); [by apply exec_all_ok | done].
Qed.

Lemma in_flight_delete i h l :
  l !! i = Some h -> in_flight l ≡ₚ in_flight [h] ++ in_flight (delete i l).
Proof.
  intros Hi. rewrite <- in_flight_app. unfold in_flight. apply omap_Permutation. by apply delete_Permutation.
Qed.

Lemma loop_step_ok s e : loop_ok s -> wp (step s e) loop_ok.
Proof.
  intros Hs. destruct e as [op | n | i]; cbn [step].
  - destruct op; by apply enqueue_ok.
  - by apply signal_occurs_ok.
  - destruct (stopped s); [done |]. destruct (ready s !! i) as [h |] eqn:Hi; [| done].
    destruct Hs as [Hall Hfound Hq Harmed Hsets]. pose proof (in_flight_delete _ _ _ Hi) as Hd.
    pose proof (Permutation_length Hd) as Hlen. rewrite length_app in Hlen. rewrite Hd in Hall.
    destruct h as [f | [] n]; [apply exec_all_ok | apply handle_signal_ok | apply handle_signal_ok];
      simpl in *; split; simpl; try done; try lia.
    rewrite Hall. solve_Permutation.
Qed.

Lemma steps_ok es s : loop_ok s -> wp (steps s es) loop_ok.
Proof.
  revert s. induction es as [| e es IH]; intros s Hs; [done |].
  apply after_bind. eapply after_mono; [by apply loop_step_ok | apply IH].
Qed.

Lemma owed_once k (l : list (Z * nat)) :
  (k <= 1)%nat -> Forall (fun x => x.2 <= k)%nat l -> l ≫= owed = l.*1.
Proof.
  intros Hk. induction 1 as [| [n w] l Hw _ IH]; [done |]. cbn. rewrite <- IH. simpl in Hw.
  destruct w as [| [| w]]; [done | done | lia].
Qed.

(** C37. No signal is lost.  Whatever threads call, whatever handlers and callbacks do,
    and in every order of running the handlers: every signal that occurred while it was
    registered is owed to the callback once for each wait that it found outstanding, and
    once when it found none; and what is owed has been given to the callback that was set
    then, or was discarded because the signal was removed, or is queued, or is on its way
    to [handle_signal].  There are never more waits, those about to be started included,
    than callbacks were set; so as long as one callback at most was set, each signal is
    accounted for exactly once.  Once a callback has been set a wait is outstanding or
    will be started by a handler on its way, so the loop never goes deaf; and nothing
    stays queued when no handler is on its way. *)
Theorem signals_are_served es :
  wp (steps EventLoop_init es) (fun s =>
    occurred s ≫= owed ≡ₚ (calls s).*2 ++ discarded s ++ in_flight (ready s) ++ queued s /\
    (waits s + length (in_flight (ready s)) <= sets s)%nat /\
    ((sets s <= 1)%nat ->
       (occurred s).*1 ≡ₚ (calls s).*2 ++ discarded s ++ in_flight (ready s) ++ queued s) /\
    ((0 < sets s)%nat -> in_flight (ready s) = [] -> queued s = [] /\ (0 < waits s)%nat)).
Proof.
  eapply after_mono; [apply steps_ok; split; simpl; done || lia |].
  intros s [Hall Hfound Hq Harmed Hsets]. rewrite app_nil_r in Hall. split_and!; [done | lia | |].
  - intros H1. rewrite <- Hall. by rewrite (owed_once _ _ H1 Hfound).
  - intros H0 Hin. specialize (Harmed H0). rewrite Hin in Harmed. simpl in Harmed.
    split; [| lia]. destruct (queued s); [done |]. specialize (Hq ltac:(done)). lia.
Qed.

(** After [quit] no handler runs any more, whatever is queued. *)
Lemma stopped_runs_nothing i s : stopped s = true -> step s (Run i) = Ok s.
Proof. intros Hs. simpl. by rewrite Hs. Qed.
End loop.

(** A callback that is set while a signal is on its way to [handle_signal] leaves two
    waits outstanding: [cancel] finds none to cancel, and both functions start one.  From
    then on each signal reaches the callback twice. *)
Definition set_while_under_way : list (event (SignalCallback := nat)) :=
  [Call (Set_signal_handle (Some 1%nat)); Call (Add_signal 2); Run 0; Run 0;
   Call (Set_signal_handle (Some 2%nat)); Occurs 2; Run 0; Run 0].
Lemma two_waits :
  let loop := steps (fun _ => true) (fun (_ : nat) _ => []) EventLoop_init in
  wp (loop set_while_under_way)
    (fun s => waits s = 2%nat /\ ready s = [] /\ calls s = [(Some 2%nat, 2)]) /\
  wp (loop (set_while_under_way ++ [Occurs 2; Run 0; Run 0]))
    (fun s => occurred s = [(2, 1%nat); (2, 2%nat)] /\ waits s = 2%nat /\ ready s = [] /\
       calls s = [(Some 2%nat, 2); (Some 2%nat, 2); (Some 2%nat, 2)]).
Proof. by vm_compute. Qed.
