(* ===== verification/LockFreeQueue.v ===== *)
(** * LockFreeQueue: the queue of atomic pointers ([src/code/LockFreeQueue.hpp])

    A linked list behind a sentry.  Each atomic access, allocation and deletion of [push] and
    [pop] is one step of the thread that makes it, and the steps of the threads
    interleave as a list of events says.  The nodes are on a heap: an address is used
    again after it was deleted.  The accesses are taken as sequentially consistent; a weak
    compare-and-exchange may fail without reason. *)

From S2P Require Import Prelude.
From S2P Require Import Cpp.
From stdpp Require Import gmap list.
Local Open Scope Z_scope.

Record node (T : Type) := mk_node { data_ : T; next_ : option nat }.
Arguments mk_node {T}.
Arguments data_ {T}.
Arguments next_ {T}.

Record LockFreeQueue (T : Type) := mk_lfq {
  head_ : option nat;
  tail_ : option nat;
  count_ : Z;                 (* size_t *)
  max_count_ : Z;             (* 0 is no limit *)
  heap : gmap nat (node T)
}.
Arguments mk_lfq {T}.
Arguments head_ {T}.
Arguments tail_ {T}.
Arguments count_ {T}.
Arguments max_count_ {T}.
Arguments heap {T}.

Inductive call (T : Type) := Push (item : T) | Pop.
Arguments Push {T} item.
Arguments Pop {T}.

(** What a call returned: whether the item was pushed, or the item that was popped. *)
Inductive answer (T : Type) := Pushed (item : T) (ok : bool) | Popped (item : option T).
Arguments Pushed {T} item ok.
Arguments Popped {T} item.

(** Where a thread is, with its local variables: the new node and its item, [old_tail],
    [old_head], [next_node], and the item that was read. *)
Inductive point (T : Type) :=
  | Idle
  | P_new (x : T)
  | P_tail (n : nat) (x : T)
  | P_next (n : nat) (x : T) (old_tail : option nat)
  | P_check (n : nat) (x : T) (old_tail next_node : option nat)
  | P_help (n : nat) (x : T) (old_tail next_node : option nat)
  | P_link (n : nat) (x : T) (old_tail : option nat)
  | P_swing (n : nat) (x : T) (old_tail : option nat)
  | P_count (x : T)
  | Q_head
  | Q_tail (old_head : option nat)
  | Q_next (old_head old_tail : option nat)
  | Q_check (old_head old_tail next_node : option nat)
  | Q_help (old_tail next_node : option nat)
  | Q_data (old_head next_node : option nat)
  | Q_cas (old_head next_node : option nat) (x : T)
  | Q_delete (old_head : option nat) (x : T)
  | Q_count (x : T).
Arguments Idle {T}.
Arguments P_new {T}.
Arguments P_tail {T}.
Arguments P_next {T}.
Arguments P_check {T}.
Arguments P_help {T}.
Arguments P_link {T}.
Arguments P_swing {T}.
Arguments P_count {T}.
Arguments Q_head {T}.
Arguments Q_tail {T}.
Arguments Q_next {T}.
Arguments Q_check {T}.
Arguments Q_help {T}.
Arguments Q_data {T}.
Arguments Q_cas {T}.
Arguments Q_delete {T}.
Arguments Q_count {T}.

Section queue.
Context {T : Type}.
Implicit Types q : LockFreeQueue T.

(** ** Operations *)

Definition LockFreeQueue_new : LockFreeQueue T := mk_lfq None None 0 0 ∅.

Definition empty q : bool := count_ q =? 0.
Definition full q : bool := (0 <? max_count_ q) && (max_count_ q <=? count_ q).
Definition size q : Z := count_ q.

Definition set_head (p : option nat) q : LockFreeQueue T :=
  mk_lfq p (tail_ q) (count_ q) (max_count_ q) (heap q).
Definition set_tail (p : option nat) q : LockFreeQueue T :=
  mk_lfq (head_ q) p (count_ q) (max_count_ q) (heap q).
Definition set_count (n : Z) q : LockFreeQueue T :=
  mk_lfq (head_ q) (tail_ q) n (max_count_ q) (heap q).
Definition set_heap (h : gmap nat (node T)) q : LockFreeQueue T :=
  mk_lfq (head_ q) (tail_ q) (count_ q) (max_count_ q) h.

Definition deref (p : option nat) q : outcome (node T) :=
  match p with
  | None => Undefined "null pointer"
  | Some a => match heap q !! a with Some x => Ok x | None => Undefined "use after free" end
  end.
Definition delete_node (p : option nat) q : outcome (LockFreeQueue T) :=
  _ ← deref p q;
  mret (match p with Some a => set_heap (delete a (heap q)) q | None => q end).

(** The loop of [clear()]; [None] when the fuel is used up. *)
Fixpoint clear_loop (fuel : nat) (cur : option nat) q : outcome (option (LockFreeQueue T)) :=
  match fuel, cur with
  | _, None => mret (Some q)
  | O, Some _ => mret None
  | S fuel, Some _ =>
      x ← deref cur q;
      q ← delete_node cur q;
      clear_loop fuel (next_ x) q
  end.
Definition clear (fuel : nat) q : outcome (option (LockFreeQueue T)) := clear_loop fuel (head_ q) q.

(** [init(max_count)], with the address of the sentry, whose data is [T()]. *)
Definition init (x0 : T) (fuel : nat) (max_count : Z) (sentry : nat) q :
    outcome (option (LockFreeQueue T)) :=
  r ← clear fuel (mk_lfq (head_ q) (tail_ q) 0 max_count (heap q));
  mret (option_map (fun q => mk_lfq (Some sentry) (Some sentry) (count_ q) (max_count_ q)
                               (<[sentry := mk_node x0 None]> (heap q))) r).

Definition front q : outcome (option T) :=
  h ← deref (head_ q) q;
  match next_ h with
  | None => mret None
  | Some a => x ← deref (Some a) q; mret (Some (data_ x))
  end.
Definition back q : outcome (option T) :=
  match tail_ q with
  | None => mret None
  | Some a => x ← deref (Some a) q; mret (Some (data_ x))
  end.

(** ** Steps *)

Definition cas_tail (spurious : bool) (expected desired : option nat) q : LockFreeQueue T :=
  if negb spurious && bool_decide (tail_ q = expected) then set_tail desired q else q.

(** The first atomic access of a call: [full()] or [empty()]. *)
Definition enter (c : call T) q : point T + answer T :=
  match c with
  | Push x => if full q then inr (Pushed x false) else inl (P_new x)
  | Pop => if empty q then inr (Popped None) else inl Q_head
  end.

Definition push_step (spurious : bool) (addr : nat) (p : point T) q :
    outcome ((point T + answer T) * LockFreeQueue T) :=
  match p with
  | P_new x => mret (inl (P_tail addr x), set_heap (<[addr := mk_node x None]> (heap q)) q)
  | P_tail n x => mret (inl (P_next n x (tail_ q)), q)
  | P_next n x old_tail =>
      t ← deref old_tail q;
      mret (inl (P_check n x old_tail (next_ t)), q)
  | P_check n x old_tail next_node =>
      mret (inl (if decide (old_tail <> tail_ q) then P_tail n x
                 else match next_node with
                      | Some _ => P_help n x old_tail next_node
                      | None => P_link n x old_tail
                      end), q)
  | P_help n x old_tail next_node => mret (inl (P_tail n x), cas_tail spurious old_tail next_node q)
  | P_link n x old_tail =>
      t ← deref old_tail q;
      match next_ t, old_tail with
      | None, Some a =>
          if spurious then mret (inl (P_tail n x), q)
          else mret (inl (P_swing n x old_tail),
                     set_heap (<[a := mk_node (data_ t) (Some n)]> (heap q)) q)
      | _, _ => mret (inl (P_tail n x), q)
      end
  | P_swing n x old_tail => mret (inl (P_count x), cas_tail spurious old_tail (Some n) q)
  | P_count x => mret (inr (Pushed x true), set_count (u64 (count_ q + 1)) q)
  | _ => mret (inl p, q)
  end.

Definition pop_step (spurious : bool) (p : point T) q :
    outcome ((point T + answer T) * LockFreeQueue T) :=
  match p with
  | Q_head => mret (inl (Q_tail (head_ q)), q)
  | Q_tail old_head => mret (inl (Q_next old_head (tail_ q)), q)
  | Q_next old_head old_tail =>
      h ← deref old_head q;
      mret (inl (Q_check old_head old_tail (next_ h)), q)
  | Q_check old_head old_tail next_node =>
      mret (if decide (old_head <> head_ q) then inl Q_head
            else if decide (old_head = old_tail) then
              match next_node with
              | None => inr (Popped None)
              | Some _ => inl (Q_help old_tail next_node)
              end
            else inl (Q_data old_head next_node), q)
  | Q_help old_tail next_node => mret (inl Q_head, cas_tail spurious old_tail next_node q)
  | Q_data old_head next_node =>
      x ← deref next_node q;
      mret (inl (Q_cas old_head next_node (data_ x)), q)
  | Q_cas old_head next_node x =>
      mret (if negb spurious && bool_decide (head_ q = old_head)
            then (inl (Q_delete old_head x), set_head next_node q)
            else (inl Q_head, q))
  | Q_delete old_head x =>
      q ← delete_node old_head q;
      mret (inl (Q_count x), q)
  | Q_count x => mret (inr (Popped (Some x)), set_count (u64 (count_ q - 1)) q)
  | _ => mret (inl p, q)
  end.

Definition pushing (p : point T) : bool :=
  match p with
  | P_new _ | P_tail _ _ | P_next _ _ _ | P_check _ _ _ _ | P_help _ _ _ _ | P_link _ _ _
  | P_swing _ _ _ | P_count _ => true
  | _ => false
  end.
Definition step (spurious : bool) (addr : nat) (p : point T) q :
    outcome ((point T + answer T) * LockFreeQueue T) :=
  if pushing p then push_step spurious addr p q else pop_step spurious p q.

(** ** Threads *)

(** A thread makes its calls one after the other. *)
Record thread := mk_thread { pc : point T; todo : list (call T); log : list (answer T) }.
Definition start_thread (calls : list (call T)) : thread := mk_thread Idle calls [].

(** A step of the thread [tid]: the address an allocation gets, and whether a
    compare-and-exchange fails without reason. *)
Record event := mk_event { tid : nat; addr : nat; spurious : bool }.

Definition advance (r : point T + answer T) (calls : list (call T)) (l : list (answer T)) : thread :=
  match r with
  | inl p => mk_thread p calls l
  | inr a => mk_thread Idle calls (l ++ [a])
  end.

Definition thread_step (e : event) (t : thread) q : outcome (thread * LockFreeQueue T) :=
  match pc t, todo t with
  | Idle, [] => mret (t, q)
  | Idle, c :: calls => mret (advance (enter c q) calls (log t), q)
  | p, calls => r ← step (spurious e) (addr e) p q; mret (advance r.1 calls (log t), r.2)
  end.

(** Allocation returns memory that is not in use; a thread without calls makes no steps. *)
Definition enabled (e : event) (t : thread) q : bool :=
  match pc t, todo t with
  | Idle, [] => false
  | P_new _, _ => bool_decide (heap q !! addr e = None)
  | _, _ => true
  end.

Fixpoint run (es : list event) (ts : list thread) q : outcome (list thread * LockFreeQueue T) :=
  match es with
  | [] => mret (ts, q)
  | e :: es =>
      match ts !! tid e with
      | Some t =>
          if enabled e t q then
            r ← thread_step e t q;
            run es (<[tid e := r.1]> ts) r.2
          else run es ts q
      | None => run es ts q
      end
  end.

(** Every event of the list is a step. *)
Fixpoint proper (es : list event) (ts : list thread) q : bool :=
  match es with
  | [] => true
  | e :: es =>
      match ts !! tid e with
      | Some t =>
          enabled e t q &&
          match thread_step e t q with
          | Ok r => proper es (<[tid e := r.1]> ts) r.2
          | _ => true
          end
      | None => false
      end
  end.
End queue.
Arguments thread : clear implicits.

(** ** One producer and one consumer *)

Section one_to_one.
Context {T : Type}.
Implicit Types (q : LockFreeQueue T) (p c : thread T) (ns : list (nat * T)).

(** The items a producer has linked to the list, and those a consumer has taken from it;
    the call may not have returned yet. *)
Definition linked p : list T :=
  omap (fun a => match a with Pushed x true => Some x | _ => None end) (log p) ++
  match pc p with P_swing _ x _ | P_count x => [x] | _ => [] end.
Definition taken c : list T :=
  omap (fun a => match a with Popped r => r | _ => None end) (log c) ++
  match pc c with Q_delete _ x | Q_count x => [x] | _ => [] end.

(** The node a thread has allocated or is about to delete, which is not in the list. *)
Definition new_item p : option (nat * T) :=
  match pc p with
  | P_tail n x | P_next n x _ | P_check n x _ _ | P_link n x _ => Some (n, x)
  | _ => None
  end.
Definition new_node p : option nat := fst <$> new_item p.
Definition old_node c : option nat := match pc c with Q_delete d _ => d | _ => None end.

(** A linked item that is not counted yet, and a taken one that still is. *)
Definition uncounted p : Z := match pc p with P_swing _ _ _ | P_count _ => 1 | _ => 0 end.
Definition overcounted c : Z := match pc c with Q_delete _ _ | Q_count _ => 1 | _ => 0 end.

(** A push that has passed the test of [full] and is not linked yet. *)
Definition pending p : Z := if pushing (pc p) then 1 - uncounted p else 0.

(** The list [ns] of nodes, the sentry first. *)
Definition nodes_ok ns (h : gmap nat (node T)) : Prop :=
  forall i a x, ns !! i = Some (a, x) -> h !! a = Some (mk_node x (fst <$> ns !! S i)).

(** The heap has these nodes and no others. *)
Definition owns (l : list nat) (h : gmap nat (node T)) : Prop :=
  NoDup l /\ forall a, is_Some (h !! a) <-> a ∈ l.

Definition is_push (k : call T) : Prop := match k with Push _ => True | Pop => False end.
Definition is_pop (k : call T) : Prop := match k with Pop => True | Push _ => False end.

(** What the producer knows of the end of the list, *)
Definition producer_ok p q ns : Prop :=
  match pc p with
  | Idle | P_new _ | P_count _ | P_tail _ _ => tail_ q = fst <$> last ns
  | P_next _ _ t | P_link _ _ t => tail_ q = fst <$> last ns /\ t = tail_ q
  | P_check _ _ t nn => tail_ q = fst <$> last ns /\ t = tail_ q /\ nn = None
  | P_swing n x t => exists l, ns = l ++ [(n, x)] /\ tail_ q = fst <$> last l /\ t = tail_ q
  | _ => False
  end.
(** and the consumer of its start. *)
Definition consumer_ok c q ns : Prop :=
  match pc c with
  | Idle => True
  | Q_head => 1 <= count_ q
  | Q_count _ => 1 <= count_ q
  | Q_delete _ _ => 1 <= count_ q /\ is_Some (old_node c)
  | Q_tail h => 1 <= count_ q /\ h = head_ q
  | Q_next h t => 1 <= count_ q /\ h = head_ q /\ t <> h
  | Q_check h t nn => 1 <= count_ q /\ h = head_ q /\ t <> h /\ nn = fst <$> ns !! 1%nat
  | Q_data h nn => 1 <= count_ q /\ h = head_ q /\ nn = fst <$> ns !! 1%nat
  | Q_cas h nn x => 1 <= count_ q /\ h = head_ q /\ nn = fst <$> ns !! 1%nat /\ Some x = snd <$> ns !! 1%nat
  | _ => False
  end.

Record pair_ok (max : Z) p c q ns : Prop := {
  po_head : head_ q = fst <$> head ns;
  po_nodes : nodes_ok ns (heap q);
  po_sentry : ns <> [];
  po_owns : owns (ns.*1 ++ option_list (new_node p) ++ option_list (old_node c)) (heap q);
  po_new n x : new_item p = Some (n, x) -> heap q !! n = Some (mk_node x None);
  po_producer : producer_ok p q ns;
  po_consumer : consumer_ok c q ns;
  po_fifo : linked p = taken c ++ (tail ns).*2;
  po_count : count_ q = vsize (tail ns) - uncounted p + overcounted c;
  po_range : 0 <= count_ q;
  po_max : max_count_ q = max;
  po_room : 0 < max -> vsize (tail ns) + pending p <= max;
  po_pushes : Forall is_push (todo p);
  po_pops : Forall is_pop (todo c)
}.

Lemma owns_perm l l' h : l ≡ₚ l' -> owns l h -> owns l' h.
Proof. intros Hl [Hd Hh]. split; [by rewrite <- Hl |]. intros a. by rewrite Hh, Hl. Qed.
Lemma owns_insert l h a x : h !! a = None -> owns l h -> owns (a :: l) (<[a := x]> h).
Proof.
  intros Ha [Hd Hh]. split.
  - constructor; [| done]. rewrite <- Hh, Ha. by intros [].
  - intros b. rewrite lookup_insert_is_Some', Hh. set_solver.
Qed.
Lemma owns_update l h a x : a ∈ l -> owns l h -> owns l (<[a := x]> h).
Proof. intros Ha [Hd Hh]. split; [done |]. intros b. rewrite lookup_insert_is_Some', Hh. naive_solver. Qed.
Lemma owns_delete l h a : owns (a :: l) h -> owns l (delete a h).
Proof.
  intros [[Ha Hd]%NoDup_cons Hh]. split; [done |]. intros b. rewrite lookup_delete_is_Some, Hh. set_solver.
Qed.

Lemma nodes_last ns h a x : nodes_ok ns h -> last ns = Some (a, x) -> h !! a = Some (mk_node x None).
Proof.
  intros Hn Hl. rewrite last_lookup in Hl. rewrite (Hn _ _ _ Hl).
  by rewrite (lookup_ge_None_2 ns (S (pred (length ns)))) by lia.
Qed.
Lemma last_is_Some ns : ns <> [] -> exists a x, last ns = Some (a, x).
Proof.
  intros Hn. destruct (last ns) as [[a x] |] eqn:Hl; [eauto |]. by apply last_None in Hl.
Qed.

(** A node outside the list may change. *)
Lemma nodes_insert ns h a x : a ∉ ns.*1 -> nodes_ok ns h -> nodes_ok ns (<[a := x]> h).
Proof.
  intros Ha Hn i b y Hi. rewrite lookup_insert_ne; [by apply Hn |]. intros <-. apply Ha.
  apply list_elem_of_fmap. exists (a, y). split; [done |]. by eapply list_elem_of_lookup_2.
Qed.
Lemma nodes_delete ns h a : a ∉ ns.*1 -> nodes_ok ns h -> nodes_ok ns (delete a h).
Proof.
  intros Ha Hn i b y Hi. rewrite lookup_delete_ne; [by apply Hn |]. intros <-. apply Ha.
  apply list_elem_of_fmap. exists (a, y). split; [done |]. by eapply list_elem_of_lookup_2.
Qed.
Lemma nodes_tail z ns h : nodes_ok (z :: ns) h -> nodes_ok ns h.
Proof. intros Hn i a x Hi. apply (Hn (S i) a x Hi). Qed.

(** A node is linked behind the last one. *)
Lemma nodes_link ns h a x n y :
  nodes_ok ns h -> last ns = Some (a, x) -> NoDup (ns.*1 ++ [n]) -> h !! n = Some (mk_node y None) ->
  nodes_ok (ns ++ [(n, y)]) (<[a := mk_node x (Some n)]> h).
Proof.
  intros Hn Hl Hd Hy. apply last_Some in Hl as [l ->]. intros i b z Hi.
  rewrite fmap_app, <- app_assoc in Hd. simpl in Hd. apply NoDup_app in Hd as (Hdl & Hdis & Hd2).
  apply NoDup_cons in Hd2 as [Han _].
  destruct (lt_eq_lt_dec i (length l)) as [[Hlt | ->] | Hgt].
  - rewrite (lookup_app_l (l ++ _)) in Hi by (rewrite length_app; simpl; lia).
    pose proof (Hn i b z Hi) as Hb. rewrite lookup_app_l in Hi by done.
    rewrite lookup_insert_ne.
    + rewrite Hb. by rewrite (lookup_app_l (l ++ _)) by (rewrite length_app; simpl; lia).
    + intros <-. apply (Hdis a); [| by left]. apply list_elem_of_fmap. exists (a, z).
      split; [done |]. by eapply list_elem_of_lookup_2.
  - rewrite <- app_assoc, lookup_app_r, Nat.sub_diag in Hi by lia. injection Hi as <- <-.
    rewrite lookup_insert_eq, <- app_assoc, lookup_app_r by lia.
    by replace (S (length l) - length l)%nat with 1%nat by lia.
  - rewrite <- app_assoc, lookup_app_r in Hi by lia. simpl in Hi.
    destruct (i - length l)%nat as [| [| k]] eqn:Hk; [lia | | done]. injection Hi as <- <-.
    rewrite lookup_insert_ne by set_solver. rewrite Hy.
    by rewrite (lookup_ge_None_2 (_ ++ _) (S i)) by (rewrite !length_app; simpl; lia).
Qed.

Lemma head_not_last ns :
  NoDup ns.*1 -> (2 <= length ns)%nat -> fst <$> last ns <> fst <$> head ns.
Proof.
  intros Hd Hl. destruct ns as [| z ns]; [simpl in Hl; lia |]. simpl in Hd, Hl.
  apply NoDup_cons in Hd as [Hz _]. rewrite last_cons. destruct (last ns) as [y |] eqn:Hy.
  - simpl. intros [= Heq]. apply Hz. rewrite <- Heq. apply list_elem_of_fmap_2.
    apply last_Some in Hy as [l ->]. set_solver.
  - apply last_None in Hy as ->. simpl in Hl. lia.
Qed.

(** What a thread knows survives the steps of the other. *)
Lemma consumer_frame c q q' ns ns' :
  consumer_ok c q ns -> head_ q' = head_ q -> count_ q <= count_ q' ->
  (1 <= count_ q -> overcounted c = 0 -> ns' !! 1%nat = ns !! 1%nat) -> consumer_ok c q' ns'.
Proof.
  unfold consumer_ok, overcounted. intros Hc Hh Hn H1. rewrite Hh.
  destruct (pc c); try done; destruct_and?; rewrite ?H1 by done; split_and?; done || lia.
Qed.

Lemma producer_tail p q q' z ns :
  producer_ok p q (z :: ns) -> tail_ q' = tail_ q -> uncounted p < vsize ns ->
  producer_ok p q' ns.
Proof.
  unfold producer_ok, uncounted. intros Hp Ht Hs. rewrite Ht.
  assert (ns <> []) as Hns by (intros ->; unfold vsize in Hs; simpl in Hs; destruct (pc p); lia).
  assert (last (z :: ns) = last ns) as Hl
    by (by destruct ns).
  destruct (pc p); rewrite ?Hl in Hp; try done.
  destruct Hp as (l & Heq & Htl & ->). destruct l as [| z' l]; [simpl in Heq; congruence |].
  simpl in Heq. injection Heq as -> ->. exists l. split; [done |]. split; [| done]. rewrite Htl.
  destruct l; [unfold vsize in Hs; simpl in Hs; lia | done].
Qed.

Lemma vsize_tail ns z : ns <> [] -> vsize (tail (ns ++ [z])) = vsize (tail ns) + 1.
Proof. destruct ns; [done |]. intros _. unfold vsize. simpl. rewrite length_app. simpl. lia. Qed.
Lemma uncounted_range p : 0 <= uncounted p <= 1.
Proof. unfold uncounted. destruct (pc p); lia. Qed.
Lemma overcounted_range c : 0 <= overcounted c <= 1.
Proof. unfold overcounted. destruct (pc c); lia. Qed.

(** How far a thread has come: a call takes at most nine steps. *)
Definition rank (x : point T) : nat :=
  match x with
  | Idle => 0 | P_new _ | Q_head => 1 | P_tail _ _ | Q_tail _ => 2 | P_next _ _ _ | Q_next _ _ => 3
  | P_check _ _ _ _ | Q_check _ _ _ => 4 | P_link _ _ _ | Q_data _ _ => 5
  | P_swing _ _ _ | Q_cas _ _ _ => 6 | P_count _ | Q_delete _ _ => 7 | Q_count _ => 8
  | P_help _ _ _ _ | Q_help _ _ => 0
  end.
Definition progress (t : thread T) : nat := 9 * length (log t) + rank (pc t).
Ltac moves := unfold progress; cbn [log LockFreeQueue.pc advance rank fst]; rewrite ?length_app; simpl; lia.

(** A step that changes only what one of the threads knows. *)
Lemma producer_local max p p' c q ns :
  pair_ok max p c q ns -> new_item p' = new_item p -> linked p' = linked p ->
  uncounted p' = uncounted p -> (0 < max -> vsize (tail ns) + pending p' <= max) ->
  Forall is_push (todo p') -> producer_ok p' q ns -> pair_ok max p' c q ns.
Proof.
  intros [] Hn Hl Hu Hr Ht Hp. split; unfold new_node; rewrite ?Hn, ?Hl, ?Hu; done.
Qed.
Lemma consumer_local max p c c' q ns :
  pair_ok max p c q ns -> old_node c' = old_node c -> taken c' = taken c ->
  overcounted c' = overcounted c -> Forall is_pop (todo c') -> consumer_ok c' q ns ->
  pair_ok max p c' q ns.
Proof. intros [] Ho Hl Hu Ht Hc. split; rewrite ?Ho, ?Hl, ?Hu; done. Qed.

(** The steps of [push] that change the queue. *)
Lemma push_allocates max ks l x a c q ns :
  pair_ok max (mk_thread (P_new x) ks l) c q ns -> heap q !! a = None ->
  pair_ok max (mk_thread (P_tail a x) ks l) c (set_heap (<[a := mk_node x None]> (heap q)) q) ns.
Proof.
  intros [] Ha. assert (a ∉ ns.*1 ++ option_list (old_node c)) as Hout.
  { intros Hin. destruct (proj2 (proj2 po_owns0 a)) as [y Hy]; [exact Hin | congruence]. }
  split; simpl; try done.
  - apply nodes_insert; [set_solver | done].
  - eapply owns_perm, owns_insert, po_owns0; [| done]. simpl. by rewrite <- Permutation_middle.
  - intros n y [= <- <-]. apply lookup_insert_eq.
Qed.

Lemma push_links max ks l n x t c q ns :
  pair_ok max (mk_thread (P_link n x t) ks l) c q ns ->
  exists a y, t = Some a /\ heap q !! a = Some (mk_node y None) /\
    pair_ok max (mk_thread (P_swing n x t) ks l) c
      (set_heap (<[a := mk_node y (Some n)]> (heap q)) q) (ns ++ [(n, x)]).
Proof.
  intros []. destruct (last_is_Some ns po_sentry0) as (a & y & Hl). cbn in po_producer0.
  destruct po_producer0 as [Ht ->]. rewrite Hl in Ht. simpl in Ht. rewrite Ht.
  exists a, y. split; [done |]. pose proof (nodes_last _ _ _ _ po_nodes0 Hl) as Ha. split; [done |].
  unfold new_node in *. simpl in *.
  assert (a ∈ ns.*1) as Hin by (apply last_Some in Hl as [k ->]; set_solver).
  assert (tail (ns ++ [(n, x)]) = tail ns ++ [(n, x)]) as Htl by (by destruct ns).
  change (n :: option_list (old_node c)) with ([n] ++ option_list (old_node c)) in po_owns0.
  rewrite app_assoc in po_owns0.
  split; simpl; try done.
  - by destruct ns.
  - apply nodes_link; try done; [| by apply po_new0].
    apply proj1 in po_owns0. by apply NoDup_app in po_owns0 as [? _].
  - by destruct ns.
  - rewrite fmap_app. apply owns_update; [set_solver | done].
  - exists ns. by rewrite Hl.
  - eapply consumer_frame; [done | done | done |]. intros Hone Ho. rewrite Ho in po_count0.
    unfold uncounted, vsize in po_count0. simpl in po_count0.
    destruct ns as [| z1 [| z2 ns]]; [done | simpl in po_count0; lia | done].
  - rewrite Htl, fmap_app, app_assoc, <- po_fifo0. unfold linked. simpl. by rewrite app_nil_r.
  - rewrite Htl, vsize_app, po_count0. unfold uncounted, vsize. simpl. lia.
  - rewrite Htl, vsize_app. unfold pending, uncounted, vsize in *. simpl in *. lia.
Qed.

Lemma push_swings max ks l n x t c q ns :
  pair_ok max (mk_thread (P_swing n x t) ks l) c q ns ->
  pair_ok max (mk_thread (P_count x) ks l) c (cas_tail false t (Some n) q) ns.
Proof.
  intros []. destruct po_producer0 as (k & -> & Ht & ->). unfold cas_tail.
  rewrite bool_decide_true by done. simpl. split; simpl; try done.
  unfold producer_ok. cbn. by rewrite (last_snoc (n, x) k).
Qed.

Lemma push_counts max ks l x c q ns :
  pair_ok max (mk_thread (P_count x) ks l) c q ns ->
  vsize (linked (mk_thread (P_count x) ks l)) < 2 ^ 64 ->
  pair_ok max (mk_thread Idle ks (l ++ [Pushed x true])) c (set_count (u64 (count_ q + 1)) q) ns.
Proof.
  intros [] Hs. assert (u64 (count_ q + 1) = count_ q + 1) as ->.
  { apply u64_small. rewrite po_fifo0, vsize_app in Hs. rewrite po_count0 in *.
    assert (overcounted c <= vsize (taken c)).
    { unfold overcounted, taken. rewrite vsize_app. destruct (pc c); unfold vsize; simpl; lia. }
    unfold uncounted, vsize in *. simpl in *. rewrite length_fmap in Hs.
    pose proof (overcounted_range c). lia. }
  split; simpl; try done.
  - eapply consumer_frame; [done | done | simpl; lia | done].
  - rewrite <- po_fifo0. unfold linked. simpl. by rewrite omap_app, app_nil_r.
  - rewrite po_count0. unfold uncounted. simpl. lia.
  - lia.
Qed.

Lemma producer_step_ok max p c q ns e :
  pair_ok max p c q ns -> enabled e p q = true -> spurious e = false -> vsize (linked p) < 2 ^ 64 ->
  exists p' q' ns', thread_step e p q = Ok (p', q') /\
    (progress p < progress p')%nat /\ pair_ok max p' c q' ns'.
Proof.
  intros Hok He Hsp Hsz. destruct p as [pc ks l]. unfold thread_step, enabled in *.
  pose proof (po_producer _ _ _ _ _ Hok) as Hp. pose proof (po_room _ _ _ _ _ Hok) as Hr.
  pose proof (po_pushes _ _ _ _ _ Hok) as Hks.
  cbn [LockFreeQueue.pc todo log] in *.
  destruct pc as [| x | n x | n x t | n x t nn | | n x t | n x t | x | | | | | | | | |]; try done;
    cbn [step pushing push_step] in *.
  - destruct ks as [| [x |] ks]; [done | | by apply Forall_cons in Hks as []].
    apply Forall_cons in Hks as [_ Hks]. eexists _, _, ns. split; [reflexivity |]. cbn [enter].
    destruct (full q) eqn:Hfull; (split; [moves |]); eapply producer_local; try done.
    + unfold linked. cbn [advance log LockFreeQueue.pc]. rewrite omap_app. simpl. by rewrite !app_nil_r.
    + unfold full in Hfull. rewrite (po_max _ _ _ _ _ Hok), (po_count _ _ _ _ _ Hok) in Hfull.
      pose proof (overcounted_range c). intros Hm.
      apply andb_false_iff in Hfull as [Hfull | Hfull]; boolify; [lia |].
      unfold pending, uncounted in *. simpl in *. lia.
  - apply bool_decide_eq_true in He. eexists _, _, ns. split; [reflexivity |]. split; [moves |]. by apply push_allocates.
  - eexists _, _, ns. split; [reflexivity |]. split; [moves |]. by eapply producer_local.
  - destruct Hp as [Ht ->]. destruct (last_is_Some ns (po_sentry _ _ _ _ _ Hok)) as (a & y & Hl).
    pose proof (nodes_last _ _ _ _ (po_nodes _ _ _ _ _ Hok) Hl) as Ha.
    assert (deref (tail_ q) q = Ok (mk_node y None)) as -> by (rewrite Ht, Hl; simpl; by rewrite Ha).
    simpl. eexists _, _, ns. split; [reflexivity |]. split; [moves |].
    by eapply producer_local.
  - destruct Hp as (Ht & -> & ->). rewrite decide_False by (intros []; done).
    eexists _, _, ns. split; [reflexivity |]. split; [moves |]. by eapply producer_local.
  - destruct (push_links _ _ _ _ _ _ _ _ _ Hok) as (a & y & -> & Ha & Hok').
    simpl. rewrite Ha. simpl. rewrite Hsp. eexists _, _, _. split; [reflexivity |]. split; [moves | exact Hok'].
  - rewrite Hsp. eexists _, _, ns. split; [reflexivity |]. split; [moves |]. by apply push_swings.
  - eexists _, _, ns. split; [reflexivity |]. split; [moves |]. by apply push_counts.
Qed.

(** While the consumer works there is an item for it, and the tail is not at the sentry. *)
Lemma consumer_sees max p c q ns :
  pair_ok max p c q ns -> 1 <= count_ q -> overcounted c = 0 ->
  exists h x0 b v ns', ns = (h, x0) :: (b, v) :: ns' /\ head_ q = Some h /\
    heap q !! h = Some (mk_node x0 (Some b)) /\ (exists nx, heap q !! b = Some (mk_node v nx)) /\
    tail_ q <> Some h /\ uncounted p < vsize ((b, v) :: ns').
Proof.
  intros [] Hone Ho. rewrite Ho in po_count0. pose proof (uncounted_range p).
  destruct ns as [| [h x0] [| [b v] ns]]; [done | unfold vsize in po_count0; simpl in po_count0; lia |].
  exists h, x0, b, v, ns. split; [done |]. split; [done |].
  split; [by rewrite (po_nodes0 0%nat h x0 eq_refl) |].
  split; [eexists; apply (po_nodes0 1%nat b v eq_refl) |].
  assert (uncounted p < vsize ((b, v) :: ns)) as Hlt by (simpl in po_count0; lia).
  split; [| done]. destruct po_owns0 as [[Hd _]%NoDup_app _].
  assert (tail_ q = fst <$> last ((h, x0) :: (b, v) :: ns) -> tail_ q <> Some h) as Hlast
    by (intros ->; apply (head_not_last _ Hd); simpl; lia).
  unfold producer_ok, uncounted in *. destruct (pc p); try done; try (apply Hlast; by destruct_and?).
  destruct po_producer0 as (l & Heq & -> & _). destruct l as [| z l]; [done |].
  simpl in Heq. injection Heq as <- Heq. rewrite Heq in Hd, Hlt.
  assert (1 <= vsize l) by (unfold vsize in *; rewrite length_app in Hlt; simpl in Hlt; lia).
  apply (head_not_last ((h, x0) :: l)); [| unfold vsize in *; simpl; lia].
  rewrite fmap_cons, fmap_app, app_comm_cons in Hd. by apply NoDup_app in Hd as [? _].
Qed.

(** The steps of [pop] that change the queue. *)
Lemma pop_takes max p ks l h nn x q ns :
  pair_ok max p (mk_thread (Q_cas h nn x) ks l) q ns ->
  exists ns', head_ q = h /\
    pair_ok max p (mk_thread (Q_delete h x) ks l) (set_head nn q) ns'.
Proof.
  intros Hok. destruct (po_consumer _ _ _ _ _ Hok) as (Hone & Hh & Hnn & Hx).
  destruct (consumer_sees _ _ _ _ _ Hok Hone eq_refl) as (a & x0 & b & v & ns' & -> & Ha & _ & _ & Ht & Hlt).
  simpl in Hnn, Hx. injection Hx as ->. subst nn h. exists ((b, v) :: ns'). split; [done |].
  destruct Hok. rewrite Ha. split; simpl; try done.
  - by eapply nodes_tail.
  - eapply owns_perm; [| done]. simpl. rewrite app_nil_r, (app_assoc _ _ [a]).
    rewrite <- Permutation_cons_append. constructor.
  - by eapply producer_tail.
  - rewrite po_fifo0. unfold taken. simpl. by rewrite app_nil_r, <- app_assoc.
  - rewrite po_count0. unfold overcounted, vsize. simpl. lia.
  - intros Hm. specialize (po_room0 Hm). unfold vsize in *. simpl in *. lia.
Qed.

Lemma pop_deletes max p ks l d x q ns :
  pair_ok max p (mk_thread (Q_delete d x) ks l) q ns ->
  exists q', delete_node d q = Ok q' /\ pair_ok max p (mk_thread (Q_count x) ks l) q' ns.
Proof.
  intros []. destruct po_consumer0 as [Hone [a Ha]]. cbn in Ha. subst d. simpl in po_owns0.
  destruct (proj2 (proj2 po_owns0 a)) as [y Hy]; [set_solver |].
  unfold delete_node, deref. rewrite Hy. simpl. eexists. split; [reflexivity |].
  assert (a ∉ ns.*1 ++ option_list (new_node p)) as Hout.
  { destruct po_owns0 as [Hd _]. rewrite app_assoc in Hd. apply NoDup_app in Hd as (_ & Hd & _).
    intros Hin. apply (Hd a Hin). set_solver. }
  split; simpl; try done.
  - apply nodes_delete; [set_solver | done].
  - rewrite app_nil_r. apply owns_delete. eapply owns_perm; [| done].
    by rewrite app_assoc, <- Permutation_cons_append.
  - intros n z Hn. rewrite lookup_delete_ne; [by apply po_new0 |]. intros ->. apply Hout.
    unfold new_node. rewrite Hn. set_solver.
Qed.

Lemma pop_counts max p ks l x q ns :
  pair_ok max p (mk_thread (Q_count x) ks l) q ns -> count_ q <= 2 ^ 64 ->
  pair_ok max p (mk_thread Idle ks (l ++ [Popped (Some x)])) (set_count (u64 (count_ q - 1)) q) ns.
Proof.
  intros [] Hs. assert (u64 (count_ q - 1) = count_ q - 1) as ->.
  { apply u64_small. cbn in po_consumer0. lia. }
  cbn in po_consumer0. split; simpl; try done.
  - rewrite po_fifo0. unfold taken. simpl. by rewrite omap_app, app_nil_r.
  - rewrite po_count0. unfold overcounted. simpl. lia.
  - lia.
Qed.

Lemma consumer_step_ok max p c q ns e :
  pair_ok max p c q ns -> enabled e c q = true -> spurious e = false -> count_ q <= 2 ^ 64 ->
  exists c' q' ns', thread_step e c q = Ok (c', q') /\
    (progress c < progress c')%nat /\ pair_ok max p c' q' ns'.
Proof.
  intros Hok He Hsp Hsz. destruct c as [pc ks l]. unfold thread_step, enabled in *.
  pose proof (po_consumer _ _ _ _ _ Hok) as Hc. pose proof (po_pops _ _ _ _ _ Hok) as Hks.
  pose proof (fun H => consumer_sees _ _ _ _ _ Hok H) as Hsees.
  cbn [LockFreeQueue.pc todo log] in *.
  destruct pc as [| | | | | | | | | | h | h t | h t nn | | h nn | h nn x | d x | x]; try done;
    cbn [step pushing pop_step] in *; cbn in Hc.
  - destruct ks as [| [x |] ks]; [done | by apply Forall_cons in Hks as [] |].
    apply Forall_cons in Hks as [_ Hks]. eexists _, _, ns. split; [reflexivity |]. cbn [enter].
    unfold empty. destruct (Z.eqb_spec (count_ q) 0); (split; [moves |]); eapply consumer_local; try done.
    + unfold taken. cbn [advance log LockFreeQueue.pc]. rewrite omap_app. simpl. by rewrite !app_nil_r.
    + pose proof (po_range _ _ _ _ _ Hok). cbn. lia.
  - eexists _, _, ns. split; [reflexivity |]. split; [moves |]. by eapply consumer_local.
  - destruct Hc as [Hone ->]. destruct (Hsees Hone eq_refl) as (h & x0 & b & v & ns' & _ & Hh & _ & _ & Ht & _).
    eexists _, _, ns. split; [reflexivity |]. split; [moves |]. eapply consumer_local; try done. cbn.
    split; [done |]. split; [done | congruence].
  - destruct Hc as (Hone & -> & Ht).
    destruct (Hsees Hone eq_refl) as (h & x0 & b & v & ns' & -> & Hh & Ha & _).
    assert (deref (head_ q) q = Ok (mk_node x0 (Some b))) as -> by (rewrite Hh; simpl; by rewrite Ha).
    simpl. eexists _, _, _. split; [reflexivity |]. split; [moves |].
    eapply consumer_local; try done.
  - destruct Hc as (Hone & -> & Ht & ->). rewrite decide_False by (intros []; done).
    rewrite decide_False by congruence. eexists _, _, ns. split; [reflexivity |]. split; [moves |]. by eapply consumer_local.
  - destruct Hc as (Hone & -> & ->).
    destruct (Hsees Hone eq_refl) as (h & x0 & b & v & ns' & -> & Hh & _ & [nx Hb] & _).
    simpl. rewrite Hb. simpl. eexists _, _, _. split; [reflexivity |]. split; [moves |].
    by eapply consumer_local.
  - destruct (pop_takes _ _ _ _ _ _ _ _ _ Hok) as (ns' & Hh & Hok'). rewrite Hsp, bool_decide_true by done.
    eexists _, _, ns'. split; [reflexivity |]. split; [moves | exact Hok'].
  - destruct (pop_deletes _ _ _ _ _ _ _ _ Hok) as (q' & -> & Hok').
    eexists _, _, ns. split; [reflexivity |]. split; [moves | exact Hok'].
  - eexists _, _, ns. split; [reflexivity |]. split; [moves |]. by apply pop_counts.
Qed.

(** The calls of a thread: those that have returned, the one it is in, and those to come. *)
Definition call_of (a : answer T) : call T := match a with Pushed x _ => Push x | Popped _ => Pop end.
Definition current (x : point T) : list (call T) :=
  match x with
  | Idle => []
  | P_new x | P_tail _ x | P_next _ x _ | P_check _ x _ _ | P_help _ x _ _ | P_link _ x _
  | P_swing _ x _ | P_count x => [Push x]
  | _ => [Pop]
  end.
Definition calls_of (t : thread T) : list (call T) :=
  (call_of <$> log t) ++ current (pc t) ++ todo t.

Lemma advance_calls r ks l k :
  match r with inl y => current y | inr a => [call_of a] end = k ->
  calls_of (advance r ks l) = (call_of <$> l) ++ k ++ ks.
Proof. intros <-. unfold calls_of. destruct r; simpl; [done |]. by rewrite fmap_app, <- app_assoc. Qed.

Lemma step_current s a y q r :
  step s a y q = Ok r -> y <> Idle ->
  match r.1 with inl z => current z | inr a => [call_of a] end = current y.
Proof.
  intros H Hy. unfold step, mret, outcome_ret in H. destruct y; simpl in H; try done;
    try (apply bind_Ok in H as (z & _ & H));
    repeat match type of H with context [match ?z with _ => _ end] => destruct z end;
    by injection H as <-.
Qed.

Lemma thread_step_calls e t q t' q' :
  thread_step e t q = Ok (t', q') -> calls_of t' = calls_of t.
Proof.
  destruct t as [y ks l]. unfold thread_step. cbn [LockFreeQueue.pc todo log]. intros H.
  destruct (decide (current y = [])) as [Hy | Hy].
  - destruct y; try done. destruct ks as [| k ks]; [by injection H as <- <- |]. injection H as <- <-.
    rewrite (advance_calls _ _ _ [k]); [done |]. destruct k; simpl; [by destruct (full q) | by destruct (empty q)].
  - assert ((r ← step (spurious e) (addr e) y q; mret (advance r.1 ks l, r.2)) = Ok (t', q')) as Hs
      by (destruct y; [by destruct Hy | exact H..]).
    apply bind_Ok in Hs as ([r q1] & Hs & [= <- <-]).
    apply (advance_calls _ _ _ (current y)). apply (step_current _ _ _ _ _ Hs). by intros ->.
Qed.

Lemma linked_calls p : vsize (linked p) <= vsize (calls_of p).
Proof.
  unfold linked, calls_of. rewrite !vsize_app. pose proof (vsize_nonneg (todo p)).
  assert (vsize (omap (fun a => match a with Pushed x true => Some x | _ => None end) (log p))
    <= vsize (call_of <$> log p)).
  { unfold vsize. rewrite length_fmap. apply inj_le. generalize (log p). intros l.
    induction l as [| a l IH]; [done |]. unfold omap in *. simpl. destruct a as [x [] |]; simpl; lia. }
  destruct (pc p); simpl; unfold vsize in *; simpl; lia.
Qed.
Lemma count_bound max p c q ns : pair_ok max p c q ns -> count_ q <= vsize (linked p).
Proof.
  intros Hok. rewrite (po_count _ _ _ _ _ Hok), (po_fifo _ _ _ _ _ Hok), vsize_app.
  pose proof (uncounted_range p). assert (overcounted c <= vsize (taken c)).
  { unfold overcounted, taken. rewrite vsize_app. destruct (pc c); unfold vsize; simpl; lia. }
  unfold vsize in *. rewrite length_fmap. lia.
Qed.

Lemma pair_run es max p c q ns :
  pair_ok max p c q ns -> vsize (calls_of p) < 2 ^ 64 -> Forall (fun e => spurious e = false) es ->
  exists p' c' q' ns', run es [p; c] q = Ok ([p'; c'], q') /\ pair_ok max p' c' q' ns' /\
    calls_of p' = calls_of p /\ calls_of c' = calls_of c /\
    (proper es [p; c] q = true ->
     (length (filter (fun e => tid e = 0%nat) es) + progress p <= progress p')%nat /\
     (length (filter (fun e => tid e = 1%nat) es) + progress c <= progress c')%nat).
Proof.
  intros Hok Hn Hes. revert p c q ns Hok Hn.
  induction Hes as [| e es He _ IH]; intros p c q ns Hok Hn; [by eexists p, c, q, ns |].
  cbn [run proper]. pose proof (linked_calls p). pose proof (count_bound _ _ _ _ _ Hok).
  rewrite !filter_cons. destruct (tid e) as [| [| k]] eqn:Ht.
  - change ([p; c] !! 0%nat) with (Some p). cbv beta iota.
    destruct (enabled e p q) eqn:Hen; cbn [andb].
    + destruct (producer_step_ok _ _ _ _ _ _ Hok Hen He ltac:(lia)) as (p1 & q1 & ns1 & Hs & Hlt & Hok1).
      rewrite Hs. cbn [mbind outcome_bind fst snd]. change (<[0%nat := p1]> [p; c]) with [p1; c].
      rewrite <- (thread_step_calls _ _ _ _ _ Hs) in Hn |- *.
      destruct (IH p1 c q1 ns1 Hok1 Hn) as (p' & c' & q' & ns' & ? & ? & ? & ? & Hpr).
      exists p', c', q', ns'. split_and!; try done. intros Hp. destruct (Hpr Hp). simpl. lia.
    + destruct (IH p c q ns Hok Hn) as (p' & c' & q' & ns' & ? & ? & ? & ? & _). by exists p', c', q', ns'.
  - change ([p; c] !! 1%nat) with (Some c). cbv beta iota.
    destruct (enabled e c q) eqn:Hen; cbn [andb].
    + destruct (consumer_step_ok _ _ _ _ _ _ Hok Hen He ltac:(lia)) as (c1 & q1 & ns1 & Hs & Hlt & Hok1).
      rewrite Hs. cbn [mbind outcome_bind fst snd]. change (<[1%nat := c1]> [p; c]) with [p; c1].
      rewrite <- (thread_step_calls _ _ _ _ _ Hs).
      destruct (IH p c1 q1 ns1 Hok1 Hn) as (p' & c' & q' & ns' & ? & ? & ? & ? & Hpr).
      exists p', c', q', ns'. split_and!; try done. intros Hp. destruct (Hpr Hp). simpl. lia.
    + destruct (IH p c q ns Hok Hn) as (p' & c' & q' & ns' & ? & ? & ? & ? & _). by exists p', c', q', ns'.
  - change ([p; c] !! S (S k)) with (@None (thread T)). cbv beta iota.
    destruct (IH p c q ns Hok Hn) as (p' & c' & q' & ns' & ? & ? & ? & ? & _). by exists p', c', q', ns'.
Qed.

(** The destructor frees the nodes. *)
Lemma clear_nodes ns q :
  nodes_ok ns (heap q) -> owns ns.*1 (heap q) ->
  exists q', clear_loop (length ns) (fst <$> head ns) q = Ok (Some q') /\ heap q' = ∅.
Proof.
  revert q. induction ns as [| [a x] ns IH]; intros q Hn Ho; cbn [length clear_loop head fmap option_fmap option_map fst].
  - exists q. split; [done |]. apply map_empty. intros a. apply eq_None_not_Some. rewrite (proj2 Ho). set_solver.
  - pose proof (Hn 0%nat a x eq_refl) as Ha. unfold delete_node, deref. rewrite Ha. simpl.
    destruct (IH (set_heap (delete a (heap q)) q)) as (q' & Hq' & He); simpl.
    + apply nodes_delete; [| by eapply nodes_tail]. destruct Ho as [Hd _]. simpl in Hd.
      by apply NoDup_cons in Hd as [? _].
    + by apply owns_delete.
    + exists q'. split; [| done]. rewrite <- Hq'. by destruct ns.
Qed.

Lemma init_new x0 fuel max sentry q :
  init x0 fuel max sentry LockFreeQueue_new = Ok (Some q) ->
  q = mk_lfq (Some sentry) (Some sentry) 0 max {[sentry := mk_node x0 None]}.
Proof. unfold init, clear. by destruct fuel; intros [= <-]. Qed.

Lemma start_pair_ok x0 fuel max sentry q items n :
  init x0 fuel max sentry LockFreeQueue_new = Ok (Some q) ->
  pair_ok max (start_thread (Push <$> items)) (start_thread (replicate n Pop)) q [(sentry, x0)].
Proof.
  intros ->%init_new. split; simpl; try done; try lia.
  - intros i a x Hi. destruct i as [| [| i]]; try done. injection Hi as <- <-. apply lookup_singleton_eq.
  - split; [apply NoDup_singleton |]. intros a. rewrite lookup_singleton_is_Some. set_solver.
  - unfold vsize, pending. simpl. lia.
  - induction items; constructor; done.
  - by apply Forall_replicate.
Qed.

Lemma can_step k t q : (pc t = Idle /\ todo t = []) \/ exists a, enabled (mk_event k a false) t q = true.
Proof.
  destruct t as [y ks l]. unfold enabled. cbn [LockFreeQueue.pc todo].
  destruct y; try (right; exists 0%nat; done).
  - destruct ks; [by left | right; by exists 0%nat].
  - right. exists (fresh (dom (heap q))). simpl. apply bool_decide_eq_true, not_elem_of_dom, is_fresh.
Qed.

Lemma rank_bound (x : point T) : (rank x <= 8)%nat.
Proof. destruct x; simpl; lia. Qed.

Lemma proper_app es1 es2 (ts ts1 : list (thread T)) q q1 :
  proper (es1 ++ es2) ts q = true -> run es1 ts q = Ok (ts1, q1) -> proper es2 ts1 q1 = true.
Proof.
  revert ts q. induction es1 as [| e es1 IH]; intros ts q; cbn [run proper app].
  - by intros H [= <- <-].
  - destruct (ts !! tid e) as [t |]; [| done]. destruct (enabled e t q); [| done]. cbn [andb].
    destruct (thread_step e t q) as [r | |]; [apply IH | done..].
Qed.

(** ** Properties *)

(** C35. One producer and one consumer may use the queue.  As long as no compare-and-exchange fails
    without reason, no access is undefined however their steps interleave; the items
    the producer has linked are those the consumer has taken, in their order, and the ones left in
    the queue, which keeps its limit.  When both are between two calls, [size] is the
    number of items left, and the destructor frees every node. *)
Theorem one_to_one_fifo (x0 : T) (items : list T) (n fuel sentry : nat) (max : Z) (es : list event) q :
  init x0 fuel max sentry LockFreeQueue_new = Ok (Some q) ->
  vsize items < 2 ^ 64 -> Forall (fun e => spurious e = false) es ->
  exists p c q' rest,
    run es [start_thread (Push <$> items); start_thread (replicate n Pop)] q = Ok ([p; c], q') /\
    calls_of p = Push <$> items /\ linked p = taken c ++ rest /\ (0 < max -> vsize rest <= max) /\
    (pc p = Idle -> pc c = Idle -> size q' = vsize rest /\
       exists q'', clear (S (length rest)) q' = Ok (Some q'') /\ heap q'' = ∅).
Proof.
  intros Hi Hn Hes. pose proof (start_pair_ok x0 fuel max sentry q items n Hi) as Hok.
  destruct (pair_run es _ _ _ _ _ Hok) as (p & c & q' & ns & Hr & [] & Hcp & _); [| done |].
  { unfold calls_of, start_thread, vsize in *. simpl. by rewrite length_fmap. }
  exists p, c, q', (tail ns).*2. split; [done |]. split; [done |]. split; [done |].
  assert (vsize (tail ns).*2 = vsize (tail ns)) as -> by (unfold vsize; by rewrite length_fmap).
  split.
  - intros Hm. specialize (po_room0 Hm). unfold pending in po_room0. pose proof (uncounted_range p).
    destruct (pushing (pc p)); lia.
  - intros Hp Hc. split.
    + unfold size. rewrite po_count0. unfold uncounted, overcounted. rewrite Hp, Hc. lia.
    + rewrite length_fmap. destruct (clear_nodes ns q') as (q'' & Hq & He); [done | |].
      * unfold new_node, new_item, old_node in po_owns0. rewrite Hp, Hc in po_owns0. simpl in po_owns0.
        by rewrite app_nil_r in po_owns0.
      * exists q''. split; [| done]. unfold clear. rewrite po_head0, <- Hq. by destruct ns.
Qed.

(** C36. Neither can delay the other: under the same conditions a call takes at most nine steps
    of its own thread, whatever steps the other thread makes in between.  At any moment (after
    [es1]), whatever follows ([es2]): a thread that makes nine steps returns from a call,
    because it makes at most eight between two moments without a return in between; and a
    thread that has not made all its calls can always make a step. *)
Theorem one_to_one_wait_free (x0 : T) (items : list T) (n fuel sentry : nat) (max : Z)
    (es1 es2 : list event) q :
  init x0 fuel max sentry LockFreeQueue_new = Ok (Some q) ->
  vsize items < 2 ^ 64 -> Forall (fun e => spurious e = false) (es1 ++ es2) ->
  proper (es1 ++ es2) [start_thread (Push <$> items); start_thread (replicate n Pop)] q = true ->
  exists p1 c1 q1 p2 c2 q2,
    run es1 [start_thread (Push <$> items); start_thread (replicate n Pop)] q = Ok ([p1; c1], q1) /\
    run es2 [p1; c1] q1 = Ok ([p2; c2], q2) /\
    (length (log p2) = length (log p1) -> (length (filter (fun e => tid e = 0) es2) <= 8)%nat) /\
    (length (log c2) = length (log c1) -> (length (filter (fun e => tid e = 1) es2) <= 8)%nat) /\
    forall k t, (k, t) ∈ [(0%nat, p2); (1%nat, c2)] ->
      (pc t = Idle /\ todo t = []) \/ exists a, enabled (mk_event k a false) t q2 = true.
Proof.
  intros Hi Hn [Hes1 Hes2]%Forall_app Hp. pose proof (start_pair_ok x0 fuel max sentry q items n Hi) as Hok.
  assert (vsize (calls_of (start_thread (Push <$> items))) < 2 ^ 64) as Hv
    by (unfold calls_of, start_thread, vsize in *; simpl; by rewrite length_fmap).
  destruct (pair_run es1 _ _ _ _ _ Hok Hv Hes1) as (p1 & c1 & q1 & ns1 & Hr1 & Hok1 & Hc1 & _).
  rewrite <- Hc1 in Hv.
  destruct (pair_run es2 _ _ _ _ _ Hok1 Hv Hes2) as (p2 & c2 & q2 & ns2 & Hr2 & _ & _ & _ & Hpr).
  destruct (Hpr (proper_app _ _ _ _ _ _ Hp Hr1)) as [H0 H1]. unfold progress in H0, H1.
  pose proof (rank_bound (pc p2)). pose proof (rank_bound (pc c2)).
  exists p1, c1, q1, p2, c2, q2. split_and!; [done | done | lia | lia |]. intros k t _. apply can_step.
Qed.
End one_to_one.

(** ** What else goes wrong *)

Definition steps (t n : nat) : list event := replicate n (mk_event t (10 + t) false).
Definition started {T} (x0 : T) (max : Z) : LockFreeQueue T :=
  mk_lfq (Some 0%nat) (Some 0%nat) 0 max {[0%nat := mk_node x0 None]}.

(** A producer has read [tail_] and stops; another one pushes, and the consumer takes that item
    and deletes the old sentry; the first producer goes on. *)
Definition two_producers : list event := steps 1 3 ++ steps 0 8 ++ steps 2 8 ++ steps 1 1.

(** The exchange that should move [tail_] fails; the producer reads it for its next push, the
    consumer moves it and deletes the old sentry; the producer goes on. *)
Definition spurious_failure : list event :=
  steps 0 6 ++ [mk_event 0 10 true] ++ steps 0 1 ++
  [mk_event 0 20 false; mk_event 0 20 false; mk_event 0 20 false] ++ steps 1 13 ++ steps 0 1.

(** Two consumers see the count of the first item, and take also the second, which is not yet
    counted. *)
Definition two_consumers : list event :=
  steps 0 8 ++ steps 1 7 ++ steps 2 1 ++ steps 3 1 ++ steps 2 8 ++ steps 3 8.

(** The queue is not one for several producers and consumers, as it is meant to be.  With two
    producers, or when a weak exchange fails without reason, [push] reads a node that [pop]
    has deleted; with two consumers the count drops below zero and wraps around, so
    that an empty queue with a limit is full; and after [clear] the destructor reads
    the nodes that [clear] has deleted. *)
Theorem lockfree_unsafe {T} (x0 x y : T) :
  run two_producers (start_thread <$> [[Push x]; [Push y]; [Pop]]) (started x0 0)
    = Undefined "use after free" /\
  run spurious_failure (start_thread <$> [[Push x; Push y]; [Pop]]) (started x0 0)
    = Undefined "use after free" /\
  (exists ts q, run two_consumers (start_thread <$> [[Push x]; [Push y]; [Pop]; [Pop]]) (started x0 5)
     = Ok (ts, q) /\ front q = Ok None /\ size q = SIZE_MAX /\ full q = true) /\
  (exists q, clear 1 (started x0 0) = Ok (Some q) /\ clear 1 q = Undefined "use after free").
Proof.
  split_and!; [reflexivity | reflexivity | |]; eexists; [eexists |];
    (split; [vm_compute; reflexivity | vm_compute; done]).
Qed.

(** Two items, a limit of one: the second push comes after the first pop. *)
Definition one_then_other : list event := steps 0 8 ++ steps 1 9 ++
  replicate 8 (mk_event 0 20 false).

Lemma one_to_one_fifo_witness : exists p c q',
  run one_then_other [start_thread [Push 7; Push 8]; start_thread [Pop; Pop]] (started 0 1)
    = Ok ([p; c], q') /\ taken c = [7] /\ linked p = [7; 8] /\ size q' = 1 /\
  exists q'', clear 2 q' = Ok (Some q'') /\ heap q'' = ∅.
Proof.
  destruct (one_to_one_fifo 0 [7; 8] 2 0 0 1 one_then_other (started 0 1)) as
    (p & c & q' & rest & Hr & _ & Hl & _ & Hq); [reflexivity | unfold vsize; simpl; lia | |].
  { repeat constructor. }
  exists p, c, q'. split; [exact Hr |].
  assert (H := Hr). vm_compute in H. injection H as <- <- <-.
  destruct (Hq eq_refl eq_refl) as [Hs (q'' & Hc & He)].
  assert (rest = [8]) as -> by (vm_compute in Hl; congruence).
  split; [reflexivity |]. split; [reflexivity |]. split; [exact Hs |]. exists q''. split; [exact Hc | exact He].
Defined.

Lemma one_to_one_wait_free_witness : exists p1 c1 q1 p2 c2 q2,
  run (take 11 one_then_other) [start_thread [Push 7; Push 8]; start_thread [Pop; Pop]] (started 0 1)
    = Ok ([p1; c1], q1) /\
  run (drop 11 one_then_other) [p1; c1] q1 = Ok ([p2; c2], q2) /\
  (length (log p2) = length (log p1) -> (length (filter (fun e => tid e = 0) (drop 11 one_then_other)) <= 8)%nat).
Proof.
  destruct (one_to_one_wait_free 0 [7; 8] 2 0 0 1 (take 11 one_then_other) (drop 11 one_then_other) (started 0 1)) as
    (p1 & c1 & q1 & p2 & c2 & q2 & Hr1 & Hr2 & H0 & _); [reflexivity | unfold vsize; simpl; lia | | reflexivity |].
  { repeat constructor. }
  exists p1, c1, q1, p2, c2, q2. split; [exact Hr1 |]. split; [exact Hr2 | exact H0].
Defined.
