(* ===== verification/Pools.v ===== *)
(** * Pools: loops and threads that share the work
    ([src/code/EventLoopPool.cpp], [ThreadGroup.cpp], [ThreadPool.cpp])

    [EventLoopPool] and [ThreadGroup] hand out their members in turn; the workers of a
    [ThreadGroup] have a queue each, the threads of a [ThreadPool] share one. *)

From S2P Require Import Prelude.
From S2P Require Import Cpp.
From S2P Require Import BlockingQueue.
From stdpp Require Import list.
Local Open Scope Z_scope.

(** A [std::function<void()>] is known by its number; 0 is the empty one. *)
Definition Task : Type := nat.

(** ** EventLoopPool *)

Module EventLoopPool.

(** Loops are objects with an address; [started] are those a thread runs. *)
Record EventLoopPool := mk_pool {
  num_ : Z;
  baseloop_ : nat;
  next_ : Z;
  loops_ : list nat;
  started : list nat
}.

Definition init (loop : nat) : EventLoopPool := mk_pool 0 loop 0 [] [].
Definition set_threads (n : Z) (p : EventLoopPool) : EventLoopPool :=
  mk_pool n (baseloop_ p) (next_ p) (loops_ p) (started p).

(** [new EventLoop()] gives an address, here the next of [fresh]. *)
Fixpoint start_loops (n : nat) (fresh : nat) (p : EventLoopPool) : EventLoopPool :=
  match n with
  | O => p
  | S n => start_loops n (S fresh)
             (mk_pool (num_ p) (baseloop_ p) (next_ p) (loops_ p ++ [fresh]) (started p ++ [fresh]))
  end.
Definition start (fresh : nat) (p : EventLoopPool) : EventLoopPool :=
  start_loops (Z.to_nat (num_ p)) fresh (mk_pool (num_ p) (baseloop_ p) 0 (loops_ p) (started p)).

(** Every loop quits, every thread is joined. *)
Definition stop (p : EventLoopPool) : EventLoopPool :=
  mk_pool (num_ p) (baseloop_ p) (next_ p) [] [].

Definition get_nextloop (p : EventLoopPool) : outcome (nat * EventLoopPool) :=
  match loops_ p with
  | [] => mret (baseloop_ p, p)
  | _ =>
      loop ← vget (loops_ p) (next_ p);
      mret (loop, mk_pool (num_ p) (baseloop_ p) (u64 (next_ p + 1) mod vsize (loops_ p))
                    (loops_ p) (started p))
  end.

Fixpoint next_loops (k : nat) (p : EventLoopPool) : outcome (list nat * EventLoopPool) :=
  match k with
  | O => mret ([], p)
  | S k => r ← get_nextloop p; rs ← next_loops k r.2; mret (r.1 :: rs.1, rs.2)
  end.
End EventLoopPool.

(** ** ThreadGroup *)

Module ThreadGroup.

(** A worker is its queue of tasks; its thread runs [run]. *)
Record ThreadWorker := mk_worker { tasks_ : BlockingQueue Task; running : bool }.

(** The constructor, once its thread and [init] are done. *)
Definition ThreadWorker_init (max_task : Z) : ThreadWorker :=
  mk_worker (BlockingQueue.init max_task BlockingQueue_new) true.
Definition worker_push (task : Task) (w : ThreadWorker) : bool * ThreadWorker :=
  let r := push task (tasks_ w) in (r.1, mk_worker r.2 (running w)).
Definition worker_stop (w : ThreadWorker) : Z * ThreadWorker :=
  if running w then (0, mk_worker (notify_exit (tasks_ w)) false) else (-1, w).

(** [run], until it has to wait or [pop] returns false: the tasks it executed, whether
    it ended, and the queue.  [pop] takes an item each time, so the items of the queue
    are fuel enough. *)
Fixpoint run (fuel : nat) (q : BlockingQueue Task) : list Task * bool * BlockingQueue Task :=
  match fuel with
  | O => ([], false, q)
  | S fuel =>
      match pop q with
      | (Blocks, q) => ([], false, q)
      | (Exits, q) => ([], true, q)
      | (Takes task, q) =>
          let '(done, ended, q) := run fuel q in
          (if (task =? 0)%nat then done else task :: done, ended, q)
      end
  end.

Record ThreadGroup := mk_group { workers_ : list ThreadWorker; next_ : Z }.

Definition init : ThreadGroup := mk_group [] 0.

Definition start (thread_num max_task : Z) (g : ThreadGroup) : Z * ThreadGroup :=
  if (thread_num <? 1) || (max_task <? 1) || negb (length (workers_ g) =? 0)%nat then (-1, g)
  else (0, mk_group (workers_ g ++ replicate (Z.to_nat thread_num) (ThreadWorker_init 100000)) 0).

Definition stop (g : ThreadGroup) : Z * ThreadGroup :=
  match workers_ g with [] => (-1, g) | _ => (0, mk_group [] 0) end.

(** The index of the worker, which stands for its address; [None] is null. *)
Definition get_worker (g : ThreadGroup) : outcome (option Z * ThreadGroup) :=
  match workers_ g with
  | [] => mret (None, g)
  | _ =>
      _ ← vget (workers_ g) (next_ g);
      mret (Some (next_ g), mk_group (workers_ g) (u64 (next_ g + 1) mod vsize (workers_ g)))
  end.

Fixpoint get_workers (k : nat) (g : ThreadGroup) : outcome (list (option Z) * ThreadGroup) :=
  match k with
  | O => mret ([], g)
  | S k => r ← get_worker g; rs ← get_workers k r.2; mret (r.1 :: rs.1, rs.2)
  end.
End ThreadGroup.

(** ** ThreadPool *)

Module ThreadPool.

Record ThreadPool := mk_threads { threads_ : nat; tasks_ : BlockingQueue Task }.

Definition init : ThreadPool := mk_threads 0 BlockingQueue_new.
Definition add_thread (num : Z) (p : ThreadPool) : Z * ThreadPool :=
  (0, mk_threads (threads_ p + Z.to_nat num) (tasks_ p)).
Definition start (thread_num max_task : Z) (p : ThreadPool) : Z * ThreadPool :=
  if (thread_num <? 1) || negb (threads_ p =? 0)%nat then (-1, p)
  else add_thread thread_num (mk_threads (threads_ p) (BlockingQueue.init max_task (tasks_ p))).
Definition append (task : Task) (p : ThreadPool) : bool * ThreadPool :=
  let r := push task (tasks_ p) in (r.1, mk_threads (threads_ p) r.2).
Definition stop (p : ThreadPool) : Z * ThreadPool :=
  if (threads_ p =? 0)%nat then (-1, p) else (0, mk_threads 0 (notify_exit (tasks_ p))).
End ThreadPool.

(** ** Taking turns *)

(** The index after [k] turns, and the indices that were handed out. *)
Definition turns (next n : Z) (k : nat) : list Z :=
  (fun i => (next + Z.of_nat i) mod n) <$> seq 0 k.

Lemma turns_S next n k :
  0 <= next < n -> turns next n (S k) = next :: turns ((next + 1) mod n) n k.
Proof.
  intros Hn. unfold turns. cbn [seq fmap list_fmap]. f_equal.
  - rewrite Z.add_0_r. by apply Z.mod_small.
  - rewrite <- fmap_S_seq, <- list_fmap_compose. apply list_fmap_ext. intros i x _. simpl.
    rewrite Zplus_mod_idemp_l. f_equal. lia.
Qed.

(** In [n] turns everybody has one. *)
Lemma turns_all next n k :
  0 <= next < n -> 0 <= k < n -> exists i, turns next n (Z.to_nat n) !! i = Some k.
Proof.
  intros Hn Hk. exists (Z.to_nat ((k - next) mod n)). unfold turns.
  pose proof (Z.mod_pos_bound (k - next) n ltac:(lia)).
  apply list_lookup_fmap_Some. exists (Z.to_nat ((k - next) mod n)). split.
  - rewrite Z2Nat.id by lia. rewrite Zplus_mod_idemp_r.
    replace (next + (k - next)) with k by lia. symmetry. by apply Z.mod_small.
  - apply lookup_seq. lia.
Qed.

Lemma turns_NoDup next n : 0 < n -> NoDup (turns next n (Z.to_nat n)).
Proof.
  intros Hn. unfold turns. apply NoDup_fmap_2_strong; [| apply NoDup_seq].
  intros i j Hi Hj. apply elem_of_seq in Hi, Hj. intros He.
  assert (Z.of_nat i mod n = Z.of_nat j mod n) as Hij.
  { replace (Z.of_nat i) with ((next + Z.of_nat i) - next) by lia.
    replace (Z.of_nat j) with ((next + Z.of_nat j) - next) by lia.
    rewrite (Zminus_mod (next + Z.of_nat i)), (Zminus_mod (next + Z.of_nat j)). by rewrite He. }
  rewrite !Z.mod_small in Hij by lia. lia.
Qed.


Lemma omap_Some {A B} (f : A -> option B) (g : A -> B) (l : list A) :
  Forall (fun x => f x = Some (g x)) l -> omap f l = g <$> l.
Proof. induction 1 as [| x l Hx _ IH]; simpl; [done |]. rewrite Hx. f_equal. exact IH. Qed.

Module EventLoopPoolFacts.
Import EventLoopPool.

Record pool_ok (p : EventLoopPool) : Prop := {
  pool_next : loops_ p <> [] -> 0 <= next_ p < vsize (loops_ p);
  pool_size : vsize (loops_ p) <= max_size
}.

Lemma start_loops_eq n fresh p :
  start_loops n fresh p =
  mk_pool (num_ p) (baseloop_ p) (next_ p) (loops_ p ++ seq fresh n) (started p ++ seq fresh n).
Proof.
  revert fresh p. induction n as [| n IH]; intros fresh p; simpl.
  - rewrite !app_nil_r. by destruct p.
  - rewrite IH. simpl. by rewrite <- !app_assoc.
Qed.

Lemma start_pool_ok fresh p :
  loops_ p = [] -> 0 <= num_ p <= max_size -> pool_ok (start fresh p).
Proof.
  intros Hl Hn. unfold start. rewrite start_loops_eq, Hl. split; simpl.
  - intros Hne. unfold vsize. rewrite length_seq.
    destruct (Z.to_nat (num_ p)) eqn:E; [done | simpl; lia].
  - unfold vsize. rewrite length_seq. lia.
Qed.

Lemma get_nextloop_eq p :
  loops_ p <> [] /\ 0 <= next_ p < vsize (loops_ p) /\ vsize (loops_ p) <= max_size ->
  exists x, loops_ p !! Z.to_nat (next_ p) = Some x /\
    get_nextloop p = Ok (x, mk_pool (num_ p) (baseloop_ p) ((next_ p + 1) mod vsize (loops_ p))
                              (loops_ p) (started p)).
Proof.
  intros (Hne & Hn & Hs).
  destruct (lookup_lt_is_Some_2 (loops_ p) (Z.to_nat (next_ p))) as [x Hx]; [unfold vsize in *; lia |].
  exists x. split; [done |]. unfold get_nextloop. destruct (loops_ p) eqn:Hl; [done |].
  rewrite <- Hl in *. rewrite (vget_Ok _ _ x) by (done || lia). simpl. unfold max_size in Hs.
  by rewrite u64_small by lia.
Qed.

(** A loop of the pool, or the base loop when it has none. *)
Definition own_loop (p : EventLoopPool) (x : nat) : Prop :=
  match loops_ p with [] => x = baseloop_ p | ls => x ∈ ls end.
Lemma get_nextloop_ok p :
  pool_ok p -> exists x p', get_nextloop p = Ok (x, p') /\ pool_ok p' /\
    loops_ p' = loops_ p /\ baseloop_ p' = baseloop_ p /\ own_loop p x.
Proof.
  intros [Hn Hs]. destruct (decide (loops_ p = [])) as [He | Hne].
  - exists (baseloop_ p), p. unfold get_nextloop, own_loop. rewrite He. split_and!; try done.
  - specialize (Hn Hne). destruct (get_nextloop_eq p) as (x & Hx & ->); [done |].
    eexists _, _. split; [reflexivity |]. split_and!; try done.
    + split; simpl; [| done]. intros _. apply Z.mod_pos_bound. lia.
    + unfold own_loop. destruct (loops_ p) eqn:Hl; [done |]. by eapply list_elem_of_lookup_2.
Qed.

(** [k] calls of [get_nextloop]. *)
Lemma next_loops_ok k p :
  pool_ok p -> loops_ p <> [] ->
  next_loops k p = Ok (omap (fun i => loops_ p !! Z.to_nat i) (turns (next_ p) (vsize (loops_ p)) k),
    mk_pool (num_ p) (baseloop_ p) ((next_ p + Z.of_nat k) mod vsize (loops_ p)) (loops_ p) (started p)).
Proof.
  intros Hp Hne. revert p Hp Hne. induction k as [| k IH]; intros p [Hn Hs] Hne; cbn [next_loops].
  - specialize (Hn Hne). rewrite Z.add_0_r, Z.mod_small by lia. by destruct p.
  - specialize (Hn Hne). rewrite turns_S by lia.
    destruct (get_nextloop_eq p (conj Hne (conj Hn Hs))) as (x & Hx & ->).
    cbn [mbind outcome_bind fst snd]. rewrite IH; [| | done].
    + simpl. rewrite Hx. do 2 f_equal. f_equal. rewrite Zplus_mod_idemp_l. f_equal. lia.
    + split; simpl; [| done]. intros _. apply Z.mod_pos_bound. lia.
Qed.
End EventLoopPoolFacts.

Module ThreadGroupFacts.
Import ThreadGroup.

(** A worker alone executes the tasks of its queue in order. *)
Lemma run_executes fuel q :
  exit_ q = false -> (length (queue_ q) < fuel)%nat ->
  run fuel q = (filter (fun task => task <> 0%nat) (queue_ q), false, mk_bq [] (max_count_ q) false).
Proof.
  revert q. induction fuel as [| fuel IH]; intros [l mx ex] Hx Hl; simpl in *; [lia |]. subst ex.
  destruct l as [| x l]; [done |]. unfold pop. simpl in *. rewrite IH by first [done | simpl; lia]. cbn [queue_ max_count_].
  rewrite filter_cons. destruct (Nat.eqb_spec x 0) as [-> | Hne]; by case_decide.
Qed.

Lemma run_exits fuel q : exit_ q = true -> run (S fuel) q = ([], true, q).
Proof. intros Hx. simpl. unfold pop. by rewrite Hx, orb_true_r. Qed.

Record group_ok (g : ThreadGroup) : Prop := {
  group_next : workers_ g <> [] -> 0 <= next_ g < vsize (workers_ g);
  group_size : vsize (workers_ g) <= max_size
}.

Lemma get_workers_ok k g :
  group_ok g -> workers_ g <> [] ->
  get_workers k g = Ok (Some <$> turns (next_ g) (vsize (workers_ g)) k,
    mk_group (workers_ g) ((next_ g + Z.of_nat k) mod vsize (workers_ g))).
Proof.
  revert g. induction k as [| k IH]; intros g [Hn Hs] Hne; cbn [get_workers].
  - specialize (Hn Hne). rewrite Z.add_0_r, Z.mod_small by lia. by destruct g.
  - specialize (Hn Hne). rewrite turns_S by lia.
    destruct (lookup_lt_is_Some_2 (workers_ g) (Z.to_nat (next_ g))) as [x Hx].
    { unfold vsize in *. lia. }
    assert (get_worker g = Ok (Some (next_ g),
      mk_group (workers_ g) ((next_ g + 1) mod vsize (workers_ g)))) as ->.
    { unfold get_worker. destruct (workers_ g) eqn:Hl; [done |]. rewrite <- Hl in *.
      rewrite (vget_Ok _ _ x) by (done || lia). simpl. unfold max_size in Hs.
      by rewrite u64_small by lia. }
    cbn [mbind outcome_bind fst snd]. rewrite IH; [| | done].
    + simpl. do 2 f_equal. f_equal. rewrite Zplus_mod_idemp_l. f_equal. lia.
    + split; simpl; [| done]. intros _. apply Z.mod_pos_bound. lia.
Qed.
End ThreadGroupFacts.

(** ** Properties *)

(** Connections are spread evenly over the loops.  After [start] with [n] threads, the
    first [k] calls of [get_nextloop] return the loops in turn, starting with the first;
    in [n] calls, every loop is returned exactly once. *)
Theorem loops_in_turn (n : Z) (base fresh : nat) (k : nat) :
  0 < n <= max_size ->
  exists ls p',
    EventLoopPool.next_loops k
      (EventLoopPool.start fresh (EventLoopPool.set_threads n (EventLoopPool.init base))) = Ok (ls, p') /\
    ls = (fun i => (fresh + Z.to_nat i)%nat) <$> turns 0 n k /\
    EventLoopPool.next_ p' = Z.of_nat k mod n /\
    (k = Z.to_nat n -> NoDup ls /\ length ls = Z.to_nat n).
Proof.
  intros Hn. set (p := EventLoopPool.start _ _).
  assert (EventLoopPool.loops_ p = seq fresh (Z.to_nat n)) as Hl.
  { unfold p, EventLoopPool.start. by rewrite EventLoopPoolFacts.start_loops_eq. }
  assert (EventLoopPool.next_ p = 0) as H0.
  { unfold p, EventLoopPool.start. by rewrite EventLoopPoolFacts.start_loops_eq. }
  assert (vsize (EventLoopPool.loops_ p) = n) as Hs.
  { rewrite Hl. unfold vsize. rewrite length_seq. lia. }
  eexists _, _. split.
  { apply EventLoopPoolFacts.next_loops_ok.
    - apply EventLoopPoolFacts.start_pool_ok; simpl; [done | lia].
    - intros He. rewrite He, vsize_nil in Hs. lia. }
  rewrite Hs, H0, Hl. simpl.
  assert (omap (fun i => seq fresh (Z.to_nat n) !! Z.to_nat i) (turns 0 n k) =
    (fun i => (fresh + Z.to_nat i)%nat) <$> turns 0 n k) as ->.
  { apply omap_Some, Forall_forall. intros i Hi.
    apply list_elem_of_fmap in Hi as (j & -> & _).
    pose proof (Z.mod_pos_bound (0 + Z.of_nat j) n ltac:(lia)). apply lookup_seq. lia. }
  split; [done |]. split; [done |]. intros ->. split.
  - apply NoDup_fmap_2_strong; [| apply turns_NoDup; lia]. intros i j Hi Hj.
    apply list_elem_of_fmap in Hi as (i' & -> & _), Hj as (j' & -> & _).
    pose proof (Z.mod_pos_bound (0 + Z.of_nat i') n ltac:(lia)).
    pose proof (Z.mod_pos_bound (0 + Z.of_nat j') n ltac:(lia)). lia.
  - unfold turns. by rewrite !length_fmap, length_seq.
Qed.

Lemma loops_in_turn_witness : exists ls p',
  EventLoopPool.next_loops 5
    (EventLoopPool.start 10 (EventLoopPool.set_threads 3 (EventLoopPool.init 0%nat))) = Ok (ls, p') /\
  ls = [10; 11; 12; 10; 11]%nat /\ EventLoopPool.next_ p' = 2.
Proof.
  destruct (loops_in_turn 3 0%nat 10%nat 5) as (ls & p' & H1 & H2 & H3 & _); [split; done |].
  exists ls, p'. split; [exact H1 |]. split; [exact H2 | exact H3].
Defined.

(** Pushing on a worker that has room. *)
Definition push_all (ts : list Task) (w : ThreadGroup.ThreadWorker) : ThreadGroup.ThreadWorker :=
  foldl (fun w t => (ThreadGroup.worker_push t w).2) w ts.

Lemma push_all_tasks ts w :
  max_count_ (ThreadGroup.tasks_ w) = 100000 ->
  vsize (queue_ (ThreadGroup.tasks_ w)) + vsize ts <= 100000 ->
  ThreadGroup.tasks_ (push_all ts w) =
    mk_bq (queue_ (ThreadGroup.tasks_ w) ++ ts) 100000 (exit_ (ThreadGroup.tasks_ w)) /\
  ThreadGroup.running (push_all ts w) = ThreadGroup.running w.
Proof.
  revert w. induction ts as [| t ts IH]; intros [[l mx ex] r] Hm Hs; cbn [ThreadGroup.tasks_ ThreadGroup.running queue_ max_count_ exit_] in *.
  - subst mx. simpl. by rewrite app_nil_r.
  - rewrite vsize_cons in Hs. pose proof (vsize_nonneg ts). subst mx.
    assert (ThreadGroup.worker_push t (ThreadGroup.mk_worker (mk_bq l 100000 ex) r) =
      (true, ThreadGroup.mk_worker (mk_bq (l ++ [t]) 100000 ex) r)) as Hpush.
    { unfold ThreadGroup.worker_push, push. simpl.
      destruct (Z.leb_spec 100000 (vsize l)); [lia | done]. }
    set (w0 := ThreadGroup.mk_worker _ _) in *.
    change (push_all (t :: ts) w0) with (push_all ts (ThreadGroup.worker_push t w0).2).
    rewrite Hpush. unfold w0. simpl.
    destruct (IH (ThreadGroup.mk_worker (mk_bq (l ++ [t]) 100000 ex) r)) as [H1 H2]; simpl.
    + done.
    + rewrite vsize_app. change (vsize [t]) with 1. lia.
    + rewrite H1, H2. simpl. by rewrite <- app_assoc.
Qed.

(** The workers of a group execute their tasks in order, and drop them when they are
    stopped.  A group starts only with at least one thread, a positive limit and no
    workers; every worker then takes up to 100000 tasks, whatever limit was asked for;
    it executes the tasks pushed to it in their order, except the empty ones; and once
    it is stopped it executes nothing of what is left in its queue and ends. *)
Theorem workers_run_in_order (thread_num max_task : Z) (g : ThreadGroup.ThreadGroup)
    (w : ThreadGroup.ThreadWorker) (ts : list Task) (fuel : nat) :
  ThreadGroup.start thread_num max_task ThreadGroup.init = (0, g) ->
  w ∈ ThreadGroup.workers_ g -> vsize ts <= 100000 -> (length ts < fuel)%nat ->
  1 <= thread_num /\ 1 <= max_task /\ vsize (ThreadGroup.workers_ g) = thread_num /\
  ThreadGroup.run fuel (ThreadGroup.tasks_ (push_all ts w)) =
    (filter (fun t => t <> 0%nat) ts, false, mk_bq [] 100000 false) /\
  ThreadGroup.run fuel (ThreadGroup.tasks_ (ThreadGroup.worker_stop (push_all ts w)).2) =
    ([], true, mk_bq ts 100000 true).
Proof.
  unfold ThreadGroup.start. destruct (Z.ltb_spec thread_num 1); [done |].
  destruct (Z.ltb_spec max_task 1); [done |]. intros [= <-] Hw Hts Hf. simpl in *.
  apply elem_of_replicate in Hw as [-> _]. split; [done |]. split; [done |].
  split; [unfold vsize; rewrite length_replicate; lia |].
  destruct (push_all_tasks ts (ThreadGroup.ThreadWorker_init 100000)) as [Ht Hr]; [done | done |].
  simpl in Ht, Hr. split.
  - rewrite Ht. by rewrite ThreadGroupFacts.run_executes.
  - unfold ThreadGroup.worker_stop. rewrite Hr. simpl. rewrite Ht. unfold notify_exit. simpl.
    destruct fuel as [| fuel]; [lia |]. by rewrite ThreadGroupFacts.run_exits.
Qed.

Lemma workers_run_in_order_witness : exists g w,
  ThreadGroup.start 2 1 ThreadGroup.init = (0, g) /\ ThreadGroup.workers_ g = [w; w] /\
  ThreadGroup.run 5 (ThreadGroup.tasks_ (push_all [4; 0; 6]%nat w)) =
    ([4; 6]%nat, false, mk_bq [] 100000 false).
Proof.
  eexists _, (ThreadGroup.ThreadWorker_init 100000). split; [reflexivity |]. split; [reflexivity |].
  refine (proj1 (proj2 (proj2 (proj2 (workers_run_in_order 2 1 _ _ [4; 0; 6]%nat 5 eq_refl _ _ _))))).
  - left.
  - done.
  - simpl. lia.
Defined.
