(* ===== verification/TcpServer.v ===== *)
(** * TcpServer: accepting connections ([src/code/TcpServer.h], [TcpServer.cpp])

    The server keeps one [async_accept] outstanding, gives every connection a number and
    a loop of its pool, and holds the connections until they are closed.  The world
    ([server]) also has the connection objects, and the loops that were destroyed.  The
    callbacks of the application are not part of it; they are taken not to throw. *)

From S2P Require Import Prelude.
From S2P Require Import Cpp.
From S2P Require Import Pools.
From stdpp Require Import gmap list.
Local Open Scope Z_scope.

(** A connection: its accept is outstanding; [handle_establish] was dispatched to its loop;
    [connected_] is set; [connected_] was cleared again. *)
Inductive conn_state := Accepting | Establishing | Established | Shut.
#[export] Instance conn_state_eq_dec : EqDecision conn_state.
Proof. solve_decision. Defined.

(** A connection: the number in its name, its loop, and its state. *)
Record Conn := mk_Conn { c_number : Z; c_loop : nat; c_state : conn_state }.

Record server := mk_server {
  acceptor_open : bool;
  count_ : Z;                               (* uint32_t *)
  connections_ : gset nat;
  pool_ : EventLoopPool.EventLoopPool;      (* its base loop is [loop_] *)
  posted : nat;                             (* [accept_loop] tasks in the loop *)
  accepts : list (nat * bool);              (* outstanding; true: the acceptor was closed since *)
  conns : gmap nat Conn;
  freed : list nat;                         (* the loops that were destroyed *)
  fresh : nat;
  escaped : bool                            (* an exception has left [loop_->loop()] *)
}.

Definition TcpServer_init (loop : nat) : server :=
  mk_server false 0 ∅ (EventLoopPool.init loop) 0 [] ∅ [] 0 false.

Definition set_open (b : bool) (s : server) : server :=
  mk_server b (count_ s) (connections_ s) (pool_ s) (posted s) (accepts s) (conns s) (freed s)
    (fresh s) (escaped s).
Definition set_count (n : Z) (s : server) : server :=
  mk_server (acceptor_open s) n (connections_ s) (pool_ s) (posted s) (accepts s) (conns s) (freed s)
    (fresh s) (escaped s).
Definition set_connections (m : gset nat) (s : server) : server :=
  mk_server (acceptor_open s) (count_ s) m (pool_ s) (posted s) (accepts s) (conns s) (freed s)
    (fresh s) (escaped s).
Definition set_pool (p : EventLoopPool.EventLoopPool) (s : server) : server :=
  mk_server (acceptor_open s) (count_ s) (connections_ s) p (posted s) (accepts s) (conns s) (freed s)
    (fresh s) (escaped s).
Definition set_posted (n : nat) (s : server) : server :=
  mk_server (acceptor_open s) (count_ s) (connections_ s) (pool_ s) n (accepts s) (conns s) (freed s)
    (fresh s) (escaped s).
Definition set_accepts (l : list (nat * bool)) (s : server) : server :=
  mk_server (acceptor_open s) (count_ s) (connections_ s) (pool_ s) (posted s) l (conns s) (freed s)
    (fresh s) (escaped s).
Definition set_conns (m : gmap nat Conn) (s : server) : server :=
  mk_server (acceptor_open s) (count_ s) (connections_ s) (pool_ s) (posted s) (accepts s) m (freed s)
    (fresh s) (escaped s).
Definition set_freed (l : list nat) (s : server) : server :=
  mk_server (acceptor_open s) (count_ s) (connections_ s) (pool_ s) (posted s) (accepts s) (conns s) l
    (fresh s) (escaped s).
Definition escape (s : server) : server :=
  mk_server (acceptor_open s) (count_ s) (connections_ s) (pool_ s) (posted s) (accepts s) (conns s)
    (freed s) (fresh s) true.
(** A new connection; its accept is outstanding. *)
Definition add_conn (c : Conn) (s : server) : server :=
  mk_server (acceptor_open s) (count_ s) (connections_ s) (pool_ s) (posted s)
    (accepts s ++ [(fresh s, false)]) (<[fresh s := c]> (conns s)) (freed s) (S (fresh s)) (escaped s).

Definition in_state (st : conn_state) (c : Conn) : Conn := mk_Conn (c_number c) (c_loop c) st.
Definition set_state (st : conn_state) (a : nat) (s : server) : server :=
  set_conns (alter (in_state st) a (conns s)) s.

Definition set_io_threads (n : Z) (s : server) : server :=
  set_pool (EventLoopPool.set_threads n (pool_ s)) s.

(** [start(ip_str, port)]: whether [ip_str] is an address ([None] is null), and what the
    operating system answers to opening, to the two options, to bind and to listen.  An
    acceptor that is open cannot be opened again. *)
Definition start (ip : option bool) (port : Z) (open reuse abort bind listen : bool) (loop0 : nat)
    (s : server) : bool * server :=
  match ip with
  | None => (false, s)
  | Some valid =>
      if port =? 0 then (false, s)
      else if negb valid then (false, s)
      else if acceptor_open s || negb open then (false, s)
      else
        let s := set_open true s in
        if negb (reuse && abort && bind && listen) then (false, s)
        else (true, set_posted (S (posted s)) (set_pool (EventLoopPool.start loop0 (pool_ s)) s))
  end.

Definition accept_loop (s : server) : outcome server :=
  let s := set_count (u32 (count_ s + 1)) s in
  r ← EventLoopPool.get_nextloop (pool_ s);
  mret (add_conn (mk_Conn (count_ s) r.1 Accepting) (set_pool r.2 s)).

(** [ioloop->dispatch(handle_establish)] in the loop of the server: it runs at once when
    that is the loop of the connection, and is posted otherwise. *)
Definition dispatch_establish (a : nat) (s : server) : server :=
  match conns s !! a with
  | Some c => set_state (if (c_loop c =? EventLoopPool.baseloop_ (pool_ s))%nat then Established
                         else Establishing) a s
  | None => s
  end.

(** [operation_aborted] is told apart from the other errors.  A connection that the peer has
    reset already makes [init()] throw: [set_option] and [remote_endpoint] are called
    without an error code. *)
Inductive accept_result := Success (init : bool) | Operation_aborted | Other_error.

(** The exception of [init()] leaves [handle_accept] before [accept_loop], and nothing in
    [EventLoop::loop] catches it. *)
Definition handle_accept (a : nat) (ec : accept_result) (s : server) : outcome server :=
  match ec with
  | Success init =>
      let s := set_connections (connections_ s ∪ {[a]}) s in
      if init : bool then accept_loop (dispatch_establish a s) else mret (escape s)
  | _ =>
      let s := set_conns (delete a (conns s)) (set_count (u32 (count_ s - 1)) s) in
      match ec with Operation_aborted => mret s | _ => accept_loop s end
  end.

(** [remove_conn_loop], for the close callback of a connection. *)
Definition remove_conn (a : nat) (s : server) : server :=
  set_connections (connections_ s ∖ {[a]}) s.

(** [close()] of a connection goes through its loop, where a [handle_establish] that was
    posted before runs first; [close_loop] clears [connected_]. *)
Definition close (a : nat) (s : server) : outcome server :=
  match conns s !! a with
  | None => mret s
  | Some c =>
      if decide (c_loop c ∈ freed s) then Undefined "use of a destroyed EventLoop"
      else mret (match c_state c with Accepting => s | _ => set_state Shut a s end)
  end.
Fixpoint close_all (l : list nat) (s : server) : outcome server :=
  match l with
  | [] => mret s
  | a :: l => s ← close a s; close_all l s
  end.

(** [stop()]: the loops of the pool are joined and destroyed first. *)
Definition stop (s : server) : outcome server :=
  let s := set_freed (freed s ++ EventLoopPool.loops_ (pool_ s)) (set_pool (EventLoopPool.stop (pool_ s)) s) in
  let s := if acceptor_open s
           then set_open false (set_accepts ((fun x => (x.1, true)) <$> accepts s) s) else s in
  close_all (elements (connections_ s)) s.

(** ** Events *)

(** The tasks of the server's loop, and what a connection does in its own loop. *)
Inductive event :=
  | Run_posted
  | Accepted (a : nat) (ec : accept_result)
  | Removed (a : nat)                        (* the close callback of [a]; it may come twice *)
  | Establishes (a : nat)                    (* the posted [handle_establish] of [a] *)
  | Shuts (a : nat).                         (* [close_loop] or [handle_close] of [a] *)

Definition in_states (a : nat) (sts : list conn_state) (s : server) : bool :=
  match conns s !! a with Some c => bool_decide (c_state c ∈ sts) | None => false end.

Definition enabled (e : event) (s : server) : bool :=
  match e with
  | Run_posted => negb (escaped s) && negb (posted s =? 0)%nat
  | Accepted a Operation_aborted => negb (escaped s) && bool_decide ((a, true) ∈ accepts s)
  | Accepted a (Success _) => negb (escaped s) && acceptor_open s && bool_decide ((a, false) ∈ accepts s)
  | Accepted a Other_error => negb (escaped s) && bool_decide ((a, false) ∈ accepts s)
  | Removed a => negb (escaped s) && in_states a [Shut] s
  | Establishes a => in_states a [Establishing] s
  | Shuts a => in_states a [Established; Shut] s
  end.

Definition take_accept (a : nat) (s : server) : server :=
  set_accepts (filter (fun x => x.1 <> a) (accepts s)) s.

Definition handle (e : event) (s : server) : outcome server :=
  match e with
  | Run_posted => accept_loop (set_posted (pred (posted s)) s)
  | Accepted a ec => handle_accept a ec (take_accept a s)
  | Removed a => mret (remove_conn a s)
  | Establishes a => mret (set_state Established a s)
  | Shuts a => mret (set_state Shut a s)
  end.

Fixpoint run (es : list event) (s : server) : outcome server :=
  match es with
  | [] => mret s
  | e :: es => if enabled e s then s ← handle e s; run es s else run es s
  end.

(** ** The invariant *)

Section serving.
(** The loops of the pool, none of which is destroyed. *)
Context (L : list nat).

Definition pool_kept (s : server) : Prop :=
  EventLoopPoolFacts.pool_ok (pool_ s) /\ EventLoopPool.loops_ (pool_ s) = L /\ freed s = [].

(** A connection whose accept has succeeded.  Without threads [handle_establish] is never
    posted. *)
Definition accepted (p : EventLoopPool.EventLoopPool) (c : Conn) : Prop :=
  EventLoopPoolFacts.own_loop p (c_loop c) /\ c_state c <> Accepting /\
  (c_loop c = EventLoopPool.baseloop_ p -> c_state c <> Establishing).

(** All connections but [p] are accepted and numbered up to [top]. *)
Record registered (top : Z) (p : option nat) (s : server) : Prop := {
  rg_pool : pool_kept s;
  rg_open : acceptor_open s = true;
  rg_conns a c : conns s !! a = Some c -> Some a <> p ->
    (a < fresh s)%nat /\ accepted (pool_ s) c /\ 1 <= c_number c <= top;
  rg_distinct a b c c' : conns s !! a = Some c -> conns s !! b = Some c' ->
    Some a <> p -> Some b <> p -> c_number c = c_number c' -> a = b;
  rg_held a : a ∈ connections_ s -> Some a <> p /\ is_Some (conns s !! a)
}.

(** One [accept_loop] is about to run, or one [async_accept] is outstanding; or [init()] has
    thrown. *)
Inductive server_ok (k : nat) (s : server) : Prop :=
  | Posted :
      posted s = 1%nat -> accepts s = [] -> 0 <= count_ s <= Z.of_nat k -> escaped s = false ->
      registered (count_ s) None s -> server_ok k s
  | Outstanding a l :
      posted s = 0%nat -> accepts s = [(a, false)] -> 1 <= count_ s <= Z.of_nat k -> escaped s = false ->
      conns s !! a = Some (mk_Conn (count_ s) l Accepting) -> (a < fresh s)%nat ->
      EventLoopPoolFacts.own_loop (pool_ s) l ->
      registered (count_ s - 1) (Some a) s -> server_ok k s
  | Stuck a l :
      posted s = 0%nat -> accepts s = [] -> escaped s = true -> a ∈ connections_ s ->
      conns s !! a = Some (mk_Conn (count_ s) l Accepting) -> pool_kept s ->
      (forall b, b ∈ connections_ s ->
         exists c, conns s !! b = Some c /\ EventLoopPoolFacts.own_loop (pool_ s) (c_loop c)) ->
      server_ok k s.

Lemma own_loop_eq p q x :
  EventLoopPool.loops_ p = EventLoopPool.loops_ q -> EventLoopPool.baseloop_ p = EventLoopPool.baseloop_ q ->
  EventLoopPoolFacts.own_loop p x -> EventLoopPoolFacts.own_loop q x.
Proof. unfold EventLoopPoolFacts.own_loop. by intros -> ->. Qed.

Lemma accept_loop_ok k s :
  posted s = 0%nat -> accepts s = [] -> 0 <= count_ s <= Z.of_nat k -> Z.of_nat k < 2 ^ 32 - 1 ->
  escaped s = false -> registered (count_ s) None s ->
  exists s', accept_loop s = Ok s' /\ server_ok (S k) s'.
Proof.
  intros Hp Ha Hc Hk He [(Hpool & HL & Hfr) Hopen Hconns Hdist Hheld]. unfold accept_loop. simpl.
  destruct (EventLoopPoolFacts.get_nextloop_ok _ Hpool) as (x & q & -> & Hq & Hl & Hb & Hx). simpl.
  unfold u32. rewrite Z.mod_small by lia. eexists. split; [reflexivity |].
  assert (forall y, EventLoopPoolFacts.own_loop (pool_ s) y -> EventLoopPoolFacts.own_loop q y) as Hown
    by (intros y; by apply own_loop_eq).
  apply (Outstanding _ _ (fresh s) x); simpl; try done; [by rewrite Ha | lia | by rewrite lookup_insert_eq | lia | by apply Hown |].
  assert (forall a c, <[fresh s := mk_Conn (count_ s + 1) x Accepting]> (conns s) !! a = Some c ->
    Some a <> Some (fresh s) -> conns s !! a = Some c) as Hold.
  { intros a c. destruct (decide (a = fresh s)) as [-> |]; [done |]. by rewrite lookup_insert_ne by done. }
  split; simpl; [unfold pool_kept; simpl; by rewrite Hl | done | | |].
  - intros a c Hac Hne. apply Hold in Hac; [| done]. destruct (Hconns a c Hac) as (? & (? & ? & ?) & ?); [done |].
    split_and!; [lia | | lia | lia]. split_and!; [by apply Hown | done | by rewrite Hb].
  - intros a b c c' Hac Hbc Hna Hnb. apply Hold in Hac, Hbc; [| done..]. by apply Hdist.
  - intros a Hin. destruct (Hheld a Hin) as [_ [c Hac]]. destruct (Hconns a c Hac) as (Hlt & _); [done |].
    assert (a <> fresh s) by lia. split; [congruence |]. rewrite lookup_insert_ne by done. by exists c.
Qed.

Lemma lookup_set_state st a b s c :
  conns (set_state st a s) !! b = Some c ->
  exists c0, conns s !! b = Some c0 /\ c_number c = c_number c0 /\ c_loop c = c_loop c0 /\
    (b <> a -> c = c0) /\ (b = a -> c_state c = st).
Proof.
  simpl. destruct (decide (b = a)) as [-> | Hb].
  - rewrite lookup_alter_eq. destruct (conns s !! a) as [c0 |]; [| done]. intros [= <-]. by exists c0.
  - rewrite lookup_alter_ne by done. intros Hc. by exists c.
Qed.
Lemma is_Some_set_state st a b s : is_Some (conns s !! b) -> is_Some (conns (set_state st a s) !! b).
Proof.
  intros [c Hc]. simpl. destruct (decide (b = a)) as [-> | Hb];
    [rewrite lookup_alter_eq, Hc | rewrite lookup_alter_ne, Hc by done]; by eexists.
Qed.

(** The state of a connection changes. *)
Lemma registered_state top p st a s :
  registered top p s -> Some a <> p ->
  (forall c, conns s !! a = Some c -> accepted (pool_ s) c -> accepted (pool_ s) (in_state st c)) ->
  registered top p (set_state st a s).
Proof.
  intros [Hpool Hopen Hconns Hdist Hheld] Ha Hst. split; [done | done | | |].
  - intros b c (c0 & Hc0 & Hn & Hl & Hne & Heq)%lookup_set_state Hb.
    destruct (Hconns b c0 Hc0 Hb) as (? & Hacc & ?). split_and!; [done | | lia | lia].
    destruct (decide (b = a)) as [-> |]; [| by rewrite (Hne ltac:(done))].
    apply (Hst c0 Hc0) in Hacc as (? & ? & ?). unfold accepted. by rewrite Hl, (Heq eq_refl).
  - intros b1 b2 c1 c2 (d1 & Hd1 & Hn1 & _)%lookup_set_state (d2 & Hd2 & Hn2 & _)%lookup_set_state.
    rewrite Hn1, Hn2. by apply Hdist.
  - intros b Hb. destruct (Hheld b Hb). split; [done |]. by apply is_Some_set_state.
Qed.

(** The pending accept succeeds. *)
Lemma registered_established a l s :
  conns s !! a = Some (mk_Conn (count_ s) l Accepting) -> (a < fresh s)%nat -> 1 <= count_ s ->
  EventLoopPoolFacts.own_loop (pool_ s) l -> registered (count_ s - 1) (Some a) s ->
  registered (count_ s) None (dispatch_establish a (set_connections (connections_ s ∪ {[a]}) s)).
Proof.
  intros Ha Hlt Hc Hown [Hpool Hopen Hconns Hdist Hheld]. unfold dispatch_establish. simpl. rewrite Ha. simpl.
  set (st := if (l =? _)%nat then Established else Establishing).
  assert (st <> Accepting /\ (l = EventLoopPool.baseloop_ (pool_ s) -> st <> Establishing)) as [Hst1 Hst2].
  { unfold st. destruct (Nat.eqb_spec l (EventLoopPool.baseloop_ (pool_ s))); by split. }
  split; [done | done | | |].
  - intros b c (c0 & Hc0 & Hn & Hl & Hne & Heq)%lookup_set_state _. simpl in Hc0.
    destruct (decide (b = a)) as [-> | Hb].
    + rewrite Ha in Hc0. injection Hc0 as <-. simpl in *. split_and!; [done | | lia | lia].
      unfold accepted. rewrite Hl, (Heq eq_refl). simpl. by split_and!.
    + rewrite (Hne Hb) in *. destruct (Hconns b c0 Hc0) as (? & ? & ?); [congruence |]. split_and!; done || lia.
  - intros b1 b2 c1 c2 (d1 & Hd1 & Hn1 & _)%lookup_set_state (d2 & Hd2 & Hn2 & _)%lookup_set_state _ _.
    simpl in Hd1, Hd2. rewrite Hn1, Hn2. intros Heq.
    destruct (decide (b1 = a)) as [-> | H1], (decide (b2 = a)) as [-> | H2].
    + done.
    + rewrite Ha in Hd1. injection Hd1 as <-. simpl in Heq. destruct (Hconns _ _ Hd2) as (_ & _ & ?); [congruence | lia].
    + rewrite Ha in Hd2. injection Hd2 as <-. simpl in Heq. destruct (Hconns _ _ Hd1) as (_ & _ & ?); [congruence | lia].
    + by apply (Hdist b1 b2 d1 d2); try congruence.
  - intros b Hin. split; [done |]. apply is_Some_set_state. simpl in *.
    destruct (decide (b = a)) as [-> |]; [by rewrite Ha; eexists |]. apply Hheld. set_solver.
Qed.

(** It fails. *)
Lemma registered_failed a n s :
  registered n (Some a) s ->
  registered n None (set_conns (delete a (conns s)) (set_count n s)).
Proof.
  intros [Hpool Hopen Hconns Hdist Hheld].
  assert (forall b c, delete a (conns s) !! b = Some c -> b <> a /\ conns s !! b = Some c) as Hdel.
  { intros b c. destruct (decide (b = a)) as [-> | Hb]; [by rewrite lookup_delete_eq |].
    by rewrite lookup_delete_ne by done. }
  split; simpl; [done | done | | |].
  - intros b c [Hb Hbc]%Hdel _. apply Hconns; congruence.
  - intros b1 b2 c1 c2 [Hb1 Hc1]%Hdel [Hb2 Hc2]%Hdel _ _. apply Hdist; congruence.
  - intros b Hin. split; [done |]. destruct (Hheld b Hin) as [Hb Hs].
    by rewrite lookup_delete_ne by congruence.
Qed.

Lemma registered_drop top p a s : registered top p s -> registered top p (remove_conn a s).
Proof. intros [? ? ? ? Hheld]. split; simpl; try done. intros b Hb. apply Hheld. set_solver. Qed.

(** The fields that [registered] does not look at. *)
Lemma registered_same top p s s' :
  registered top p s -> acceptor_open s' = acceptor_open s -> connections_ s' = connections_ s ->
  pool_ s' = pool_ s -> conns s' = conns s -> fresh s' = fresh s -> freed s' = freed s ->
  registered top p s'.
Proof. intros [] H1 H2 H3 H4 H5 H6. split; unfold pool_kept; rewrite ?H1, ?H2, ?H3, ?H4, ?H5, ?H6; done. Qed.

Lemma dispatch_establish_same a s :
  let s' := dispatch_establish a s in
  posted s' = posted s /\ accepts s' = accepts s /\ count_ s' = count_ s /\ escaped s' = escaped s.
Proof. unfold dispatch_establish. by destruct (conns s !! a). Qed.

Lemma server_ok_weaken k s : server_ok k s -> server_ok (S k) s.
Proof. intros []; [apply Posted | eapply Outstanding | eapply Stuck]; done || lia. Qed.

Lemma in_states_spec a sts s :
  bool_decide (Accepting ∈ sts) = false -> in_states a sts s = true ->
  exists c, conns s !! a = Some c /\ c_state c <> Accepting.
Proof.
  unfold in_states. intros Hn%bool_decide_eq_false. destruct (conns s !! a) as [c |]; [| done].
  intros H%bool_decide_eq_true. exists c. split; [done |]. intros Heq. apply Hn. by rewrite <- Heq.
Qed.

(** What connections do in their loops. *)
Lemma server_ok_state k st a s c :
  server_ok k s -> conns s !! a = Some c -> c_state c <> Accepting -> st ∈ [Established; Shut] ->
  server_ok k (set_state st a s).
Proof.
  intros Hs Hc Hst Hin.
  assert (forall d, accepted (pool_ s) d -> accepted (pool_ s) (in_state st d)) as Hacc.
  { intros d (? & ? & ?). split_and!; simpl; [done | set_solver | set_solver]. }
  assert (forall b l, conns s !! b = Some (mk_Conn (count_ s) l Accepting) ->
    b <> a /\ conns (set_state st a s) !! b = Some (mk_Conn (count_ s) l Accepting)) as Hkeep.
  { intros b l Hb. assert (b <> a) as Hne by (intros ->; rewrite Hb in Hc; by injection Hc as <-).
    split; [done |]. simpl. by rewrite lookup_alter_ne. }
  destruct Hs as [Hp Ha Hn He Hr | b l Hp Ha Hn He Hb Hlt Hown Hr | b l Hp Ha He Hbin Hb Hpool Hheld].
  - apply Posted; try done. by apply registered_state; auto.
  - destruct (Hkeep b l Hb) as [Hne Hb']. eapply Outstanding; try done.
    apply registered_state; [done | congruence | auto].
  - destruct (Hkeep b l Hb) as [Hne Hb']. eapply Stuck; try done.
    intros b' Hb''. destruct (Hheld b' Hb'') as (c' & Hc' & Hown).
    destruct (is_Some_set_state st a b' s ltac:(by eexists)) as [d Hd]. exists d. split; [done |].
    apply lookup_set_state in Hd as (d0 & Hd0 & _ & -> & _). rewrite Hc' in Hd0. injection Hd0 as <-. exact Hown.
Qed.

Lemma server_handle_ok k e s :
  server_ok k s -> Z.of_nat k < 2 ^ 32 - 1 -> enabled e s = true ->
  exists s', handle e s = Ok s' /\ server_ok (S k) s'.
Proof.
  intros Hs Hk He. destruct e as [| a ec | a | a | a]; cbn [handle].
  - simpl in He. destruct Hs as [Hp Ha Hc Hes Hr | a l Hp | a l Hp]; rewrite Hp in He; [| by rewrite andb_false_r in He..].
    apply (accept_loop_ok k); simpl; try done; [by rewrite Hp |]. by eapply registered_same.
  - assert (escaped s = false /\ exists b, (a, b) ∈ accepts s /\ (b = true <-> ec = Operation_aborted)) as (Hes & b & Hin & Hb).
    { simpl in He. destruct ec; rewrite !andb_true_iff, negb_true_iff, bool_decide_eq_true in He;
        (split; [apply He |]); [exists false | exists true | exists false]; (split; [apply He | done]). }
    destruct Hs as [Hp Ha Hc _ Hr | a' l Hp Ha Hc _ Hcon Hlt Hown Hr | a' l _ _ Hes']; [| | congruence].
    { rewrite Ha in Hin. set_solver. }
    rewrite Ha in Hin. apply list_elem_of_singleton in Hin. injection Hin as -> ->.
    assert (accepts (take_accept a' s) = []) as Hta.
    { unfold take_accept. simpl. rewrite Ha. rewrite filter_cons_False by naive_solver. done. }
    set (s0 := take_accept a' s) in *.
    assert (registered (count_ s - 1) (Some a') s0) as Hr0 by (by eapply registered_same).
    destruct ec as [[] | |]; cbn [handle_accept].
    + destruct (dispatch_establish_same a' (set_connections (connections_ s0 ∪ {[a']}) s0)) as (H1 & H2 & H3 & H4).
      apply (accept_loop_ok k); [by rewrite H1 | by rewrite H2 | rewrite H3; simpl; lia | done | by rewrite H4 |].
      rewrite H3. by apply (registered_established a' l s0); try done; simpl; lia.
    + eexists. split; [reflexivity |]. destruct Hr as [Hpool Hopen Hconns Hdist Hheld].
      eapply (Stuck _ _ a' l); simpl; try done; [set_solver |].
      intros b' [Hb' | ->%elem_of_singleton]%elem_of_union; [| by eexists].
      destruct (Hheld b' Hb') as [Hne [c Hc']]. exists c. split; [done |]. by apply (Hconns b' c Hc' Hne).
    + naive_solver.
    + assert (u32 (count_ s - 1) = count_ s - 1) as Hu by (unfold u32; apply Z.mod_small; lia).
      simpl. rewrite Hu. apply (accept_loop_ok k); simpl; try done; [lia |].
      by apply (registered_failed a' (count_ s - 1) s0).
  - eexists. split; [reflexivity |]. apply server_ok_weaken.
    destruct Hs as [Hp Ha Hc Hes Hr | a' l Hp Ha Hc Hes Hcon Hlt Hown Hr | a' l _ _ Hes _ _ _ _].
    + apply Posted; simpl; try done. by apply registered_drop.
    + apply (Outstanding _ _ a' l); simpl; try done. by apply registered_drop.
    + simpl in He. by rewrite Hes in He.
  - eexists. split; [reflexivity |]. apply server_ok_weaken. apply in_states_spec in He as (c & Hc & Hna); [| done].
    eapply server_ok_state; [done | exact Hc | exact Hna | set_solver].
  - eexists. split; [reflexivity |]. apply server_ok_weaken. apply in_states_spec in He as (c & Hc & Hna); [| done].
    eapply server_ok_state; [done | exact Hc | exact Hna | set_solver].
Qed.

Lemma server_run_ok k es s :
  server_ok k s -> Z.of_nat (k + length es) < 2 ^ 32 - 1 ->
  exists s', run es s = Ok s' /\ server_ok (k + length es) s'.
Proof.
  revert k s. induction es as [| e es IH]; intros k s Hs Hk.
  - exists s. by rewrite Nat.add_0_r.
  - cbn [run length] in *. rewrite Nat.add_succ_r. destruct (enabled e s) eqn:He.
    + destruct (server_handle_ok k e s Hs ltac:(lia) He) as (s1 & -> & Hs1).
      apply (IH (S k) s1 Hs1). lia.
    + apply (IH (S k) s); [by apply server_ok_weaken | lia].
Qed.
End serving.

Lemma server_start_ok n loop loop0 ip port o r ab b l s :
  0 <= n <= max_size ->
  start ip port o r ab b l loop0 (set_io_threads n (TcpServer_init loop)) = (true, s) ->
  server_ok (seq loop0 (Z.to_nat n)) 0 s /\ escaped s = false.
Proof.
  intros Hn. unfold start. destruct ip as [valid |]; [| done].
  destruct (port =? 0); [done |]. destruct (negb valid); [done |].
  destruct (_ || negb o); [done |]. destruct (negb (_ && _)); [done |]. intros [= <-]. split; [| done].
  apply Posted; simpl; try done. split; simpl; [| done | done | done |].
  - split; [by apply EventLoopPoolFacts.start_pool_ok |]. split; [| done].
    unfold EventLoopPool.start. by rewrite EventLoopPoolFacts.start_loops_eq.
  - intros a. set_solver.
Qed.

(** Only [init()] throws. *)
Lemma escaped_step e s s' :
  handle e s = Ok s' -> escaped s = false -> escaped s' = true -> exists a, e = Accepted a (Success false).
Proof.
  intros Hh Hf Ht.
  assert (forall s1 s2, accept_loop s1 = Ok s2 -> escaped s2 = escaped s1) as Hloop.
  { intros s1 s2. unfold accept_loop. destruct (EventLoopPool.get_nextloop _); [| done..]. by intros [= <-]. }
  destruct e as [| a [[] | |] | a | a | a]; cbn [handle handle_accept] in Hh.
  - apply Hloop in Hh. simpl in Hh. congruence.
  - apply Hloop in Hh. rewrite (proj2 (proj2 (proj2 (dispatch_establish_same _ _)))) in Hh. simpl in Hh. congruence.
  - by exists a.
  - injection Hh as <-. simpl in Ht. congruence.
  - apply Hloop in Hh. simpl in Hh. congruence.
  - injection Hh as <-. simpl in Ht. congruence.
  - injection Hh as <-. simpl in Ht. congruence.
  - injection Hh as <-. simpl in Ht. congruence.
Qed.
Lemma escaped_run es s s' :
  run es s = Ok s' -> escaped s = false -> escaped s' = true -> exists a, Accepted a (Success false) ∈ es.
Proof.
  revert s. induction es as [| e es IH]; intros s Hr Hf Ht.
  - injection Hr as ->. congruence.
  - cbn [run] in Hr. destruct (enabled e s).
    + destruct (handle e s) as [s1 | |] eqn:Hh; [| done..]. simpl in Hr. destruct (escaped s1) eqn:H1.
      * destruct (escaped_step _ _ _ Hh Hf H1) as [a ->]. exists a. constructor.
      * destruct (IH s1 Hr H1 Ht) as [a Ha]. exists a. by constructor.
    + destruct (IH s Hr Hf Ht) as [a Ha]. exists a. by constructor.
Qed.

(** ** Properties *)

(** C39. The server keeps accepting until [init()] throws.  After a successful [start],
    whatever happens until [stop] (connections that arrive, errors of accept, connections
    that are established, shut and removed, each once or twice, in fewer than 2 ^ 32 - 1
    events, so that the 32-bit counter does not wrap), with callbacks of the application that
    do not throw, no step is undefined.  As long as
    no [init()] has thrown, one [async_accept] is outstanding or about to be; every
    connection the server holds has been accepted and runs on a loop of the pool, or on
    the server's own when it has no threads, where it is established at once and may have
    been shut since; and their names have different numbers.  Only a throwing [init()]
    ends this: then nothing accepts any more, and the connection it was called for stays
    among those held, never established. *)
Theorem server_keeps_accepting (n : Z) (loop loop0 : nat) (ip : option bool) (port : Z)
    (o r ab b l : bool) (s : server) (es : list event) :
  0 <= n <= max_size -> Z.of_nat (length es) < 2 ^ 32 - 1 ->
  start ip port o r ab b l loop0 (set_io_threads n (TcpServer_init loop)) = (true, s) ->
  exists s', run es s = Ok s' /\
    (escaped s' = false ->
      (posted s' + length (accepts s') = 1)%nat /\
      (forall x, x ∈ connections_ s' ->
         exists c, conns s' !! x = Some c /\ accepted (pool_ s') c) /\
      (forall x y c d, x ∈ connections_ s' -> y ∈ connections_ s' ->
         conns s' !! x = Some c -> conns s' !! y = Some d -> c_number c = c_number d -> x = y)) /\
    (escaped s' = true ->
      (exists x, Accepted x (Success false) ∈ es) /\ posted s' = 0%nat /\ accepts s' = [] /\
      (exists x c, x ∈ connections_ s' /\ conns s' !! x = Some c /\ c_state c = Accepting)).
Proof.
  intros Hn Hes Hs.
  apply server_start_ok in Hs as [Hs Hs0]; [| done].
  destruct (server_run_ok _ 0 es s Hs ltac:(simpl; lia)) as (s' & Hr & Hok). exists s'. split; [done |]. split.
  - intros He.
    assert ((posted s' + length (accepts s') = 1)%nat /\ exists top p, registered (seq loop0 (Z.to_nat n)) top p s')
      as (H1 & top & p & [_ _ Hconns Hdist Hheld]).
    { destruct Hok as [Hp Ha _ _ Hreg | a x Hp Ha _ _ _ _ _ Hreg | a x _ _ He']; [rewrite Hp, Ha; eauto.. | congruence]. }
    split; [done |]. split.
    + intros x Hx. destruct (Hheld x Hx) as [Hne [c Hc]]. exists c. split; [done |]. by apply (Hconns x c Hc Hne).
    + intros x y c d Hx Hy Hc Hd. destruct (Hheld x Hx) as [Hnx _], (Hheld y Hy) as [Hny _]. by apply Hdist.
  - intros He. split; [by eapply escaped_run |].
    destruct Hok as [? ? ? He' | ? ? ? ? ? He' | a x Hp Ha _ Hin Hc]; [congruence.. |].
    split_and!; [done | done |]. by exists a, (mk_Conn (count_ s') x Accepting).
Qed.

(** Closing a list of connections whose loops live. *)
Lemma close_all_ok l s :
  freed s = [] ->
  exists s', close_all l s = Ok s' /\
    forall a c, conns s !! a = Some c -> c_state c <> Accepting ->
      conns s' !! a = Some (if decide (a ∈ l) then in_state Shut c else c).
Proof.
  revert s. induction l as [| x l IH]; intros s Hf; cbn [close_all].
  - exists s. split; [done |]. intros a c Hc _. destruct (decide (a ∈ [])); [set_solver | done].
  - assert (exists s1, close x s = Ok s1 /\ freed s1 = [] /\ forall a c, conns s !! a = Some c ->
      c_state c <> Accepting -> conns s1 !! a = Some (if decide (a = x) then in_state Shut c else c))
      as (s1 & -> & Hf1 & Hs1).
    { unfold close. destruct (conns s !! x) as [cx |] eqn:Hx.
      - rewrite decide_False by (rewrite Hf; set_solver). eexists. split; [reflexivity |].
        destruct (decide (c_state cx = Accepting)) as [Hst | Hst].
        + rewrite Hst. split; [done |]. intros a c Hc Hne. by rewrite decide_False by congruence.
        + assert (match c_state cx with Accepting => s | _ => set_state Shut x s end = set_state Shut x s) as ->
            by (by destruct (c_state cx)).
          split; [done |]. intros a c Hc _. simpl. destruct (decide (a = x)) as [-> |].
          * by rewrite lookup_alter_eq, Hc.
          * by rewrite lookup_alter_ne by done.
      - exists s. split_and!; [done.. |]. intros a c Hc _. by rewrite decide_False by congruence. }
    cbn [mbind outcome_bind]. destruct (IH s1 Hf1) as (s' & -> & Hs'). exists s'. split; [done |].
    intros a c Hc Hst. specialize (Hs1 a c Hc Hst). destruct (decide (a = x)) as [-> | Hne].
    + rewrite (Hs' x _ Hs1) by done. f_equal. destruct (decide (x ∈ l)), (decide (x ∈ x :: l)); done || set_solver.
    + rewrite (Hs' a _ Hs1) by done. f_equal. destruct (decide (a ∈ l)), (decide (a ∈ x :: l)); done || set_solver.
Qed.

(** Stopping a server that has threads uses destroyed loops.  [stop] joins and destroys the
    loops of the pool before it closes the connections, and to close one is to post
    to its loop.  Without threads every connection the server holds is shut, unless an
    [init()] has thrown; with threads, [stop] is undefined as soon as there is a connection. *)
Theorem stop_closes_or_fails (n : Z) (loop loop0 : nat) (ip : option bool) (port : Z)
    (o r ab b l : bool) (s s' : server) (es : list event) :
  0 <= n <= max_size -> Z.of_nat (length es) < 2 ^ 32 - 1 ->
  start ip port o r ab b l loop0 (set_io_threads n (TcpServer_init loop)) = (true, s) ->
  run es s = Ok s' ->
  (n = 0 -> escaped s' = false -> exists s'', stop s' = Ok s'' /\
     forall x, x ∈ connections_ s' -> exists c, conns s'' !! x = Some c /\ c_state c = Shut) /\
  (0 < n -> connections_ s' <> ∅ -> stop s' = Undefined "use of a destroyed EventLoop").
Proof.
  intros Hn Hes Hs Hr. apply server_start_ok in Hs as [Hs _]; [| done].
  destruct (server_run_ok _ 0 es s Hs ltac:(simpl; lia)) as (s1 & Hr1 & Hok). rewrite Hr in Hr1. injection Hr1 as <-.
  set (s0 := set_freed (freed s' ++ EventLoopPool.loops_ (pool_ s'))
               (set_pool (EventLoopPool.stop (pool_ s')) s')).
  set (s2 := if acceptor_open s' then set_open false (set_accepts ((fun x => (x.1, true)) <$> accepts s0) s0) else s0).
  assert (conns s2 = conns s' /\ freed s2 = freed s' ++ EventLoopPool.loops_ (pool_ s')) as [Hc2 Hf2]
    by (unfold s2; by destruct (acceptor_open s')).
  change (stop s') with (close_all (elements (connections_ s2)) s2).
  assert (connections_ s2 = connections_ s') as -> by (unfold s2; by destruct (acceptor_open s')).
  assert (pool_kept (seq loop0 (Z.to_nat n)) s' /\ forall x, x ∈ connections_ s' ->
    exists c, conns s' !! x = Some c /\ EventLoopPoolFacts.own_loop (pool_ s') (c_loop c) /\
      (escaped s' = false -> c_state c <> Accepting)) as ((Hpool & HL & Hfr) & Hheld).
  { assert (forall top p, registered (seq loop0 (Z.to_nat n)) top p s' -> forall x, x ∈ connections_ s' ->
      exists c, conns s' !! x = Some c /\ EventLoopPoolFacts.own_loop (pool_ s') (c_loop c) /\
        (escaped s' = false -> c_state c <> Accepting)) as Hreg.
    { intros top p [_ _ Hconns _ Hheld] x Hx. destruct (Hheld x Hx) as [Hp [c Hc]].
      exists c. destruct (Hconns x c Hc Hp) as (_ & (? & ? & _) & _). done. }
    destruct Hok as [? ? ? ? Hr' | ? ? ? ? ? ? ? ? ? Hr' | a x _ _ He _ _ Hpk Hall];
      [split; [apply Hr' | by eapply Hreg].. |].
    split; [done |]. intros y Hy. destruct (Hall y Hy) as (c & Hc & Hown). exists c. split_and!; congruence || done. }
  rewrite HL, Hfr in Hf2. simpl in Hf2. split.
  - intros -> He. destruct (close_all_ok (elements (connections_ s')) s2 Hf2) as (s'' & -> & Hc'').
    exists s''. split; [done |]. intros x Hx. destruct (Hheld x Hx) as (c & Hc & _ & Hst).
    eexists. split; [apply (Hc'' x c); [by rewrite Hc2 | by apply Hst] |]. by rewrite decide_True by set_solver.
  - intros Hn0 Hne. destruct (elements (connections_ s')) as [| x xs] eqn:He.
    { by apply elements_empty_inv, leibniz_equiv in He. }
    assert (x ∈ connections_ s') as Hx by (apply elem_of_elements; rewrite He; set_solver).
    destruct (Hheld x Hx) as (c & Hc & Hown & _).
    cbn [close_all]. unfold close. rewrite Hc2, Hc, decide_True; [done |]. rewrite Hf2.
    unfold EventLoopPoolFacts.own_loop in Hown. rewrite HL in Hown.
    destruct (seq loop0 (Z.to_nat n)) eqn:Hseq; [| done].
    apply (f_equal length) in Hseq. rewrite length_seq in Hseq. simpl in Hseq. lia.
Qed.

(** A server with threads that accepts one connection, fails once and accepts another. *)
Definition started (n : Z) : server :=
  (start (Some true) 80 true true true true true 1 (set_io_threads n (TcpServer_init 0))).2.
Definition two_accepted : list event :=
  [Run_posted; Accepted 0 (Success true); Accepted 1 Other_error; Establishes 0; Accepted 2 (Success true)].
(** The second connection was reset before [init()]. *)
Definition reset_connection : list event :=
  [Run_posted; Accepted 0 (Success true); Accepted 1 (Success false); Accepted 1 (Success true)].

Lemma server_keeps_accepting_witness :
  (exists s', run two_accepted (started 2) = Ok s' /\ (posted s' + length (accepts s') = 1)%nat /\
     connections_ s' = {[0; 2]}%nat /\ in_states 0 [Established] s' = true /\
     in_states 2 [Establishing] s' = true) /\
  (exists s', run reset_connection (started 0) = Ok s' /\ accepts s' = [] /\ in_states 0 [Established] s' = true).
Proof.
  split.
  - destruct (server_keeps_accepting 2 0 1 (Some true) 80 true true true true true (started 2) two_accepted)
      as (s' & H1 & H2 & _); [unfold max_size; lia | simpl; lia | reflexivity |].
    exists s'. split; [exact H1 |].
    pose proof (f_equal (result (started 2)) H1) as Hs. change (result _ (Ok s')) with s' in Hs.
    split; [apply H2; rewrite <- Hs; vm_compute; reflexivity |].
    rewrite <- Hs. split; [vm_compute; reflexivity |]. split; vm_compute; reflexivity.
  - destruct (server_keeps_accepting 0 0 1 (Some true) 80 true true true true true (started 0) reset_connection)
      as (s' & H1 & _ & H2); [unfold max_size; lia | simpl; lia | reflexivity |].
    exists s'. split; [exact H1 |].
    pose proof (f_equal (result (started 0)) H1) as Hs. change (result _ (Ok s')) with s' in Hs.
    split; [| rewrite <- Hs; vm_compute; reflexivity].
    destruct H2 as (_ & _ & H2 & _); [rewrite <- Hs; vm_compute; reflexivity |]. exact H2.
Defined.

Lemma stop_closes_or_fails_witness :
  stop (result (started 2) (run two_accepted (started 2))) = Undefined "use of a destroyed EventLoop".
Proof.
  assert (Hr : run two_accepted (started 2) = Ok (result (started 2) (run two_accepted (started 2))))
    by (vm_compute; reflexivity).
  destruct (stop_closes_or_fails 2 0 1 (Some true) 80 true true true true true (started 2)
    (result (started 2) (run two_accepted (started 2))) two_accepted) as [_ H];
    [unfold max_size; lia | simpl; lia | reflexivity | exact Hr |].
  apply H; [lia |]. intros He.
  assert (Hx : bool_decide (0%nat ∈ connections_ (result (started 2) (run two_accepted (started 2)))) = true)
    by (vm_compute; reflexivity).
  rewrite He in Hx. vm_compute in Hx. discriminate Hx.
Defined.
