(* ===== verification/HttpTables.v ===== *)
(** * HttpTables: the enumerations, tables and character classes of the HTTP parser

    Models the declarations of [src/examples/http/http_parser.h] (methods, status
    codes, error numbers, flags) and the static tables and macros at the top of
    [src/examples/http/http_parser.c] (the states of the message, header and host
    automata, [tokens], [unhex], [normal_url_char], and the character classes),
    compiled with [HTTP_PARSER_STRICT] equal to 1, the default of the header. *)

From S2P Require Import Prelude.
Local Open Scope string_scope.
Local Open Scope Z_scope.

(** [enum http_method]. *)
Inductive http_method :=
  | HTTP_DELETE | HTTP_GET | HTTP_HEAD | HTTP_POST | HTTP_PUT | HTTP_CONNECT | HTTP_OPTIONS
  | HTTP_TRACE | HTTP_COPY | HTTP_LOCK | HTTP_MKCOL | HTTP_MOVE | HTTP_PROPFIND
  | HTTP_PROPPATCH | HTTP_SEARCH | HTTP_UNLOCK | HTTP_BIND | HTTP_REBIND | HTTP_UNBIND
  | HTTP_ACL | HTTP_REPORT | HTTP_MKACTIVITY | HTTP_CHECKOUT | HTTP_MERGE | HTTP_MSEARCH
  | HTTP_NOTIFY | HTTP_SUBSCRIBE | HTTP_UNSUBSCRIBE | HTTP_PATCH | HTTP_PURGE | HTTP_MKCALENDAR
  | HTTP_LINK | HTTP_UNLINK | HTTP_SOURCE.
#[export] Instance http_method_eq_dec : EqDecision http_method.
Proof. solve_decision. Defined.

(** [HTTP_METHOD_MAP]: the number, the name and the spelling of each method. *)
Definition HTTP_METHOD_MAP : list (Z * http_method * string) :=
  [ (0, HTTP_DELETE, "DELETE")
  ; (1, HTTP_GET, "GET")
  ; (2, HTTP_HEAD, "HEAD")
  ; (3, HTTP_POST, "POST")
  ; (4, HTTP_PUT, "PUT")
  ; (5, HTTP_CONNECT, "CONNECT")
  ; (6, HTTP_OPTIONS, "OPTIONS")
  ; (7, HTTP_TRACE, "TRACE")
  ; (8, HTTP_COPY, "COPY")
  ; (9, HTTP_LOCK, "LOCK")
  ; (10, HTTP_MKCOL, "MKCOL")
  ; (11, HTTP_MOVE, "MOVE")
  ; (12, HTTP_PROPFIND, "PROPFIND")
  ; (13, HTTP_PROPPATCH, "PROPPATCH")
  ; (14, HTTP_SEARCH, "SEARCH")
  ; (15, HTTP_UNLOCK, "UNLOCK")
  ; (16, HTTP_BIND, "BIND")
  ; (17, HTTP_REBIND, "REBIND")
  ; (18, HTTP_UNBIND, "UNBIND")
  ; (19, HTTP_ACL, "ACL")
  ; (20, HTTP_REPORT, "REPORT")
  ; (21, HTTP_MKACTIVITY, "MKACTIVITY")
  ; (22, HTTP_CHECKOUT, "CHECKOUT")
  ; (23, HTTP_MERGE, "MERGE")
  ; (24, HTTP_MSEARCH, "M-SEARCH")
  ; (25, HTTP_NOTIFY, "NOTIFY")
  ; (26, HTTP_SUBSCRIBE, "SUBSCRIBE")
  ; (27, HTTP_UNSUBSCRIBE, "UNSUBSCRIBE")
  ; (28, HTTP_PATCH, "PATCH")
  ; (29, HTTP_PURGE, "PURGE")
  ; (30, HTTP_MKCALENDAR, "MKCALENDAR")
  ; (31, HTTP_LINK, "LINK")
  ; (32, HTTP_UNLINK, "UNLINK")
  ; (33, HTTP_SOURCE, "SOURCE") ].

(** [enum http_status]. *)
Inductive http_status :=
  | HTTP_STATUS_CONTINUE | HTTP_STATUS_SWITCHING_PROTOCOLS | HTTP_STATUS_PROCESSING
  | HTTP_STATUS_OK | HTTP_STATUS_CREATED | HTTP_STATUS_ACCEPTED
  | HTTP_STATUS_NON_AUTHORITATIVE_INFORMATION | HTTP_STATUS_NO_CONTENT
  | HTTP_STATUS_RESET_CONTENT | HTTP_STATUS_PARTIAL_CONTENT | HTTP_STATUS_MULTI_STATUS
  | HTTP_STATUS_ALREADY_REPORTED | HTTP_STATUS_IM_USED | HTTP_STATUS_MULTIPLE_CHOICES
  | HTTP_STATUS_MOVED_PERMANENTLY | HTTP_STATUS_FOUND | HTTP_STATUS_SEE_OTHER
  | HTTP_STATUS_NOT_MODIFIED | HTTP_STATUS_USE_PROXY | HTTP_STATUS_TEMPORARY_REDIRECT
  | HTTP_STATUS_PERMANENT_REDIRECT | HTTP_STATUS_BAD_REQUEST | HTTP_STATUS_UNAUTHORIZED
  | HTTP_STATUS_PAYMENT_REQUIRED | HTTP_STATUS_FORBIDDEN | HTTP_STATUS_NOT_FOUND
  | HTTP_STATUS_METHOD_NOT_ALLOWED | HTTP_STATUS_NOT_ACCEPTABLE
  | HTTP_STATUS_PROXY_AUTHENTICATION_REQUIRED | HTTP_STATUS_REQUEST_TIMEOUT
  | HTTP_STATUS_CONFLICT | HTTP_STATUS_GONE | HTTP_STATUS_LENGTH_REQUIRED
  | HTTP_STATUS_PRECONDITION_FAILED | HTTP_STATUS_PAYLOAD_TOO_LARGE | HTTP_STATUS_URI_TOO_LONG
  | HTTP_STATUS_UNSUPPORTED_MEDIA_TYPE | HTTP_STATUS_RANGE_NOT_SATISFIABLE
  | HTTP_STATUS_EXPECTATION_FAILED | HTTP_STATUS_MISDIRECTED_REQUEST
  | HTTP_STATUS_UNPROCESSABLE_ENTITY | HTTP_STATUS_LOCKED | HTTP_STATUS_FAILED_DEPENDENCY
  | HTTP_STATUS_UPGRADE_REQUIRED | HTTP_STATUS_PRECONDITION_REQUIRED
  | HTTP_STATUS_TOO_MANY_REQUESTS | HTTP_STATUS_REQUEST_HEADER_FIELDS_TOO_LARGE
  | HTTP_STATUS_UNAVAILABLE_FOR_LEGAL_REASONS | HTTP_STATUS_INTERNAL_SERVER_ERROR
  | HTTP_STATUS_NOT_IMPLEMENTED | HTTP_STATUS_BAD_GATEWAY | HTTP_STATUS_SERVICE_UNAVAILABLE
  | HTTP_STATUS_GATEWAY_TIMEOUT | HTTP_STATUS_HTTP_VERSION_NOT_SUPPORTED
  | HTTP_STATUS_VARIANT_ALSO_NEGOTIATES | HTTP_STATUS_INSUFFICIENT_STORAGE
  | HTTP_STATUS_LOOP_DETECTED | HTTP_STATUS_NOT_EXTENDED
  | HTTP_STATUS_NETWORK_AUTHENTICATION_REQUIRED.
#[export] Instance http_status_eq_dec : EqDecision http_status.
Proof. solve_decision. Defined.

(** [HTTP_STATUS_MAP]: the number, the name and the reason phrase of each status. *)
Definition HTTP_STATUS_MAP : list (Z * http_status * string) :=
  [ (100, HTTP_STATUS_CONTINUE, "Continue")
  ; (101, HTTP_STATUS_SWITCHING_PROTOCOLS, "Switching Protocols")
  ; (102, HTTP_STATUS_PROCESSING, "Processing")
  ; (200, HTTP_STATUS_OK, "OK")
  ; (201, HTTP_STATUS_CREATED, "Created")
  ; (202, HTTP_STATUS_ACCEPTED, "Accepted")
  ; (203, HTTP_STATUS_NON_AUTHORITATIVE_INFORMATION, "Non-Authoritative Information")
  ; (204, HTTP_STATUS_NO_CONTENT, "No Content")
  ; (205, HTTP_STATUS_RESET_CONTENT, "Reset Content")
  ; (206, HTTP_STATUS_PARTIAL_CONTENT, "Partial Content")
  ; (207, HTTP_STATUS_MULTI_STATUS, "Multi-Status")
  ; (208, HTTP_STATUS_ALREADY_REPORTED, "Already Reported")
  ; (226, HTTP_STATUS_IM_USED, "IM Used")
  ; (300, HTTP_STATUS_MULTIPLE_CHOICES, "Multiple Choices")
  ; (301, HTTP_STATUS_MOVED_PERMANENTLY, "Moved Permanently")
  ; (302, HTTP_STATUS_FOUND, "Found")
  ; (303, HTTP_STATUS_SEE_OTHER, "See Other")
  ; (304, HTTP_STATUS_NOT_MODIFIED, "Not Modified")
  ; (305, HTTP_STATUS_USE_PROXY, "Use Proxy")
  ; (307, HTTP_STATUS_TEMPORARY_REDIRECT, "Temporary Redirect")
  ; (308, HTTP_STATUS_PERMANENT_REDIRECT, "Permanent Redirect")
  ; (400, HTTP_STATUS_BAD_REQUEST, "Bad Request")
  ; (401, HTTP_STATUS_UNAUTHORIZED, "Unauthorized")
  ; (402, HTTP_STATUS_PAYMENT_REQUIRED, "Payment Required")
  ; (403, HTTP_STATUS_FORBIDDEN, "Forbidden")
  ; (404, HTTP_STATUS_NOT_FOUND, "Not Found")
  ; (405, HTTP_STATUS_METHOD_NOT_ALLOWED, "Method Not Allowed")
  ; (406, HTTP_STATUS_NOT_ACCEPTABLE, "Not Acceptable")
  ; (407, HTTP_STATUS_PROXY_AUTHENTICATION_REQUIRED, "Proxy Authentication Required")
  ; (408, HTTP_STATUS_REQUEST_TIMEOUT, "Request Timeout")
  ; (409, HTTP_STATUS_CONFLICT, "Conflict")
  ; (410, HTTP_STATUS_GONE, "Gone")
  ; (411, HTTP_STATUS_LENGTH_REQUIRED, "Length Required")
  ; (412, HTTP_STATUS_PRECONDITION_FAILED, "Precondition Failed")
  ; (413, HTTP_STATUS_PAYLOAD_TOO_LARGE, "Payload Too Large")
  ; (414, HTTP_STATUS_URI_TOO_LONG, "URI Too Long")
  ; (415, HTTP_STATUS_UNSUPPORTED_MEDIA_TYPE, "Unsupported Media Type")
  ; (416, HTTP_STATUS_RANGE_NOT_SATISFIABLE, "Range Not Satisfiable")
  ; (417, HTTP_STATUS_EXPECTATION_FAILED, "Expectation Failed")
  ; (421, HTTP_STATUS_MISDIRECTED_REQUEST, "Misdirected Request")
  ; (422, HTTP_STATUS_UNPROCESSABLE_ENTITY, "Unprocessable Entity")
  ; (423, HTTP_STATUS_LOCKED, "Locked")
  ; (424, HTTP_STATUS_FAILED_DEPENDENCY, "Failed Dependency")
  ; (426, HTTP_STATUS_UPGRADE_REQUIRED, "Upgrade Required")
  ; (428, HTTP_STATUS_PRECONDITION_REQUIRED, "Precondition Required")
  ; (429, HTTP_STATUS_TOO_MANY_REQUESTS, "Too Many Requests")
  ; (431, HTTP_STATUS_REQUEST_HEADER_FIELDS_TOO_LARGE, "Request Header Fields Too Large")
  ; (451, HTTP_STATUS_UNAVAILABLE_FOR_LEGAL_REASONS, "Unavailable For Legal Reasons")
  ; (500, HTTP_STATUS_INTERNAL_SERVER_ERROR, "Internal Server Error")
  ; (501, HTTP_STATUS_NOT_IMPLEMENTED, "Not Implemented")
  ; (502, HTTP_STATUS_BAD_GATEWAY, "Bad Gateway")
  ; (503, HTTP_STATUS_SERVICE_UNAVAILABLE, "Service Unavailable")
  ; (504, HTTP_STATUS_GATEWAY_TIMEOUT, "Gateway Timeout")
  ; (505, HTTP_STATUS_HTTP_VERSION_NOT_SUPPORTED, "HTTP Version Not Supported")
  ; (506, HTTP_STATUS_VARIANT_ALSO_NEGOTIATES, "Variant Also Negotiates")
  ; (507, HTTP_STATUS_INSUFFICIENT_STORAGE, "Insufficient Storage")
  ; (508, HTTP_STATUS_LOOP_DETECTED, "Loop Detected")
  ; (510, HTTP_STATUS_NOT_EXTENDED, "Not Extended")
  ; (511, HTTP_STATUS_NETWORK_AUTHENTICATION_REQUIRED, "Network Authentication Required") ].

(** [enum http_errno]. *)
Inductive http_errno :=
  | HPE_OK | HPE_CB_message_begin | HPE_CB_url | HPE_CB_header_field | HPE_CB_header_value
  | HPE_CB_headers_complete | HPE_CB_body | HPE_CB_message_complete | HPE_CB_status
  | HPE_CB_chunk_header | HPE_CB_chunk_complete | HPE_INVALID_EOF_STATE | HPE_HEADER_OVERFLOW
  | HPE_CLOSED_CONNECTION | HPE_INVALID_VERSION | HPE_INVALID_STATUS | HPE_INVALID_METHOD
  | HPE_INVALID_URL | HPE_INVALID_HOST | HPE_INVALID_PORT | HPE_INVALID_PATH
  | HPE_INVALID_QUERY_STRING | HPE_INVALID_FRAGMENT | HPE_LF_EXPECTED
  | HPE_INVALID_HEADER_TOKEN | HPE_INVALID_CONTENT_LENGTH | HPE_UNEXPECTED_CONTENT_LENGTH
  | HPE_INVALID_CHUNK_SIZE | HPE_INVALID_CONSTANT | HPE_INVALID_INTERNAL_STATE | HPE_STRICT
  | HPE_PAUSED | HPE_UNKNOWN | HPE_INVALID_TRANSFER_ENCODING.
#[export] Instance http_errno_eq_dec : EqDecision http_errno.
Proof. solve_decision. Defined.

(** [HTTP_ERRNO_MAP] with the [HPE_] prefix of [http_strerror_tab]: constant, name, description. *)
Definition HTTP_ERRNO_MAP : list (http_errno * string * string) :=
  [ (HPE_OK, "HPE_OK", "success")
  ; (HPE_CB_message_begin, "HPE_CB_message_begin", "the on_message_begin callback failed")
  ; (HPE_CB_url, "HPE_CB_url", "the on_url callback failed")
  ; (HPE_CB_header_field, "HPE_CB_header_field", "the on_header_field callback failed")
  ; (HPE_CB_header_value, "HPE_CB_header_value", "the on_header_value callback failed")
  ; (HPE_CB_headers_complete, "HPE_CB_headers_complete", "the on_headers_complete callback failed")
  ; (HPE_CB_body, "HPE_CB_body", "the on_body callback failed")
  ; (HPE_CB_message_complete, "HPE_CB_message_complete", "the on_message_complete callback failed")
  ; (HPE_CB_status, "HPE_CB_status", "the on_status callback failed")
  ; (HPE_CB_chunk_header, "HPE_CB_chunk_header", "the on_chunk_header callback failed")
  ; (HPE_CB_chunk_complete, "HPE_CB_chunk_complete", "the on_chunk_complete callback failed")
  ; (HPE_INVALID_EOF_STATE, "HPE_INVALID_EOF_STATE", "stream ended at an unexpected time")
  ; (HPE_HEADER_OVERFLOW, "HPE_HEADER_OVERFLOW", "too many header bytes seen; overflow detected")
  ; (HPE_CLOSED_CONNECTION, "HPE_CLOSED_CONNECTION", "data received after completed connection: close message")
  ; (HPE_INVALID_VERSION, "HPE_INVALID_VERSION", "invalid HTTP version")
  ; (HPE_INVALID_STATUS, "HPE_INVALID_STATUS", "invalid HTTP status code")
  ; (HPE_INVALID_METHOD, "HPE_INVALID_METHOD", "invalid HTTP method")
  ; (HPE_INVALID_URL, "HPE_INVALID_URL", "invalid URL")
  ; (HPE_INVALID_HOST, "HPE_INVALID_HOST", "invalid host")
  ; (HPE_INVALID_PORT, "HPE_INVALID_PORT", "invalid port")
  ; (HPE_INVALID_PATH, "HPE_INVALID_PATH", "invalid path")
  ; (HPE_INVALID_QUERY_STRING, "HPE_INVALID_QUERY_STRING", "invalid query string")
  ; (HPE_INVALID_FRAGMENT, "HPE_INVALID_FRAGMENT", "invalid fragment")
  ; (HPE_LF_EXPECTED, "HPE_LF_EXPECTED", "LF character expected")
  ; (HPE_INVALID_HEADER_TOKEN, "HPE_INVALID_HEADER_TOKEN", "invalid character in header")
  ; (HPE_INVALID_CONTENT_LENGTH, "HPE_INVALID_CONTENT_LENGTH", "invalid character in content-length header")
  ; (HPE_UNEXPECTED_CONTENT_LENGTH, "HPE_UNEXPECTED_CONTENT_LENGTH", "unexpected content-length header")
  ; (HPE_INVALID_CHUNK_SIZE, "HPE_INVALID_CHUNK_SIZE", "invalid character in chunk size header")
  ; (HPE_INVALID_CONSTANT, "HPE_INVALID_CONSTANT", "invalid constant string")
  ; (HPE_INVALID_INTERNAL_STATE, "HPE_INVALID_INTERNAL_STATE", "encountered unexpected internal state")
  ; (HPE_STRICT, "HPE_STRICT", "strict mode assertion failed")
  ; (HPE_PAUSED, "HPE_PAUSED", "parser is paused")
  ; (HPE_UNKNOWN, "HPE_UNKNOWN", "an unknown error occurred")
  ; (HPE_INVALID_TRANSFER_ENCODING, "HPE_INVALID_TRANSFER_ENCODING", "request has invalid transfer-encoding") ].

(** [enum state]: the states of the message parser. *)
Inductive state :=
  | s_dead | s_start_req_or_res | s_res_or_resp_H | s_start_res | s_res_H | s_res_HT
  | s_res_HTT | s_res_HTTP | s_res_http_major | s_res_http_dot | s_res_http_minor
  | s_res_http_end | s_res_first_status_code | s_res_status_code | s_res_status_start
  | s_res_status | s_res_line_almost_done | s_start_req | s_req_method
  | s_req_spaces_before_url | s_req_schema | s_req_schema_slash | s_req_schema_slash_slash
  | s_req_server_start | s_req_server | s_req_server_with_at | s_req_path
  | s_req_query_string_start | s_req_query_string | s_req_fragment_start | s_req_fragment
  | s_req_http_start | s_req_http_H | s_req_http_HT | s_req_http_HTT | s_req_http_HTTP
  | s_req_http_I | s_req_http_IC | s_req_http_major | s_req_http_dot | s_req_http_minor
  | s_req_http_end | s_req_line_almost_done | s_header_field_start | s_header_field
  | s_header_value_discard_ws | s_header_value_discard_ws_almost_done
  | s_header_value_discard_lws | s_header_value_start | s_header_value | s_header_value_lws
  | s_header_almost_done | s_chunk_size_start | s_chunk_size | s_chunk_parameters
  | s_chunk_size_almost_done | s_headers_almost_done | s_headers_done | s_chunk_data
  | s_chunk_data_almost_done | s_chunk_data_done | s_body_identity | s_body_identity_eof
  | s_message_done.
#[export] Instance state_eq_dec : EqDecision state.
Proof. solve_decision. Defined.

(** [enum header_states]: the states of the matchers for the headers the parser interprets. *)
Inductive header_states :=
  | h_general | h_C | h_CO | h_CON | h_matching_connection | h_matching_proxy_connection
  | h_matching_content_length | h_matching_transfer_encoding | h_matching_upgrade
  | h_connection | h_content_length | h_content_length_num | h_content_length_ws
  | h_transfer_encoding | h_upgrade | h_matching_transfer_encoding_token_start
  | h_matching_transfer_encoding_chunked | h_matching_transfer_encoding_token
  | h_matching_connection_token_start | h_matching_connection_keep_alive
  | h_matching_connection_close | h_matching_connection_upgrade | h_matching_connection_token
  | h_transfer_encoding_chunked | h_connection_keep_alive | h_connection_close
  | h_connection_upgrade.
#[export] Instance header_states_eq_dec : EqDecision header_states.
Proof. solve_decision. Defined.

(** [enum http_host_state]. *)
Inductive http_host_state :=
  | s_http_host_dead | s_http_userinfo_start | s_http_userinfo | s_http_host_start
  | s_http_host_v6_start | s_http_host | s_http_host_v6 | s_http_host_v6_end
  | s_http_host_v6_zone_start | s_http_host_v6_zone | s_http_host_port_start | s_http_host_port.
#[export] Instance http_host_state_eq_dec : EqDecision http_host_state.
Proof. solve_decision. Defined.

(** The numbers of the states, as the enumeration gives them ([s_dead] is 1). *)
Definition state_num (s : state) : Z :=
  match s with
  | s_dead => 1
  | s_start_req_or_res => 2
  | s_res_or_resp_H => 3
  | s_start_res => 4
  | s_res_H => 5
  | s_res_HT => 6
  | s_res_HTT => 7
  | s_res_HTTP => 8
  | s_res_http_major => 9
  | s_res_http_dot => 10
  | s_res_http_minor => 11
  | s_res_http_end => 12
  | s_res_first_status_code => 13
  | s_res_status_code => 14
  | s_res_status_start => 15
  | s_res_status => 16
  | s_res_line_almost_done => 17
  | s_start_req => 18
  | s_req_method => 19
  | s_req_spaces_before_url => 20
  | s_req_schema => 21
  | s_req_schema_slash => 22
  | s_req_schema_slash_slash => 23
  | s_req_server_start => 24
  | s_req_server => 25
  | s_req_server_with_at => 26
  | s_req_path => 27
  | s_req_query_string_start => 28
  | s_req_query_string => 29
  | s_req_fragment_start => 30
  | s_req_fragment => 31
  | s_req_http_start => 32
  | s_req_http_H => 33
  | s_req_http_HT => 34
  | s_req_http_HTT => 35
  | s_req_http_HTTP => 36
  | s_req_http_I => 37
  | s_req_http_IC => 38
  | s_req_http_major => 39
  | s_req_http_dot => 40
  | s_req_http_minor => 41
  | s_req_http_end => 42
  | s_req_line_almost_done => 43
  | s_header_field_start => 44
  | s_header_field => 45
  | s_header_value_discard_ws => 46
  | s_header_value_discard_ws_almost_done => 47
  | s_header_value_discard_lws => 48
  | s_header_value_start => 49
  | s_header_value => 50
  | s_header_value_lws => 51
  | s_header_almost_done => 52
  | s_chunk_size_start => 53
  | s_chunk_size => 54
  | s_chunk_parameters => 55
  | s_chunk_size_almost_done => 56
  | s_headers_almost_done => 57
  | s_headers_done => 58
  | s_chunk_data => 59
  | s_chunk_data_almost_done => 60
  | s_chunk_data_done => 61
  | s_body_identity => 62
  | s_body_identity_eof => 63
  | s_message_done => 64
  end.

(** [PARSING_HEADER]: the states up to [s_headers_done] count towards the size
    of the header. *)
Definition PARSING_HEADER (s : state) : bool := state_num s <=? state_num s_headers_done.

Inductive http_parser_type := HTTP_REQUEST | HTTP_RESPONSE | HTTP_BOTH.
#[export] Instance http_parser_type_eq_dec : EqDecision http_parser_type.
Proof. solve_decision. Defined.

(** [enum flags]. *)
Definition F_CHUNKED : Z := Z.shiftl 1 0.
Definition F_CONNECTION_KEEP_ALIVE : Z := Z.shiftl 1 1.
Definition F_CONNECTION_CLOSE : Z := Z.shiftl 1 2.
Definition F_CONNECTION_UPGRADE : Z := Z.shiftl 1 3.
Definition F_TRAILING : Z := Z.shiftl 1 4.
Definition F_UPGRADE : Z := Z.shiftl 1 5.
Definition F_SKIPBODY : Z := Z.shiftl 1 6.
Definition F_CONTENTLENGTH : Z := Z.shiftl 1 7.

Definition HTTP_MAX_HEADER_SIZE : Z := 80 * 1024.
Definition ULLONG_MAX : Z := 2 ^ 64 - 1.

(** The string constants of the header matchers. *)
Definition PROXY_CONNECTION := "proxy-connection".
Definition CONNECTION := "connection".
Definition CONTENT_LENGTH := "content-length".
Definition TRANSFER_ENCODING := "transfer-encoding".
Definition UPGRADE := "upgrade".
Definition CHUNKED := "chunked".
Definition KEEP_ALIVE := "keep-alive".
Definition CLOSE := "close".

(** ** The static tables *)

Definition tokens_init : list Z :=
  [ 0; 0; 0; 0; 0; 0; 0; 0;
   0; 0; 0; 0; 0; 0; 0; 0;
   0; 0; 0; 0; 0; 0; 0; 0;
   0; 0; 0; 0; 0; 0; 0; 0;
   32; 33; 0; 35; 36; 37; 38; 39;
   0; 0; 42; 43; 0; 45; 46; 0;
   48; 49; 50; 51; 52; 53; 54; 55;
   56; 57; 0; 0; 0; 0; 0; 0;
   0; 97; 98; 99; 100; 101; 102; 103;
   104; 105; 106; 107; 108; 109; 110; 111;
   112; 113; 114; 115; 116; 117; 118; 119;
   120; 121; 122; 0; 0; 0; 94; 95;
   96; 97; 98; 99; 100; 101; 102; 103;
   104; 105; 106; 107; 108; 109; 110; 111;
   112; 113; 114; 115; 116; 117; 118; 119;
   120; 121; 122; 0; 124; 0; 126; 0 ].

Definition unhex_init : list Z :=
  [ -1; -1; -1; -1; -1; -1; -1; -1; -1; -1; -1; -1; -1; -1; -1; -1;
   -1; -1; -1; -1; -1; -1; -1; -1; -1; -1; -1; -1; -1; -1; -1; -1;
   -1; -1; -1; -1; -1; -1; -1; -1; -1; -1; -1; -1; -1; -1; -1; -1;
   0; 1; 2; 3; 4; 5; 6; 7; 8; 9; -1; -1; -1; -1; -1; -1;
   -1; 10; 11; 12; 13; 14; 15; -1; -1; -1; -1; -1; -1; -1; -1; -1;
   -1; -1; -1; -1; -1; -1; -1; -1; -1; -1; -1; -1; -1; -1; -1; -1;
   -1; 10; 11; 12; 13; 14; 15; -1; -1; -1; -1; -1; -1; -1; -1; -1;
   -1; -1; -1; -1; -1; -1; -1; -1; -1; -1; -1; -1; -1; -1; -1; -1 ].

Definition normal_url_char_init : list Z :=
  [0; 0; 0; 0; 246; 255; 255; 127; 255; 255; 255; 255; 255; 255; 255; 127].

(** A static array with fewer initialisers than elements: the rest is 0. *)
Definition static_array (n : nat) (init : list Z) : list Z :=
  (init ++ repeat 0 (n - List.length init))%list.

(** [static const char tokens[256]]. *)
Definition tokens : list Z := static_array 256 tokens_init.
(** [static const int8_t unhex[256]]: the source initialises 128 elements. *)
Definition unhex : list Z := static_array 256 unhex_init.
(** [static const uint8_t normal_url_char[32]]. *)
Definition normal_url_char : list Z := static_array 32 normal_url_char_init.

(** [a[i]] for an index that is in range (the callers index by a byte). *)
Definition at_index (a : list Z) (i : Z) : Z := nth (Z.to_nat i) a 0.

(** [BIT_AT(a, i)]. *)
Definition BIT_AT (a : list Z) (i : Z) : bool :=
  negb (Z.land (at_index a (Z.shiftr i 3)) (Z.shiftl 1 (Z.land i 7)) =? 0).

Definition method_strings : list string := (HTTP_METHOD_MAP.*2).

(** ** Character classes

    A character is the number of its byte, between 0 and 255; the C code compares
    a (possibly signed) [char] with ASCII constants only, or casts it to
    [unsigned char] first, so both readings give the same answers. *)

Definition CR : Z := 13.
Definition LF : Z := 10.
Definition TAB : Z := 9.
Definition FF : Z := 12.

Definition LOWER (c : Z) : Z := Z.lor c 32.
Definition IS_ALPHA (c : Z) : bool := ("a"%ch <=? LOWER c) && (LOWER c <=? "z"%ch).
Definition IS_NUM (c : Z) : bool := ("0"%ch <=? c) && (c <=? "9"%ch).
Definition IS_ALPHANUM (c : Z) : bool := IS_ALPHA c || IS_NUM c.
Definition IS_HEX (c : Z) : bool :=
  IS_NUM c || (("a"%ch <=? LOWER c) && (LOWER c <=? "f"%ch)).
Definition IS_MARK (c : Z) : bool :=
  (c =? "-"%ch) || (c =? "_"%ch) || (c =? "."%ch) || (c =? "!"%ch) || (c =? "~"%ch)
  || (c =? "*"%ch) || (c =? "'"%ch) || (c =? "("%ch) || (c =? ")"%ch).
Definition IS_USERINFO_CHAR (c : Z) : bool :=
  IS_ALPHANUM c || IS_MARK c || (c =? "%"%ch) || (c =? ";"%ch) || (c =? ":"%ch)
  || (c =? "&"%ch) || (c =? "="%ch) || (c =? "+"%ch) || (c =? "$"%ch) || (c =? ","%ch).
Definition STRICT_TOKEN (c : Z) : Z := if c =? " "%ch then 0 else at_index tokens c.
Definition TOKEN (c : Z) : Z := STRICT_TOKEN c.
Definition IS_URL_CHAR (c : Z) : bool := BIT_AT normal_url_char c.
Definition IS_HOST_CHAR (c : Z) : bool := IS_ALPHANUM c || (c =? "."%ch) || (c =? "-"%ch).
Definition IS_HEADER_CHAR (c : Z) : bool :=
  (c =? CR) || (c =? LF) || (c =? 9) || ((31 <? c) && negb (c =? 127)).

(** ** Names and descriptions *)

(** [http_method_str]: [ELEM_AT(method_strings, m, "<unknown>")]. *)
Definition http_method_str (m : Z) : string :=
  if m <? Z.of_nat (List.length method_strings)
  then nth (Z.to_nat m) method_strings "<unknown>" else "<unknown>".

(** [http_status_str]: the [switch] generated from [HTTP_STATUS_MAP]. *)
Definition http_status_str (s : Z) : string :=
  match List.find (fun e => s =? e.1.1) HTTP_STATUS_MAP with
  | Some e => e.2
  | None => "<unknown>"
  end.

(** The number of a method: its value in the enumeration. *)
Definition http_method_num (m : http_method) : Z :=
  match List.find (fun e => bool_decide (e.1.2 = m)) HTTP_METHOD_MAP with
  | Some e => e.1.1
  | None => -1
  end.

(** The number of an error: its position in the enumeration, which is also its
    position in [http_strerror_tab]. *)
Fixpoint errno_index (e : http_errno) (l : list (http_errno * string * string)) : nat :=
  match l with
  | [] => 0
  | x :: l' => if decide (x.1.1 = e) then 0%nat else S (errno_index e l')
  end.
Definition http_errno_num (e : http_errno) : nat := errno_index e HTTP_ERRNO_MAP.

Definition http_strerror_tab : list (string * string) :=
  ((fun e => (e.1.2, e.2)) <$> HTTP_ERRNO_MAP).

(** [http_errno_name] and [http_errno_description] take any number; [None] is the
    failure of their [assert]. *)
Definition http_errno_name (err : nat) : option string := fst <$> http_strerror_tab !! err.
Definition http_errno_description (err : nat) : option string := snd <$> http_strerror_tab !! err.

(** ** Facts on the characters *)

Lemma IS_NUM_range c : IS_NUM c = true -> 48 <= c <= 57.
Proof. unfold IS_NUM. intros H. boolify. lia. Qed.

(** The value of a hexadecimal digit. *)
Lemma unhex_range c : -1 <= at_index unhex c <= 15.
Proof.
  assert (Forall (fun v => -1 <= v <= 15) unhex) as Hall.
  { unfold unhex. vm_compute. repeat constructor; intros [=]. }
  unfold at_index. destruct (Nat.lt_ge_cases (Z.to_nat c) (length unhex)) as [Hlt | Hge].
  - rewrite List.Forall_forall in Hall. by apply Hall, nth_In.
  - rewrite nth_overflow by done. lia.
Qed.
