(* ===== verification/HttpUrl.v ===== *)
(** * HttpUrl: the URL automaton and [http_parser_parse_url]

    Models, from [src/examples/http/http_parser.c]: [parse_url_char] (shared by
    [http_parser_execute] for validation and by the URL parser),
    [http_parse_host_char], [http_parse_host], [http_parser_url_init] and
    [http_parser_parse_url]. *)

From S2P Require Import Prelude.
From S2P Require Import HttpTables.
From stdpp Require Import vector.
Local Open Scope Z_scope.

(** ** The URL automaton *)

Definition parse_url_char (s : state) (ch : Z) : state :=
  if (ch =? " "%ch) || (ch =? CR) || (ch =? LF) then s_dead else
  if (ch =? TAB) || (ch =? FF) then s_dead else
  let server :=
    if ch =? "/"%ch then s_req_path else
    if ch =? "?"%ch then s_req_query_string_start else
    if ch =? "@"%ch then s_req_server_with_at else
    if IS_USERINFO_CHAR ch || (ch =? "["%ch) || (ch =? "]"%ch) then s_req_server
    else s_dead in
  match s with
  | s_req_spaces_before_url =>
      if (ch =? "/"%ch) || (ch =? "*"%ch) then s_req_path else
      if IS_ALPHA ch then s_req_schema else s_dead
  | s_req_schema =>
      if IS_ALPHA ch then s else
      if ch =? ":"%ch then s_req_schema_slash else s_dead
  | s_req_schema_slash =>
      if ch =? "/"%ch then s_req_schema_slash_slash else s_dead
  | s_req_schema_slash_slash =>
      if ch =? "/"%ch then s_req_server_start else s_dead
  | s_req_server_with_at =>
      if ch =? "@"%ch then s_dead else server
  | s_req_server_start | s_req_server => server
  | s_req_path =>
      if IS_URL_CHAR ch then s else
      if ch =? "?"%ch then s_req_query_string_start else
      if ch =? "#"%ch then s_req_fragment_start else s_dead
  | s_req_query_string_start | s_req_query_string =>
      if IS_URL_CHAR ch then s_req_query_string else
      if ch =? "?"%ch then s_req_query_string else
      if ch =? "#"%ch then s_req_fragment_start else s_dead
  | s_req_fragment_start =>
      if IS_URL_CHAR ch then s_req_fragment else
      if ch =? "?"%ch then s_req_fragment else
      if ch =? "#"%ch then s else s_dead
  | s_req_fragment =>
      if IS_URL_CHAR ch then s else
      if (ch =? "?"%ch) || (ch =? "#"%ch) then s else s_dead
  | _ => s_dead
  end.

Definition http_parse_host_char (s : http_host_state) (ch : Z) : http_host_state :=
  let host_end := if ch =? ":"%ch then s_http_host_port_start else s_http_host_dead in
  let v6 :=
    if IS_HEX ch || (ch =? ":"%ch) || (ch =? "."%ch) then s_http_host_v6 else
    if bool_decide (s = s_http_host_v6) && (ch =? "%"%ch) then s_http_host_v6_zone_start
    else s_http_host_dead in
  let zone :=
    if IS_ALPHANUM ch || (ch =? "%"%ch) || (ch =? "."%ch) || (ch =? "-"%ch)
       || (ch =? "_"%ch) || (ch =? "~"%ch) then s_http_host_v6_zone
    else s_http_host_dead in
  match s with
  | s_http_userinfo | s_http_userinfo_start =>
      if ch =? "@"%ch then s_http_host_start else
      if IS_USERINFO_CHAR ch then s_http_userinfo else s_http_host_dead
  | s_http_host_start =>
      if ch =? "["%ch then s_http_host_v6_start else
      if IS_HOST_CHAR ch then s_http_host else s_http_host_dead
  | s_http_host =>
      if IS_HOST_CHAR ch then s_http_host else host_end
  | s_http_host_v6_end => host_end
  | s_http_host_v6 =>
      if ch =? "]"%ch then s_http_host_v6_end else v6
  | s_http_host_v6_start => v6
  | s_http_host_v6_zone =>
      if ch =? "]"%ch then s_http_host_v6_end else zone
  | s_http_host_v6_zone_start => zone
  | s_http_host_port | s_http_host_port_start =>
      if IS_NUM ch then s_http_host_port else s_http_host_dead
  | s_http_host_dead => s_http_host_dead
  end.

(** ** The result structure *)

(** [enum http_parser_url_fields]; its last value [UF_MAX] is only the initial
    value of [old_uf] in [http_parser_parse_url], where it stands for no field. *)
Inductive http_parser_url_fields :=
  UF_SCHEMA | UF_HOST | UF_PORT | UF_PATH | UF_QUERY | UF_FRAGMENT | UF_USERINFO.
#[export] Instance http_parser_url_fields_eq_dec : EqDecision http_parser_url_fields.
Proof. solve_decision. Defined.

(** The value of a field in the enumeration, an index of [field_data]. *)
Definition uf_index (f : http_parser_url_fields) : fin 7 :=
  match f with
  | UF_SCHEMA => 0%fin | UF_HOST => 1%fin | UF_PORT => 2%fin | UF_PATH => 3%fin
  | UF_QUERY => 4%fin | UF_FRAGMENT => 5%fin | UF_USERINFO => 6%fin
  end.

(** [1 << uf]. *)
Definition uf_bit (f : http_parser_url_fields) : Z := Z.shiftl 1 (Z.of_nat (uf_index f)).

(** One element of [field_data]: two [uint16_t]. *)
Record url_field := mk_url_field { uf_off : Z; uf_len : Z }.

Record http_parser_url := mk_url {
  field_set : Z;   (* uint16_t *)
  port : Z;        (* uint16_t *)
  field_data : vec url_field 7
}.

Definition url_field_of (u : http_parser_url) (f : http_parser_url_fields) : url_field :=
  field_data u !!! uf_index f.
Definition uf_is_set (u : http_parser_url) (f : http_parser_url_fields) : bool :=
  negb (Z.land (field_set u) (uf_bit f) =? 0).

Definition set_field (f : http_parser_url_fields) (d : url_field) (u : http_parser_url) :=
  mk_url (field_set u) (port u) (vinsert (uf_index f) d (field_data u)).
(** [u->field_data[f].off = v]. *)
Definition set_off f (v : Z) u := set_field f (mk_url_field v (uf_len (url_field_of u f))) u.
(** [u->field_data[f].len = v]. *)
Definition set_len f (v : Z) u := set_field f (mk_url_field (uf_off (url_field_of u f)) v) u.
(** [u->field_data[f].len++]. *)
Definition incr_len f u := set_len f (u16 (uf_len (url_field_of u f) + 1)) u.
(** [u->field_set |= (1 << f)]. *)
Definition mark_set f u :=
  mk_url (u16 (Z.lor (field_set u) (uf_bit f))) (port u) (field_data u).
Definition set_port (v : Z) u := mk_url (field_set u) v (field_data u).

(** [http_parser_url_init]: [memset] to 0. *)
Definition http_parser_url_init : http_parser_url :=
  mk_url 0 0 (vreplicate 7 (mk_url_field 0 0)).

(** ** [http_parse_host]

    The functions return [None] where the C code has no defined behaviour: a
    failing [assert] or a read outside the buffer.  Otherwise they return the
    integer the C function returns and the structure it leaves. *)

(** The [switch (new_s)] of the loop of [http_parse_host], at offset [p]. *)
Definition host_record (s new_s : http_host_state) (p : Z) (u : http_parser_url)
    : http_parser_url :=
  match new_s with
  | s_http_host =>
      incr_len UF_HOST (if decide (s = s_http_host) then u else set_off UF_HOST (u16 p) u)
  | s_http_host_v6 =>
      incr_len UF_HOST (if decide (s = s_http_host_v6) then u else set_off UF_HOST (u16 p) u)
  | s_http_host_v6_zone_start | s_http_host_v6_zone => incr_len UF_HOST u
  | s_http_host_port =>
      incr_len UF_PORT
        (if decide (s = s_http_host_port) then u
         else mark_set UF_PORT (set_len UF_PORT 0 (set_off UF_PORT (u16 p) u)))
  | s_http_userinfo =>
      incr_len UF_USERINFO
        (if decide (s = s_http_userinfo) then u
         else mark_set UF_USERINFO (set_len UF_USERINFO 0 (set_off UF_USERINFO (u16 p) u)))
  | _ => u
  end.

(** The loop over [n] characters from offset [p]: [inl u] is [return 1]. *)
Fixpoint host_loop (buf : list Byte.byte) (n p : nat) (s : http_host_state)
    (u : http_parser_url) : option (http_parser_url + http_host_state * http_parser_url) :=
  match n with
  | O => Some (inr (s, u))
  | S n' =>
      match buf !! p with
      | None => None
      | Some b =>
          let new_s := http_parse_host_char s (uchar b) in
          if decide (new_s = s_http_host_dead) then Some (inl u)
          else host_loop buf n' (S p) new_s (host_record s new_s (Z.of_nat p) u)
      end
  end.

(** The states in which a host must not end. *)
Definition host_unfinished (s : http_host_state) : bool :=
  match s with
  | s_http_host_start | s_http_host_v6_start | s_http_host_v6 | s_http_host_v6_zone_start
  | s_http_host_v6_zone | s_http_host_port_start | s_http_userinfo
  | s_http_userinfo_start => true
  | _ => false
  end.

Definition http_parse_host (buf : list Byte.byte) (u : http_parser_url) (found_at : bool)
    : option (Z * http_parser_url) :=
  let off := uf_off (url_field_of u UF_HOST) in
  let buflen := off + uf_len (url_field_of u UF_HOST) in
  if negb (uf_is_set u UF_HOST) then None else (* assert *)
  let u := set_len UF_HOST 0 u in
  let s := if found_at then s_http_userinfo_start else s_http_host_start in
  match host_loop buf (Z.to_nat (buflen - off)) (Z.to_nat off) s u with
  | None => None
  | Some (inl u) => Some (1, u)
  | Some (inr (s, u)) => Some (if host_unfinished s then 1 else 0, u)
  end.

(** ** [http_parser_parse_url] *)

(** The [switch (s)] of the main loop: [url_delimiter] is [continue],
    [url_component f] goes on with [uf = f]. *)
Inductive url_action := url_dead | url_delimiter | url_component (f : http_parser_url_fields)
  | url_unexpected.

Definition url_action_of (s : state) : url_action :=
  match s with
  | s_dead => url_dead
  | s_req_schema_slash | s_req_schema_slash_slash | s_req_server_start
  | s_req_query_string_start | s_req_fragment_start => url_delimiter
  | s_req_schema => url_component UF_SCHEMA
  | s_req_server_with_at | s_req_server => url_component UF_HOST
  | s_req_path => url_component UF_PATH
  | s_req_query_string => url_component UF_QUERY
  | s_req_fragment => url_component UF_FRAGMENT
  | _ => url_unexpected
  end.

(** The main loop over [l], the characters from offset [p] on; [inl u] is
    [return 1].  The result carries [found_at]. *)
Fixpoint url_loop (l : list Byte.byte) (p : Z) (s : state)
    (old_uf : option http_parser_url_fields) (found_at : bool) (u : http_parser_url)
    : option (http_parser_url + bool * http_parser_url) :=
  match l with
  | [] => Some (inr (found_at, u))
  | b :: l' =>
      let s := parse_url_char s (uchar b) in
      match url_action_of s with
      | url_dead => Some (inl u)
      | url_unexpected => None (* assert(!"Unexpected state") *)
      | url_delimiter => url_loop l' (p + 1) s old_uf found_at u
      | url_component uf =>
          let found_at := found_at || bool_decide (s = s_req_server_with_at) in
          if decide (old_uf = Some uf)
          then url_loop l' (p + 1) s old_uf found_at (incr_len uf u)
          else url_loop l' (p + 1) s (Some uf) found_at
                 (mark_set uf (set_len uf 1 (set_off uf (u16 p) u)))
      end
  end.

(** The conversion of the port: [n] characters from offset [p], [v] so far;
    [Some None] is [return 1]. *)
Fixpoint port_loop (buf : list Byte.byte) (n p : nat) (v : Z) : option (option Z) :=
  match n with
  | O => Some (Some v)
  | S n' =>
      match buf !! p with
      | None => None
      | Some b =>
          let v := u64 (v * 10 + (schar b - "0"%ch)) in
          if 0xffff <? v then Some None else port_loop buf n' (S p) v
      end
  end.

(** What follows the host: the checks on the fields and the port. *)
Definition url_finish (buf : list Byte.byte) (is_connect : bool) (u : http_parser_url)
    : option (Z * http_parser_url) :=
  if is_connect && negb (field_set u =? Z.lor (uf_bit UF_HOST) (uf_bit UF_PORT))
  then Some (1, u)
  else if uf_is_set u UF_PORT then
    let off := uf_off (url_field_of u UF_PORT) in
    let len := uf_len (url_field_of u UF_PORT) in
    if negb (off + len <=? Z.of_nat (length buf)) then None else (* assert *)
    match port_loop buf (Z.to_nat len) (Z.to_nat off) 0 with
    | None => None
    | Some None => Some (1, u)
    | Some (Some v) => Some (0, set_port (u16 v) u)
    end
  else Some (0, u).

Definition http_parser_parse_url (buf : list Byte.byte) (is_connect : bool)
    (u : http_parser_url) : option (Z * http_parser_url) :=
  if (length buf =? 0)%nat then Some (1, u) else
  let u := mk_url 0 0 (field_data u) in
  let s := if is_connect then s_req_server_start else s_req_spaces_before_url in
  match url_loop buf 0 s None false u with
  | None => None
  | Some (inl u) => Some (1, u)
  | Some (inr (found_at, u)) =>
      if uf_is_set u UF_SCHEMA && negb (uf_is_set u UF_HOST) then Some (1, u)
      else if uf_is_set u UF_HOST then
        match http_parse_host buf u found_at with
        | None => None
        | Some (rc, u) => if negb (rc =? 0) then Some (1, u) else url_finish buf is_connect u
        end
      else url_finish buf is_connect u
  end.

(** The bytes of a field of the result. *)
Definition url_slice (buf : list Byte.byte) (u : http_parser_url) (f : http_parser_url_fields)
    : list Byte.byte :=
  take (Z.to_nat (uf_len (url_field_of u f))) (drop (Z.to_nat (uf_off (url_field_of u f))) buf).
