(* ===== verification/HttpParser.v ===== *)
(** * HttpParser: the parser object and the functions around the parser

    Models [struct http_parser], [struct http_parser_settings] (both in
    [src/examples/http/http_parser.h]) and the functions of
    [src/examples/http/http_parser.c] other than [http_parser_execute] that read
    or set a parser: [http_parser_init], [http_parser_settings_init],
    [http_message_needs_eof], [http_should_keep_alive], [http_parser_pause],
    [http_body_is_final], [http_parser_version] and
    [http_parser_set_max_header_size].

    The field [data] of the parser, the application's own pointer, is not a field
    of the record: what it points to is the value of type [U] that the callbacks
    receive and return. *)

From S2P Require Import Prelude.
From S2P Require Import HttpTables.
Local Open Scope Z_scope.

(** ** The parser *)

Record http_parser := mk_http_parser {
  hp_type : http_parser_type;
  hp_flags : Z;
  hp_state : state;
  hp_header_state : header_states;
  hp_index : Z;
  hp_uses_transfer_encoding : bool;
  hp_allow_chunked_length : bool;
  hp_lenient_http_headers : bool;
  hp_nread : Z;
  hp_content_length : Z;
  hp_http_major : Z;
  hp_http_minor : Z;
  hp_status_code : Z;
  hp_method : http_method;
  hp_http_errno : http_errno;
  hp_upgrade : bool
}.

(** Assignment to a field. *)
Definition set_type (v : http_parser_type) (p : http_parser) : http_parser :=
  mk_http_parser v (hp_flags p) (hp_state p) (hp_header_state p) (hp_index p)
    (hp_uses_transfer_encoding p) (hp_allow_chunked_length p) (hp_lenient_http_headers p)
    (hp_nread p) (hp_content_length p) (hp_http_major p) (hp_http_minor p)
    (hp_status_code p) (hp_method p) (hp_http_errno p) (hp_upgrade p).
Definition set_flags (v : Z) (p : http_parser) : http_parser :=
  mk_http_parser (hp_type p) v (hp_state p) (hp_header_state p) (hp_index p)
    (hp_uses_transfer_encoding p) (hp_allow_chunked_length p) (hp_lenient_http_headers p)
    (hp_nread p) (hp_content_length p) (hp_http_major p) (hp_http_minor p)
    (hp_status_code p) (hp_method p) (hp_http_errno p) (hp_upgrade p).
Definition set_state (v : state) (p : http_parser) : http_parser :=
  mk_http_parser (hp_type p) (hp_flags p) v (hp_header_state p) (hp_index p)
    (hp_uses_transfer_encoding p) (hp_allow_chunked_length p) (hp_lenient_http_headers p)
    (hp_nread p) (hp_content_length p) (hp_http_major p) (hp_http_minor p)
    (hp_status_code p) (hp_method p) (hp_http_errno p) (hp_upgrade p).
Definition set_header_state (v : header_states) (p : http_parser) : http_parser :=
  mk_http_parser (hp_type p) (hp_flags p) (hp_state p) v (hp_index p)
    (hp_uses_transfer_encoding p) (hp_allow_chunked_length p) (hp_lenient_http_headers p)
    (hp_nread p) (hp_content_length p) (hp_http_major p) (hp_http_minor p)
    (hp_status_code p) (hp_method p) (hp_http_errno p) (hp_upgrade p).
Definition set_index (v : Z) (p : http_parser) : http_parser :=
  mk_http_parser (hp_type p) (hp_flags p) (hp_state p) (hp_header_state p) v
    (hp_uses_transfer_encoding p) (hp_allow_chunked_length p) (hp_lenient_http_headers p)
    (hp_nread p) (hp_content_length p) (hp_http_major p) (hp_http_minor p)
    (hp_status_code p) (hp_method p) (hp_http_errno p) (hp_upgrade p).
Definition set_uses_transfer_encoding (v : bool) (p : http_parser) : http_parser :=
  mk_http_parser (hp_type p) (hp_flags p) (hp_state p) (hp_header_state p) (hp_index p) v
    (hp_allow_chunked_length p) (hp_lenient_http_headers p) (hp_nread p)
    (hp_content_length p) (hp_http_major p) (hp_http_minor p) (hp_status_code p)
    (hp_method p) (hp_http_errno p) (hp_upgrade p).
Definition set_allow_chunked_length (v : bool) (p : http_parser) : http_parser :=
  mk_http_parser (hp_type p) (hp_flags p) (hp_state p) (hp_header_state p) (hp_index p)
    (hp_uses_transfer_encoding p) v (hp_lenient_http_headers p) (hp_nread p)
    (hp_content_length p) (hp_http_major p) (hp_http_minor p) (hp_status_code p)
    (hp_method p) (hp_http_errno p) (hp_upgrade p).
Definition set_lenient_http_headers (v : bool) (p : http_parser) : http_parser :=
  mk_http_parser (hp_type p) (hp_flags p) (hp_state p) (hp_header_state p) (hp_index p)
    (hp_uses_transfer_encoding p) (hp_allow_chunked_length p) v (hp_nread p)
    (hp_content_length p) (hp_http_major p) (hp_http_minor p) (hp_status_code p)
    (hp_method p) (hp_http_errno p) (hp_upgrade p).
Definition set_nread (v : Z) (p : http_parser) : http_parser :=
  mk_http_parser (hp_type p) (hp_flags p) (hp_state p) (hp_header_state p) (hp_index p)
    (hp_uses_transfer_encoding p) (hp_allow_chunked_length p) (hp_lenient_http_headers p) v
    (hp_content_length p) (hp_http_major p) (hp_http_minor p) (hp_status_code p)
    (hp_method p) (hp_http_errno p) (hp_upgrade p).
Definition set_content_length (v : Z) (p : http_parser) : http_parser :=
  mk_http_parser (hp_type p) (hp_flags p) (hp_state p) (hp_header_state p) (hp_index p)
    (hp_uses_transfer_encoding p) (hp_allow_chunked_length p) (hp_lenient_http_headers p)
    (hp_nread p) v (hp_http_major p) (hp_http_minor p) (hp_status_code p) (hp_method p)
    (hp_http_errno p) (hp_upgrade p).
Definition set_http_major (v : Z) (p : http_parser) : http_parser :=
  mk_http_parser (hp_type p) (hp_flags p) (hp_state p) (hp_header_state p) (hp_index p)
    (hp_uses_transfer_encoding p) (hp_allow_chunked_length p) (hp_lenient_http_headers p)
    (hp_nread p) (hp_content_length p) v (hp_http_minor p) (hp_status_code p) (hp_method p)
    (hp_http_errno p) (hp_upgrade p).
Definition set_http_minor (v : Z) (p : http_parser) : http_parser :=
  mk_http_parser (hp_type p) (hp_flags p) (hp_state p) (hp_header_state p) (hp_index p)
    (hp_uses_transfer_encoding p) (hp_allow_chunked_length p) (hp_lenient_http_headers p)
    (hp_nread p) (hp_content_length p) (hp_http_major p) v (hp_status_code p) (hp_method p)
    (hp_http_errno p) (hp_upgrade p).
Definition set_status_code (v : Z) (p : http_parser) : http_parser :=
  mk_http_parser (hp_type p) (hp_flags p) (hp_state p) (hp_header_state p) (hp_index p)
    (hp_uses_transfer_encoding p) (hp_allow_chunked_length p) (hp_lenient_http_headers p)
    (hp_nread p) (hp_content_length p) (hp_http_major p) (hp_http_minor p) v (hp_method p)
    (hp_http_errno p) (hp_upgrade p).
Definition set_method (v : http_method) (p : http_parser) : http_parser :=
  mk_http_parser (hp_type p) (hp_flags p) (hp_state p) (hp_header_state p) (hp_index p)
    (hp_uses_transfer_encoding p) (hp_allow_chunked_length p) (hp_lenient_http_headers p)
    (hp_nread p) (hp_content_length p) (hp_http_major p) (hp_http_minor p)
    (hp_status_code p) v (hp_http_errno p) (hp_upgrade p).
Definition set_http_errno (v : http_errno) (p : http_parser) : http_parser :=
  mk_http_parser (hp_type p) (hp_flags p) (hp_state p) (hp_header_state p) (hp_index p)
    (hp_uses_transfer_encoding p) (hp_allow_chunked_length p) (hp_lenient_http_headers p)
    (hp_nread p) (hp_content_length p) (hp_http_major p) (hp_http_minor p)
    (hp_status_code p) (hp_method p) v (hp_upgrade p).
Definition set_upgrade (v : bool) (p : http_parser) : http_parser :=
  mk_http_parser (hp_type p) (hp_flags p) (hp_state p) (hp_header_state p) (hp_index p)
    (hp_uses_transfer_encoding p) (hp_allow_chunked_length p) (hp_lenient_http_headers p)
    (hp_nread p) (hp_content_length p) (hp_http_major p) (hp_http_minor p)
    (hp_status_code p) (hp_method p) (hp_http_errno p) v.

(** [parser->flags & f] as a condition, and [parser->flags |= f]. *)
Definition has_flag (f : Z) (p : http_parser) : bool := negb (Z.land (hp_flags p) f =? 0).
Definition add_flag (f : Z) (p : http_parser) : http_parser :=
  set_flags (Z.lor (hp_flags p) f) p.

(** ** The settings

    A callback receives the parser and, for the data callbacks, the bytes
    [at[0 .. length)]; it returns its [int] result, the parser as it leaves it and
    the application's state.  [None] is a null function pointer. *)

Definition http_cb (U : Type) : Type := http_parser -> U -> Z * http_parser * U.
Definition http_data_cb (U : Type) : Type :=
  http_parser -> list Byte.byte -> U -> Z * http_parser * U.

Record http_parser_settings (U : Type) := mk_settings {
  on_message_begin : option (http_cb U);
  on_url : option (http_data_cb U);
  on_status : option (http_data_cb U);
  on_header_field : option (http_data_cb U);
  on_header_value : option (http_data_cb U);
  on_headers_complete : option (http_cb U);
  on_body : option (http_data_cb U);
  on_message_complete : option (http_cb U);
  on_chunk_header : option (http_cb U);
  on_chunk_complete : option (http_cb U)
}.
Arguments mk_settings {U}.
Arguments on_message_begin {U}.
Arguments on_url {U}.
Arguments on_status {U}.
Arguments on_header_field {U}.
Arguments on_header_value {U}.
Arguments on_headers_complete {U}.
Arguments on_body {U}.
Arguments on_message_complete {U}.
Arguments on_chunk_header {U}.
Arguments on_chunk_complete {U}.

(** [http_parser_settings_init]: [memset] to null pointers. *)
Definition http_parser_settings_init {U} : http_parser_settings U :=
  mk_settings None None None None None None None None None None.

(** ** Functions on a parser *)

(** [http_parser_init]: [memset] to 0, then the type, the state and the error
    number; the application's pointer is preserved (it is not in the record). *)
Definition http_parser_init (t : http_parser_type) : http_parser :=
  mk_http_parser t 0
    (match t with
     | HTTP_REQUEST => s_start_req
     | HTTP_RESPONSE => s_start_res
     | HTTP_BOTH => s_start_req_or_res
     end)
    h_general 0 false false false 0 0 0 0 0 HTTP_DELETE HPE_OK false.

Definition http_message_needs_eof (p : http_parser) : bool :=
  if decide (hp_type p = HTTP_REQUEST) then false else
  if (hp_status_code p / 100 =? 1) || (hp_status_code p =? 204)
     || (hp_status_code p =? 304) || has_flag F_SKIPBODY p then false else
  if hp_uses_transfer_encoding p && negb (has_flag F_CHUNKED p) then true else
  if has_flag F_CHUNKED p || negb (hp_content_length p =? ULLONG_MAX) then false else
  true.

Definition http_should_keep_alive (p : http_parser) : bool :=
  if (0 <? hp_http_major p) && (0 <? hp_http_minor p) then
    if has_flag F_CONNECTION_CLOSE p then false else negb (http_message_needs_eof p)
  else
    if negb (has_flag F_CONNECTION_KEEP_ALIVE p) then false
    else negb (http_message_needs_eof p).

(** The macros [start_state] and [NEW_MESSAGE]. *)
Definition start_state (p : http_parser) : state :=
  if decide (hp_type p = HTTP_REQUEST) then s_start_req else s_start_res.
Definition NEW_MESSAGE (p : http_parser) : state :=
  if http_should_keep_alive p then start_state p else s_dead.

(** [http_parser_pause]; [None] is the failing [assert]. *)
Definition http_parser_pause (p : http_parser) (paused : bool) : option http_parser :=
  if decide (hp_http_errno p = HPE_OK \/ hp_http_errno p = HPE_PAUSED)
  then Some (set_http_errno (if paused then HPE_PAUSED else HPE_OK) p)
  else None.

Definition http_body_is_final (p : http_parser) : bool :=
  bool_decide (hp_state p = s_message_done).

Definition HTTP_PARSER_VERSION_MAJOR : Z := 2.
Definition HTTP_PARSER_VERSION_MINOR : Z := 9.
Definition HTTP_PARSER_VERSION_PATCH : Z := 4.
Definition http_parser_version : Z :=
  Z.lor (Z.lor (HTTP_PARSER_VERSION_MAJOR * 0x10000) (HTTP_PARSER_VERSION_MINOR * 0x100))
    (HTTP_PARSER_VERSION_PATCH * 0x1).

(** The static variable [max_header_size] is a parameter of [http_parser_execute];
    these are its initial value and its value after
    [http_parser_set_max_header_size(size)], a [uint32_t]. *)
Definition max_header_size_init : Z := HTTP_MAX_HEADER_SIZE.
Definition http_parser_set_max_header_size (size : Z) : Z := u32 size.
