(* ===== verification/HttpMonad.v ===== *)
(** * HttpMonad: the control flow of [http_parser_execute]

    The local variables of [http_parser_execute], a state and error monad over
    them, and the macros of [src/examples/http/http_parser.c] that the cases of the
    parser are written with: [SET_ERRNO], [UPDATE_STATE], [RETURN], the callback
    macros, [MARK], [COUNT_HEADER_SIZE] and [STRICT_CHECK]. *)

From S2P Require Import Prelude.
From S2P Require Import HttpTables.
From S2P Require Import HttpParser.
Local Open Scope Z_scope.

(** ** The local variables *)

(** Pointers into [data] are offsets; a null mark is [None]. *)
Record frame (U : Type) := mk_frame {
  pos : nat;                        (* p - data *)
  ch : Z;                           (* char ch *)
  p_state : state;
  nread : Z;                        (* uint32_t nread *)
  header_field_mark : option nat;
  header_value_mark : option nat;
  url_mark : option nat;
  body_mark : option nat;
  status_mark : option nat;
  parser : http_parser;             (* *parser *)
  user : U                          (* what parser->data points to *)
}.
Arguments mk_frame {U}.
Arguments pos {U}.
Arguments ch {U}.
Arguments p_state {U}.
Arguments nread {U}.
Arguments header_field_mark {U}.
Arguments header_value_mark {U}.
Arguments url_mark {U}.
Arguments body_mark {U}.
Arguments status_mark {U}.
Arguments parser {U}.
Arguments user {U}.

Definition with_pos {U} (v : nat) (s : frame U) : frame U :=
  mk_frame v (ch s) (p_state s) (nread s) (header_field_mark s) (header_value_mark s)
    (url_mark s) (body_mark s) (status_mark s) (parser s) (user s).
Definition with_ch {U} (v : Z) (s : frame U) : frame U :=
  mk_frame (pos s) v (p_state s) (nread s) (header_field_mark s) (header_value_mark s)
    (url_mark s) (body_mark s) (status_mark s) (parser s) (user s).
Definition with_p_state {U} (v : state) (s : frame U) : frame U :=
  mk_frame (pos s) (ch s) v (nread s) (header_field_mark s) (header_value_mark s)
    (url_mark s) (body_mark s) (status_mark s) (parser s) (user s).
Definition with_nread {U} (v : Z) (s : frame U) : frame U :=
  mk_frame (pos s) (ch s) (p_state s) v (header_field_mark s) (header_value_mark s)
    (url_mark s) (body_mark s) (status_mark s) (parser s) (user s).
Definition with_header_field_mark {U} (v : option nat) (s : frame U) : frame U :=
  mk_frame (pos s) (ch s) (p_state s) (nread s) v (header_value_mark s) (url_mark s)
    (body_mark s) (status_mark s) (parser s) (user s).
Definition with_header_value_mark {U} (v : option nat) (s : frame U) : frame U :=
  mk_frame (pos s) (ch s) (p_state s) (nread s) (header_field_mark s) v (url_mark s)
    (body_mark s) (status_mark s) (parser s) (user s).
Definition with_url_mark {U} (v : option nat) (s : frame U) : frame U :=
  mk_frame (pos s) (ch s) (p_state s) (nread s) (header_field_mark s) (header_value_mark s)
    v (body_mark s) (status_mark s) (parser s) (user s).
Definition with_body_mark {U} (v : option nat) (s : frame U) : frame U :=
  mk_frame (pos s) (ch s) (p_state s) (nread s) (header_field_mark s) (header_value_mark s)
    (url_mark s) v (status_mark s) (parser s) (user s).
Definition with_status_mark {U} (v : option nat) (s : frame U) : frame U :=
  mk_frame (pos s) (ch s) (p_state s) (nread s) (header_field_mark s) (header_value_mark s)
    (url_mark s) (body_mark s) v (parser s) (user s).
Definition with_parser {U} (v : http_parser) (s : frame U) : frame U :=
  mk_frame (pos s) (ch s) (p_state s) (nread s) (header_field_mark s) (header_value_mark s)
    (url_mark s) (body_mark s) (status_mark s) v (user s).
Definition with_user {U} (v : U) (s : frame U) : frame U :=
  mk_frame (pos s) (ch s) (p_state s) (nread s) (header_field_mark s) (header_value_mark s)
    (url_mark s) (body_mark s) (status_mark s) (parser s) v.

(** ** The monad *)

(** What makes a C execution undefined here, or abort: a failing [assert], a read
    outside an array; [out_of_fuel] marks a loop cut short by the model. *)
Inductive fault := assertion_failed | out_of_bounds | out_of_fuel.

(** The outcomes of a piece of the body: it falls through with a value, it
    executes [return v], it executes [goto error], or it is faulty. *)
Inductive result (U A : Type) :=
  | Next (a : A) (s : frame U)
  | Return (v : nat) (s : frame U)
  | Goto_error (s : frame U)
  | Fault (f : fault).
Arguments Next {U A}.
Arguments Return {U A}.
Arguments Goto_error {U A}.
Arguments Fault {U A}.

Definition M (U A : Type) : Type := frame U -> result U A.

#[export] Instance M_ret {U} : MRet (M U) := fun A a s => Next a s.
#[export] Instance M_bind {U} : MBind (M U) := fun A B f m s =>
  match m s with
  | Next a s' => f a s'
  | Return v s' => Return v s'
  | Goto_error s' => Goto_error s'
  | Fault e => Fault e
  end.

(** [break] out of the [switch] on the state, or [goto reexecute]. *)
Inductive ctl := Break | Reexecute.

Section ops.
Context {U : Type}.
Abbreviation M := (M U).

Definition gets {A} (f : frame U -> A) : M A := fun s => Next (f s) s.
Definition modify (f : frame U -> frame U) : M unit := fun s => Next tt (f s).
Definition modify_parser (f : http_parser -> http_parser) : M unit :=
  modify (fun s => with_parser (f (parser s)) s).
Definition fault_with {A} (e : fault) : M A := fun _ => Fault e.
(** [assert(b)]. *)
Definition assert_ (b : bool) : M unit :=
  if b then mret tt else fault_with assertion_failed.
(** [goto error]. *)
Definition goto_error {A} : M A := fun s => Goto_error s.
(** [return (ER)], without the assignments of [RETURN]. *)
Definition return_ {A} (ER : nat) : M A := fun s => Return ER s.

Definition SET_ERRNO (e : http_errno) : M unit :=
  modify (fun s =>
    with_parser (set_http_errno e (HttpParser.set_nread (nread s) (parser s))) s).
Definition UPDATE_STATE (v : state) : M unit := modify (with_p_state v).
(** [RETURN(V)]. *)
Definition RETURN {A} (V : nat) : M A :=
  modify (fun s =>
    with_parser (HttpParser.set_state (p_state s) (HttpParser.set_nread (nread s) (parser s))) s);;
  return_ V.
(** [SET_ERRNO(e); goto error;]. *)
Definition fail {A} (e : http_errno) : M A := SET_ERRNO e;; goto_error.
Definition STRICT_CHECK (cond : bool) : M unit :=
  if cond then fail HPE_STRICT else mret tt.
End ops.

(** ** Callbacks *)

(** The argument [FOR] of the callback macros. *)
Inductive notify_for :=
  for_message_begin | for_message_complete | for_chunk_header | for_chunk_complete.
Inductive data_for :=
  for_header_field | for_header_value | for_url | for_body | for_status.
#[export] Instance data_for_eq_dec : EqDecision data_for.
Proof. solve_decision. Defined.

(** [settings->on_##FOR] and [HPE_CB_##FOR]. *)
Definition on_notify {U} (st : http_parser_settings U) (FOR : notify_for)
    : option (http_cb U) :=
  match FOR with
  | for_message_begin => on_message_begin st
  | for_message_complete => on_message_complete st
  | for_chunk_header => on_chunk_header st
  | for_chunk_complete => on_chunk_complete st
  end.
Definition on_data {U} (st : http_parser_settings U) (FOR : data_for)
    : option (http_data_cb U) :=
  match FOR with
  | for_header_field => on_header_field st
  | for_header_value => on_header_value st
  | for_url => on_url st
  | for_body => on_body st
  | for_status => on_status st
  end.
Definition HPE_CB_notify (FOR : notify_for) : http_errno :=
  match FOR with
  | for_message_begin => HPE_CB_message_begin
  | for_message_complete => HPE_CB_message_complete
  | for_chunk_header => HPE_CB_chunk_header
  | for_chunk_complete => HPE_CB_chunk_complete
  end.
Definition HPE_CB_data (FOR : data_for) : http_errno :=
  match FOR with
  | for_header_field => HPE_CB_header_field
  | for_header_value => HPE_CB_header_value
  | for_url => HPE_CB_url
  | for_body => HPE_CB_body
  | for_status => HPE_CB_status
  end.

(** [FOR##_mark]. *)
Definition mark_of {U} (FOR : data_for) (s : frame U) : option nat :=
  match FOR with
  | for_header_field => header_field_mark s
  | for_header_value => header_value_mark s
  | for_url => url_mark s
  | for_body => body_mark s
  | for_status => status_mark s
  end.
Definition with_mark {U} (FOR : data_for) (m : option nat) (s : frame U) : frame U :=
  match FOR with
  | for_header_field => with_header_field_mark m s
  | for_header_value => with_header_value_mark m s
  | for_url => with_url_mark m s
  | for_body => with_body_mark m s
  | for_status => with_status_mark m s
  end.

Section macros.
Context {U : Type}.
Variable settings : http_parser_settings U.
Variable data : list Byte.byte.
Variable max_header_size : Z.
Abbreviation M := (M U).

(** What the callback macros do around a call whose outcome is [call]: the state
    is stored before the call and read again after it, a non-zero result is an
    error, and any error number ends the execution with [return (ER)]. *)
Definition invoke (call : http_parser -> U -> Z * http_parser * U) (e : http_errno)
    (ER : nat) : M unit :=
  modify (fun s => with_parser (HttpParser.set_state (p_state s) (parser s)) s);;
  s ← gets id;
  (let '(rc, p', u') := call (parser s) (user s) in
   modify (fun s => with_user u' (with_parser p' s));;
   (if negb (rc =? 0) then SET_ERRNO e else mret tt);;
   p ← gets parser;
   UPDATE_STATE (hp_state p);;
   p ← gets parser;
   if decide (hp_http_errno p = HPE_OK) then mret tt else return_ ER).

Definition CALLBACK_NOTIFY_ (FOR : notify_for) (ER : nat) : M unit :=
  p ← gets parser;
  assert_ (bool_decide (hp_http_errno p = HPE_OK));;
  match on_notify settings FOR with
  | Some cb => invoke cb (HPE_CB_notify FOR) ER
  | None => mret tt
  end.
Definition CALLBACK_NOTIFY (FOR : notify_for) : M unit :=
  p ← gets pos; CALLBACK_NOTIFY_ FOR (p + 1).
Definition CALLBACK_NOTIFY_NOADVANCE (FOR : notify_for) : M unit :=
  p ← gets pos; CALLBACK_NOTIFY_ FOR p.

(** [CALLBACK_DATA_(FOR, LEN, ER)], [LEN] a function of the mark. *)
Definition CALLBACK_DATA_ (FOR : data_for) (LEN : nat -> nat) (ER : nat) : M unit :=
  p ← gets parser;
  assert_ (bool_decide (hp_http_errno p = HPE_OK));;
  m ← gets (mark_of FOR);
  match m with
  | None => mret tt
  | Some mark =>
      match on_data settings FOR with
      | Some cb =>
          invoke (fun p u => cb p (take (LEN mark) (drop mark data)) u)
            (HPE_CB_data FOR) ER
      | None => mret tt
      end;;
      modify (with_mark FOR None)
  end.
Definition CALLBACK_DATA (FOR : data_for) : M unit :=
  p ← gets pos; CALLBACK_DATA_ FOR (fun mark => p - mark)%nat (p + 1).
Definition CALLBACK_DATA_NOADVANCE (FOR : data_for) : M unit :=
  p ← gets pos; CALLBACK_DATA_ FOR (fun mark => p - mark)%nat p.

(** [MARK(FOR)]: set the mark to [p], unless it is set. *)
Definition MARK (FOR : data_for) : M unit :=
  modify (fun s =>
    match mark_of FOR s with
    | None => with_mark FOR (Some (pos s)) s
    | Some _ => s
    end).

(** [COUNT_HEADER_SIZE(V)]. *)
Definition COUNT_HEADER_SIZE (V : Z) : M unit :=
  modify (fun s => with_nread (u32 (nread s + u32 V)) s);;
  n ← gets nread;
  if max_header_size <? n then fail HPE_HEADER_OVERFLOW else mret tt.

(** [ch = *p]. *)
Definition load_ch : M unit :=
  p ← gets pos;
  match data !! p with
  | Some b => modify (with_ch (uchar b))
  | None => fault_with out_of_bounds
  end.
End macros.
