(* ===== verification/HttpExec.v ===== *)
(** * HttpExec: [http_parser_execute]

    Models the function [http_parser_execute] of
    [src/examples/http/http_parser.c], one definition per case of its [switch] on
    the state (a definition for several cases when they share a body), the three
    inner loops over header bytes, the main loop with [goto reexecute], and the
    entry and exit of the function. *)

From S2P Require Import Prelude.
From S2P Require Import HttpTables.
From S2P Require Import HttpUrl.
From S2P Require Import HttpParser.
From S2P Require Import HttpMonad.
Local Open Scope Z_scope.

(** [switch (ch)] of [s_start_req]: the first guess of the method. *)
Definition initial_method (ch : Z) : option http_method :=
  if ch =? "A"%ch then Some HTTP_ACL else
  if ch =? "B"%ch then Some HTTP_BIND else
  if ch =? "C"%ch then Some HTTP_CONNECT else
  if ch =? "D"%ch then Some HTTP_DELETE else
  if ch =? "G"%ch then Some HTTP_GET else
  if ch =? "H"%ch then Some HTTP_HEAD else
  if ch =? "L"%ch then Some HTTP_LOCK else
  if ch =? "M"%ch then Some HTTP_MKCOL else
  if ch =? "N"%ch then Some HTTP_NOTIFY else
  if ch =? "O"%ch then Some HTTP_OPTIONS else
  if ch =? "P"%ch then Some HTTP_POST else
  if ch =? "R"%ch then Some HTTP_REPORT else
  if ch =? "S"%ch then Some HTTP_SUBSCRIBE else
  if ch =? "T"%ch then Some HTTP_TRACE else
  if ch =? "U"%ch then Some HTTP_UNLOCK else
  None.

(** The cases [XX(meth, pos, ch, new_meth)] of [s_req_method]. *)
Definition method_transitions : list (http_method * Z * Z * http_method) :=
  [ (HTTP_POST,      1, "U"%ch, HTTP_PUT)
  ; (HTTP_POST,      1, "A"%ch, HTTP_PATCH)
  ; (HTTP_POST,      1, "R"%ch, HTTP_PROPFIND)
  ; (HTTP_PUT,       2, "R"%ch, HTTP_PURGE)
  ; (HTTP_CONNECT,   1, "H"%ch, HTTP_CHECKOUT)
  ; (HTTP_CONNECT,   2, "P"%ch, HTTP_COPY)
  ; (HTTP_MKCOL,     1, "O"%ch, HTTP_MOVE)
  ; (HTTP_MKCOL,     1, "E"%ch, HTTP_MERGE)
  ; (HTTP_MKCOL,     1, "-"%ch, HTTP_MSEARCH)
  ; (HTTP_MKCOL,     2, "A"%ch, HTTP_MKACTIVITY)
  ; (HTTP_MKCOL,     3, "A"%ch, HTTP_MKCALENDAR)
  ; (HTTP_SUBSCRIBE, 1, "E"%ch, HTTP_SEARCH)
  ; (HTTP_SUBSCRIBE, 1, "O"%ch, HTTP_SOURCE)
  ; (HTTP_REPORT,    2, "B"%ch, HTTP_REBIND)
  ; (HTTP_PROPFIND,  4, "P"%ch, HTTP_PROPPATCH)
  ; (HTTP_LOCK,      1, "I"%ch, HTTP_LINK)
  ; (HTTP_UNLOCK,    2, "S"%ch, HTTP_UNSUBSCRIBE)
  ; (HTTP_UNLOCK,    2, "B"%ch, HTTP_UNBIND)
  ; (HTTP_UNLOCK,    3, "I"%ch, HTTP_UNLINK) ].

(** [meth << 16 | pos << 8 | ch]. *)
Definition method_key (m : http_method) (idx ch : Z) : Z :=
  Z.lor (Z.lor (Z.shiftl (http_method_num m) 16) (Z.shiftl idx 8)) ch.

Definition method_transition (m : http_method) (idx ch : Z) : option http_method :=
  match List.find (fun e => method_key m idx ch =? method_key e.1.1.1 e.1.1.2 e.1.2)
          method_transitions with
  | Some e => Some e.2
  | None => None
  end.

(** [method_strings[m]]. *)
Definition method_string (m : http_method) : string :=
  nth (Z.to_nat (http_method_num m)) method_strings EmptyString.

Section execute.
Context {U : Type}.
Variable settings : http_parser_settings U.
Variable data : list Byte.byte.
Variable max_header_size : Z.
(** The two bits of the parser that are read once, at the entry. *)
Variable lenient : bool.
Variable allow_chunked_length : bool.

Abbreviation M := (M U).
Abbreviation len := (length data).
Abbreviation CALLBACK_NOTIFY := (CALLBACK_NOTIFY settings).
Abbreviation CALLBACK_NOTIFY_NOADVANCE := (CALLBACK_NOTIFY_NOADVANCE settings).
Abbreviation CALLBACK_DATA_ := (CALLBACK_DATA_ settings data).
Abbreviation CALLBACK_DATA := (CALLBACK_DATA settings data).
Abbreviation CALLBACK_DATA_NOADVANCE := (CALLBACK_DATA_NOADVANCE settings data).
Abbreviation COUNT_HEADER_SIZE := (COUNT_HEADER_SIZE max_header_size).
Abbreviation load_ch := (load_ch data).

(** The assignments at the start of a message. *)
Definition reset_message : M unit :=
  modify_parser (fun p =>
    set_content_length ULLONG_MAX (set_uses_transfer_encoding false (set_flags 0 p))).

(** ** The start of a message and the status line *)

Definition case_s_dead : M ctl :=
  c ← gets ch;
  if (c =? CR) || (c =? LF) then mret Break else fail HPE_CLOSED_CONNECTION.

Definition case_s_start_req_or_res : M ctl :=
  c ← gets ch;
  if (c =? CR) || (c =? LF) then mret Break else
  reset_message;;
  if c =? "H"%ch then
    UPDATE_STATE s_res_or_resp_H;;
    CALLBACK_NOTIFY for_message_begin;;
    mret Break
  else
    modify_parser (set_type HTTP_REQUEST);;
    UPDATE_STATE s_start_req;;
    mret Reexecute.

Definition case_s_res_or_resp_H : M ctl :=
  c ← gets ch;
  if c =? "T"%ch then
    modify_parser (set_type HTTP_RESPONSE);;
    UPDATE_STATE s_res_HT;;
    mret Break
  else if negb (c =? "E"%ch) then fail HPE_INVALID_CONSTANT
  else
    modify_parser (fun p => set_index 2 (set_method HTTP_HEAD (set_type HTTP_REQUEST p)));;
    UPDATE_STATE s_req_method;;
    mret Break.

Definition case_s_start_res : M ctl :=
  c ← gets ch;
  if (c =? CR) || (c =? LF) then mret Break else
  reset_message;;
  (if c =? "H"%ch then UPDATE_STATE s_res_H else fail HPE_INVALID_CONSTANT);;
  CALLBACK_NOTIFY for_message_begin;;
  mret Break.

(** The cases that accept one character, strictly, and go on. *)
Definition case_expect (expected : Z) (next : state) : M ctl :=
  c ← gets ch;
  STRICT_CHECK (negb (c =? expected));;
  UPDATE_STATE next;;
  mret Break.

(** [s_res_http_major], [s_req_http_major]: a digit of the version. *)
Definition case_version_digit (set : Z -> http_parser -> http_parser) (next : state) : M ctl :=
  c ← gets ch;
  if negb (IS_NUM c) then fail HPE_INVALID_VERSION else
  modify_parser (set (c - "0"%ch));;
  UPDATE_STATE next;;
  mret Break.

(** [s_res_http_dot], [s_req_http_dot], [s_res_http_end]. *)
Definition case_version_char (expected : Z) (next : state) : M ctl :=
  c ← gets ch;
  if negb (c =? expected) then fail HPE_INVALID_VERSION else
  UPDATE_STATE next;;
  mret Break.

Definition case_s_res_first_status_code : M ctl :=
  c ← gets ch;
  if negb (IS_NUM c) then
    if c =? " "%ch then mret Break else fail HPE_INVALID_STATUS
  else
    modify_parser (set_status_code (c - "0"%ch));;
    UPDATE_STATE s_res_status_code;;
    mret Break.

Definition case_s_res_status_code : M ctl :=
  c ← gets ch;
  if negb (IS_NUM c) then
    if c =? " "%ch then UPDATE_STATE s_res_status_start;; mret Break
    else if (c =? CR) || (c =? LF) then UPDATE_STATE s_res_status_start;; mret Reexecute
    else fail HPE_INVALID_STATUS
  else
    modify_parser (fun p => set_status_code (u16 (hp_status_code p * 10)) p);;
    modify_parser (fun p => set_status_code (u16 (hp_status_code p + (c - "0"%ch))) p);;
    p ← gets parser;
    if 999 <? hp_status_code p then fail HPE_INVALID_STATUS else mret Break.

Definition case_s_res_status_start : M ctl :=
  c ← gets ch;
  MARK for_status;;
  UPDATE_STATE s_res_status;;
  modify_parser (set_index 0);;
  if (c =? CR) || (c =? LF) then mret Reexecute else mret Break.

Definition case_s_res_status : M ctl :=
  c ← gets ch;
  if c =? CR then
    UPDATE_STATE s_res_line_almost_done;; CALLBACK_DATA for_status;; mret Break
  else if c =? LF then
    UPDATE_STATE s_header_field_start;; CALLBACK_DATA for_status;; mret Break
  else mret Break.

(** ** The request line *)

Definition case_s_start_req : M ctl :=
  c ← gets ch;
  if (c =? CR) || (c =? LF) then mret Break else
  reset_message;;
  if negb (IS_ALPHA c) then fail HPE_INVALID_METHOD else
  modify_parser (fun p => set_index 1 (set_method HTTP_DELETE p));;
  match initial_method c with
  | Some m =>
      modify_parser (set_method m);;
      UPDATE_STATE s_req_method;;
      CALLBACK_NOTIFY for_message_begin;;
      mret Break
  | None => fail HPE_INVALID_METHOD
  end.

Definition case_s_req_method : M ctl :=
  c ← gets ch;
  p ← gets parser;
  if c =? 0 then fail HPE_INVALID_METHOD else
  let matcher := method_string (hp_method p) in
  match str_at matcher (hp_index p) with
  | None => fault_with out_of_bounds
  | Some m =>
      (if (c =? " "%ch) && (m =? 0) then UPDATE_STATE s_req_spaces_before_url
       else if c =? m then mret tt
       else if (("A"%ch <=? c) && (c <=? "Z"%ch)) || (c =? "-"%ch) then
         match method_transition (hp_method p) (hp_index p) c with
         | Some new_meth => modify_parser (set_method new_meth)
         | None => fail HPE_INVALID_METHOD
         end
       else fail HPE_INVALID_METHOD);;
      modify_parser (fun p => set_index (u5 (hp_index p + 1)) p);;
      mret Break
  end.

(** [UPDATE_STATE(parse_url_char(CURRENT_STATE(), ch))] and its check. *)
Definition url_step : M unit :=
  c ← gets ch;
  st ← gets p_state;
  UPDATE_STATE (parse_url_char st c);;
  st ← gets p_state;
  if decide (st = s_dead) then fail HPE_INVALID_URL else mret tt.

Definition case_s_req_spaces_before_url : M ctl :=
  c ← gets ch;
  if c =? " "%ch then mret Break else
  MARK for_url;;
  p ← gets parser;
  (if decide (hp_method p = HTTP_CONNECT) then UPDATE_STATE s_req_server_start else mret tt);;
  url_step;;
  mret Break.

(** [s_req_schema], [s_req_schema_slash], [s_req_schema_slash_slash],
    [s_req_server_start]. *)
Definition case_url_no_space : M ctl :=
  c ← gets ch;
  if (c =? " "%ch) || (c =? CR) || (c =? LF) then fail HPE_INVALID_URL else
  url_step;;
  mret Break.

(** [s_req_server] to [s_req_fragment]. *)
Definition case_url : M ctl :=
  c ← gets ch;
  if c =? " "%ch then
    UPDATE_STATE s_req_http_start;; CALLBACK_DATA for_url;; mret Break
  else if (c =? CR) || (c =? LF) then
    modify_parser (fun p => set_http_minor 9 (set_http_major 0 p));;
    UPDATE_STATE (if c =? CR then s_req_line_almost_done else s_header_field_start);;
    CALLBACK_DATA for_url;;
    mret Break
  else
    url_step;;
    mret Break.

Definition case_s_req_http_start : M ctl :=
  c ← gets ch;
  p ← gets parser;
  if c =? " "%ch then mret Break
  else if c =? "H"%ch then UPDATE_STATE s_req_http_H;; mret Break
  else if (c =? "I"%ch) && bool_decide (hp_method p = HTTP_SOURCE) then
    UPDATE_STATE s_req_http_I;; mret Break
  else fail HPE_INVALID_CONSTANT.

Definition case_s_req_http_end : M ctl :=
  c ← gets ch;
  if c =? CR then UPDATE_STATE s_req_line_almost_done;; mret Break
  else if c =? LF then UPDATE_STATE s_header_field_start;; mret Break
  else fail HPE_INVALID_VERSION.

Definition case_s_req_line_almost_done : M ctl :=
  c ← gets ch;
  if negb (c =? LF) then fail HPE_LF_EXPECTED else
  UPDATE_STATE s_header_field_start;;
  mret Break.

(** ** Header fields *)

Definition case_s_header_field_start : M ctl :=
  c0 ← gets ch;
  if c0 =? CR then UPDATE_STATE s_headers_almost_done;; mret Break
  else if c0 =? LF then UPDATE_STATE s_headers_almost_done;; mret Reexecute
  else
  let c := TOKEN c0 in
  if c =? 0 then fail HPE_INVALID_HEADER_TOKEN else
  MARK for_header_field;;
  modify_parser (set_index 0);;
  UPDATE_STATE s_header_field;;
  modify_parser (set_header_state
    (if c =? "c"%ch then h_C
     else if c =? "p"%ch then h_matching_proxy_connection
     else if c =? "t"%ch then h_matching_transfer_encoding
     else if c =? "u"%ch then h_matching_upgrade
     else h_general));;
  mret Break.

(** [parser->index++]. *)
Definition incr_index : M unit :=
  modify_parser (fun p => set_index (u5 (hp_index p + 1)) p).

(** The comparison of the matchers: after [parser->index++], the condition
    [parser->index > sizeof(WORD)-1 || c != WORD[parser->index]] of a mismatch
    and the condition [parser->index == sizeof(WORD)-2] of a complete match. *)
Definition match_word {A} (word : string) (c : Z) (mismatch partial complete : M A) : M A :=
  p ← gets parser;
  let size := Z.of_nat (String.length word) + 1 in (* sizeof(WORD) *)
  if size - 1 <? hp_index p then mismatch else
  match str_at word (hp_index p) with
  | None => fault_with out_of_bounds
  | Some w =>
      if negb (c =? w) then mismatch
      else if hp_index p =? size - 2 then complete
      else partial
  end.

Definition set_hs (h : header_states) : M unit := modify_parser (set_header_state h).

(** The loop [while (p+1 < pe && TOKEN(p[1])) p++;]. *)
Fixpoint token_run (fuel : nat) (pe : nat) : M unit :=
  match fuel with
  | O => fault_with out_of_fuel
  | S fuel' =>
      p ← gets pos;
      if (p + 1 <? pe)%nat then
        match data !! (p + 1)%nat with
        | None => fault_with out_of_bounds
        | Some b =>
            if negb (TOKEN (uchar b) =? 0)
            then modify (with_pos (p + 1)%nat);; token_run fuel' pe
            else mret tt
        end
      else mret tt
  end.

(** [p + MIN(left, max_header_size)] with [left = data + len - p]. *)
Definition run_end (p : nat) : nat :=
  (p + Z.to_nat (Z.min (Z.of_nat (len - p)) max_header_size))%nat.

(** [switch (parser->header_state)] for one character of a field name; [c] is
    the token. *)
Definition header_field_char (c : Z) : M unit :=
  p ← gets parser;
  match hp_header_state p with
  | h_general =>
      p ← gets pos;
      token_run (S len) (run_end p)
  | h_C => incr_index;; set_hs (if c =? "o"%ch then h_CO else h_general)
  | h_CO => incr_index;; set_hs (if c =? "n"%ch then h_CON else h_general)
  | h_CON =>
      incr_index;;
      set_hs (if c =? "n"%ch then h_matching_connection
              else if c =? "t"%ch then h_matching_content_length
              else h_general)
  | h_matching_connection =>
      incr_index;;
      match_word CONNECTION c (set_hs h_general) (mret tt) (set_hs h_connection)
  | h_matching_proxy_connection =>
      incr_index;;
      match_word PROXY_CONNECTION c (set_hs h_general) (mret tt) (set_hs h_connection)
  | h_matching_content_length =>
      incr_index;;
      match_word CONTENT_LENGTH c (set_hs h_general) (mret tt) (set_hs h_content_length)
  | h_matching_transfer_encoding =>
      incr_index;;
      match_word TRANSFER_ENCODING c (set_hs h_general) (mret tt)
        (set_hs h_transfer_encoding;; modify_parser (set_uses_transfer_encoding true))
  | h_matching_upgrade =>
      incr_index;;
      match_word UPGRADE c (set_hs h_general) (mret tt) (set_hs h_upgrade)
  | h_connection | h_content_length | h_transfer_encoding | h_upgrade =>
      c0 ← gets ch;
      if negb (c0 =? " "%ch) then set_hs h_general else mret tt
  | _ => assert_ false
  end.

(** [for (; p != data + len; p++)] over the characters of a field name. *)
Fixpoint header_field_loop (fuel : nat) : M unit :=
  match fuel with
  | O => fault_with out_of_fuel
  | S fuel' =>
      p ← gets pos;
      if (p =? len)%nat then mret tt else
      load_ch;;
      c0 ← gets ch;
      let c := TOKEN c0 in
      if c =? 0 then mret tt else
      header_field_char c;;
      p ← gets pos;
      modify (with_pos (p + 1)%nat);;
      header_field_loop fuel'
  end.

Definition case_s_header_field : M ctl :=
  start ← gets pos;
  header_field_loop (S len);;
  p ← gets pos;
  if (p =? len)%nat then
    modify (with_pos (p - 1)%nat);;
    COUNT_HEADER_SIZE (Z.of_nat (p - 1) - Z.of_nat start);;
    mret Break
  else
  COUNT_HEADER_SIZE (Z.of_nat p - Z.of_nat start);;
  c0 ← gets ch;
  if c0 =? ":"%ch then
    UPDATE_STATE s_header_value_discard_ws;;
    CALLBACK_DATA for_header_field;;
    mret Break
  else fail HPE_INVALID_HEADER_TOKEN.

(** ** Header values *)

Definition case_s_header_value_start : M ctl :=
  MARK for_header_value;;
  UPDATE_STATE s_header_value;;
  modify_parser (set_index 0);;
  c0 ← gets ch;
  let c := LOWER c0 in
  p ← gets parser;
  match hp_header_state p with
  | h_upgrade => modify_parser (add_flag F_UPGRADE);; set_hs h_general;; mret Break
  | h_transfer_encoding =>
      set_hs (if "c"%ch =? c then h_matching_transfer_encoding_chunked
              else h_matching_transfer_encoding_token);;
      mret Break
  | h_matching_transfer_encoding_token_start => mret Break
  | h_content_length =>
      if negb (IS_NUM c0) then fail HPE_INVALID_CONTENT_LENGTH else
      if has_flag F_CONTENTLENGTH p then fail HPE_UNEXPECTED_CONTENT_LENGTH else
      modify_parser (add_flag F_CONTENTLENGTH);;
      modify_parser (set_content_length (c0 - "0"%ch));;
      set_hs h_content_length_num;;
      mret Break
  | h_content_length_ws => mret Break
  | h_connection =>
      set_hs (if c =? "k"%ch then h_matching_connection_keep_alive
              else if c =? "c"%ch then h_matching_connection_close
              else if c =? "u"%ch then h_matching_connection_upgrade
              else h_matching_connection_token);;
      mret Break
  | h_matching_connection_token_start => mret Break
  | _ => set_hs h_general;; mret Break
  end.

Definition case_s_header_value_discard_ws : M ctl :=
  c ← gets ch;
  if (c =? " "%ch) || (c =? TAB) then mret Break
  else if c =? CR then UPDATE_STATE s_header_value_discard_ws_almost_done;; mret Break
  else if c =? LF then UPDATE_STATE s_header_value_discard_lws;; mret Break
  else case_s_header_value_start. (* fall through *)

(** The inner loop of [h_general]: [for (; p != pe; p++)]. *)
Fixpoint value_run (fuel : nat) (pe : nat) : M unit :=
  match fuel with
  | O => fault_with out_of_fuel
  | S fuel' =>
      p ← gets pos;
      if (p =? pe)%nat then mret tt else
      load_ch;;
      c ← gets ch;
      if (c =? CR) || (c =? LF) then modify (with_pos (p - 1)%nat)
      else if negb lenient && negb (IS_HEADER_CHAR c) then fail HPE_INVALID_HEADER_TOKEN
      else modify (with_pos (p + 1)%nat);; value_run fuel' pe
  end.

(** [SET_ERRNO(HPE_INVALID_CONTENT_LENGTH); parser->header_state = h_state;
    goto error;]. *)
Definition fail_content_length {A} (h_state : header_states) : M A :=
  SET_ERRNO HPE_INVALID_CONTENT_LENGTH;; set_hs h_state;; goto_error.

(** The case [h_content_length_num]. *)
Definition content_length_digit (c0 : Z) : M header_states :=
  if c0 =? " "%ch then mret h_content_length_ws else
  if negb (IS_NUM c0) then fail_content_length h_content_length_num else
  p ← gets parser;
  let t := u64 (u64 (hp_content_length p * 10) + (c0 - "0"%ch)) in
  if (ULLONG_MAX - 10) / 10 <? hp_content_length p
  then fail_content_length h_content_length_num
  else modify_parser (set_content_length t);; mret h_content_length_num.

(** [switch (h_state)] for one character of a value: the new [h_state]. *)
Definition header_value_char (h_state : header_states) : M header_states :=
  c0 ← gets ch;
  let c := LOWER c0 in
  match h_state with
  | h_general =>
      p ← gets pos;
      value_run (S len) (run_end p);;
      p ← gets pos;
      (if (p =? len)%nat then modify (with_pos (p - 1)%nat) else mret tt);;
      mret h_state
  | h_connection | h_transfer_encoding => assert_ false;; mret h_state
  | h_content_length =>
      if c0 =? " "%ch then mret h_state else content_length_digit c0
  | h_content_length_num => content_length_digit c0
  | h_content_length_ws =>
      if c0 =? " "%ch then mret h_state else fail_content_length h_state
  | h_matching_transfer_encoding_token_start =>
      if "c"%ch =? c then mret h_matching_transfer_encoding_chunked
      else if negb (STRICT_TOKEN c =? 0) then mret h_matching_transfer_encoding_token
      else if (c =? " "%ch) || (c =? TAB) then mret h_state
      else mret h_general
  | h_matching_transfer_encoding_chunked =>
      incr_index;;
      match_word CHUNKED c (mret h_matching_transfer_encoding_token) (mret h_state)
        (mret h_transfer_encoding_chunked)
  | h_matching_transfer_encoding_token =>
      if c0 =? ","%ch then
        modify_parser (set_index 0);; mret h_matching_transfer_encoding_token_start
      else mret h_state
  | h_matching_connection_token_start =>
      if c =? "k"%ch then mret h_matching_connection_keep_alive
      else if c =? "c"%ch then mret h_matching_connection_close
      else if c =? "u"%ch then mret h_matching_connection_upgrade
      else if negb (STRICT_TOKEN c =? 0) then mret h_matching_connection_token
      else if (c =? " "%ch) || (c =? TAB) then mret h_state
      else mret h_general
  | h_matching_connection_keep_alive =>
      incr_index;;
      match_word KEEP_ALIVE c (mret h_matching_connection_token) (mret h_state)
        (mret h_connection_keep_alive)
  | h_matching_connection_close =>
      incr_index;;
      match_word CLOSE c (mret h_matching_connection_token) (mret h_state)
        (mret h_connection_close)
  | h_matching_connection_upgrade =>
      incr_index;;
      match_word UPGRADE c (mret h_matching_connection_token) (mret h_state)
        (mret h_connection_upgrade)
  | h_matching_connection_token =>
      if c0 =? ","%ch then
        modify_parser (set_index 0);; mret h_matching_connection_token_start
      else mret h_state
  | h_transfer_encoding_chunked =>
      if negb (c0 =? " "%ch) then mret h_matching_transfer_encoding_token else mret h_state
  | h_connection_keep_alive | h_connection_close | h_connection_upgrade =>
      if c0 =? ","%ch then
        modify_parser (add_flag (match h_state with
                                 | h_connection_keep_alive => F_CONNECTION_KEEP_ALIVE
                                 | h_connection_close => F_CONNECTION_CLOSE
                                 | _ => F_CONNECTION_UPGRADE
                                 end));;
        modify_parser (set_index 0);;
        mret h_matching_connection_token_start
      else if negb (c0 =? " "%ch) then mret h_matching_connection_token
      else mret h_state
  | _ => UPDATE_STATE s_header_value;; mret h_general
  end.

(** [for (; p != data + len; p++)] over the characters of a value: [inl h_state]
    when the loop ends, [inr tt] for [REEXECUTE()] at a line feed. *)
Fixpoint header_value_loop (fuel : nat) (start : nat) (h_state : header_states)
    : M (header_states + unit) :=
  match fuel with
  | O => fault_with out_of_fuel
  | S fuel' =>
      p ← gets pos;
      if (p =? len)%nat then mret (inl h_state) else
      load_ch;;
      c0 ← gets ch;
      if c0 =? CR then
        UPDATE_STATE s_header_almost_done;;
        set_hs h_state;;
        CALLBACK_DATA for_header_value;;
        mret (inl h_state)
      else if c0 =? LF then
        UPDATE_STATE s_header_almost_done;;
        COUNT_HEADER_SIZE (Z.of_nat p - Z.of_nat start);;
        set_hs h_state;;
        CALLBACK_DATA_NOADVANCE for_header_value;;
        mret (inr tt)
      else if negb lenient && negb (IS_HEADER_CHAR c0) then fail HPE_INVALID_HEADER_TOKEN
      else
        h_state ← header_value_char h_state;
        p ← gets pos;
        modify (with_pos (p + 1)%nat);;
        header_value_loop fuel' start h_state
  end.

Definition case_s_header_value : M ctl :=
  start ← gets pos;
  p ← gets parser;
  r ← header_value_loop (S len) start (hp_header_state p);
  match r with
  | inr _ => mret Reexecute
  | inl h_state =>
      set_hs h_state;;
      p ← gets pos;
      (if (p =? len)%nat then modify (with_pos (p - 1)%nat) else mret tt);;
      p ← gets pos;
      COUNT_HEADER_SIZE (Z.of_nat p - Z.of_nat start);;
      mret Break
  end.

Definition case_s_header_almost_done : M ctl :=
  c ← gets ch;
  if negb (c =? LF) then fail HPE_LF_EXPECTED else
  UPDATE_STATE s_header_value_lws;;
  mret Break.

(** The flag that a completed header value sets; [h_transfer_encoding_chunked]
    and the three values of [Connection]. *)
Definition header_value_flag (h : header_states) : option Z :=
  match h with
  | h_connection_keep_alive => Some F_CONNECTION_KEEP_ALIVE
  | h_connection_close => Some F_CONNECTION_CLOSE
  | h_transfer_encoding_chunked => Some F_CHUNKED
  | h_connection_upgrade => Some F_CONNECTION_UPGRADE
  | _ => None
  end.
Definition flag_header_value : M unit :=
  p ← gets parser;
  match header_value_flag (hp_header_state p) with
  | Some f => modify_parser (add_flag f)
  | None => mret tt
  end.

Definition case_s_header_value_lws : M ctl :=
  c ← gets ch;
  p ← gets parser;
  if (c =? " "%ch) || (c =? TAB) then
    (if decide (hp_header_state p = h_content_length_num)
     then set_hs h_content_length_ws else mret tt);;
    UPDATE_STATE s_header_value_start;;
    mret Reexecute
  else
  flag_header_value;;
  UPDATE_STATE s_header_field_start;;
  mret Reexecute.

Definition case_s_header_value_discard_lws : M ctl :=
  c ← gets ch;
  p ← gets parser;
  if (c =? " "%ch) || (c =? TAB) then UPDATE_STATE s_header_value_discard_ws;; mret Break
  else
  (if decide (hp_header_state p = h_content_length)
   then fail HPE_INVALID_CONTENT_LENGTH else flag_header_value);;
  MARK for_header_value;;
  UPDATE_STATE s_header_field_start;;
  CALLBACK_DATA_NOADVANCE for_header_value;;
  mret Reexecute.

(** ** The end of the headers *)

(** Whether the framing headers contradict each other (RFC 7230, 3.3.3). *)
Definition framing_conflict (p : http_parser) : bool :=
  if hp_uses_transfer_encoding p && has_flag F_CONTENTLENGTH p then
    if has_flag F_CHUNKED p then negb allow_chunked_length else negb lenient
  else false.

(** The value [parser->upgrade] gets. *)
Definition upgrade_requested (p : http_parser) : bool :=
  if has_flag F_UPGRADE p && has_flag F_CONNECTION_UPGRADE p
  then bool_decide (hp_type p = HTTP_REQUEST) || (hp_status_code p =? 101)
  else bool_decide (hp_method p = HTTP_CONNECT).

(** The call of [on_headers_complete]. *)
Definition call_headers_complete : M unit :=
  match on_headers_complete settings with
  | None => mret tt
  | Some cb =>
      s ← gets id;
      (let '(rc, p', u') := cb (parser s) (user s) in
       modify (fun s => with_user u' (with_parser p' s));;
       if rc =? 0 then mret tt
       else if rc =? 2 then
         modify_parser (set_upgrade true);; modify_parser (add_flag F_SKIPBODY)
       else if rc =? 1 then modify_parser (add_flag F_SKIPBODY)
       else SET_ERRNO HPE_CB_headers_complete;; p ← gets pos; RETURN p)
  end.

Definition case_s_headers_almost_done : M ctl :=
  c ← gets ch;
  STRICT_CHECK (negb (c =? LF));;
  p ← gets parser;
  if has_flag F_TRAILING p then
    UPDATE_STATE s_message_done;;
    CALLBACK_NOTIFY_NOADVANCE for_chunk_complete;;
    mret Reexecute
  else
  if framing_conflict p then fail HPE_UNEXPECTED_CONTENT_LENGTH else
  UPDATE_STATE s_headers_done;;
  modify_parser (fun p => set_upgrade (upgrade_requested p) p);;
  call_headers_complete;;
  p ← gets parser;
  if decide (hp_http_errno p = HPE_OK) then mret Reexecute
  else o ← gets pos; RETURN o.

(** [parser->nread = 0; nread = 0;]. *)
Definition reset_nread : M unit :=
  modify (fun s => with_nread 0 (with_parser (HttpParser.set_nread 0 (parser s)) s)).

(** [UPDATE_STATE(NEW_MESSAGE()); CALLBACK_NOTIFY(message_complete);]. *)
Definition message_complete : M unit :=
  p ← gets parser;
  UPDATE_STATE (NEW_MESSAGE p);;
  CALLBACK_NOTIFY for_message_complete.

Definition has_body (p : http_parser) : bool :=
  has_flag F_CHUNKED p
  || ((0 <? hp_content_length p) && negb (hp_content_length p =? ULLONG_MAX)).

Definition case_s_headers_done : M ctl :=
  c ← gets ch;
  STRICT_CHECK (negb (c =? LF));;
  reset_nread;;
  p ← gets parser;
  o ← gets pos;
  if hp_upgrade p && (bool_decide (hp_method p = HTTP_CONNECT)
                      || has_flag F_SKIPBODY p || negb (has_body p)) then
    message_complete;;
    RETURN (o + 1)%nat
  else if has_flag F_SKIPBODY p then message_complete;; mret Break
  else if has_flag F_CHUNKED p then UPDATE_STATE s_chunk_size_start;; mret Break
  else if hp_uses_transfer_encoding p then
    if bool_decide (hp_type p = HTTP_REQUEST) && negb lenient then
      SET_ERRNO HPE_INVALID_TRANSFER_ENCODING;; RETURN o
    else UPDATE_STATE s_body_identity_eof;; mret Break
  else if hp_content_length p =? 0 then message_complete;; mret Break
  else if negb (hp_content_length p =? ULLONG_MAX) then
    UPDATE_STATE s_body_identity;; mret Break
  else if negb (http_message_needs_eof p) then message_complete;; mret Break
  else UPDATE_STATE s_body_identity_eof;; mret Break.

(** ** The body *)

(** [MIN(parser->content_length, (uint64_t) ((data + len) - p))]. *)
Definition to_read (p : http_parser) (o : nat) : Z :=
  Z.min (hp_content_length p) (Z.of_nat (len - o)).
Definition content_length_known (p : http_parser) : bool :=
  negb (hp_content_length p =? 0) && negb (hp_content_length p =? ULLONG_MAX).

(** [MARK(body); parser->content_length -= to_read; p += to_read - 1;]. *)
Definition consume_body : M unit :=
  p ← gets parser;
  o ← gets pos;
  MARK for_body;;
  modify_parser (set_content_length (hp_content_length p - to_read p o));;
  modify (with_pos (o + (Z.to_nat (to_read p o) - 1))%nat).

Definition case_s_body_identity : M ctl :=
  p ← gets parser;
  assert_ (content_length_known p);;
  consume_body;;
  p ← gets parser;
  o ← gets pos;
  if hp_content_length p =? 0 then
    UPDATE_STATE s_message_done;;
    CALLBACK_DATA_ for_body (fun mark => o - mark + 1)%nat o;;
    mret Reexecute
  else mret Break.

Definition case_s_body_identity_eof : M ctl :=
  MARK for_body;;
  modify (with_pos (len - 1)%nat);;
  mret Break.

Definition case_s_message_done : M ctl :=
  message_complete;;
  p ← gets parser;
  if hp_upgrade p then o ← gets pos; RETURN (o + 1)%nat else mret Break.

(** ** Chunks *)

Definition assert_chunked : M unit :=
  p ← gets parser; assert_ (has_flag F_CHUNKED p).

Definition case_s_chunk_size_start : M ctl :=
  n ← gets nread;
  assert_ (n =? 1);;
  assert_chunked;;
  c ← gets ch;
  let unhex_val := at_index unhex c in
  if unhex_val =? -1 then fail HPE_INVALID_CHUNK_SIZE else
  modify_parser (set_content_length (u64 unhex_val));;
  UPDATE_STATE s_chunk_size;;
  mret Break.

Definition case_s_chunk_size : M ctl :=
  assert_chunked;;
  c ← gets ch;
  if c =? CR then UPDATE_STATE s_chunk_size_almost_done;; mret Break else
  let unhex_val := at_index unhex c in
  if unhex_val =? -1 then
    if (c =? ";"%ch) || (c =? " "%ch) then UPDATE_STATE s_chunk_parameters;; mret Break
    else fail HPE_INVALID_CHUNK_SIZE
  else
  p ← gets parser;
  let t := u64 (u64 (hp_content_length p * 16) + unhex_val) in
  if (ULLONG_MAX - 16) / 16 <? hp_content_length p then fail HPE_INVALID_CONTENT_LENGTH
  else modify_parser (set_content_length t);; mret Break.

Definition case_s_chunk_parameters : M ctl :=
  assert_chunked;;
  c ← gets ch;
  if c =? CR then UPDATE_STATE s_chunk_size_almost_done;; mret Break else mret Break.

Definition case_s_chunk_size_almost_done : M ctl :=
  assert_chunked;;
  c ← gets ch;
  STRICT_CHECK (negb (c =? LF));;
  reset_nread;;
  p ← gets parser;
  (if hp_content_length p =? 0 then
     modify_parser (add_flag F_TRAILING);; UPDATE_STATE s_header_field_start
   else UPDATE_STATE s_chunk_data);;
  CALLBACK_NOTIFY for_chunk_header;;
  mret Break.

Definition case_s_chunk_data : M ctl :=
  assert_chunked;;
  p ← gets parser;
  assert_ (content_length_known p);;
  consume_body;;
  p ← gets parser;
  if hp_content_length p =? 0
  then UPDATE_STATE s_chunk_data_almost_done;; mret Break
  else mret Break.

Definition case_s_chunk_data_almost_done : M ctl :=
  assert_chunked;;
  p ← gets parser;
  assert_ (hp_content_length p =? 0);;
  c ← gets ch;
  STRICT_CHECK (negb (c =? CR));;
  UPDATE_STATE s_chunk_data_done;;
  CALLBACK_DATA for_body;;
  mret Break.

Definition case_s_chunk_data_done : M ctl :=
  assert_chunked;;
  c ← gets ch;
  STRICT_CHECK (negb (c =? LF));;
  reset_nread;;
  UPDATE_STATE s_chunk_size_start;;
  CALLBACK_NOTIFY for_chunk_complete;;
  mret Break.

(** ** The [switch], the main loop and the function *)

Definition switch (st : state) : M ctl :=
  match st with
  | s_dead => case_s_dead
  | s_start_req_or_res => case_s_start_req_or_res
  | s_res_or_resp_H => case_s_res_or_resp_H
  | s_start_res => case_s_start_res
  | s_res_H => case_expect "T"%ch s_res_HT
  | s_res_HT => case_expect "T"%ch s_res_HTT
  | s_res_HTT => case_expect "P"%ch s_res_HTTP
  | s_res_HTTP => case_expect "/"%ch s_res_http_major
  | s_res_http_major => case_version_digit set_http_major s_res_http_dot
  | s_res_http_dot => case_version_char "."%ch s_res_http_minor
  | s_res_http_minor => case_version_digit set_http_minor s_res_http_end
  | s_res_http_end => case_version_char " "%ch s_res_first_status_code
  | s_res_first_status_code => case_s_res_first_status_code
  | s_res_status_code => case_s_res_status_code
  | s_res_status_start => case_s_res_status_start
  | s_res_status => case_s_res_status
  | s_res_line_almost_done => case_expect LF s_header_field_start
  | s_start_req => case_s_start_req
  | s_req_method => case_s_req_method
  | s_req_spaces_before_url => case_s_req_spaces_before_url
  | s_req_schema | s_req_schema_slash | s_req_schema_slash_slash | s_req_server_start =>
      case_url_no_space
  | s_req_server | s_req_server_with_at | s_req_path | s_req_query_string_start
  | s_req_query_string | s_req_fragment_start | s_req_fragment => case_url
  | s_req_http_start => case_s_req_http_start
  | s_req_http_H => case_expect "T"%ch s_req_http_HT
  | s_req_http_HT => case_expect "T"%ch s_req_http_HTT
  | s_req_http_HTT => case_expect "P"%ch s_req_http_HTTP
  | s_req_http_I => case_expect "C"%ch s_req_http_IC
  | s_req_http_IC => case_expect "E"%ch s_req_http_HTTP
  | s_req_http_HTTP => case_expect "/"%ch s_req_http_major
  | s_req_http_major => case_version_digit set_http_major s_req_http_dot
  | s_req_http_dot => case_version_char "."%ch s_req_http_minor
  | s_req_http_minor => case_version_digit set_http_minor s_req_http_end
  | s_req_http_end => case_s_req_http_end
  | s_req_line_almost_done => case_s_req_line_almost_done
  | s_header_field_start => case_s_header_field_start
  | s_header_field => case_s_header_field
  | s_header_value_discard_ws => case_s_header_value_discard_ws
  | s_header_value_start => case_s_header_value_start
  | s_header_value => case_s_header_value
  | s_header_almost_done => case_s_header_almost_done
  | s_header_value_lws => case_s_header_value_lws
  | s_header_value_discard_ws_almost_done => case_expect LF s_header_value_discard_lws
  | s_header_value_discard_lws => case_s_header_value_discard_lws
  | s_headers_almost_done => case_s_headers_almost_done
  | s_headers_done => case_s_headers_done
  | s_body_identity => case_s_body_identity
  | s_body_identity_eof => case_s_body_identity_eof
  | s_message_done => case_s_message_done
  | s_chunk_size_start => case_s_chunk_size_start
  | s_chunk_size => case_s_chunk_size
  | s_chunk_parameters => case_s_chunk_parameters
  | s_chunk_size_almost_done => case_s_chunk_size_almost_done
  | s_chunk_data => case_s_chunk_data
  | s_chunk_data_almost_done => case_s_chunk_data_almost_done
  | s_chunk_data_done => case_s_chunk_data_done
  end.

(** The [switch] under the label [reexecute]. *)
Fixpoint reexecute (fuel : nat) : M unit :=
  match fuel with
  | O => fault_with out_of_fuel
  | S fuel' =>
      st ← gets p_state;
      c ← switch st;
      match c with
      | Break => mret tt
      | Reexecute => reexecute fuel'
      end
  end.

(** Enough turns of [goto reexecute] at one position. *)
Definition reexecute_fuel : nat := 8.

(** [for (p = data; p != data + len; p++)]. *)
Fixpoint main_loop (fuel : nat) : M unit :=
  match fuel with
  | O => fault_with out_of_fuel
  | S fuel' =>
      p ← gets pos;
      if (p =? len)%nat then mret tt else
      load_ch;;
      st ← gets p_state;
      (if PARSING_HEADER st then COUNT_HEADER_SIZE 1 else mret tt);;
      reexecute reexecute_fuel;;
      p ← gets pos;
      modify (with_pos (p + 1)%nat);;
      main_loop fuel'
  end.

(** The marks that are set at the entry. *)
Definition entry_marks (st : state) : frame U -> frame U :=
  match st with
  | s_header_field => with_header_field_mark (Some 0%nat)
  | s_header_value => with_header_value_mark (Some 0%nat)
  | s_req_path | s_req_schema | s_req_schema_slash | s_req_schema_slash_slash
  | s_req_server_start | s_req_server | s_req_server_with_at | s_req_query_string_start
  | s_req_query_string | s_req_fragment_start | s_req_fragment =>
      with_url_mark (Some 0%nat)
  | s_res_status => with_status_mark (Some 0%nat)
  | _ => id
  end.

Definition mark_count (s : frame U) : nat :=
  length (filter (fun FOR => is_Some (mark_of FOR s))
            [for_header_field; for_header_value; for_url; for_body; for_status]).

(** The callbacks for the marks that are left over, and [RETURN(len)]. *)
Definition leftover_marks : M unit :=
  n ← gets mark_count;
  assert_ (n <=? 1)%nat;;
  CALLBACK_DATA_NOADVANCE for_header_field;;
  CALLBACK_DATA_NOADVANCE for_header_value;;
  CALLBACK_DATA_NOADVANCE for_url;;
  CALLBACK_DATA_NOADVANCE for_body;;
  CALLBACK_DATA_NOADVANCE for_status.

(** The body of the function for [len == 0]. *)
Definition execute_eof : M Empty_set :=
  st ← gets p_state;
  match st with
  | s_body_identity_eof =>
      CALLBACK_NOTIFY_NOADVANCE for_message_complete;; return_ 0
  | s_dead | s_start_req_or_res | s_start_res | s_start_req => return_ 0
  | _ => SET_ERRNO HPE_INVALID_EOF_STATE;; return_ 1
  end.

(** The body of the function from the entry marks on. *)
Definition execute_body : M Empty_set :=
  st ← gets p_state;
  modify (entry_marks st);;
  main_loop (S len);;
  leftover_marks;;
  RETURN len.
End execute.

(** The outcome of a call: the returned count, the parser and the application's
    state; or a fault. *)
Inductive outcome (U : Type) :=
  | Returned (n : nat) (p : http_parser) (u : U)
  | Faulty (f : fault).
Arguments Returned {U}.
Arguments Faulty {U}.

(** The label [error]. *)
Definition at_error {U} (s : frame U) : outcome U :=
  let p := parser s in
  let p := if decide (hp_http_errno p = HPE_OK)
           then set_http_errno HPE_UNKNOWN (HttpParser.set_nread (nread s) p) else p in
  Returned (pos s)
    (HttpParser.set_state (p_state s) (HttpParser.set_nread (nread s) p)) (user s).

Definition finish {U} (r : result U Empty_set) : outcome U :=
  match r with
  | Next e _ => match e with end
  | Return n s => Returned n (parser s) (user s)
  | Goto_error s => at_error s
  | Fault f => Faulty f
  end.

Definition initial_frame {U} (p : http_parser) (u : U) : frame U :=
  mk_frame 0 0 (hp_state p) (hp_nread p) None None None None None p u.

Definition http_parser_execute {U} (settings : http_parser_settings U)
    (max_header_size : Z) (data : list Byte.byte) (p : http_parser) (u : U) : outcome U :=
  if decide (hp_http_errno p = HPE_OK) then
    finish
      ((if (length data =? 0)%nat then execute_eof settings
        else execute_body settings data max_header_size (hp_lenient_http_headers p)
               (hp_allow_chunked_length p))
         (initial_frame p u))
  else Returned 0 p u.
