(* ===== verification/HttpMethod.v ===== *)
(** * HttpMethod: the recognition of the request method

    Facts on [initial_method], [method_transition] and [method_strings], the tables
    with which [http_parser_execute] recognises a method one character at a time. *)

From S2P Require Import Prelude.
From S2P Require Import HttpTables.
From S2P Require Import HttpParser.
From S2P Require Import HttpMonad.
From S2P Require Import HttpExec.
From stdpp Require Import list.
Local Open Scope Z_scope.

(** Every method is in the table: a property of all methods can be checked on it. *)
Definition all_methods : list http_method := ((fun e => e.1.2) <$> HTTP_METHOD_MAP).

Lemma all_methods_spec m : m ∈ all_methods.
Proof. apply list_elem_of_In. destruct m; vm_compute; tauto. Qed.

Lemma Forall_methods (P : http_method -> Prop) : Forall P all_methods -> forall m, P m.
Proof. intros H m. rewrite Forall_forall in H. apply H, all_methods_spec. Qed.

Lemma http_method_num_range m : 0 <= http_method_num m < 34.
Proof.
  revert m. apply Forall_methods. repeat constructor; vm_compute; congruence.
Qed.

Lemma http_method_num_inj m m' : http_method_num m = http_method_num m' -> m = m'.
Proof.
  assert (forall m, nth (Z.to_nat (http_method_num m)) all_methods HTTP_GET = m) as Hinv.
  { apply Forall_methods. repeat constructor. }
  intros H. rewrite <- (Hinv m), <- (Hinv m'). by rewrite H.
Qed.

(** The three numbers of a key do not overlap. *)
Lemma method_key_eq m i c :
  0 <= i < 256 -> 0 <= c < 256 -> method_key m i c = http_method_num m * 65536 + i * 256 + c.
Proof.
  intros Hi Hc. pose proof (http_method_num_range m) as Hm. unfold method_key.
  rewrite (lor_shiftl _ (Z.shiftl i 8)) by (rewrite ?Z.shiftl_mul_pow2; lia).
  replace (http_method_num m * 2 ^ 16 + Z.shiftl i 8)
    with (Z.shiftl (http_method_num m * 256 + i) 8)
    by (rewrite !Z.shiftl_mul_pow2; lia).
  rewrite lor_shiftl by lia. lia.
Qed.

Lemma method_key_inj m i c m' i' c' :
  0 <= i < 256 -> 0 <= c < 256 -> 0 <= i' < 256 -> 0 <= c' < 256 ->
  method_key m i c = method_key m' i' c' -> m = m' /\ i = i' /\ c = c'.
Proof.
  intros Hi Hc Hi' Hc'. rewrite !method_key_eq by done. intros H.
  assert (http_method_num m = http_method_num m') by lia.
  split; [by apply http_method_num_inj | lia].
Qed.

(** A property of the rows of the transition table. *)
Definition transition_sound (e : http_method * Z * Z * http_method) : Prop :=
  let '(m, i, c, m') := e in
  0 <= i < 256 /\ 0 <= c < 256 /\
  i + 1 <= Z.of_nat (String.length (method_string m')) /\
  take (Z.to_nat i) (bytes (method_string m')) = take (Z.to_nat i) (bytes (method_string m)) /\
  str_at (method_string m') i = Some c.

Lemma transitions_sound : Forall transition_sound method_transitions.
Proof.
  repeat constructor; vm_compute; congruence.
Qed.

(** A transition is a row of the table, and the new method has the characters read
    so far and the current one. *)
Lemma method_transition_sound m i c m' :
  0 <= i < 256 -> 0 <= c < 256 ->
  method_transition m i c = Some m' -> transition_sound (m, i, c, m').
Proof.
  intros Hi Hc. unfold method_transition.
  destruct (List.find _ _) as [e |] eqn:Hf; [| done]. intros [= <-].
  apply List.find_some in Hf as [Hin Hkey]. boolify.
  apply list_elem_of_In in Hin.
  pose proof transitions_sound as Hall. rewrite Forall_forall in Hall. specialize (Hall e Hin).
  destruct e as [[[me ie] ce] me']. simpl in *.
  destruct Hall as (? & ? & Hrest).
  apply method_key_inj in Hkey as (-> & -> & ->); done.
Qed.

Lemma method_string_long m : 3 <= Z.of_nat (String.length (method_string m)) <= 11.
Proof. revert m. apply Forall_methods. repeat constructor; vm_compute; congruence. Qed.

(** The first guess has the right first character. *)
Lemma initial_method_sound c m :
  initial_method c = Some m -> str_at (method_string m) 0 = Some c.
Proof.
  unfold initial_method.
  repeat match goal with
  | |- context [c =? ?k] => destruct (Z.eqb_spec c k) as [-> |]; [by intros [= <-] |]
  end.
  done.
Qed.
