(* ===== verification/HttpWp.v ===== *)
(** * HttpWp: reasoning about the monad of [http_parser_execute]

    The weakest precondition of a piece of the body of [http_parser_execute] for
    three postconditions (falling through, returning, going to [error]; a fault
    satisfies none), its rules, and the contract a callback must keep. *)

From S2P Require Import Prelude.
From S2P Require Import HttpTables.
From S2P Require Import HttpParser.
From S2P Require Import HttpMonad.
Local Open Scope Z_scope.

(** [wp R E m Q s]: from [s], [m] is not faulty; it falls through with [Q],
    returns with [R] or goes to [error] with [E]. *)
Definition wp {U A} (R : nat -> frame U -> Prop) (E : frame U -> Prop)
    (m : M U A) (Q : A -> frame U -> Prop) (s : frame U) : Prop :=
  match m s with
  | Next a s' => Q a s'
  | Return v s' => R v s'
  | Goto_error s' => E s'
  | Fault _ => False
  end.

#[global] Arguments wp : simpl never.

(** The contract of a callback (the comments of [http_parser.h] make all the fields
    private or read-only to it, and give it [http_parser_pause]): it leaves the
    parser as it is, or pauses it. *)
Definition cb_ok {U} (cb : http_cb U) : Prop :=
  forall p u, let '(rc, p', u') := cb p u in
    p' = p \/ (hp_http_errno p = HPE_OK /\ p' = set_http_errno HPE_PAUSED p).
Definition data_cb_ok {U} (cb : http_data_cb U) : Prop :=
  forall bs, cb_ok (fun p u => cb p bs u).

Definition opt_ok {A} (P : A -> Prop) (o : option A) : Prop :=
  match o with Some a => P a | None => True end.

(** Every callback that is set keeps the contract. *)
Class WellBehaved {U} (st : http_parser_settings U) : Prop := {
  wb_notify FOR : opt_ok cb_ok (on_notify st FOR);
  wb_data FOR : opt_ok data_cb_ok (on_data st FOR);
  wb_headers_complete : opt_ok cb_ok (on_headers_complete st)
}.

Section rules.
Context {U : Type} (R : nat -> frame U -> Prop) (E : frame U -> Prop).
Abbreviation wp := (wp R E).

Lemma wp_mono {A} (m : M U A) (Q Q' : A -> frame U -> Prop) s :
  wp m Q s -> (forall a s', Q a s' -> Q' a s') -> wp m Q' s.
Proof. unfold HttpWp.wp. destruct (m s); auto. Qed.

Lemma wp_ret {A} (a : A) Q s : Q a s -> wp (mret a) Q s.
Proof. done. Qed.

Lemma wp_bind {A B} (m : M U A) (f : A -> M U B) Q s :
  wp m (fun a s' => wp (f a) Q s') s -> wp (m ≫= f) Q s.
Proof. unfold HttpWp.wp, mbind, M_bind. by destruct (m s). Qed.

Lemma wp_gets {A} (f : frame U -> A) Q s : Q (f s) s -> wp (gets f) Q s.
Proof. done. Qed.

Lemma wp_modify f Q s : Q tt (f s) -> wp (modify f) Q s.
Proof. done. Qed.

Lemma wp_modify_parser f Q s :
  Q tt (with_parser (f (parser s)) s) -> wp (modify_parser f) Q s.
Proof. done. Qed.

Lemma wp_UPDATE_STATE v Q s : Q tt (with_p_state v s) -> wp (UPDATE_STATE v) Q s.
Proof. done. Qed.

Lemma wp_assert b Q s : b = true -> Q tt s -> wp (assert_ b) Q s.
Proof. by intros ->. Qed.

Lemma wp_goto_error {A} (Q : A -> frame U -> Prop) s : E s -> wp goto_error Q s.
Proof. done. Qed.

Lemma wp_return_ {A} v (Q : A -> frame U -> Prop) s : R v s -> wp (return_ v) Q s.
Proof. done. Qed.

Lemma wp_SET_ERRNO e Q s :
  Q tt (with_parser (set_http_errno e (HttpParser.set_nread (nread s) (parser s))) s) ->
  wp (SET_ERRNO e) Q s.
Proof. done. Qed.

Lemma wp_RETURN {A} v (Q : A -> frame U -> Prop) s :
  R v (with_parser (HttpParser.set_state (p_state s)
         (HttpParser.set_nread (nread s) (parser s))) s) ->
  wp (RETURN v) Q s.
Proof. done. Qed.

Lemma wp_fail {A} e (Q : A -> frame U -> Prop) s :
  E (with_parser (set_http_errno e (HttpParser.set_nread (nread s) (parser s))) s) ->
  wp (fail e) Q s.
Proof. done. Qed.

Lemma wp_if {A} (b : bool) (m1 m2 : M U A) Q s :
  (b = true -> wp m1 Q s) -> (b = false -> wp m2 Q s) -> wp (if b then m1 else m2) Q s.
Proof. destruct b; auto. Qed.

Lemma wp_decide {A} (P : Prop) `{Decision P} (m1 m2 : M U A) Q s :
  (P -> wp m1 Q s) -> (~ P -> wp m2 Q s) -> wp (if decide P then m1 else m2) Q s.
Proof. destruct (decide P); auto. Qed.

Lemma wp_STRICT_CHECK b Q s :
  (b = true -> wp (fail HPE_STRICT) Q s) -> (b = false -> Q tt s) ->
  wp (STRICT_CHECK b) Q s.
Proof. intros H1 H2. unfold STRICT_CHECK. destruct b; [by apply H1 | by apply H2]. Qed.

(** ** The callbacks

    After a successful callback only the application's state and the field
    [state] of the parser have changed. *)

Definition after_call (u : U) (s : frame U) : frame U :=
  with_user u (with_parser (HttpParser.set_state (p_state s) (parser s)) s).

(** What the caller owes for a callback that pauses or fails: the postcondition
    of the return. *)
Definition exits_ok (e : http_errno) (ER : nat) (s : frame U) : Prop :=
  forall u,
    R ER (with_user u (with_parser
            (set_http_errno HPE_PAUSED (HttpParser.set_state (p_state s) (parser s))) s))
    /\ R ER (with_user u (with_parser
            (set_http_errno e (HttpParser.set_nread (nread s)
              (HttpParser.set_state (p_state s) (parser s)))) s))
    /\ R ER (with_user u (with_parser
            (set_http_errno e (HttpParser.set_nread (nread s)
              (set_http_errno HPE_PAUSED
                (HttpParser.set_state (p_state s) (parser s))))) s)).

Lemma wp_invoke call e ER Q s :
  cb_ok call -> hp_http_errno (parser s) = HPE_OK -> e <> HPE_OK ->
  exits_ok e ER s -> (forall u, Q tt (after_call u s)) ->
  wp (invoke call e ER) Q s.
Proof.
  intros Hcb Hok He Hexits HQ.
  unfold invoke, HttpWp.wp, mbind, M_bind, gets, modify. simpl.
  specialize (Hcb (HttpParser.set_state (p_state s) (parser s)) (user s)).
  destruct (call _ _) as [[rc p'] u'] eqn:Hcall.
  destruct (Hexits u') as (Hp & He1 & He2).
  destruct (negb (rc =? 0)); simpl; case_decide as Hd; simpl in *;
    destruct Hcb as [-> | [_ ->]]; simpl in *; try congruence; done || apply HQ.
Qed.

Context (st : http_parser_settings U) `{!WellBehaved st}.

Lemma wp_CALLBACK_NOTIFY_ FOR ER Q s :
  hp_http_errno (parser s) = HPE_OK ->
  exits_ok (HPE_CB_notify FOR) ER s ->
  Q tt s -> (forall u, Q tt (after_call u s)) ->
  wp (CALLBACK_NOTIFY_ st FOR ER) Q s.
Proof.
  intros Hok Hexits HQ HQ'. unfold CALLBACK_NOTIFY_. apply wp_bind, wp_gets, wp_bind.
  apply wp_assert; [by apply bool_decide_eq_true |].
  pose proof (wb_notify (st:=st) FOR) as Hwb.
  destruct (on_notify st FOR) as [cb |]; [| by apply wp_ret].
  apply wp_invoke; try done. by destruct FOR.
Qed.

Lemma with_mark_None FOR (s : frame U) : mark_of FOR s = None -> with_mark FOR None s = s.
Proof. destruct s, FOR; simpl; by intros ->. Qed.

(** After a data callback the mark is cleared as well. *)
Lemma wp_CALLBACK_DATA_ data FOR LEN ER Q s :
  hp_http_errno (parser s) = HPE_OK ->
  (is_Some (mark_of FOR s) -> exits_ok (HPE_CB_data FOR) ER s) ->
  Q tt (with_mark FOR None s) ->
  (forall u, Q tt (with_mark FOR None (after_call u s))) ->
  wp (CALLBACK_DATA_ st data FOR LEN ER) Q s.
Proof.
  intros Hok Hexits HQ1 HQ2. unfold CALLBACK_DATA_. apply wp_bind, wp_gets, wp_bind.
  apply wp_assert; [by apply bool_decide_eq_true |].
  apply wp_bind, wp_gets. destruct (mark_of FOR s) as [mark |] eqn:Hmark.
  - apply wp_bind. pose proof (wb_data (st:=st) FOR) as Hwb.
    destruct (on_data st FOR) as [cb |]; [| by apply wp_ret, wp_modify].
    apply wp_invoke; [done | done | by destruct FOR | by apply Hexits; eauto |].
    intros u. by apply wp_modify.
  - apply wp_ret. by rewrite (with_mark_None FOR s Hmark) in HQ1.
Qed.
End rules.

Lemma wp_load_ch {U} (R : nat -> frame U -> Prop) E data Q s :
  (pos s < length data)%nat ->
  (forall b, data !! pos s = Some b -> Q tt (with_ch (uchar b) s)) ->
  wp R E (load_ch data) Q s.
Proof.
  intros Hlt HQ. unfold load_ch. apply wp_bind, wp_gets.
  destruct (lookup_lt_is_Some_2 data (pos s) Hlt) as [b Hb].
  rewrite Hb. by apply wp_modify, HQ.
Qed.

Lemma wp_COUNT_HEADER_SIZE {U} (R : nat -> frame U -> Prop) E mx V Q s :
  (mx < u32 (nread s + u32 V) ->
     wp R E (A:=unit) (fail HPE_HEADER_OVERFLOW) Q
       (with_nread (u32 (nread s + u32 V)) s)) ->
  (u32 (nread s + u32 V) <= mx -> Q tt (with_nread (u32 (nread s + u32 V)) s)) ->
  wp R E (COUNT_HEADER_SIZE mx V) Q s.
Proof.
  intros H1 H2. unfold COUNT_HEADER_SIZE. apply wp_bind, wp_modify, wp_bind, wp_gets.
  apply wp_if; intros Hb; boolify; [apply H1 | apply wp_ret, H2]; done.
Qed.

(** When the value of the counter does not matter. *)
Lemma wp_COUNT_HEADER_SIZE_any {U} (R : nat -> frame U -> Prop) E mx V Q s :
  (forall n, 0 <= n < 2 ^ 32 ->
     wp R E (A:=unit) (fail HPE_HEADER_OVERFLOW) Q (with_nread n s)) ->
  (forall n, 0 <= n < 2 ^ 32 -> Q tt (with_nread n s)) ->
  wp R E (COUNT_HEADER_SIZE mx V) Q s.
Proof.
  intros H1 H2. apply wp_COUNT_HEADER_SIZE; intros _; [apply H1 | apply H2]; apply u32_range.
Qed.
