(* ===== verification/HttpInvariant.v ===== *)
(** * HttpInvariant: the invariant of the parser and its preservation by each case

    [well_formed] is the invariant of a parser between two calls of
    [http_parser_execute]; [body_inv] is the invariant of the local variables inside
    a call.  For each case of the [switch] a lemma [<case>_ok] shows that it is not
    faulty (no [assert] fails, nothing is read outside an array), that it keeps the
    invariant, and that a [goto reexecute] decreases [reexecute_rank].  They are put
    together in [switch_ok]. *)

From S2P Require Import Prelude.
From S2P Require Import HttpTables.
From S2P Require Import HttpUrl.
From S2P Require Import HttpParser.
From S2P Require Import HttpMonad.
From S2P Require Import HttpExec.
From S2P Require Import HttpWp.
Local Open Scope Z_scope.

(** ** The invariant *)

(** The states of the matcher while a field name is read, and while a value is. *)
Definition field_matcher (h : header_states) : bool :=
  match h with
  | h_general | h_C | h_CO | h_CON | h_matching_connection | h_matching_proxy_connection
  | h_matching_content_length | h_matching_transfer_encoding | h_matching_upgrade
  | h_connection | h_content_length | h_transfer_encoding | h_upgrade => true
  | _ => false
  end.
Definition value_matcher (h : header_states) : bool :=
  match h with
  | h_general | h_content_length_num | h_content_length_ws
  | h_matching_transfer_encoding_token_start | h_matching_transfer_encoding_chunked
  | h_matching_transfer_encoding_token | h_matching_connection_token_start
  | h_matching_connection_keep_alive | h_matching_connection_close
  | h_matching_connection_upgrade | h_matching_connection_token
  | h_transfer_encoding_chunked | h_connection_keep_alive | h_connection_close
  | h_connection_upgrade => true
  | _ => false
  end.

(** The states of the URL automaton inside a URL. *)
Definition url_state (st : state) : bool :=
  match st with
  | s_req_schema | s_req_schema_slash | s_req_schema_slash_slash | s_req_server_start
  | s_req_server | s_req_server_with_at | s_req_path | s_req_query_string_start
  | s_req_query_string | s_req_fragment_start | s_req_fragment => true
  | _ => false
  end.

(** The URL automaton stays in the URL or fails. *)
Lemma parse_url_char_states s c :
  parse_url_char s c = s_dead \/ url_state (parse_url_char s c) = true.
Proof. unfold parse_url_char. repeat case_match; auto. Qed.

(** The states in which a mark can be set. *)
Definition marked_in (FOR : data_for) (st : state) : bool :=
  match FOR, st with
  | for_header_field, s_header_field => true
  | for_header_value, s_header_value => true
  | for_url, _ => url_state st
  | for_body, (s_body_identity | s_body_identity_eof | s_chunk_data
               | s_chunk_data_almost_done) => true
  | for_status, s_res_status => true
  | _, _ => false
  end.

(** What a state says of the other fields; [n] is the count of header bytes, [k]
    is 0 before the current byte is counted and 1 after. *)
Definition state_ok (k : Z) (st : state) (p : http_parser) (n : Z) : Prop :=
  match st with
  | s_res_status_code => hp_status_code p <= 999
  | s_req_method => hp_index p <= Z.of_nat (String.length (method_string (hp_method p)))
  | s_header_field => field_matcher (hp_header_state p) = true
  | s_header_value => value_matcher (hp_header_state p) = true
  | s_chunk_size_start => has_flag F_CHUNKED p = true /\ n = k
  | s_chunk_size | s_chunk_parameters | s_chunk_size_almost_done =>
      has_flag F_CHUNKED p = true /\ hp_content_length p < ULLONG_MAX
  | s_chunk_data =>
      has_flag F_CHUNKED p = true /\ 0 < hp_content_length p < ULLONG_MAX
  | s_chunk_data_almost_done => has_flag F_CHUNKED p = true /\ hp_content_length p = 0
  | s_chunk_data_done => has_flag F_CHUNKED p = true
  | s_body_identity => 0 < hp_content_length p < ULLONG_MAX
  | _ => True
  end.

(** The fields hold values of their C types. *)
Record ranges (p : http_parser) : Prop := {
  rg_flags : 0 <= hp_flags p < 256;
  rg_index : 0 <= hp_index p < 32;
  rg_nread : 0 <= hp_nread p < 2 ^ 32;
  rg_content_length : 0 <= hp_content_length p <= ULLONG_MAX;
  rg_major : 0 <= hp_http_major p <= 9;
  rg_minor : 0 <= hp_http_minor p <= 9;
  rg_status : 0 <= hp_status_code p < 65536
}.

(** A parser between two calls.  An error other than a pause is final. *)
Definition well_formed (p : http_parser) : Prop :=
  ranges p /\
  (hp_http_errno p = HPE_OK \/ hp_http_errno p = HPE_PAUSED ->
   state_ok 0 (hp_state p) p (hp_nread p)).

Definition mark_ok {U} (s : frame U) (FOR : data_for) : Prop :=
  match mark_of FOR s with
  | None => True
  | Some m => (m <= pos s)%nat /\ marked_in FOR (p_state s) = true
  end.

(** The local variables inside a call. *)
Record body_inv {U} (k : Z) (s : frame U) : Prop := {
  bi_errno : hp_http_errno (parser s) = HPE_OK;
  bi_ranges : ranges (parser s);
  bi_nread : 0 <= nread s < 2 ^ 32;
  bi_ch : 0 <= ch s < 256;
  bi_state : state_ok k (p_state s) (parser s) (nread s);
  bi_marks : forall FOR, mark_ok s FOR
}.

(** The number of turns of [goto reexecute] a state may still make. *)
Definition reexecute_rank (st : state) : nat :=
  match st with
  | s_start_req_or_res | s_res_status_start | s_header_value | s_body_identity => 1
  | s_res_status_code | s_headers_almost_done => 2
  | s_header_field_start => 3
  | s_header_value_lws | s_header_value_discard_lws => 4
  | _ => 0
  end.

(** ** The ranges are kept by the assignments *)

Create HintDb ranges.

Lemma ranges_set_type p v : ranges p -> ranges (set_type v p).
Proof. intros []. by constructor. Qed.
Lemma ranges_set_state p v : ranges p -> ranges (HttpParser.set_state v p).
Proof. intros []. by constructor. Qed.
Lemma ranges_set_header_state p v : ranges p -> ranges (set_header_state v p).
Proof. intros []. by constructor. Qed.
Lemma ranges_set_te p v : ranges p -> ranges (set_uses_transfer_encoding v p).
Proof. intros []. by constructor. Qed.
Lemma ranges_set_method p v : ranges p -> ranges (set_method v p).
Proof. intros []. by constructor. Qed.
Lemma ranges_set_errno p v : ranges p -> ranges (set_http_errno v p).
Proof. intros []. by constructor. Qed.
Lemma ranges_set_upgrade p v : ranges p -> ranges (set_upgrade v p).
Proof. intros []. by constructor. Qed.
Lemma ranges_set_nread p v : 0 <= v < 2 ^ 32 -> ranges p -> ranges (HttpParser.set_nread v p).
Proof. intros ? []. by constructor. Qed.
Lemma ranges_set_index p v : 0 <= v < 32 -> ranges p -> ranges (set_index v p).
Proof. intros ? []. by constructor. Qed.
Lemma ranges_set_content_length p v :
  0 <= v <= ULLONG_MAX -> ranges p -> ranges (set_content_length v p).
Proof. intros ? []. by constructor. Qed.
Lemma ranges_set_major p v : 0 <= v <= 9 -> ranges p -> ranges (set_http_major v p).
Proof. intros ? []. by constructor. Qed.
Lemma ranges_set_minor p v : 0 <= v <= 9 -> ranges p -> ranges (set_http_minor v p).
Proof. intros ? []. by constructor. Qed.
Lemma ranges_set_status p v : 0 <= v < 65536 -> ranges p -> ranges (set_status_code v p).
Proof. intros ? []. by constructor. Qed.
Lemma ranges_set_flags p v : 0 <= v < 256 -> ranges p -> ranges (set_flags v p).
Proof. intros ? []. by constructor. Qed.

Lemma lor_range a b n : 0 <= n -> 0 <= a < 2 ^ n -> 0 <= b < 2 ^ n -> 0 <= Z.lor a b < 2 ^ n.
Proof.
  intros Hn Ha Hb. split; [apply Z.lor_nonneg; lia |].
  destruct (Z.eq_dec a 0) as [-> |]; [rewrite Z.lor_0_l; lia |].
  destruct (Z.eq_dec b 0) as [-> |]; [rewrite Z.lor_0_r; lia |].
  assert (0 <= Z.lor a b) by (apply Z.lor_nonneg; lia).
  assert (Z.lor a b <> 0) by (intros [? ?]%Z.lor_eq_0_iff; lia).
  apply Z.log2_lt_pow2; [lia |].
  rewrite Z.log2_lor by lia. apply Z.max_lub_lt; apply Z.log2_lt_pow2; lia.
Qed.

(** The flags of the source, by bit. *)
Definition is_flag (f : Z) : Prop := exists k, 0 <= k < 8 /\ f = Z.shiftl 1 k.

Lemma is_flag_range f : is_flag f -> 0 <= f < 256.
Proof.
  intros (k & Hk & ->). rewrite Z.shiftl_mul_pow2 by lia.
  assert (2 ^ k <= 2 ^ 7) by (apply Z.pow_le_mono_r; lia).
  assert (0 < 2 ^ k) by (apply Z.pow_pos_nonneg; lia). lia.
Qed.

Lemma is_flag_chunked : is_flag F_CHUNKED. Proof. by exists 0. Qed.
Lemma is_flag_keep_alive : is_flag F_CONNECTION_KEEP_ALIVE. Proof. by exists 1. Qed.
Lemma is_flag_close : is_flag F_CONNECTION_CLOSE. Proof. by exists 2. Qed.
Lemma is_flag_connection_upgrade : is_flag F_CONNECTION_UPGRADE. Proof. by exists 3. Qed.
Lemma is_flag_trailing : is_flag F_TRAILING. Proof. by exists 4. Qed.
Lemma is_flag_upgrade : is_flag F_UPGRADE. Proof. by exists 5. Qed.
Lemma is_flag_skipbody : is_flag F_SKIPBODY. Proof. by exists 6. Qed.
Lemma is_flag_contentlength : is_flag F_CONTENTLENGTH. Proof. by exists 7. Qed.

Lemma ranges_add_flag p f : is_flag f -> ranges p -> ranges (add_flag f p).
Proof.
  intros Hf Hp. apply ranges_set_flags; [| done].
  apply is_flag_range in Hf. destruct Hp. apply (lor_range _ _ 8); lia.
Qed.

(** [flags & f] for a single bit is a test of that bit. *)
Lemma has_flag_testbit k p : 0 <= k -> has_flag (Z.shiftl 1 k) p = Z.testbit (hp_flags p) k.
Proof. apply land_bit. Qed.

Lemma has_flag_add_flag f g p :
  is_flag f -> is_flag g -> has_flag f (add_flag g p) = (f =? g) || has_flag f p.
Proof.
  intros (k & Hk & ->) (j & Hj & ->). rewrite !has_flag_testbit by lia.
  unfold add_flag. simpl. rewrite testbit_lor_bit by lia. f_equal.
  rewrite !Z.shiftl_mul_pow2, !Z.mul_1_l by lia.
  destruct (Z.eqb_spec j k) as [-> |]; [by rewrite Z.eqb_refl |].
  symmetry. apply Z.eqb_neq. intros Heq. apply Z.pow_inj_r in Heq; lia.
Qed.

#[export] Hint Resolve ranges_set_type ranges_set_state ranges_set_header_state
  ranges_set_te ranges_set_method ranges_set_errno ranges_set_upgrade
  ranges_set_nread ranges_set_index ranges_set_content_length ranges_set_major
  ranges_set_minor ranges_set_status ranges_set_flags ranges_add_flag
  is_flag_chunked is_flag_keep_alive is_flag_close is_flag_connection_upgrade
  is_flag_trailing is_flag_upgrade is_flag_skipbody is_flag_contentlength : ranges.
Lemma u64_ULLONG_MAX z : 0 <= u64 z <= ULLONG_MAX.
Proof. pose proof (u64_range z). unfold ULLONG_MAX. lia. Qed.

#[export] Hint Resolve u5_range u16_range u32_range u64_ULLONG_MAX : ranges.
#[export] Hint Extern 3 (_ <= _ < _) => (simpl in *; lia) : ranges.
#[export] Hint Extern 3 (_ <= _ <= _) => (simpl in *; unfold ULLONG_MAX in *; lia) : ranges.

(** ** The sizes read from digits

    The guards of the cases that read [Content-Length] and the size of a chunk keep
    the product and the sum below [ULLONG_MAX]. *)

Lemma decimal_step L d :
  0 <= L <= (ULLONG_MAX - 10) / 10 -> 0 <= d <= 9 -> u64 (u64 (L * 10) + d) = L * 10 + d.
Proof.
  unfold ULLONG_MAX. change ((2 ^ 64 - 1 - 10) / 10) with 1844674407370955160.
  intros. rewrite (u64_small (L * 10)), u64_small; lia.
Qed.
Lemma chunk_size_step L d :
  0 <= L <= (ULLONG_MAX - 16) / 16 -> 0 <= d <= 15 -> u64 (u64 (L * 16) + d) = L * 16 + d.
Proof.
  unfold ULLONG_MAX. change ((2 ^ 64 - 1 - 16) / 16) with 1152921504606846974.
  intros. rewrite (u64_small (L * 16)), u64_small; lia.
Qed.
Lemma chunk_size_small L : L <= (ULLONG_MAX - 16) / 16 -> L * 16 + 15 < ULLONG_MAX.
Proof. unfold ULLONG_MAX. change ((2 ^ 64 - 1 - 16) / 16) with 1152921504606846974. lia. Qed.
