(* ===== verification/HttpSafety.v ===== *)
(** * HttpSafety: each case of the parser keeps the invariant *)

From S2P Require Import Prelude.
From S2P Require Import HttpTables.
From S2P Require Import HttpUrl.
From S2P Require Import HttpParser.
From S2P Require Import HttpMonad.
From S2P Require Import HttpExec.
From S2P Require Import HttpMethod.
From S2P Require Import HttpWp.
From S2P Require Import HttpInvariant.
Local Open Scope Z_scope.

Section safety.
Context {U : Type} (settings : http_parser_settings U) `{!WellBehaved settings}.
Context (data : list Byte.byte) (mx : Z) (lenient acl : bool).
Abbreviation len := (length data).

(** The postconditions of the cases: of a return, of [goto error], of [break] and
    of [goto reexecute]. *)
Definition returned_ok (v : nat) (s' : frame U) : Prop :=
  (v <= len)%nat /\ well_formed (parser s') /\
  (hp_http_errno (parser s') = HPE_OK -> v = len \/ hp_upgrade (parser s') = true).
Definition error_ok (s' : frame U) : Prop :=
  (pos s' <= len)%nat /\ ranges (parser s') /\ 0 <= nread s' < 2 ^ 32 /\
  hp_http_errno (parser s') <> HPE_OK /\ hp_http_errno (parser s') <> HPE_PAUSED.
Definition next_ok (s : frame U) (c : ctl) (s' : frame U) : Prop :=
  (pos s <= pos s' < len)%nat /\
  match c with
  | Break => body_inv 0 s'
  | Reexecute =>
      body_inv 1 s' /\ (reexecute_rank (p_state s') < reexecute_rank (p_state s))%nat
  end.

Abbreviation wp := (wp returned_ok error_ok).

(** The state [from] is treated by [m]. *)
Definition case_ok (from : state) (m : M U ctl) : Prop :=
  forall s, body_inv 1 s -> p_state s = from -> (pos s < len)%nat -> wp m (next_ok s) s.

(** A callback may be called from a frame whose parser is well formed. *)
Lemma exits_ok_intro e ER s :
  ranges (parser s) -> 0 <= nread s < 2 ^ 32 ->
  state_ok 0 (p_state s) (parser s) (hp_nread (parser s)) ->
  (ER <= len)%nat -> e <> HPE_OK -> e <> HPE_PAUSED ->
  exits_ok returned_ok e ER s.
Proof.
  intros Hr Hn Hs HER He1 He2 u.
  unfold returned_ok, well_formed. simpl.
  split_and!; auto 6 with ranges; try congruence; intros [? | ?]; try congruence;
    by destruct (p_state s).
Qed.

(** [fail e] ends in [error_ok] when the ranges hold. *)
Lemma wp_fail_ok {A} e (Q : A -> frame U -> Prop) s :
  ranges (parser s) -> 0 <= nread s < 2 ^ 32 -> (pos s <= len)%nat ->
  e <> HPE_OK -> e <> HPE_PAUSED -> wp (fail e) Q s.
Proof. intros. apply wp_fail. unfold error_ok. simpl. split_and!; auto 6 with ranges; lia. Qed.
End safety.

(** ** Automation *)

(** Take apart the frame and the invariant; drop the marks that must be unset. *)
Ltac unmark H m :=
  let Hm := fresh "Hm" in
  pose proof H as Hm; unfold mark_ok in Hm; simpl in Hm;
  destruct m; [try solve [destruct Hm as [_ Hm]; discriminate Hm] | clear Hm].

Ltac split_frame :=
  let Hinv := fresh "Hinv" in
  let Hst := fresh "Hst" in
  let Hmarks := fresh "Hmarks" in
  let Hpos := fresh "Hpos" in
  intros [o c ps n m1 m2 m3 m4 m5 p u] Hinv Hst Hpos; simpl in *; subst ps;
  destruct Hinv as [Herr Hr Hn Hch Hs Hmarks]; simpl in *;
  try (unmark (Hmarks for_header_field) m1); try (unmark (Hmarks for_header_value) m2);
  try (unmark (Hmarks for_url) m3); try (unmark (Hmarks for_body) m4);
  try (unmark (Hmarks for_status) m5);
  clear Hmarks.

(** Ranges of the digits the guards let through. *)
Ltac digits :=
  repeat match goal with
  | H : IS_NUM _ = true |- _ => apply IS_NUM_range in H
  end.

Ltac solve_marks :=
  let FOR := fresh "FOR" in intros FOR; destruct FOR; unfold mark_ok; simpl; auto with lia.

(** [state_ok] of a known state: nothing, or a fact about the fields. *)
Ltac solve_state :=
  simpl in *;
  first [ assumption | exact I | done | lia
        | solve [auto with ranges]
        | solve [split; [done | lia]]
        | match goal with
          | H : hp_header_state ?p = _ |- context [hp_header_state ?p] =>
              solve [rewrite H; done]
          end
        | solve [repeat case_match; done]
        | idtac ].

Ltac solve_inv :=
  constructor; simpl in *;
  [ try assumption | try solve [auto 12 with ranges] | try lia | try lia
  | try solve_state | try solve [solve_marks] ].

Ltac solve_next :=
  lazymatch goal with |- next_ok _ _ _ _ => idtac end;
  unfold next_ok; simpl; split; [try lia | try (split; [| lia]); solve_inv].

(** Reduce the operations on frames, and nothing else. *)
Tactic Notation "frame_cbn" :=
  cbn [with_pos with_ch with_p_state with_nread with_header_field_mark
       with_header_value_mark with_url_mark with_body_mark with_status_mark with_parser
       with_user pos ch p_state nread header_field_mark header_value_mark url_mark
       body_mark status_mark parser user mark_of with_mark after_call].
Tactic Notation "frame_cbn" "in" hyp(H) :=
  cbn [with_pos with_ch with_p_state with_nread with_header_field_mark
       with_header_value_mark with_url_mark with_body_mark with_status_mark with_parser
       with_user pos ch p_state nread header_field_mark header_value_mark url_mark
       body_mark status_mark parser user mark_of with_mark after_call] in H.

Ltac wp_case :=
  lazymatch goal with
  | |- HttpWp.wp _ _ (mret _) _ _ => apply wp_ret
  | |- HttpWp.wp _ _ (mbind _ _) _ _ => apply wp_bind
  | |- HttpWp.wp _ _ (gets _) _ _ => apply wp_gets
  | |- HttpWp.wp _ _ (modify _) _ _ => apply wp_modify
  | |- HttpWp.wp _ _ (modify_parser _) _ _ => apply wp_modify_parser
  | |- HttpWp.wp _ _ (UPDATE_STATE (if ?b then _ else _)) _ _ => destruct b
  | |- HttpWp.wp _ _ (UPDATE_STATE _) _ _ => apply wp_UPDATE_STATE
  | |- HttpWp.wp _ _ (assert_ _) _ _ => apply wp_assert
  | |- HttpWp.wp _ _ (STRICT_CHECK _) _ _ =>
      apply wp_STRICT_CHECK; intros; boolify
  | |- HttpWp.wp _ _ (fail _) _ _ =>
      apply wp_fail_ok; simpl; [auto 12 with ranges | try lia | lia | done | done]
  | |- HttpWp.wp _ _ (if decide _ then _ else _) _ _ => apply wp_decide; intros
  | |- HttpWp.wp _ _ (if _ then _ else _) _ _ => apply wp_if; intros; boolify
  | |- HttpWp.wp _ _ (CALLBACK_NOTIFY _ _) _ _ =>
      unfold CALLBACK_NOTIFY
  | |- HttpWp.wp _ _ (CALLBACK_NOTIFY_NOADVANCE _ _) _ _ =>
      unfold CALLBACK_NOTIFY_NOADVANCE
  | |- HttpWp.wp _ _ (CALLBACK_NOTIFY_ _ _ _) _ _ =>
      apply wp_CALLBACK_NOTIFY_;
      [assumption | done
      | apply exits_ok_intro; simpl; [auto 12 with ranges | lia | try solve_state
                                    | lia | done | done]
      | | intros ?; unfold after_call]
  | |- HttpWp.wp _ _ (CALLBACK_DATA _ _ _) _ _ => unfold CALLBACK_DATA
  | |- HttpWp.wp _ _ (CALLBACK_DATA_NOADVANCE _ _ _) _ _ => unfold CALLBACK_DATA_NOADVANCE
  | |- HttpWp.wp _ _ (CALLBACK_DATA_ _ _ _ _ _) _ _ =>
      apply wp_CALLBACK_DATA_;
      [assumption | done
      | let Hyes := fresh in
        intros Hyes; frame_cbn in Hyes; first
          [ solve [destruct Hyes; discriminate]
          | apply exits_ok_intro; simpl; [auto 12 with ranges | lia | try solve_state
                                         | lia | done | done] ]
      | | intros ?; unfold after_call]
  | |- HttpWp.wp _ _ (MARK _) _ _ => unfold MARK
  | |- HttpWp.wp _ _ (set_hs _) _ _ => unfold set_hs
  | |- HttpWp.wp _ _ incr_index _ _ => unfold incr_index
  | |- HttpWp.wp _ _ reset_nread _ _ => unfold reset_nread
  | |- HttpWp.wp _ _ assert_chunked _ _ => unfold assert_chunked
  | |- HttpWp.wp _ _ (COUNT_HEADER_SIZE _ _) _ _ =>
      apply wp_COUNT_HEADER_SIZE_any; intros ? ?
  | |- HttpWp.wp _ _ (load_ch _) _ _ =>
      apply wp_load_ch; [frame_cbn; try lia | let b := fresh "b" in intros b ?; pose proof (uchar_range b)]
  end; cbv beta; frame_cbn.

Ltac wp_auto := repeat wp_case; digits; try solve [solve_next].
Ltac solve_case := split_frame; wp_auto.

(** The states in which no mark is set and of which [state_ok] says nothing. *)
Definition plain (st : state) : bool :=
  match st with
  | s_res_status_code | s_req_method | s_header_field | s_header_value
  | s_chunk_size_start | s_chunk_size | s_chunk_parameters | s_chunk_size_almost_done
  | s_chunk_data | s_chunk_data_almost_done | s_chunk_data_done | s_body_identity
  | s_body_identity_eof | s_res_status => false
  | st => negb (url_state st)
  end.

Lemma plain_state_ok k st p n : plain st = true -> state_ok k st p n.
Proof. by destruct st. Qed.
#[export] Hint Resolve plain_state_ok : ranges.

Section cases.
Context {U : Type} (settings : http_parser_settings U) `{!WellBehaved settings}.
Context (data : list Byte.byte) (mx : Z) (lenient acl : bool).
Abbreviation case_ok := (HttpSafety.case_ok (U:=U) data).

Lemma s_dead_ok : case_ok s_dead case_s_dead.
Proof. unfold case_s_dead. solve_case. Qed.

Lemma s_start_req_or_res_ok : case_ok s_start_req_or_res (case_s_start_req_or_res settings).
Proof. unfold case_s_start_req_or_res, reset_message. solve_case. Qed.

Lemma s_res_or_resp_H_ok : case_ok s_res_or_resp_H case_s_res_or_resp_H.
Proof. unfold case_s_res_or_resp_H. solve_case. Qed.

Lemma s_start_res_ok : case_ok s_start_res (case_s_start_res settings).
Proof. unfold case_s_start_res, reset_message. solve_case. Qed.

Lemma case_expect_ok from expected next :
  plain from = true -> plain next = true -> case_ok from (case_expect expected next).
Proof.
  intros Hf Hnx. unfold case_expect. destruct from; try discriminate Hf; solve_case.
Qed.

Lemma case_version_digit_ok from (set : Z -> http_parser -> http_parser) next :
  set = set_http_major \/ set = set_http_minor ->
  plain from = true -> plain next = true -> case_ok from (case_version_digit set next).
Proof.
  intros Hset Hf Hnx. unfold case_version_digit.
  destruct Hset as [-> | ->]; destruct from; try discriminate Hf; solve_case.
Qed.

Lemma case_version_char_ok from expected next :
  plain from = true -> plain next = true -> case_ok from (case_version_char expected next).
Proof.
  intros Hf Hnx. unfold case_version_char. destruct from; try discriminate Hf; solve_case.
Qed.

Lemma s_res_first_status_code_ok : case_ok s_res_first_status_code case_s_res_first_status_code.
Proof. unfold case_s_res_first_status_code. solve_case. Qed.

Lemma s_res_status_code_ok : case_ok s_res_status_code case_s_res_status_code.
Proof. unfold case_s_res_status_code. solve_case. Qed.

Lemma s_res_status_start_ok : case_ok s_res_status_start case_s_res_status_start.
Proof. unfold case_s_res_status_start. solve_case. Qed.

Lemma s_res_status_ok : case_ok s_res_status (case_s_res_status settings data).
Proof. unfold case_s_res_status. solve_case. Qed.

Lemma s_start_req_ok : case_ok s_start_req (case_s_start_req settings).
Proof.
  unfold case_s_start_req, reset_message. solve_case.
  pose proof (fun m => proj1 (method_string_long m)) as Hlong.
  destruct (initial_method c) as [m |]; [specialize (Hlong m) |]; wp_auto.
Qed.

Lemma s_req_method_ok : case_ok s_req_method case_s_req_method.
Proof.
  unfold case_s_req_method. solve_case. pose proof (rg_index _ Hr) as Hidx.
  pose proof (method_string_long (hp_method p)) as Hlong.
  destruct (str_at_Some (method_string (hp_method p)) (hp_index p)) as [w Hw]; [lia |].
  rewrite Hw. wp_auto.
  - subst w. apply str_at_nonzero in Hw; [| done].
    rewrite u5_small by lia. solve_next.
  - destruct (method_transition _ _ c) as [m' |] eqn:Ht; wp_auto.
    apply method_transition_sound in Ht as (_ & _ & Hlen & _); [| lia | lia].
    pose proof (method_string_long m'). change (hp_index (set_method m' p)) with (hp_index p).
    rewrite u5_small by lia. solve_next.
Qed.

(** After a step of the automaton, in a frame whose only mark is that of the URL. *)
Lemma url_step_ok (Q : unit -> frame U -> Prop) s :
  ranges (parser s) -> 0 <= nread s < 2 ^ 32 -> (pos s <= length data)%nat ->
  (forall st, url_state st = true -> Q tt (with_p_state st s)) ->
  wp (returned_ok data) (error_ok data) url_step Q s.
Proof.
  intros Hr Hn Hpos HQ. unfold url_step. repeat wp_case.
  apply HQ. by destruct (parse_url_char_states (p_state s) (ch s)).
Qed.

Lemma url_state_ok k st p n : url_state st = true -> state_ok k st p n.
Proof. by destruct st. Qed.
Hint Resolve url_state_ok : ranges.

Ltac url_case :=
  lazymatch goal with |- HttpWp.wp _ _ (url_step ≫= _) _ _ => apply wp_bind | _ => idtac end;
  lazymatch goal with |- HttpWp.wp _ _ url_step _ _ => idtac end;
  apply url_step_ok; simpl; [auto with ranges | lia | lia |];
  intros st' Hst'; frame_cbn; wp_auto.

Lemma s_req_spaces_before_url_ok :
  case_ok s_req_spaces_before_url case_s_req_spaces_before_url.
Proof. unfold case_s_req_spaces_before_url. solve_case; url_case. Qed.

Lemma case_url_no_space_ok from : url_state from = true -> case_ok from case_url_no_space.
Proof.
  intros Hf. unfold case_url_no_space. destruct from; try discriminate Hf; solve_case; url_case.
Qed.

Lemma case_url_ok from : url_state from = true -> case_ok from (case_url settings data).
Proof.
  intros Hf. unfold case_url. destruct from; try discriminate Hf; solve_case; url_case.
Qed.

Lemma s_req_http_start_ok : case_ok s_req_http_start case_s_req_http_start.
Proof. unfold case_s_req_http_start. solve_case. Qed.

Lemma s_req_http_end_ok : case_ok s_req_http_end case_s_req_http_end.
Proof. unfold case_s_req_http_end. solve_case. Qed.

Lemma s_req_line_almost_done_ok :
  case_ok s_req_line_almost_done case_s_req_line_almost_done.
Proof. unfold case_s_req_line_almost_done. solve_case. Qed.

Lemma s_header_field_start_ok : case_ok s_header_field_start case_s_header_field_start.
Proof. unfold case_s_header_field_start. solve_case. Qed.

Lemma s_header_almost_done_ok : case_ok s_header_almost_done case_s_header_almost_done.
Proof. unfold case_s_header_almost_done. solve_case. Qed.

End cases.
