(* ===== verification/HttpHeaders.v ===== *)
(** * HttpHeaders: the header lines keep the invariant

    The three inner loops over the bytes of a header line and the cases of the
    [switch] from [s_header_field] to [s_header_value_discard_lws]. *)

From S2P Require Import Prelude.
From S2P Require Import HttpTables.
From S2P Require Import HttpUrl.
From S2P Require Import HttpParser.
From S2P Require Import HttpMonad.
From S2P Require Import HttpExec.
From S2P Require Import HttpWp.
From S2P Require Import HttpInvariant.
From S2P Require Import HttpSafety.
Local Open Scope Z_scope.

Section headers.
Context {U : Type} (settings : http_parser_settings U) `{!WellBehaved settings}.
Context (data : list Byte.byte) (mx : Z) (lenient : bool).
Abbreviation len := (length data).
Abbreviation wp := (wp (U:=U) (returned_ok data) (error_ok data)).
Abbreviation case_ok := (HttpSafety.case_ok (U:=U) data).

Lemma run_end_le o : (o <= len)%nat -> (o <= run_end data mx o <= len)%nat.
Proof. intros. unfold run_end. lia. Qed.

(** A comparison of a matcher reads inside the word. *)
Lemma wp_match_word {A} word c (mis part compl : M U A) Q s :
  0 <= hp_index (parser s) ->
  wp mis Q s -> wp part Q s -> wp compl Q s -> wp (match_word word c mis part compl) Q s.
Proof.
  intros Hi Hm Hp Hc. unfold match_word. apply wp_bind, wp_gets.
  apply wp_if; [done | intros Hle; boolify].
  destruct (str_at_Some word (hp_index (parser s))) as [w ->]; [lia |].
  apply wp_if; intros _; [done |]. by apply wp_if; intros _.
Qed.

(** ** The field name *)

Lemma token_run_ok fuel pe Q s :
  (pe <= len)%nat -> (pos s < len)%nat -> (pe - pos s < fuel)%nat ->
  (forall o, (pos s <= o < len)%nat -> Q tt (with_pos o s)) ->
  wp (token_run data fuel pe) Q s.
Proof.
  revert s. induction fuel as [| fuel IH]; intros s Hpe Hpos Hfuel HQ; [lia |].
  assert (Q tt s) as Hdone by (specialize (HQ (pos s)); destruct s; apply HQ; simpl in *; lia).
  simpl. apply wp_bind, wp_gets, wp_if; intros Hlt; boolify; [| by apply wp_ret].
  destruct (lookup_lt_is_Some_2 data (pos s + 1)) as [b ->]; [lia |].
  apply wp_if; intros _; [| by apply wp_ret].
  apply wp_bind, wp_modify, IH; simpl; try lia.
  intros o Ho. apply HQ. lia.
Qed.

(** One character of a field name: only [p] and the parser change. *)
Lemma header_field_char_ok c Q s :
  field_matcher (hp_header_state (parser s)) = true -> ranges (parser s) ->
  (pos s < len)%nat ->
  (forall o p', (pos s <= o < len)%nat -> ranges p' ->
     hp_http_errno p' = hp_http_errno (parser s) ->
     field_matcher (hp_header_state p') = true ->
     Q tt (with_pos o (with_parser p' s))) ->
  wp (header_field_char data mx c) Q s.
Proof.
  intros Hf Hr Hpos HQ.
  assert (forall p', ranges p' -> hp_http_errno p' = hp_http_errno (parser s) ->
            field_matcher (hp_header_state p') = true -> Q tt (with_parser p' s)) as HQ'.
  { intros p' ???. specialize (HQ (pos s) p'). destruct s. simpl in *. apply HQ; done || lia. }
  assert (forall v, ranges (set_index (u5 v) (parser s))) as Hri by (auto with ranges).
  destruct s as [o c' ps n m1 m2 m3 m4 m5 p u]. simpl in *. unfold header_field_char.
  apply wp_bind, wp_gets. frame_cbn. pose proof (run_end_le o ltac:(lia)).
  destruct (hp_header_state p) eqn:Hh; try discriminate Hf.
  1: { apply wp_bind, wp_gets, token_run_ok; frame_cbn; [lia | lia | lia |].
       intros o' Ho'. apply (HQ o' p); [done | done | done | by rewrite Hh]. }
  all: repeat first
      [ apply wp_match_word; [simpl; apply u5_range | | |] | wp_case ];
    apply HQ'; simpl; auto with ranges; repeat case_match; by rewrite ?Hh.
Qed.

(** What the loops over a line keep of the frame [s]. *)
Definition line_done (s s' : frame U) : Prop :=
  (pos s <= pos s' <= len)%nat /\ body_inv 1 s' /\ 
  forall FOR, mark_of FOR s' = mark_of FOR s \/ mark_of FOR s' = None.

Lemma header_field_loop_ok fuel s :
  body_inv 1 s -> p_state s = s_header_field -> (pos s <= len)%nat ->
  (len - pos s < fuel)%nat ->
  wp (header_field_loop data mx fuel)
    (fun _ s' => line_done s s' /\ p_state s' = s_header_field) s.
Proof.
  revert s. induction fuel as [| fuel IH]; intros s Hinv Hst Hpos Hfuel; [lia |].
  simpl. destruct Hinv as [Herr Hr Hn Hch Hs Hmarks]. rewrite Hst in Hs. simpl in Hs.
  do 3 wp_case.
  { wp_case. unfold line_done. split_and!; auto; try lia.
    constructor; try rewrite Hst; done. }
  do 5 wp_case.
  { wp_case. unfold line_done. simpl. split_and!; auto; try lia.
    constructor; simpl; try rewrite Hst; done || lia. }
  wp_case. apply header_field_char_ok; simpl; [done | done | lia |].
  intros o p' Ho Hr' Herr' Hf. repeat wp_case.
  eapply wp_mono; [apply IH; simpl; [| done | lia | lia] |].
  - constructor; simpl; try rewrite Hst; try done; [congruence |].
    intros FOR. specialize (Hmarks FOR). unfold mark_ok in *. destruct FOR; simpl in *;
    case_match; intuition lia.
  - simpl. unfold line_done. simpl. intros _ s' ((Ho' & Hinv' & Hm) & Hst').
    split_and!; auto; lia.
Qed.

(** The marks are not behind the start of the loop. *)
Lemma line_done_marks s s' FOR :
  line_done s s' -> mark_ok s FOR ->
  match mark_of FOR s' with None => True | Some m => (m <= pos s)%nat end.
Proof.
  intros (_ & _ & Hm) Hs. unfold mark_ok in Hs. destruct (Hm FOR) as [-> | ->]; [| done].
  by destruct (mark_of FOR s) as [m |]; [destruct Hs |].
Qed.

Lemma s_header_field_ok : case_ok s_header_field (case_s_header_field settings data mx).
Proof.
  intros s Hinv Hst Hpos. unfold case_s_header_field. wp_case. wp_case. wp_case.
  eapply wp_mono; [apply header_field_loop_ok; done || lia |].
  intros _ s' (Hdone & Hst').
  pose proof (line_done_marks _ _ for_header_field Hdone (bi_marks _ _ Hinv _)) as Hmark.
  destruct Hdone as (Hpos' & Hinv' & _). revert s' Hinv' Hst' Hpos' Hmark. split_frame.
  all: simpl; intros ?; wp_auto.
Qed.
(** ** The header value *)

(** Only [ch] and [p] change in the inner loop; [p] does not fall behind [lb]. *)
Lemma value_run_ok fuel lb pe Q s :
  ranges (parser s) -> 0 <= nread s < 2 ^ 32 -> 0 <= ch s < 256 ->
  (lb <= pos s <= pe)%nat -> (pe <= len)%nat -> (pe - pos s < fuel)%nat ->
  (lb < pos s \/ exists b, data !! pos s = Some b /\ uchar b <> CR /\ uchar b <> LF)%nat ->
  (forall o c, (lb <= o <= len)%nat -> 0 <= c < 256 -> Q tt (with_pos o (with_ch c s))) ->
  wp (value_run data lenient fuel pe) Q s.
Proof.
  revert s. induction fuel as [| fuel IH]; intros s Hr Hn Hch Hpos Hpe Hfuel Hlb HQ; [lia |].
  simpl. do 3 wp_case.
  { wp_case. specialize (HQ (pos s) (ch s)). destruct s. apply HQ; done || (simpl in *; lia). }
  wp_case. apply wp_load_ch; [lia |]. intros b Hb. pose proof (uchar_range b) as Hbr.
  do 3 wp_case.
  - wp_case. frame_cbn. apply HQ; [| done].
    destruct Hlb as [Hlt | (b' & Hb' & H1 & H2)]; [lia |].
    rewrite Hb in Hb'. injection Hb' as <-. 
    match goal with H : (_ || _) = true |- _ =>
      apply orb_true_iff in H as [?%Z.eqb_eq | ?%Z.eqb_eq]; done end.
  - wp_case; [wp_case; frame_cbn; done || lia |].
    do 2 wp_case. apply IH; frame_cbn; auto; lia.
Qed.

(** One character of a value: only [p], [ch] and the parser change. *)
Lemma header_value_char_ok h b Q s :
  value_matcher h = true -> body_inv 1 s -> p_state s = s_header_value ->
  data !! pos s = Some b -> ch s = uchar b -> uchar b <> CR -> uchar b <> LF ->
  (forall h' o c p', (pos s <= o < len)%nat -> value_matcher h' = true ->
     0 <= c < 256 -> ranges p' -> hp_http_errno p' = HPE_OK ->
     hp_header_state p' = hp_header_state (parser s) ->
     Q h' (with_pos o (with_ch c (with_parser p' s)))) ->
  wp (header_value_char data mx lenient h) Q s.
Proof.
  intros Hh Hinv Hst Hb Hc Hcr Hlf HQ.
  pose proof (lookup_lt_Some _ _ _ Hb) as Hpos. destruct Hinv as [Herr Hr Hn Hch _ _].
  assert (forall h' p', value_matcher h' = true -> ranges p' -> hp_http_errno p' = HPE_OK ->
            hp_header_state p' = hp_header_state (parser s) ->
            Q h' (with_parser p' s)) as HQ'.
  { intros h' p' ????. specialize (HQ h' (pos s) (ch s) p'). destruct s. simpl in *.
    apply HQ; done || lia. }
  assert (forall h', value_matcher h' = true -> Q h' s) as HQ0.
  { intros h' ?. specialize (HQ' h' (parser s)). destruct s. by apply HQ'. }
  pose proof (run_end_le (pos s) ltac:(lia)) as Hend.
  unfold header_value_char. wp_case. wp_case.
  destruct h; try discriminate Hh.
  1: { do 3 wp_case. apply value_run_ok with (lb := pos s); try done; try lia; eauto.
       intros o c Ho Hc'. repeat wp_case.
       - apply (HQ h_general (o - 1)%nat c (parser s)); done || lia.
       - specialize (HQ h_general o c (parser s)). destruct s. simpl in *.
         apply HQ; done || lia. }
  all: unfold content_length_digit, fail_content_length.
  all: repeat first
      [ apply wp_match_word; [simpl; apply u5_range | | |]
      | apply wp_goto_error; unfold error_ok; simpl; split_and!; auto 6 with ranges; lia
      | apply wp_SET_ERRNO | wp_case ].
  all: first [ by apply HQ0 | apply HQ'; simpl; auto with ranges ].
Qed.

(** The end of the loop over a value. *)
Definition value_done (s : frame U) (r : header_states + unit) (s' : frame U) : Prop :=
  line_done s s' /\
  match r with
  | inl h => value_matcher h = true /\
      ((p_state s' = s_header_value /\ pos s' = len)
       \/ (p_state s' = s_header_almost_done /\ (pos s' < len)%nat))
  | inr _ => p_state s' = s_header_almost_done /\ (pos s' < len)%nat
  end.

(** At the end of a line the value is delivered and its mark is cleared. *)
Lemma value_done_intro r s p' u :
  body_inv 1 s -> (pos s < len)%nat -> p_state s = s_header_value ->
  match r with inl h => value_matcher h = true | inr _ => True end ->
  forall n c, ranges p' -> hp_http_errno p' = HPE_OK -> 0 <= n < 2 ^ 32 -> 0 <= c < 256 ->
  value_done s r
    (mk_frame (pos s) c s_header_almost_done n (header_field_mark s) None
       (url_mark s) (body_mark s) (status_mark s) p' u).
Proof.
  intros Hinv Hpos Hst Hrr n c Hr He Hn Hc.
  assert (forall FOR, FOR <> for_header_value -> mark_of FOR s = None) as Hnone.
  { intros FOR Hne. pose proof (bi_marks _ _ Hinv FOR) as Hm. unfold mark_ok in Hm.
    rewrite Hst in Hm.
    destruct (mark_of FOR s); [| done]. destruct Hm as [_ Hm]. by destruct FOR. }
  pose proof (Hnone for_header_field) as H1. pose proof (Hnone for_url) as H2.
  pose proof (Hnone for_body) as H3. pose proof (Hnone for_status) as H4. simpl in *.
  rewrite H1, H2, H3, H4 by done.
  split; [split_and!; simpl; try lia |].
  - constructor; simpl; try done. intros FOR. by destruct FOR.
  - intros FOR. destruct FOR; auto.
  - destruct r; simpl; auto.
Qed.

Lemma header_value_loop_ok fuel start h s :
  body_inv 1 s -> p_state s = s_header_value -> value_matcher h = true ->
  (pos s <= len)%nat -> (len - pos s < fuel)%nat ->
  wp (header_value_loop settings data mx lenient fuel start h) (value_done s) s.
Proof.
  revert h s. induction fuel as [| fuel IH]; intros h s Hinv Hst Hh Hpos Hfuel; [lia |].
  pose proof Hinv as [Herr Hr Hn Hch Hs Hmarks]. rewrite Hst in Hs. simpl in Hs.
  simpl. do 3 wp_case.
  { wp_case. unfold value_done, line_done. split_and!; auto; lia. }
  wp_case. apply wp_load_ch; [lia |]. intros b Hb. pose proof (uchar_range b).
  repeat wp_case; try (apply (value_done_intro _ s); simpl; auto with ranges; lia).
  eapply header_value_char_ok with (b := b); simpl; try done.
  - constructor; simpl; try rewrite Hst; done || lia.
  - intros h' o c p' Ho Hh' Hc Hr' He' Hhs. repeat wp_case.
    eapply wp_mono; [apply IH; simpl; try done; try lia |].
    + constructor; simpl; try rewrite Hst; simpl; try done; [congruence |].
      intros FOR. specialize (Hmarks FOR). unfold mark_ok in *. destruct FOR; simpl in *;
      case_match; intuition lia.
    + unfold value_done, line_done. simpl. intros r s' ((Ho' & Hinv' & Hm) & Hr'').
      split_and!; auto; lia.
Qed.

Lemma s_header_value_ok :
  case_ok s_header_value (case_s_header_value settings data mx lenient).
Proof.
  intros s Hinv Hst Hpos. unfold case_s_header_value. do 5 wp_case.
  eapply wp_mono; [apply header_value_loop_ok; try done; try lia |].
  { pose proof (bi_state _ _ Hinv) as Hs. by rewrite Hst in Hs. }
  intros r s' (Hdone & Hr').
  pose proof (line_done_marks _ _ for_header_value Hdone (bi_marks _ _ Hinv _)) as Hmark.
  destruct Hdone as (Hpos' & Hinv' & _).
  assert (reexecute_rank (p_state s) = 1%nat) as Hrank by (by rewrite Hst).
  destruct r as [h | []]; [destruct Hr' as (Hh & [[Hst' Hlt] | [Hst' Hlt]])
                       | destruct Hr' as [Hst' Hlt]];
    revert s' Hinv' Hst' Hpos' Hmark Hlt; split_frame; simpl; intros ? ?.
  all: wp_auto.
Qed.

(** The body of [s_header_value_start], also reached by falling through. *)
Lemma header_value_start_ok from :
  from = s_header_value_start \/ from = s_header_value_discard_ws ->
  case_ok from case_s_header_value_start.
Proof.
  unfold case_s_header_value_start. intros [-> | ->]; split_frame; repeat wp_case;
    change (hp_header_state (set_index 0 p)) with (hp_header_state p);
    destruct (hp_header_state p) eqn:Hh; wp_auto.
Qed.

Lemma s_header_value_discard_ws_ok :
  case_ok s_header_value_discard_ws case_s_header_value_discard_ws.
Proof.
  intros s Hinv Hst Hpos.
  pose proof (header_value_start_ok _ (or_intror eq_refl) s Hinv Hst Hpos) as Hstart.
  unfold case_s_header_value_discard_ws. revert s Hinv Hst Hpos Hstart. split_frame.
  intros Hstart. wp_auto. exact Hstart.
Qed.

Lemma header_value_flag_is_flag h f : header_value_flag h = Some f -> is_flag f.
Proof. destruct h; simpl; intros [= <-]; auto with ranges. Qed.

(** Only the flags change. *)
Lemma flag_header_value_ok Q s :
  ranges (parser s) ->
  (forall v, 0 <= v < 256 -> Q tt (with_parser (set_flags v (parser s)) s)) ->
  wp flag_header_value Q s.
Proof.
  intros Hr HQ. unfold flag_header_value. wp_case. wp_case.
  destruct (header_value_flag _) as [f |] eqn:Hf.
  - wp_case. apply HQ. by apply (rg_flags _ (ranges_add_flag _ _ (header_value_flag_is_flag _ _ Hf) Hr)).
  - wp_case. specialize (HQ (hp_flags (parser s)) (rg_flags _ Hr)). by destruct s as [? ? ? ? ? ? ? ? ? []].
Qed.

Ltac flag_case :=
  lazymatch goal with |- HttpWp.wp _ _ flag_header_value _ _ => idtac end;
  apply flag_header_value_ok; [done |]; intros v Hv; frame_cbn.

Lemma s_header_value_lws_ok : case_ok s_header_value_lws case_s_header_value_lws.
Proof.
  unfold case_s_header_value_lws. split_frame. repeat (wp_case || flag_case).
  all: wp_auto.
Qed.

Lemma s_header_value_discard_lws_ok :
  case_ok s_header_value_discard_lws (case_s_header_value_discard_lws settings data).
Proof.
  unfold case_s_header_value_discard_lws. split_frame. repeat (wp_case || flag_case).
  all: wp_auto.
Qed.
End headers.
