(* ===== verification/HttpBody.v ===== *)
(** * HttpBody: the end of the headers, the bodies and the chunks keep the invariant *)

From S2P Require Import Prelude.
From S2P Require Import HttpTables.
From S2P Require Import HttpUrl.
From S2P Require Import HttpParser.
From S2P Require Import HttpMonad.
From S2P Require Import HttpExec.
From S2P Require Import HttpWp.
From S2P Require Import HttpInvariant.
From S2P Require Import HttpSafety.
Local Open Scope Z_scope.

Section body.
Context {U : Type} (settings : http_parser_settings U) `{!WellBehaved settings}.
Context (data : list Byte.byte) (mx : Z) (lenient acl : bool).
Abbreviation len := (length data).
Abbreviation wp := (wp (U:=U) (returned_ok data) (error_ok data)).
Abbreviation case_ok := (HttpSafety.case_ok (U:=U) data).

(** The state of a new message. *)
Lemma NEW_MESSAGE_plain p : plain (NEW_MESSAGE p) = true.
Proof. unfold NEW_MESSAGE, start_state. by repeat case_match. Qed.

Lemma plain_marked_in FOR st : plain st = true -> marked_in FOR st = false.
Proof. by destruct FOR, st. Qed.

(** [RETURN(n)] from a frame in a state that says nothing of the fields. *)
Lemma wp_RETURN_ok {A} n (Q : A -> frame U -> Prop) s :
  plain (p_state s) = true -> ranges (parser s) -> 0 <= nread s < 2 ^ 32 -> (n <= len)%nat ->
  (hp_http_errno (parser s) = HPE_OK -> n = len \/ hp_upgrade (parser s) = true) ->
  wp (RETURN n) Q s.
Proof.
  intros. apply wp_RETURN. unfold returned_ok, well_formed. simpl.
  split_and!; auto with ranges.
Qed.

(** A frame without marks in such a state satisfies the invariant. *)
Lemma message_complete_ok Q s :
  body_inv 1 s -> (forall FOR, mark_of FOR s = None) -> (pos s < len)%nat ->
  (forall p' st u, plain st = true -> ranges p' -> hp_http_errno p' = HPE_OK ->
     hp_upgrade p' = hp_upgrade (parser s) ->
     Q tt (with_user u (with_parser p' (with_p_state st s)))) ->
  wp (message_complete settings) Q s.
Proof.
  intros [Herr Hr Hn Hch _ _] Hmarks Hpos HQ. unfold message_complete. do 4 wp_case.
  pose proof (NEW_MESSAGE_plain (parser s)) as Hplain.
  repeat wp_case.
  - specialize (HQ (parser s) (NEW_MESSAGE (parser s)) (user s)). destruct s; apply HQ; done.
  - apply (HQ _ (NEW_MESSAGE (parser s))); simpl; auto with ranges.
Qed.

Lemma call_headers_complete_ok Q s :
  body_inv 1 s -> p_state s = s_headers_done -> (pos s < len)%nat ->
  (forall p' u, ranges p' -> hp_http_errno p' = HPE_OK \/ hp_http_errno p' = HPE_PAUSED ->
     Q tt (with_user u (with_parser p' s))) ->
  wp (call_headers_complete settings) Q s.
Proof.
  intros [Herr Hr Hn Hch _ _] Hst Hpos HQ. unfold call_headers_complete.
  pose proof (wb_headers_complete (st:=settings)) as Hcb.
  destruct (on_headers_complete settings) as [cb |]; simpl in Hcb.
  2: { apply wp_ret. specialize (HQ (parser s) (user s)). destruct s. by apply HQ; auto. }
  do 2 wp_case. specialize (Hcb (parser s) (user s)).
  change (parser (id s)) with (parser s). change (user (id s)) with (user s).
  destruct (cb (parser s) (user s)) as [[rc p'] u'].
  assert (ranges p' /\ (hp_http_errno p' = HPE_OK \/ hp_http_errno p' = HPE_PAUSED))
    as [Hr' He'] by (destruct Hcb as [-> | [_ ->]]; split; auto with ranges).
  do 2 wp_case. wp_case; [wp_case; by apply HQ |].
  wp_case; [repeat wp_case; apply (HQ (add_flag F_SKIPBODY (set_upgrade true p')) u');
            simpl; auto with ranges |].
  wp_case; [repeat wp_case; apply (HQ (add_flag F_SKIPBODY p') u'); simpl; auto with ranges |].
  apply wp_bind, wp_SET_ERRNO. do 2 wp_case.
  apply wp_RETURN_ok; simpl; [by rewrite Hst | auto with ranges | done | lia | done].
Qed.

Lemma s_headers_almost_done_ok :
  case_ok s_headers_almost_done (case_s_headers_almost_done settings lenient acl).
Proof.
  unfold case_s_headers_almost_done. split_frame. repeat wp_case; try solve_next.
  apply call_headers_complete_ok; simpl; try done.
  - solve_inv.
  - intros p' u' Hr' He'. repeat wp_case; [solve_next |].
    apply wp_RETURN_ok; simpl; try done. lia.
Qed.

Ltac completes :=
  lazymatch goal with |- HttpWp.wp _ _ (message_complete _) _ _ => idtac end;
  apply message_complete_ok;
  [solve_inv | intros []; done | done | intros p' st' u' Hst' Hr' He' Hup'; frame_cbn].

(** Returning one byte further because of an upgrade. *)
Ltac returns :=
  lazymatch goal with |- HttpWp.wp _ _ (RETURN _) _ _ => idtac end;
  apply wp_RETURN_ok; simpl; try done; try lia; auto with ranges;
  intros; right; congruence.

Lemma s_headers_done_ok : case_ok s_headers_done (case_s_headers_done settings lenient).
Proof.
  unfold case_s_headers_done. split_frame. pose proof (rg_content_length _ Hr) as Hcl.
  repeat (wp_case || completes || apply wp_SET_ERRNO); simpl in *; solve_next || returns.
Qed.

Lemma s_message_done_ok : case_ok s_message_done (case_s_message_done settings).
Proof.
  unfold case_s_message_done. split_frame.
  repeat (wp_case || completes || apply wp_SET_ERRNO); simpl in *; solve_next || returns.
Qed.

(** ** Bodies *)

(** The remainder of a body: some bytes of [data] are taken, at least one. *)
Lemma to_read_range p o :
  0 < hp_content_length p -> (o < len)%nat ->
  0 < to_read data p o <= hp_content_length p /\ (o + Z.to_nat (to_read data p o) <= len)%nat.
Proof. intros. unfold to_read. lia. Qed.

Lemma content_length_known_intro p :
  0 < hp_content_length p < ULLONG_MAX -> content_length_known p = true.
Proof.
  intros. unfold content_length_known.
  destruct (Z.eqb_spec (hp_content_length p) 0), (Z.eqb_spec (hp_content_length p) ULLONG_MAX);
    done || lia.
Qed.

(** A part of the body is consumed, in a frame whose only mark is that of the body. *)
Lemma consume_body_ok Q s :
  ranges (parser s) -> 0 < hp_content_length (parser s) < ULLONG_MAX -> (pos s < len)%nat ->
  mark_ok s for_body -> marked_in for_body (p_state s) = true ->
  (forall m o v, (m <= o)%nat -> (pos s <= o < len)%nat ->
     0 <= v < ULLONG_MAX -> ranges (set_content_length v (parser s)) ->
     Q tt (with_pos o (with_parser (set_content_length v (parser s))
             (with_body_mark (Some m) s)))) ->
  wp (consume_body data) Q s.
Proof.
  intros Hr Hcl Hpos Hmark Hst HQ. unfold consume_body.
  pose proof (to_read_range (parser s) (pos s) ltac:(lia) Hpos) as Hrd.
  destruct s as [o c st n m1 m2 m3 m4 m5 p u]. unfold mark_ok in Hmark. simpl in *.
  destruct m4 as [m |]; repeat wp_case.
  - apply (HQ m); try apply ranges_set_content_length; auto; lia.
  - apply (HQ o); try apply ranges_set_content_length; auto; lia.
Qed.

Ltac consumes :=
  lazymatch goal with |- HttpWp.wp _ _ (consume_body _) _ _ => idtac end;
  apply consume_body_ok; simpl;
  [done | done | done | done || (unfold mark_ok; simpl; lia) | done |];
  intros m' o' v' ????; frame_cbn.

Lemma s_body_identity_ok : case_ok s_body_identity (case_s_body_identity settings data).
Proof.
  unfold case_s_body_identity. split_frame; pose proof (content_length_known_intro p Hs);
    repeat (wp_case || consumes); simpl in *; done || solve_next.
Qed.

Lemma s_body_identity_eof_ok :
  case_ok s_body_identity_eof (case_s_body_identity_eof data).
Proof. unfold case_s_body_identity_eof. solve_case. Qed.

(** ** Chunks *)

Lemma s_chunk_size_start_ok : case_ok s_chunk_size_start case_s_chunk_size_start.
Proof.
  unfold case_s_chunk_size_start. split_frame. destruct Hs as [Hfl ->].
  pose proof (unhex_range c) as Hhex. repeat wp_case; try done.
  rewrite u64_small by lia. solve_next.
  split; [done |]. unfold ULLONG_MAX. lia.
Qed.

Lemma s_chunk_size_ok : case_ok s_chunk_size case_s_chunk_size.
Proof.
  unfold case_s_chunk_size. split_frame. destruct Hs as [Hfl Hs].
  pose proof (unhex_range c) as Hhex. pose proof (rg_content_length _ Hr).
  pose proof (chunk_size_small (hp_content_length p)).
  repeat wp_case; try done; try solve_next.
  split; [done |]. rewrite chunk_size_step; lia.
Qed.

Lemma s_chunk_parameters_ok : case_ok s_chunk_parameters case_s_chunk_parameters.
Proof. unfold case_s_chunk_parameters. solve_case; by destruct Hs. Qed.

Lemma s_chunk_size_almost_done_ok :
  case_ok s_chunk_size_almost_done (case_s_chunk_size_almost_done settings).
Proof.
  unfold case_s_chunk_size_almost_done. split_frame. destruct Hs as [Hfl Hs].
  pose proof (rg_content_length _ Hr). repeat wp_case; simpl in *; try done; try solve_next.
Qed.

Lemma s_chunk_data_ok : case_ok s_chunk_data (case_s_chunk_data data).
Proof.
  unfold case_s_chunk_data. split_frame; destruct Hs as [Hfl Hs];
    pose proof (content_length_known_intro p Hs);
    repeat (wp_case || consumes); simpl in *; try done; try solve_next.
Qed.

Lemma s_chunk_data_almost_done_ok :
  case_ok s_chunk_data_almost_done (case_s_chunk_data_almost_done settings data).
Proof.
  unfold case_s_chunk_data_almost_done. split_frame; destruct Hs as [Hfl Hs];
    pose proof (proj2 (Z.eqb_eq _ _) Hs); repeat wp_case; simpl in *; done || solve_next.
Qed.

Lemma s_chunk_data_done_ok :
  case_ok s_chunk_data_done (case_s_chunk_data_done settings).
Proof. unfold case_s_chunk_data_done. solve_case; done. Qed.
End body.
