(* ===== verification/HttpLoop.v ===== *)
(** * HttpLoop: the [switch], the loops and the whole of [http_parser_execute]

    The lemmas on the cases are put together; [execute_ok] is what the theorems on
    [http_parser_execute] follow from. *)

From S2P Require Import Prelude.
From S2P Require Import HttpTables.
From S2P Require Import HttpUrl.
From S2P Require Import HttpParser.
From S2P Require Import HttpMonad.
From S2P Require Import HttpExec.
From S2P Require Import HttpWp.
From S2P Require Import HttpInvariant.
From S2P Require Import HttpSafety.
From S2P Require Import HttpHeaders.
From S2P Require Import HttpBody.
Local Open Scope Z_scope.

Section loop.
Context {U : Type} (settings : http_parser_settings U) `{!WellBehaved settings}.
Context (data : list Byte.byte) (mx : Z) (lenient acl : bool).
Abbreviation len := (length data).
Abbreviation wp := (wp (U:=U) (returned_ok data) (error_ok data)).
Abbreviation case_ok := (HttpSafety.case_ok (U:=U) data).
Abbreviation switch := (switch settings data mx lenient acl).
Abbreviation reexecute := (reexecute settings data mx lenient acl).
Abbreviation main_loop := (main_loop settings data mx lenient acl).

Create HintDb cases.
#[local] Hint Resolve s_dead_ok s_start_req_or_res_ok s_res_or_resp_H_ok
  s_start_res_ok case_expect_ok case_version_digit_ok case_version_char_ok
  s_res_first_status_code_ok s_res_status_code_ok s_res_status_start_ok
  s_res_status_ok s_start_req_ok s_req_method_ok s_req_spaces_before_url_ok
  case_url_no_space_ok case_url_ok s_req_http_start_ok s_req_http_end_ok
  s_req_line_almost_done_ok s_header_field_start_ok s_header_field_ok
  s_header_value_discard_ws_ok header_value_start_ok s_header_value_ok
  s_header_almost_done_ok s_header_value_lws_ok s_header_value_discard_lws_ok
  s_headers_almost_done_ok s_headers_done_ok s_body_identity_ok s_body_identity_eof_ok
  s_message_done_ok s_chunk_size_start_ok s_chunk_size_ok s_chunk_parameters_ok
  s_chunk_size_almost_done_ok s_chunk_data_ok s_chunk_data_almost_done_ok
  s_chunk_data_done_ok : cases.

Lemma switch_ok st : case_ok st (switch st).
Proof.
  destruct st; simpl.
  all: auto with cases.
Qed.

(** A fuel above the rank of the state is enough. *)
Lemma reexecute_ok fuel s :
  body_inv 1 s -> (pos s < len)%nat -> (reexecute_rank (p_state s) < fuel)%nat ->
  wp (reexecute fuel) (fun _ s' => (pos s <= pos s' < len)%nat /\ body_inv 0 s') s.
Proof.
  revert s. induction fuel as [| fuel IH]; intros s Hinv Hpos Hfuel; [lia |].
  simpl. do 3 wp_case. eapply wp_mono; [by apply switch_ok |].
  intros [] s' (Hpos' & Hnext); [by apply wp_ret |]. destruct Hnext as [Hinv' Hrank].
  eapply wp_mono; [apply IH; [done | lia | lia] |].
  simpl. intros _ s'' [? ?]. split; [lia | done].
Qed.

Lemma reexecute_rank_small st : (reexecute_rank st < reexecute_fuel)%nat.
Proof. destruct st; unfold reexecute_fuel; simpl; lia. Qed.

(** Between two bytes the byte count of the current byte does not matter. *)
Lemma state_ok_count st p n :
  0 <= n < 2 ^ 32 ->
  state_ok 0 st p n ->
  state_ok 1 st p (if PARSING_HEADER st then u32 (n + u32 1) else n).
Proof.
  intros Hn Hs. destruct st; simpl in *; try done.
  destruct Hs as [? ->]. split; [done | reflexivity].
Qed.

Lemma main_loop_ok fuel s :
  body_inv 0 s -> (pos s <= len)%nat -> (len - pos s < fuel)%nat ->
  wp (main_loop fuel) (fun _ s' => pos s' = len /\ body_inv 0 s') s.
Proof.
  revert s. induction fuel as [| fuel IH]; intros s Hinv Hpos Hfuel; [lia |].
  simpl. do 3 wp_case; [by wp_case |].
  wp_case. apply wp_load_ch; [lia |]. intros b Hb. pose proof (uchar_range b).
  destruct Hinv as [Herr Hr Hn Hch Hs Hmarks].
  pose proof (state_ok_count _ _ _ Hn Hs) as Hs1.
  assert (forall n', n' = (if PARSING_HEADER (p_state s) then u32 (nread s + u32 1)
                           else nread s) ->
    wp (reexecute reexecute_fuel)
       (fun _ s' => wp (p ← gets pos; modify (with_pos (p + 1)%nat);; main_loop fuel)
          (fun _ s' => pos s' = len /\ body_inv 0 s') s')
       (with_nread n' (with_ch (uchar b) s))) as Hloop.
  { intros n' ->. eapply wp_mono.
    - apply reexecute_ok; simpl; [| lia | apply reexecute_rank_small].
      constructor; simpl; try done. destruct (PARSING_HEADER _); auto with ranges.
    - simpl. intros _ s' (Hpos' & [Herr' Hr' Hn' Hch' Hs' Hmarks']). do 3 wp_case.
      apply IH; simpl; [constructor; simpl; try done | lia | lia].
      intros FOR. specialize (Hmarks' FOR). unfold mark_ok in *.
      destruct FOR; simpl in *; case_match; intuition lia. }
  do 3 wp_case. frame_cbn. destruct (PARSING_HEADER (p_state s)) eqn:Hp.
  - apply wp_COUNT_HEADER_SIZE; intros _; [wp_case; auto with ranges; lia |].
    by apply wp_bind, Hloop.
  - apply wp_ret, wp_bind. specialize (Hloop _ eq_refl). by destruct s.
Qed.

(** ** The marks that are left over *)

Lemma marked_in_inj F1 F2 st : marked_in F1 st = true -> marked_in F2 st = true -> F1 = F2.
Proof. by destruct F1, F2, st. Qed.

(** In a state with a mark, [state_ok] says nothing of the count. *)
Lemma marked_state_ok FOR st p n n' :
  marked_in FOR st = true -> state_ok 0 st p n -> state_ok 0 st p n'.
Proof. by destruct FOR, st. Qed.

Lemma mark_ok_in (s : frame U) FOR :
  mark_ok s FOR -> is_Some (mark_of FOR s) -> marked_in FOR (p_state s) = true.
Proof. unfold mark_ok. intros Hm [m Heq]. rewrite Heq in Hm. by destruct Hm. Qed.

Lemma mark_count_inj (s : frame U) :
  (forall F1 F2, is_Some (mark_of F1 s) -> is_Some (mark_of F2 s) -> F1 = F2) ->
  (mark_count s <=? 1)%nat = true.
Proof.
  intros Hinj. apply Nat.leb_le. unfold mark_count.
  destruct (filter _ _) as [| F1 [| F2 l]] eqn:Hl; simpl; try lia. exfalso.
  assert (NoDup (F1 :: F2 :: l)) as Hnd.
  { rewrite <- Hl. apply list.NoDup_filter. by apply (bool_decide_unpack _). }
  assert (forall F, F ∈ F1 :: F2 :: l -> is_Some (mark_of F s)) as Hin
    by (intros F; rewrite <- Hl, list_elem_of_filter; tauto).
  apply list.NoDup_cons in Hnd as [Hn _]. apply Hn.
  rewrite (Hinj F1 F2); [left | apply Hin; left | apply Hin; right; left].
Qed.

Lemma mark_count_le (s : frame U) :
  (forall FOR, mark_ok s FOR) -> (mark_count s <=? 1)%nat = true.
Proof.
  intros Hmarks. apply mark_count_inj. intros F1 F2 H1 H2.
  apply (marked_in_inj _ _ (p_state s)); by apply mark_ok_in.
Qed.

(** One of the callbacks after the loop. *)
Lemma leftover_mark_ok FOR Q s :
  body_inv 0 s -> pos s = len ->
  (forall s', body_inv 0 s' -> pos s' = len -> Q tt s') ->
  wp (CALLBACK_DATA_NOADVANCE settings data FOR) Q s.
Proof.
  intros [Herr Hr Hn Hch Hs Hmarks] Hpos HQ. unfold CALLBACK_DATA_NOADVANCE.
  wp_case. wp_case.
  assert (forall FOR', mark_ok (with_mark FOR None s) FOR') as Hmarks'.
  { intros FOR'. specialize (Hmarks FOR'). unfold mark_ok in *.
    destruct FOR, FOR'; simpl in *; done. }
  apply wp_CALLBACK_DATA_; [done | done | | |].
  - intros Hm. apply exits_ok_intro; try done; [| lia | by destruct FOR | by destruct FOR].
    apply (marked_state_ok FOR) with (n := nread s); [| done].
    by apply mark_ok_in.
  - destruct FOR; apply HQ; try done; by constructor.
  - intros u. destruct FOR; (apply HQ; [constructor |]); simpl; auto with ranges.
Qed.

Lemma leftover_marks_ok s :
  body_inv 0 s -> pos s = len ->
  wp (leftover_marks settings data) (fun _ s' => body_inv 0 s') s.
Proof.
  intros Hinv Hpos. unfold leftover_marks. do 3 wp_case.
  wp_case; [by apply mark_count_le, (bi_marks _ _ Hinv) |].
  do 4 (apply wp_bind, leftover_mark_ok; [done | done |]; clear Hpos Hinv s;
        intros s Hinv Hpos).
  apply leftover_mark_ok; done.
Qed.

(** ** The whole function *)

Lemma entry_marks_ok p (u : U) :
  well_formed p -> hp_http_errno p = HPE_OK ->
  body_inv 0 (entry_marks (hp_state p) (initial_frame p u)).
Proof.
  intros [Hr Hs] Herr. specialize (Hs (or_introl Herr)).
  pose proof (rg_nread _ Hr).
  unfold initial_frame. destruct (hp_state p) eqn:Hst; constructor; simpl in *;
    try rewrite Hst; auto; try lia; intros []; unfold mark_ok; simpl; auto.
Qed.

Lemma execute_body_ok p u :
  well_formed p -> hp_http_errno p = HPE_OK ->
  wp (execute_body settings data mx lenient acl) (fun _ _ => False) (initial_frame p u).
Proof.
  intros Hp Herr. unfold execute_body. do 4 wp_case. apply wp_bind.
  eapply wp_mono; [apply main_loop_ok; [by apply entry_marks_ok | |] |].
  1, 2: simpl; destruct (hp_state p); simpl; lia.
  intros _ s [Hpos Hinv]. wp_case.
  eapply wp_mono; [by apply leftover_marks_ok |].
  intros _ s' [Herr' Hr' Hn' _ Hs' _].
  apply wp_RETURN. unfold returned_ok, well_formed. simpl. split_and!; auto with ranges.
Qed.
End loop.

(** What [http_parser_execute] promises of its results. *)
Definition executed (data : list Byte.byte) (n : nat) (p' : http_parser) : Prop :=
  well_formed p' /\
  match data with
  | [] => n = 0%nat \/ (n = 1%nat /\ hp_http_errno p' = HPE_INVALID_EOF_STATE)
  | _ => (n <= length data)%nat /\
         (hp_http_errno p' = HPE_OK -> n = length data \/ hp_upgrade p' = true)
  end.

(** An outcome that is not a fault. *)
Definition outcome_ok {U} (P : nat -> http_parser -> Prop) (o : outcome U) : Prop :=
  match o with Returned n p _ => P n p | Faulty _ => False end.

Lemma finish_ok {U} (E : frame U -> Prop) (R' : nat -> frame U -> Prop)
    (m : M U Empty_set) s (P : nat -> http_parser -> Prop) :
  wp R' E m (fun _ _ => True) s ->
  (forall n s', R' n s' -> P n (parser s')) ->
  (forall s', E s' -> outcome_ok P (at_error s')) ->
  outcome_ok P (finish (m s)).
Proof.
  unfold wp, finish. intros Hwp HR HE. destruct (m s) as [[] | n s' | s' |]; auto.
  by apply HR.
Qed.

Section execute.
Context {U : Type} (settings : http_parser_settings U) `{!WellBehaved settings}.

Lemma execute_eof_ok p u :
  well_formed p -> hp_http_errno p = HPE_OK ->
  wp (fun n s' => executed [] n (parser s')) (fun _ => False)
    (execute_eof settings) (fun _ _ => True) (initial_frame p u).
Proof.
  intros [Hr Hs] Herr. pose proof (rg_nread _ Hr).
  assert (well_formed p) as Hwf by done.
  assert (forall s0 : frame U, ranges (parser s0) -> 0 <= nread s0 < 2 ^ 32 ->
    wp (fun n s' => executed [] n (parser s')) (fun _ => False)
      (SET_ERRNO HPE_INVALID_EOF_STATE;; return_ (A:=Empty_set) 1) (fun _ _ => True) s0) as Heof.
  { intros s0 Hr0 Hn0. apply wp_bind, wp_SET_ERRNO, wp_return_. split; [| by right].
    split; simpl; [auto with ranges | by intros [|]]. }
  unfold execute_eof. apply wp_bind, wp_gets. simpl.
  destruct (hp_state p) eqn:Hst; try (by apply Heof);
    try (apply wp_return_; split; [done | by left]).
  unfold CALLBACK_NOTIFY_NOADVANCE. do 2 apply wp_bind. apply wp_gets.
  apply wp_CALLBACK_NOTIFY_; [done | done | | |].
  - intros u'. simpl. rewrite Hst.
    split_and!; (split; [| by left]); split; simpl; auto with ranges; by intros [].
  - apply wp_return_. by split; [| left].
  - intros u'. apply wp_return_. unfold after_call. simpl. rewrite Hst.
    split; [| by left]. split; simpl; auto with ranges.
Qed.

Lemma execute_ok mx data p u :
  well_formed p ->
  outcome_ok (executed data) (http_parser_execute settings mx data p u).
Proof.
  intros Hp. unfold http_parser_execute. case_decide as Herr.
  2: { simpl. split; [done |]. destruct data; [by left | simpl; split; [lia | done]]. }
  destruct data as [| b data].
  - simpl. eapply finish_ok; [by apply execute_eof_ok | done | done].
  - eapply finish_ok; [by eapply wp_mono; [apply execute_body_ok |] | |].
    + intros n s' (Hn & Hwf & Hok). done.
    + intros s' (Hpos & Hr & Hn & He1 & He2). unfold at_error.
      rewrite decide_False by done. split.
      * split; [auto with ranges |]. simpl. tauto.
      * split; [done |]. simpl. tauto.
Qed.
End execute.
