(* ===== verification/HttpSize.v ===== *)
(** * HttpSize: the limit on the size of the headers

    [COUNT_HEADER_SIZE] is the only operation that increases the count of header
    bytes, and it fails above the limit: a call that goes on keeps the count at most
    [max_header_size]. *)

From S2P Require Import Prelude.
From S2P Require Import HttpTables.
From S2P Require Import HttpUrl.
From S2P Require Import HttpParser.
From S2P Require Import HttpMonad.
From S2P Require Import HttpExec.
From S2P Require Import HttpSafety.
Local Open Scope Z_scope.

Section size.
Context {U : Type} (settings : http_parser_settings U).
Context (data : list Byte.byte) (mx : Z) (lenient acl : bool) (Hmx : 0 <= mx).

Definition counted (s : frame U) : Prop := 0 <= nread s <= mx.

(** Without an error number the count stays within the limit. *)
Definition keeps {A} (m : M U A) : Prop :=
  forall s, counted s ->
  match m s with
  | Next _ s' => counted s'
  | Return _ s' => hp_http_errno (parser s') = HPE_OK -> 0 <= hp_nread (parser s') <= mx
  | _ => True
  end.

Create HintDb keeps.

Lemma keeps_ret {A} (a : A) : keeps (mret a).
Proof. by intros s Hs. Qed.
Lemma keeps_gets {A} (f : frame U -> A) : keeps (gets f).
Proof. by intros s Hs. Qed.
Lemma keeps_modify f : (forall s, nread (f s) = nread s) -> keeps (modify f).
Proof. intros Hf s Hs. simpl. unfold counted. by rewrite Hf. Qed.
Lemma keeps_modify_parser f : keeps (modify_parser f).
Proof. by apply keeps_modify. Qed.
Lemma keeps_bind {A B} (m : M U A) (f : A -> M U B) :
  keeps m -> (forall a, keeps (f a)) -> keeps (m ≫= f).
Proof.
  intros Hm Hf s Hs. unfold mbind, M_bind. specialize (Hm s Hs).
  destruct (m s); try done. by apply Hf.
Qed.
Lemma keeps_COUNT V : keeps (COUNT_HEADER_SIZE mx V).
Proof.
  intros s Hs. unfold COUNT_HEADER_SIZE, mbind, M_bind, modify, gets. simpl.
  pose proof (u32_range (nread s + u32 V)).
  destruct (Z.ltb_spec mx (u32 (nread s + u32 V))); [done |]. unfold counted. simpl. lia.
Qed.
Lemma keeps_fail {A} e : keeps (A:=A) (fail e).
Proof. by intros s Hs. Qed.
Lemma keeps_fault {A} e : keeps (A:=A) (fault_with e).
Proof. by intros s Hs. Qed.
Lemma keeps_goto_error {A} : keeps (A:=A) goto_error.
Proof. by intros s Hs. Qed.
Lemma keeps_SET_ERRNO e : keeps (SET_ERRNO e).
Proof. by intros s Hs. Qed.
Lemma keeps_RETURN {A} n : keeps (A:=A) (RETURN n).
Proof. intros s Hs _. exact Hs. Qed.
Lemma keeps_assert b : keeps (assert_ b).
Proof. destruct b; by intros s Hs. Qed.
Lemma keeps_UPDATE_STATE st : keeps (UPDATE_STATE st).
Proof. by apply keeps_modify. Qed.
Lemma keeps_STRICT_CHECK b : keeps (STRICT_CHECK b).
Proof. destruct b; by intros s Hs. Qed.
Lemma keeps_MARK FOR : keeps (MARK FOR).
Proof. apply keeps_modify. intros s. by destruct FOR; simpl; case_match. Qed.

(** A callback may change the parser, not the local count. *)
Lemma keeps_invoke call e ER : keeps (invoke (U:=U) call e ER).
Proof.
  intros s Hs. unfold invoke, mbind, M_bind, gets, modify. simpl.
  destruct (call _ _) as [[rc p'] u']. unfold UPDATE_STATE, SET_ERRNO, mret, M_ret, return_.
  destruct (negb (rc =? 0)); simpl; (case_decide; [exact Hs | done]).
Qed.
Lemma keeps_NOTIFY FOR ER : keeps (CALLBACK_NOTIFY_ settings FOR ER).
Proof.
  apply keeps_bind; [apply keeps_gets | intros p].
  apply keeps_bind; [apply keeps_assert | intros _].
  case_match; [apply keeps_invoke | apply keeps_ret].
Qed.
Lemma keeps_DATA FOR LEN ER : keeps (CALLBACK_DATA_ settings data FOR LEN ER).
Proof.
  apply keeps_bind; [apply keeps_gets | intros p].
  apply keeps_bind; [apply keeps_assert | intros _].
  apply keeps_bind; [apply keeps_gets | intros m]. case_match; [| apply keeps_ret].
  apply keeps_bind; [case_match; [apply keeps_invoke | apply keeps_ret] |].
  intros _. apply keeps_modify. by destruct FOR.
Qed.
Lemma keeps_reset_nread : keeps reset_nread.
Proof. intros s Hs. unfold counted. simpl. lia. Qed.
Lemma keeps_headers_complete : keeps (call_headers_complete settings).
Proof.
  intros s Hs. unfold call_headers_complete. destruct (on_headers_complete settings) as [cb |]; [| exact Hs].
  unfold mbind, M_bind, gets, modify. simpl. destruct (cb _ _) as [[rc p'] u'].
  destruct (rc =? 0); [exact Hs |]. destruct (rc =? 2); [exact Hs |].
  by destruct (rc =? 1); [exact Hs |].
Qed.
#[local] Hint Resolve keeps_ret keeps_gets keeps_modify_parser keeps_bind keeps_COUNT keeps_fail
  keeps_fault keeps_goto_error keeps_SET_ERRNO keeps_RETURN keeps_assert keeps_UPDATE_STATE
  keeps_STRICT_CHECK keeps_MARK keeps_NOTIFY keeps_DATA keeps_reset_nread
  keeps_headers_complete : keeps.

Ltac keep_step :=
  lazymatch goal with
  | |- keeps (mbind _ _) => apply keeps_bind; [| intros ?]
  | |- keeps (UPDATE_STATE _) => apply keeps_UPDATE_STATE
  | |- keeps (if _ then _ else _) => case_match
  | |- keeps (match _ with _ => _ end) => case_match
  | |- keeps (CALLBACK_NOTIFY _ _) => unfold CALLBACK_NOTIFY
  | |- keeps (CALLBACK_NOTIFY_NOADVANCE _ _) => unfold CALLBACK_NOTIFY_NOADVANCE
  | |- keeps (CALLBACK_DATA _ _ _) => unfold CALLBACK_DATA
  | |- keeps (CALLBACK_DATA_NOADVANCE _ _ _) => unfold CALLBACK_DATA_NOADVANCE
  | |- keeps (modify _) => by apply keeps_modify
  | |- keeps (match_word _ _ _ _ _) => unfold match_word
  | |- keeps _ => solve [auto with keeps]
  end.
Ltac keep := repeat keep_step.

Lemma token_run_keeps fuel pe : keeps (token_run (U:=U) data fuel pe).
Proof. induction fuel as [| fuel IH]; cbn [token_run]; keep. Qed.
Lemma header_field_char_keeps c : keeps (header_field_char (U:=U) data mx c).
Proof.
  unfold header_field_char, incr_index, set_hs.
  apply keeps_bind; [keep | intros p]. destruct (hp_header_state p); keep.
  apply token_run_keeps.
Qed.
Lemma load_ch_keeps : keeps (load_ch (U:=U) data).
Proof. unfold load_ch. keep. Qed.
Lemma header_field_loop_keeps fuel : keeps (header_field_loop (U:=U) data mx fuel).
Proof.
  pose proof load_ch_keeps. pose proof header_field_char_keeps.
  induction fuel as [| fuel IH]; cbn [header_field_loop]; keep.
Qed.
Lemma value_run_keeps fuel pe : keeps (value_run (U:=U) data lenient fuel pe).
Proof. pose proof load_ch_keeps. induction fuel as [| fuel IH]; cbn [value_run]; keep. Qed.
Lemma header_value_char_keeps h : keeps (header_value_char (U:=U) data mx lenient h).
Proof.
  pose proof (value_run_keeps (S (length data))).
  unfold header_value_char, content_length_digit, fail_content_length, incr_index, set_hs.
  apply keeps_bind; [keep | intros c]. destruct h; keep.
Qed.
Lemma header_value_loop_keeps fuel start h :
  keeps (header_value_loop settings data mx lenient fuel start h).
Proof.
  pose proof load_ch_keeps. pose proof header_value_char_keeps. revert h.
  induction fuel as [| fuel IH]; intros h; cbn [header_value_loop]; unfold set_hs; keep.
Qed.

Lemma switch_keeps st : keeps (switch settings data mx lenient acl st).
Proof.
  pose proof header_field_loop_keeps. pose proof header_value_loop_keeps.
  unfold switch. destruct st.
  all: unfold case_s_dead, case_s_start_req_or_res, case_s_res_or_resp_H, case_s_start_res,
    case_expect, case_version_digit, case_version_char, case_s_res_first_status_code,
    case_s_res_status_code, case_s_res_status_start, case_s_res_status, case_s_start_req,
    case_s_req_method, case_s_req_spaces_before_url, case_url_no_space, case_url,
    case_s_req_http_start, case_s_req_http_end, case_s_req_line_almost_done,
    case_s_header_field_start, case_s_header_field, case_s_header_value,
    case_s_header_value_discard_ws, case_s_header_value_start,
    case_s_header_almost_done, case_s_header_value_lws, case_s_header_value_discard_lws,
    case_s_headers_almost_done, case_s_headers_done, case_s_body_identity,
    case_s_body_identity_eof, case_s_message_done, case_s_chunk_data,
    case_s_chunk_size_start, case_s_chunk_size, case_s_chunk_parameters,
    case_s_chunk_size_almost_done, case_s_chunk_data_almost_done, case_s_chunk_data_done,
    reset_message, url_step, incr_index, set_hs, flag_header_value, message_complete,
    assert_chunked, consume_body.
  all: keep.
Qed.

Lemma reexecute_keeps fuel : keeps (reexecute settings data mx lenient acl fuel).
Proof.
  pose proof switch_keeps. induction fuel as [| fuel IH]; cbn [reexecute]; keep.
Qed.

Lemma main_loop_keeps fuel : keeps (main_loop settings data mx lenient acl fuel).
Proof.
  pose proof load_ch_keeps. pose proof (reexecute_keeps reexecute_fuel).
  induction fuel as [| fuel IH]; cbn [main_loop]; keep.
Qed.

Lemma execute_body_keeps : keeps (execute_body settings data mx lenient acl).
Proof.
  pose proof main_loop_keeps.
  unfold execute_body, leftover_marks. keep. intros s. by destruct a.
Qed.
End size.

Section execute.
Context {U : Type} (settings : http_parser_settings U).

(** A buffer that is accepted leaves the count within the limit. *)
Lemma execute_nread mx data p (u : U) n p' u' :
  data <> [] -> 0 <= hp_nread p <= mx ->
  http_parser_execute settings mx data p u = Returned n p' u' -> hp_http_errno p' = HPE_OK ->
  0 <= hp_nread p' <= mx.
Proof.
  intros Hne Hp. unfold http_parser_execute. case_decide as He.
  2: { intros [= <- <- <-] Hok. congruence. }
  destruct data as [| b data]; [done |]. cbn [length Nat.eqb].
  pose proof (execute_body_keeps settings (b :: data) mx (hp_lenient_http_headers p)
    (hp_allow_chunked_length p) ltac:(lia) (initial_frame p u) Hp) as H.
  destruct (execute_body _ _ _ _ _ _) as [[] | n1 s1 | s1 |]; simpl; try done.
  - intros [= <- <- <-]. exact H.
  - unfold at_error. case_decide; intros [= <- <- <-]; simpl; done.
Qed.
End execute.
