(* ===== verification/HttpOptions.v ===== *)
(** * HttpOptions: what a call leaves as it is

    [lenient_http_headers] and [allow_chunked_length] are set by the application
    between calls; no call of [http_parser_execute] changes them.  Nor does a call
    break an invariant of the application's state that the callbacks keep. *)

From S2P Require Import Prelude.
From S2P Require Import HttpTables.
From S2P Require Import HttpUrl.
From S2P Require Import HttpParser.
From S2P Require Import HttpMonad.
From S2P Require Import HttpExec.
From S2P Require Import HttpWp.
Local Open Scope Z_scope.

(** The two options. *)
Definition options (p : http_parser) : bool * bool :=
  (hp_lenient_http_headers p, hp_allow_chunked_length p).

(** The callbacks keep [I]; those for data get at most [k] bytes. *)
Class Keeps_user {U} (st : http_parser_settings U) (I : U -> Prop) (k : nat) : Prop := {
  ku_notify FOR : opt_ok (fun cb : http_cb U => forall p u, I u -> I (cb p u).2) (on_notify st FOR);
  ku_data FOR :
    opt_ok (fun cb : http_data_cb U =>
              forall p bs u, (length bs <= k)%nat -> I u -> I (cb p bs u).2) (on_data st FOR);
  ku_headers_complete :
    opt_ok (fun cb : http_cb U => forall p u, I u -> I (cb p u).2) (on_headers_complete st)
}.

Section options.
Context {U : Type} (settings : http_parser_settings U) `{!WellBehaved settings}.
Context (I : U -> Prop) (data : list Byte.byte) `{!Keeps_user settings I (length data)}.
Context (mx : Z) (lenient acl : bool).

Definition keeps_options {A} (m : M U A) : Prop :=
  forall s,
  match m s with
  | Next _ s' | Return _ s' | Goto_error s' =>
      options (parser s') = options (parser s) /\ (I (user s) -> I (user s'))
  | Fault _ => True
  end.

Create HintDb options.

Lemma options_ret {A} (a : A) : keeps_options (mret a).
Proof. done. Qed.
Lemma options_gets {A} (f : frame U -> A) : keeps_options (gets f).
Proof. done. Qed.
Lemma options_modify f :
  (forall s, options (parser (f s)) = options (parser s) /\ user (f s) = user s) ->
  keeps_options (modify f).
Proof. intros Hf s. destruct (Hf s) as [H1 H2]. simpl. by rewrite H2. Qed.
Lemma options_modify_parser f :
  (forall p, options (f p) = options p) -> keeps_options (modify_parser f).
Proof. intros Hf s. simpl. by rewrite Hf. Qed.
Lemma options_bind {A B} (m : M U A) (f : A -> M U B) :
  keeps_options m -> (forall a, keeps_options (f a)) -> keeps_options (m ≫= f).
Proof.
  intros Hm Hf s. unfold mbind, M_bind. specialize (Hm s). destruct (m s) as [a s' | | |]; try done.
  destruct Hm as [<- Hu]. specialize (Hf a s'). destruct (f a s'); try done;
    destruct Hf as [Ho Hu']; auto.
Qed.
Lemma options_COUNT V : keeps_options (COUNT_HEADER_SIZE mx V).
Proof.
  intros s. unfold COUNT_HEADER_SIZE, mbind, M_bind, modify, gets. simpl.
  by destruct (mx <? _).
Qed.
Lemma options_fail {A} e : keeps_options (A:=A) (fail e).
Proof. done. Qed.
Lemma options_fault {A} e : keeps_options (A:=A) (fault_with e).
Proof. done. Qed.
Lemma options_goto_error {A} : keeps_options (A:=A) goto_error.
Proof. done. Qed.
Lemma options_SET_ERRNO e : keeps_options (SET_ERRNO e).
Proof. done. Qed.
Lemma options_RETURN {A} n : keeps_options (A:=A) (RETURN n).
Proof. done. Qed.
Lemma options_return {A} n : keeps_options (A:=A) (return_ n).
Proof. done. Qed.
Lemma options_assert b : keeps_options (assert_ b).
Proof. by destruct b. Qed.
Lemma options_UPDATE_STATE st : keeps_options (UPDATE_STATE st).
Proof. done. Qed.
Lemma options_STRICT_CHECK b : keeps_options (STRICT_CHECK b).
Proof. by destruct b. Qed.
Lemma options_MARK FOR : keeps_options (MARK FOR).
Proof. apply options_modify. intros s. by destruct FOR; simpl; case_match. Qed.

(** A callback within its contract leaves the options. *)
Lemma cb_ok_options cb p (u : U) :
  cb_ok cb -> options (cb p u).1.2 = options p.
Proof.
  intros H. specialize (H p u). destruct (cb p u) as [[rc p'] u']. simpl.
  by destruct H as [-> | [_ ->]].
Qed.
Lemma options_invoke call e ER :
  cb_ok call -> (forall p u, I u -> I (call p u).2) -> keeps_options (invoke (U:=U) call e ER).
Proof.
  intros Hcb Hu s. specialize (Hu (HttpParser.set_state (p_state s) (parser s)) (user s)).
  unfold invoke, mbind, M_bind, gets, modify. simpl.
  pose proof (cb_ok_options call (HttpParser.set_state (p_state s) (parser s)) (user s) Hcb) as Ho.
  destruct (call _ _) as [[rc p'] u']. simpl in Ho.
  unfold UPDATE_STATE, SET_ERRNO, mret, M_ret, return_.
  destruct (negb (rc =? 0)); simpl; case_decide; split; done.
Qed.
Lemma options_NOTIFY FOR ER : keeps_options (CALLBACK_NOTIFY_ settings FOR ER).
Proof.
  pose proof (wb_notify (st:=settings) FOR) as Hcb.
  pose proof (ku_notify (st:=settings) (I:=I) (k:=length data) FOR) as Hku.
  apply options_bind; [apply options_gets | intros p].
  apply options_bind; [apply options_assert | intros _].
  destruct (on_notify settings FOR); [by apply options_invoke | apply options_ret].
Qed.
Lemma options_DATA FOR LEN ER : keeps_options (CALLBACK_DATA_ settings data FOR LEN ER).
Proof.
  pose proof (wb_data (st:=settings) FOR) as Hcb.
  pose proof (ku_data (st:=settings) (I:=I) (k:=length data) FOR) as Hku.
  apply options_bind; [apply options_gets | intros p].
  apply options_bind; [apply options_assert | intros _].
  apply options_bind; [apply options_gets | intros [m |]]; [| apply options_ret].
  apply options_bind; [| intros _; apply options_modify; by destruct FOR].
  destruct (on_data settings FOR); [apply options_invoke; [apply Hcb | intros; apply Hku; [rewrite length_take, length_drop; lia | done]] | apply options_ret].
Qed.
Lemma options_reset_nread : keeps_options reset_nread.
Proof. done. Qed.
Lemma options_headers_complete : keeps_options (call_headers_complete settings).
Proof.
  intros s. unfold call_headers_complete.
  pose proof (wb_headers_complete (st:=settings)) as Hcb.
  pose proof (ku_headers_complete (st:=settings) (I:=I) (k:=length data)) as Hku.
  destruct (on_headers_complete settings) as [cb |]; [| done].
  unfold mbind, M_bind, gets, modify. simpl.
  pose proof (cb_ok_options cb (parser s) (user s) Hcb) as Ho.
  specialize (Hku (parser s) (user s)).
  destruct (cb _ _) as [[rc p'] u']. simpl in Ho, Hku.
  destruct (rc =? 0); [done |]. destruct (rc =? 2); [done |]. by destruct (rc =? 1).
Qed.
#[local] Hint Resolve options_ret options_gets options_COUNT options_fail
  options_fault options_goto_error options_SET_ERRNO options_RETURN options_return
  options_assert options_UPDATE_STATE options_STRICT_CHECK options_MARK options_NOTIFY
  options_DATA options_reset_nread options_headers_complete : options.

Ltac option_step :=
  lazymatch goal with
  | |- keeps_options (mbind _ _) => apply options_bind; [| intros ?]
  | |- keeps_options (UPDATE_STATE _) => apply options_UPDATE_STATE
  | |- keeps_options (if _ then _ else _) => case_match
  | |- keeps_options (match _ with _ => _ end) => case_match
  | |- keeps_options (CALLBACK_NOTIFY _ _) => unfold CALLBACK_NOTIFY
  | |- keeps_options (CALLBACK_NOTIFY_NOADVANCE _ _) => unfold CALLBACK_NOTIFY_NOADVANCE
  | |- keeps_options (CALLBACK_DATA _ _ _) => unfold CALLBACK_DATA
  | |- keeps_options (CALLBACK_DATA_NOADVANCE _ _ _) => unfold CALLBACK_DATA_NOADVANCE
  | |- keeps_options (modify_parser _) => by apply options_modify_parser
  | |- keeps_options (modify _) => by apply options_modify
  | |- keeps_options (match_word _ _ _ _ _) => unfold match_word
  | |- keeps_options _ => solve [auto with options]
  end.
Ltac keep := repeat option_step.

Lemma load_ch_options : keeps_options (load_ch (U:=U) data).
Proof. unfold load_ch. keep. Qed.
Lemma token_run_options fuel pe : keeps_options (token_run (U:=U) data fuel pe).
Proof. induction fuel as [| fuel IH]; cbn [token_run]; keep. Qed.
Lemma header_field_char_options c : keeps_options (header_field_char (U:=U) data mx c).
Proof.
  unfold header_field_char, incr_index, set_hs.
  apply options_bind; [keep | intros p]. destruct (hp_header_state p); keep.
  apply token_run_options.
Qed.
Lemma header_field_loop_options fuel : keeps_options (header_field_loop (U:=U) data mx fuel).
Proof.
  pose proof load_ch_options. pose proof header_field_char_options.
  induction fuel as [| fuel IH]; cbn [header_field_loop]; keep.
Qed.
Lemma value_run_options fuel pe : keeps_options (value_run (U:=U) data lenient fuel pe).
Proof. pose proof load_ch_options. induction fuel as [| fuel IH]; cbn [value_run]; keep. Qed.
Lemma header_value_char_options h : keeps_options (header_value_char (U:=U) data mx lenient h).
Proof.
  pose proof (value_run_options (S (length data))).
  unfold header_value_char, content_length_digit, fail_content_length, incr_index, set_hs.
  apply options_bind; [keep | intros c]. destruct h; keep.
Qed.
Lemma header_value_loop_options fuel start h :
  keeps_options (header_value_loop settings data mx lenient fuel start h).
Proof.
  pose proof load_ch_options. pose proof header_value_char_options. revert h.
  induction fuel as [| fuel IH]; intros h; cbn [header_value_loop]; unfold set_hs; keep.
Qed.

Lemma switch_options st : keeps_options (switch settings data mx lenient acl st).
Proof.
  pose proof header_field_loop_options. pose proof header_value_loop_options.
  unfold switch. destruct st.
  all: unfold case_s_dead, case_s_start_req_or_res, case_s_res_or_resp_H, case_s_start_res,
    case_expect, case_version_digit, case_version_char, case_s_res_first_status_code,
    case_s_res_status_code, case_s_res_status_start, case_s_res_status, case_s_start_req,
    case_s_req_method, case_s_req_spaces_before_url, case_url_no_space, case_url,
    case_s_req_http_start, case_s_req_http_end, case_s_req_line_almost_done,
    case_s_header_field_start, case_s_header_field, case_s_header_value,
    case_s_header_value_discard_ws, case_s_header_value_start,
    case_s_header_almost_done, case_s_header_value_lws, case_s_header_value_discard_lws,
    case_s_headers_almost_done, case_s_headers_done, case_s_body_identity,
    case_s_body_identity_eof, case_s_message_done, case_s_chunk_data,
    case_s_chunk_size_start, case_s_chunk_size, case_s_chunk_parameters,
    case_s_chunk_size_almost_done, case_s_chunk_data_almost_done, case_s_chunk_data_done,
    reset_message, url_step, incr_index, set_hs, flag_header_value, message_complete,
    assert_chunked, consume_body.
  all: keep.
Qed.

Lemma reexecute_options fuel : keeps_options (reexecute settings data mx lenient acl fuel).
Proof.
  pose proof switch_options. induction fuel as [| fuel IH]; cbn [reexecute]; keep.
Qed.
Lemma main_loop_options fuel : keeps_options (main_loop settings data mx lenient acl fuel).
Proof.
  pose proof load_ch_options. pose proof (reexecute_options reexecute_fuel).
  induction fuel as [| fuel IH]; cbn [main_loop]; keep.
Qed.
Lemma execute_body_options : keeps_options (execute_body settings data mx lenient acl).
Proof.
  pose proof main_loop_options. unfold execute_body, leftover_marks. keep.
  intros s. by destruct a.
Qed.
Lemma execute_eof_options : keeps_options (execute_eof settings).
Proof. unfold execute_eof. keep. Qed.

End options.

(** Whatever the outcome of a call. *)
Section execute.
Context {U : Type} (settings : http_parser_settings U) `{!WellBehaved settings}.

Lemma execute_keeps (I : U -> Prop) mx data `{!Keeps_user settings I (length data)} p u n p' u' :
  http_parser_execute settings mx data p u = Returned n p' u' ->
  options p' = options p /\ (I u -> I u').
Proof.
  unfold http_parser_execute. case_decide as He; [| by intros [= <- <- <-]].
  assert (forall m : M U Empty_set, keeps_options I m ->
            finish (m (initial_frame p u)) = Returned n p' u' ->
            options p' = options p /\ (I u -> I u')) as Hm.
  { intros m Hm. specialize (Hm (initial_frame p u)).
    destruct (m (initial_frame p u)) as [[] | n1 s1 | s1 |]; simpl in *; [| | done].
    - intros [= <- <- <-]. exact Hm.
    - unfold at_error. case_decide; intros [= <- <- <-]; exact Hm. }
  destruct (length data =? 0)%nat; apply Hm;
    [exact (execute_eof_options settings I data) | exact (execute_body_options settings I data _ _ _)].
Qed.

Instance keeps_true k : Keeps_user settings (fun _ => True) k.
Proof. split; intros; unfold opt_ok; by case_match. Qed.

Lemma execute_options mx data p u n p' u' :
  http_parser_execute settings mx data p u = Returned n p' u' -> options p' = options p.
Proof. intros H. exact (proj1 (execute_keeps (fun _ => True) mx data p u n p' u' H)). Qed.
End execute.
