(* ===== verification/HttpStream.v ===== *)
(** * HttpStream: applications that accumulate what the parser delivers

    The class [Streaming] describes the callbacks of an application for which it does
    not matter in how many pieces a string is delivered; [deliver] and [flush] are
    the effect of the data callbacks on such an application.  A relational
    counterpart of [wp], [rwp], compares two executions of the same code on two
    buffers. *)

From S2P Require Import Prelude.
From S2P Require Import HttpTables.
From S2P Require Import HttpUrl.
From S2P Require Import HttpParser.
From S2P Require Import HttpMonad.
From S2P Require Import HttpExec.
From S2P Require Import HttpWp.
From S2P Require Import HttpInvariant.
Local Open Scope Z_scope.

(** A parser without the two fields that [http_parser_execute] keeps in local
    variables. *)
Definition erase (p : http_parser) : http_parser :=
  HttpParser.set_state s_dead (HttpParser.set_nread 0 p).

(** The callbacks leave the parser as it is; those for data succeed, do not look at
    the parser, and treat a string like the sequence of its pieces. *)
Class Streaming {U} (st : http_parser_settings U) := {
  notify_effect : notify_for -> http_parser -> U -> U;
  data_effect : data_for -> list Byte.byte -> U -> U;
  headers_effect : http_parser -> U -> Z * U;
  st_notify FOR cb p u : on_notify st FOR = Some cb ->
    cb p u = (0, p, notify_effect FOR (erase p) u);
  st_data FOR cb p bs u : on_data st FOR = Some cb -> cb p bs u = (0, p, data_effect FOR bs u);
  st_headers cb p u : on_headers_complete st = Some cb ->
    cb p u = ((headers_effect (erase p) u).1, p, (headers_effect (erase p) u).2);
  st_data_nil FOR u : data_effect FOR [] u = u;
  st_data_app FOR a b u : data_effect FOR (a ++ b) u = data_effect FOR b (data_effect FOR a u)
}.

#[export] Instance Streaming_WellBehaved {U} (st : http_parser_settings U) :
  Streaming st -> WellBehaved st.
Proof.
  intros Hst. split.
  - intros FOR. destruct (on_notify st FOR) as [cb |] eqn:Hcb; [| done].
    intros p u. rewrite (st_notify FOR cb p u Hcb). by left.
  - intros FOR. destruct (on_data st FOR) as [cb |] eqn:Hcb; [| done].
    intros bs p u. rewrite (st_data FOR cb p bs u Hcb). by left.
  - destruct (on_headers_complete st) as [cb |] eqn:Hcb; [| done].
    intros p u. rewrite (st_headers cb p u Hcb). by left.
Qed.

Section streaming.
Context {U : Type} (settings : http_parser_settings U) `{!Streaming settings}.

(** The effect of a data callback, set or not. *)
Definition deliver (FOR : data_for) (bs : list Byte.byte) (u : U) : U :=
  match on_data settings FOR with Some _ => data_effect FOR bs u | None => u end.

Lemma deliver_nil FOR u : deliver FOR [] u = u.
Proof. unfold deliver. case_match; [apply st_data_nil | done]. Qed.
Lemma deliver_app FOR a b u : deliver FOR (a ++ b) u = deliver FOR b (deliver FOR a u).
Proof. unfold deliver. case_match; [apply st_data_app | done]. Qed.

Definition notified (FOR : notify_for) (p : http_parser) (u : U) : U :=
  match on_notify settings FOR with Some _ => notify_effect FOR (erase p) u | None => u end.

(** The bytes that a mark has not delivered yet. *)
Definition pending (data : list Byte.byte) (FOR : data_for) (s : frame U) : list Byte.byte :=
  match mark_of FOR s with
  | Some m => take (pos s - m) (drop m data)
  | None => []
  end.

(** The application's state once every mark is delivered, in the order of the
    callbacks after the main loop. *)
Definition flush (data : list Byte.byte) (s : frame U) : U :=
  deliver for_status (pending data for_status s)
    (deliver for_body (pending data for_body s)
      (deliver for_url (pending data for_url s)
        (deliver for_header_value (pending data for_header_value s)
          (deliver for_header_field (pending data for_header_field s) (user s))))).

(** The parser after a callback: [CALLBACK_*] may have stored the state in it. *)
Definition state_stored (s : frame U) (p' : http_parser) : Prop :=
  p' = parser s \/ p' = HttpParser.set_state (p_state s) (parser s).

(** A callback of a streaming application falls through. *)
Lemma CALLBACK_NOTIFY_eq FOR ER s :
  hp_http_errno (parser s) = HPE_OK ->
  exists p', state_stored s p' /\
    CALLBACK_NOTIFY_ settings FOR ER s
    = Next tt (with_user (notified FOR (parser s) (user s)) (with_parser p' s)).
Proof.
  intros Hok. unfold CALLBACK_NOTIFY_, notified, state_stored.
  unfold invoke, UPDATE_STATE, modify, assert_, mbind, M_bind, gets.
  rewrite bool_decide_true by done. simpl.
  destruct (on_notify settings FOR) as [cb |] eqn:Hcb; simpl.
  - rewrite (st_notify FOR cb _ _ Hcb). simpl. rewrite decide_True by done.
    exists (HttpParser.set_state (p_state s) (parser s)). split; [by right |]. by destruct s.
  - exists (parser s). split; [by left |]. by destruct s.
Qed.

Lemma CALLBACK_DATA_eq data FOR LEN ER s :
  hp_http_errno (parser s) = HPE_OK ->
  exists p', state_stored s p' /\
    CALLBACK_DATA_ settings data FOR LEN ER s
    = Next tt (with_mark FOR None (with_user
        match mark_of FOR s with
        | Some m => deliver FOR (take (LEN m) (drop m data)) (user s)
        | None => user s
        end (with_parser p' s))).
Proof.
  intros Hok. unfold CALLBACK_DATA_, deliver, state_stored.
  unfold invoke, UPDATE_STATE, modify, assert_, mbind, M_bind, gets.
  rewrite bool_decide_true by done. simpl.
  destruct (mark_of FOR s) as [m |] eqn:Hm.
  - destruct (on_data settings FOR) as [cb |] eqn:Hcb; simpl.
    + rewrite (st_data FOR cb _ _ _ Hcb). simpl. rewrite decide_True by done.
      exists (HttpParser.set_state (p_state s) (parser s)). split; [by right |].
      by destruct s, FOR.
    + exists (parser s). split; [by left |]. by destruct s, FOR.
  - exists (parser s). split; [by left |]. destruct s, FOR; simpl in *; by rewrite Hm.
Qed.
End streaming.

#[global] Arguments deliver {U} settings {_}.
#[global] Arguments notified {U} settings {_}.
#[global] Arguments flush {U} settings {_}.
