(* ===== verification/HttpLockstep.v ===== *)
(** * HttpLockstep: the same byte read from two buffers

    [rwp] relates two executions of a piece of the body of [http_parser_execute], on
    two buffers; [switch_rel] shows that the cases without an inner loop over the
    buffer go in lockstep when they read the same byte, whatever the position. *)

From S2P Require Import Prelude.
From S2P Require Import HttpTables.
From S2P Require Import HttpUrl.
From S2P Require Import HttpParser.
From S2P Require Import HttpMonad.
From S2P Require Import HttpExec.
From S2P Require Import HttpWp.
From S2P Require Import HttpInvariant.
From S2P Require Import HttpSafety.
From S2P Require Import HttpBody.
From S2P Require Import HttpStream.
Local Open Scope Z_scope.

(** The mark that is set at the entry of [http_parser_execute]. *)
Definition entry_pend (st : state) : option data_for :=
  match st with
  | s_header_field => Some for_header_field
  | s_header_value => Some for_header_value
  | s_res_status => Some for_status
  | st => if url_state st then Some for_url else None
  end.

(** The cases with a loop over the buffer. *)
Definition loop_state (st : state) : bool :=
  match st with
  | s_header_field | s_header_value | s_body_identity | s_body_identity_eof
  | s_chunk_data => true
  | _ => false
  end.

(** The only mark that is set. *)
Definition shape {U} (o : option data_for) (s : frame U) : Prop :=
  forall FOR, is_Some (mark_of FOR s) <-> o = Some FOR.

(** Every mark is at most [p]. *)
Definition marks_le {U} (s : frame U) : Prop :=
  forall FOR m, mark_of FOR s = Some m -> (m <= pos s)%nat.

Section rwp.
Context {U : Type} (i j : nat).

(** Two returns: the same error number, and if there is none both consumed the byte
    and left the same. *)
Definition stop_rel (n1 : nat) (s1 : frame U) (n2 : nat) (s2 : frame U) : Prop :=
  hp_http_errno (parser s1) = hp_http_errno (parser s2) /\
  (hp_http_errno (parser s1) = HPE_OK ->
   n1 = S i /\ n2 = S j /\ parser s1 = parser s2 /\ user s1 = user s2).

Definition rwp {A} (m1 m2 : M U A) (Q : A -> frame U -> A -> frame U -> Prop)
    (s1 s2 : frame U) : Prop :=
  match m1 s1, m2 s2 with
  | Next a1 s1', Next a2 s2' => Q a1 s1' a2 s2'
  | Return n1 s1', Return n2 s2' => stop_rel n1 s1' n2 s2'
  | Goto_error _, Goto_error _ | Fault _, Fault _ => True
  | _, _ => False
  end.
#[local] Arguments rwp : simpl never.

Implicit Types s : frame U.

Lemma rwp_mono {A} (m1 m2 : M U A) (Q Q' : A -> frame U -> A -> frame U -> Prop) s1 s2 :
  rwp m1 m2 Q s1 s2 -> (forall a s1' b s2', Q a s1' b s2' -> Q' a s1' b s2') ->
  rwp m1 m2 Q' s1 s2.
Proof. unfold rwp. destruct (m1 s1), (m2 s2); auto. Qed.

Lemma rwp_ret {A} (a b : A) Q s1 s2 : Q a s1 b s2 -> rwp (mret a) (mret b) Q s1 s2.
Proof. done. Qed.

Lemma rwp_bind {A B} (m1 m2 : M U A) (f g : A -> M U B) Q s1 s2 :
  rwp m1 m2 (fun a s1' b s2' => rwp (f a) (g b) Q s1' s2') s1 s2 ->
  rwp (m1 ≫= f) (m2 ≫= g) Q s1 s2.
Proof. unfold rwp, mbind, M_bind. by destruct (m1 s1), (m2 s2). Qed.

Lemma rwp_gets {A} (f g : frame U -> A) Q s1 s2 :
  Q (f s1) s1 (g s2) s2 -> rwp (gets f) (gets g) Q s1 s2.
Proof. done. Qed.

Lemma rwp_modify f g Q s1 s2 : Q tt (f s1) tt (g s2) -> rwp (modify f) (modify g) Q s1 s2.
Proof. done. Qed.

Lemma rwp_modify_parser f g Q s1 s2 :
  Q tt (with_parser (f (parser s1)) s1) tt (with_parser (g (parser s2)) s2) ->
  rwp (modify_parser f) (modify_parser g) Q s1 s2.
Proof. done. Qed.

Lemma rwp_UPDATE_STATE v w Q s1 s2 :
  Q tt (with_p_state v s1) tt (with_p_state w s2) ->
  rwp (UPDATE_STATE v) (UPDATE_STATE w) Q s1 s2.
Proof. done. Qed.

Lemma rwp_fail {A} e Q s1 s2 : rwp (A:=A) (fail e) (fail e) Q s1 s2.
Proof. done. Qed.

Lemma rwp_fault {A} e Q s1 s2 : rwp (A:=A) (fault_with e) (fault_with e) Q s1 s2.
Proof. done. Qed.

Lemma rwp_if {A} (b1 b2 : bool) (m1 m1' m2 m2' : M U A) Q s1 s2 :
  b1 = b2 -> (b1 = true -> rwp m1 m2 Q s1 s2) -> (b1 = false -> rwp m1' m2' Q s1 s2) ->
  rwp (if b1 then m1 else m1') (if b2 then m2 else m2') Q s1 s2.
Proof. intros <-. destruct b1; auto. Qed.

Lemma rwp_decide {A} (P : Prop) `{Decision P} (m1 m1' m2 m2' : M U A) Q s1 s2 :
  (P -> rwp m1 m2 Q s1 s2) -> (~ P -> rwp m1' m2' Q s1 s2) ->
  rwp (if decide P then m1 else m1') (if decide P then m2 else m2') Q s1 s2.
Proof. destruct (decide P); auto. Qed.

Lemma rwp_assert b1 b2 Q s1 s2 :
  b1 = b2 -> (b1 = true -> Q tt s1 tt s2) -> rwp (assert_ b1) (assert_ b2) Q s1 s2.
Proof. intros <-. destruct b1; [by intros H; apply H | done]. Qed.

Lemma rwp_STRICT_CHECK b1 b2 Q s1 s2 :
  b1 = b2 -> (b1 = false -> Q tt s1 tt s2) -> rwp (STRICT_CHECK b1) (STRICT_CHECK b2) Q s1 s2.
Proof. intros <-. destruct b1; [done |]. by intros H; apply H. Qed.

Lemma rwp_SET_ERRNO e Q s1 s2 :
  Q tt (with_parser (set_http_errno e (HttpParser.set_nread (nread s1) (parser s1))) s1)
    tt (with_parser (set_http_errno e (HttpParser.set_nread (nread s2) (parser s2))) s2) ->
  rwp (SET_ERRNO e) (SET_ERRNO e) Q s1 s2.
Proof. done. Qed.

Lemma rwp_COUNT mx V W Q s1 s2 :
  u32 (nread s1 + u32 V) = u32 (nread s2 + u32 W) ->
  (u32 (nread s1 + u32 V) <= mx ->
   Q tt (with_nread (u32 (nread s1 + u32 V)) s1) tt (with_nread (u32 (nread s1 + u32 V)) s2)) ->
  rwp (COUNT_HEADER_SIZE mx V) (COUNT_HEADER_SIZE mx W) Q s1 s2.
Proof.
  intros Heq HQ. unfold rwp, COUNT_HEADER_SIZE, mbind, M_bind, modify, gets. simpl.
  rewrite <- Heq. destruct (Z.ltb_spec mx (u32 (nread s1 + u32 V))); [done | by apply HQ].
Qed.

Lemma rwp_RETURN {A} n1 n2 Q s1 s2 :
  stop_rel n1 (with_parser (HttpParser.set_state (p_state s1)
                 (HttpParser.set_nread (nread s1) (parser s1))) s1)
           n2 (with_parser (HttpParser.set_state (p_state s2)
                 (HttpParser.set_nread (nread s2) (parser s2))) s2) ->
  rwp (A:=A) (RETURN n1) (RETURN n2) Q s1 s2.
Proof. done. Qed.
End rwp.

#[global] Arguments rwp : simpl never.

Section callbacks.
Context {U : Type} (settings : http_parser_settings U) `{!Streaming settings} (i j : nat).
Implicit Types s : frame U.

Lemma state_stored_set s p' :
  state_stored s p' -> exists x, p' = HttpParser.set_state x (parser s).
Proof.
  intros [-> | ->]; [| by eexists].
  exists (hp_state (parser s)). by destruct (parser s).
Qed.

Lemma rwp_NOTIFY FOR E1 E2 Q s1 s2 :
  hp_http_errno (parser s1) = HPE_OK -> hp_http_errno (parser s2) = HPE_OK ->
  erase (parser s1) = erase (parser s2) -> user s1 = user s2 ->
  (forall x1 x2 u,
     Q tt (with_user u (with_parser (HttpParser.set_state x1 (parser s1)) s1))
       tt (with_user u (with_parser (HttpParser.set_state x2 (parser s2)) s2))) ->
  rwp i j (CALLBACK_NOTIFY_ settings FOR E1) (CALLBACK_NOTIFY_ settings FOR E2) Q s1 s2.
Proof.
  intros H1 H2 He Hu HQ. unfold rwp.
  destruct (CALLBACK_NOTIFY_eq settings FOR E1 s1 H1) as (p1 & Hp1 & ->).
  destruct (CALLBACK_NOTIFY_eq settings FOR E2 s2 H2) as (p2 & Hp2 & ->).
  apply state_stored_set in Hp1 as [x1 ->]. apply state_stored_set in Hp2 as [x2 ->].
  unfold notified. rewrite He, Hu. apply HQ.
Qed.

Lemma rwp_DATA d1 d2 FOR L1 L2 E1 E2 Q s1 s2 :
  hp_http_errno (parser s1) = HPE_OK -> hp_http_errno (parser s2) = HPE_OK ->
  match mark_of FOR s1 with
  | Some m => deliver settings FOR (take (L1 m) (drop m d1)) (user s1)
  | None => user s1
  end
  = match mark_of FOR s2 with
    | Some m => deliver settings FOR (take (L2 m) (drop m d2)) (user s2)
    | None => user s2
    end ->
  (forall x1 x2 u,
     Q tt (with_mark FOR None (with_user u
             (with_parser (HttpParser.set_state x1 (parser s1)) s1)))
       tt (with_mark FOR None (with_user u
             (with_parser (HttpParser.set_state x2 (parser s2)) s2)))) ->
  rwp i j (CALLBACK_DATA_ settings d1 FOR L1 E1) (CALLBACK_DATA_ settings d2 FOR L2 E2) Q s1 s2.
Proof.
  intros H1 H2 He HQ. unfold rwp.
  destruct (CALLBACK_DATA_eq settings d1 FOR L1 E1 s1 H1) as (p1 & Hp1 & ->).
  destruct (CALLBACK_DATA_eq settings d2 FOR L2 E2 s2 H2) as (p2 & Hp2 & ->).
  apply state_stored_set in Hp1 as [x1 ->]. apply state_stored_set in Hp2 as [x2 ->].
  rewrite He. apply HQ.
Qed.

(** The callback at the end of the headers: the same result on both sides. *)
Lemma rwp_headers_complete Q s1 s2 :
  hp_http_errno (parser s1) = HPE_OK -> hp_http_errno (parser s2) = HPE_OK ->
  erase (parser s1) = erase (parser s2) -> user s1 = user s2 ->
  (forall u f, f = id \/ f = (fun p => add_flag F_SKIPBODY (set_upgrade true p))
               \/ f = add_flag F_SKIPBODY ->
     Q tt (with_user u (with_parser (f (parser s1)) s1))
       tt (with_user u (with_parser (f (parser s2)) s2))) ->
  rwp i j (call_headers_complete settings) (call_headers_complete settings) Q s1 s2.
Proof.
  intros H1 H2 He Hu HQ. unfold call_headers_complete.
  destruct (on_headers_complete settings) as [cb |] eqn:Hcb.
  2: { apply rwp_ret. specialize (HQ (user s1) id (or_introl eq_refl)).
       rewrite Hu in HQ at 2. by destruct s1, s2. }
  apply rwp_bind, rwp_gets. simpl.
  rewrite (st_headers cb _ (user s1) Hcb), (st_headers cb _ (user s2) Hcb).
  rewrite <- He, <- Hu. destruct (headers_effect (erase (parser s1)) (user s1)) as [rc u]. simpl.
  apply rwp_bind, rwp_modify.
  apply rwp_if; [done | intros _; apply rwp_ret, (HQ u id); auto | intros _].
  apply rwp_if; [done | intros _ | intros _].
  { apply rwp_bind, rwp_modify_parser, rwp_modify_parser. simpl.
    apply (HQ u (fun p => add_flag F_SKIPBODY (set_upgrade true p))); auto. }
  apply rwp_if; [done | intros _ | intros _].
  { apply rwp_modify_parser, (HQ u (add_flag F_SKIPBODY)); auto. }
  apply rwp_bind, rwp_SET_ERRNO, rwp_bind, rwp_gets, rwp_RETURN. by split.
Qed.
End callbacks.

(** ** Lockstep *)

Section sim.
Context {U : Type} (settings : http_parser_settings U) `{!Streaming settings}.
Context (d1 d2 : list Byte.byte) (i j : nat) (lenient acl : bool).

(** Two frames that stand for the same point of the input. *)
Record sim (o1 o2 : option data_for) (s1 s2 : frame U) : Prop := {
  sim_pos1 : pos s1 = i;
  sim_pos2 : pos s2 = j;
  sim_ch : ch s1 = ch s2;
  sim_state : p_state s1 = p_state s2;
  sim_nread : nread s1 = nread s2;
  sim_parser : erase (parser s1) = erase (parser s2);
  sim_errno : hp_http_errno (parser s1) = HPE_OK;
  sim_lenient : hp_lenient_http_headers (parser s1) = lenient;
  sim_acl : hp_allow_chunked_length (parser s1) = acl;
  sim_shape1 : shape o1 s1;
  sim_shape2 : shape o2 s2;
  sim_le1 : marks_le s1;
  sim_le2 : marks_le s2;
  sim_flush : flush settings d1 s1 = flush settings d2 s2
}.

(** The marks with which a case may begin: the second frame is that of a new call. *)
Definition pend_ok (st : state) (o1 o2 : option data_for) : Prop :=
  o2 = entry_pend st /\ (o1 = o2 \/ (o1 = Some for_body /\ marked_in for_body st = true)).

(** ... and with which the processing of a byte may end. *)
Definition done_ok (st : state) (o : option data_for) : Prop :=
  o = entry_pend st \/ (o = Some for_body /\ marked_in for_body st = true).

Definition in_step (c1 : ctl) (s1 : frame U) (c2 : ctl) (s2 : frame U) : Prop :=
  c1 = c2 /\ exists o1 o2, sim o1 o2 s1 s2 /\
    match c1 with
    | Break => o1 = o2 /\ done_ok (p_state s1) o1
    | Reexecute => pend_ok (p_state s1) o1 o2 /\ loop_state (p_state s1) = false
    end.

Definition case_rel (st : state) (m1 m2 : M U ctl) : Prop :=
  forall s1 s2 o1 o2, sim o1 o2 s1 s2 -> p_state s1 = st -> pend_ok st o1 o2 ->
  rwp i j m1 m2 in_step s1 s2.
End sim.

#[global] Arguments flush {U} settings {_} data s : simpl never.

(** The marks of a frame of which [shape o] is known, [o] concrete. *)
Ltac fix_mark H m :=
  destruct m as [?m |];
  [ try (exfalso; pose proof (proj1 H (ex_intro _ _ eq_refl)); discriminate)
  | try (exfalso; destruct (proj2 H eq_refl); discriminate) ]; clear H.
Ltac fix_marks H m1 m2 m3 m4 m5 :=
  let H1 := fresh in let H2 := fresh in let H3 := fresh in let H4 := fresh in
  let H5 := fresh in
  pose proof (H for_header_field) as H1; pose proof (H for_header_value) as H2;
  pose proof (H for_url) as H3; pose proof (H for_body) as H4;
  pose proof (H for_status) as H5; cbn [mark_of header_field_mark header_value_mark
    url_mark body_mark status_mark] in H1, H2, H3, H4, H5;
  fix_mark H1 m1; fix_mark H2 m2; fix_mark H3 m3; fix_mark H4 m4; fix_mark H5 m5; clear H.

(** Reduce the operations on frames and parsers. *)
Ltac lock_cbn :=
  cbn [with_pos with_ch with_p_state with_nread with_header_field_mark
       with_header_value_mark with_url_mark with_body_mark with_status_mark with_parser
       with_user pos ch p_state nread header_field_mark header_value_mark url_mark
       body_mark status_mark parser user mark_of with_mark
       set_type set_flags HttpParser.set_state set_header_state set_index
       set_uses_transfer_encoding HttpParser.set_nread set_content_length set_http_major
       set_http_minor set_status_code set_method set_http_errno set_upgrade add_flag
       hp_type hp_flags hp_state hp_header_state hp_index hp_uses_transfer_encoding
       hp_allow_chunked_length hp_lenient_http_headers hp_nread hp_content_length
       hp_http_major hp_http_minor hp_status_code hp_method hp_http_errno hp_upgrade].

Ltac lock_step :=
  lazymatch goal with
  | |- rwp _ _ (mret _) (mret _) _ _ _ => apply rwp_ret
  | |- rwp _ _ (mbind _ _) (mbind _ _) _ _ _ => apply rwp_bind
  | |- rwp _ _ (gets _) (gets _) _ _ _ => apply rwp_gets
  | |- rwp _ _ (modify _) (modify _) _ _ _ => apply rwp_modify
  | |- rwp _ _ (modify_parser _) (modify_parser _) _ _ _ => apply rwp_modify_parser
  | |- rwp _ _ (UPDATE_STATE (if ?b then _ else _)) _ _ _ _ => destruct b
  | |- rwp _ _ (UPDATE_STATE _) (UPDATE_STATE _) _ _ _ => apply rwp_UPDATE_STATE
  | |- rwp _ _ (fail _) (fail _) _ _ _ => apply rwp_fail
  | |- rwp _ _ (fault_with _) (fault_with _) _ _ _ => apply rwp_fault
  | |- rwp _ _ (assert_ _) (assert_ _) _ _ _ => apply rwp_assert; [reflexivity | intros ?]
  | |- rwp _ _ (STRICT_CHECK _) (STRICT_CHECK _) _ _ _ =>
      apply rwp_STRICT_CHECK; [reflexivity | intros ?]
  | |- rwp _ _ (SET_ERRNO _) (SET_ERRNO _) _ _ _ => apply rwp_SET_ERRNO
  | |- rwp _ _ (RETURN _) (RETURN _) _ _ _ =>
      apply rwp_RETURN; (split; [reflexivity |]);
      try discriminate; intros _;
      split_and!; try reflexivity; try (rewrite Nat.add_1_r; reflexivity)
  | |- rwp _ _ (if decide _ then _ else _) (if decide _ then _ else _) _ _ _ =>
      apply rwp_decide; intros ?; try congruence
  | |- rwp _ _ (if _ then _ else _) (if _ then _ else _) _ _ _ =>
      apply rwp_if; [reflexivity | intros ? | intros ?]
  | |- rwp _ _ (CALLBACK_NOTIFY _ _) (CALLBACK_NOTIFY _ _) _ _ _ => unfold CALLBACK_NOTIFY
  | |- rwp _ _ (CALLBACK_NOTIFY_NOADVANCE _ _) (CALLBACK_NOTIFY_NOADVANCE _ _) _ _ _ =>
      unfold CALLBACK_NOTIFY_NOADVANCE
  | |- rwp _ _ (CALLBACK_NOTIFY_ _ _ _) (CALLBACK_NOTIFY_ _ _ _) _ _ _ =>
      lazymatch goal with HS : Streaming _ |- _ => apply (@rwp_NOTIFY _ _ HS) end; [reflexivity | reflexivity | reflexivity | reflexivity || assumption
                        | intros ? ? ?]
  | |- rwp _ _ (CALLBACK_DATA _ _ _) (CALLBACK_DATA _ _ _) _ _ _ => unfold CALLBACK_DATA
  | |- rwp _ _ (CALLBACK_DATA_NOADVANCE _ _ _) (CALLBACK_DATA_NOADVANCE _ _ _) _ _ _ =>
      unfold CALLBACK_DATA_NOADVANCE
  | |- rwp _ _ (CALLBACK_DATA_ _ _ _ _ _) (CALLBACK_DATA_ _ _ _ _ _) _ _ _ =>
      lazymatch goal with HS : Streaming _ |- _ => apply (@rwp_DATA _ _ HS) end;
      [reflexivity | reflexivity
      | lock_cbn; rewrite ?Nat.sub_diag, ?take_0, ?deliver_nil; reflexivity || assumption
      | intros ? ? ?]
  | |- rwp _ _ (call_headers_complete _) (call_headers_complete _) _ _ _ =>
      lazymatch goal with HS : Streaming _ |- _ => apply (@rwp_headers_complete _ _ HS) end;
      [reflexivity | reflexivity | reflexivity | reflexivity || assumption | intros ? ? [-> | [-> | ->]]; unfold id]
  | |- rwp _ _ (MARK _) (MARK _) _ _ _ => unfold MARK
  | |- rwp _ _ (match ?x with _ => _ end) (match ?x with _ => _ end) _ _ _ =>
      destruct x eqn:?
  end; cbv beta; lock_cbn.

Lemma entry_pend_plain st : plain st = true -> entry_pend st = None.
Proof. by destruct st. Qed.
Lemma entry_pend_url st : url_state st = true -> entry_pend st = Some for_url.
Proof. by destruct st. Qed.
Lemma entry_pend_parse_url_char st c :
  parse_url_char st c <> s_dead -> entry_pend (parse_url_char st c) = Some for_url.
Proof.
  intros Hd. apply entry_pend_url. by destruct (parse_url_char_states st c) as [? | ?].
Qed.
Lemma entry_pend_NEW_MESSAGE p : entry_pend (NEW_MESSAGE p) = None.
Proof. apply entry_pend_plain, NEW_MESSAGE_plain. Qed.

Ltac lock_cbn_in H :=
  cbn [mark_of pos header_field_mark header_value_mark url_mark body_mark status_mark user]
    in H.

(** The bound of the marks that are set. *)
Ltac bound_marks H :=
  try pose proof (H for_header_field _ eq_refl); try pose proof (H for_header_value _ eq_refl);
  try pose proof (H for_url _ eq_refl); try pose proof (H for_body _ eq_refl);
  try pose proof (H for_status _ eq_refl); cbn [pos] in *; clear H.

(** Take two related frames apart: the parsers differ in the two erased fields. *)
Ltac lock_start :=
  let Hsim := fresh "Hsim" in let Hst := fresh "Hst" in
  let Hp2 := fresh "Hp2" in let Hp1 := fresh "Hp1" in
  intros [i1 c1 ps1 n1 hf1 hv1 um1 bm1 sm1 [ty fl st1 hs ix ute acl' len' nr1 cl ma mi sc me er up] u1]
         [i2 c2 ps2 n2 hf2 hv2 um2 bm2 sm2 [? ? st2 ? ? ? ? ? nr2 ? ? ? ? ? ? ?] u2] o1 o2 Hsim Hst [Hp2 Hp1];
  destruct Hsim as [Hpos1 Hpos2 Hch Hps Hn Hpar Herr Hlen Hacl Hsh1 Hsh2 Hle1 Hle2 Hfl];
  cbn [pos ch p_state nread parser hp_http_errno hp_lenient_http_headers
       hp_allow_chunked_length user]
    in Hpos1, Hpos2, Hch, Hps, Hn, Hpar, Herr, Hlen, Hacl, Hst;
  unfold erase in Hpar;
  cbn [HttpParser.set_state HttpParser.set_nread hp_type hp_flags hp_state hp_header_state
       hp_index hp_uses_transfer_encoding hp_allow_chunked_length hp_lenient_http_headers
       hp_nread hp_content_length hp_http_major hp_http_minor hp_status_code hp_method
       hp_http_errno hp_upgrade] in Hpar;
  injection Hpar as <- <- <- <- <- <- <- <- <- <- <- <- <- <-;
  subst; cbn [entry_pend url_state] in *;
  let Hb := fresh "Hb" in
  destruct Hp1 as [-> | [-> Hb]]; [| try discriminate Hb];
  fix_marks Hsh1 hf1 hv1 um1 bm1 sm1; fix_marks Hsh2 hf2 hv2 um2 bm2 sm2;
  bound_marks Hle1; bound_marks Hle2;
  unfold flush, pending in Hfl; lock_cbn_in Hfl; rewrite ?deliver_nil in Hfl;
  try subst.

(** The relation between two frames that have been taken apart. *)
Ltac solve_shape :=
  let F := fresh in intros F; destruct F; lock_cbn; split; let Hx := fresh in intros Hx;
  first [discriminate Hx | by destruct Hx | reflexivity | by eexists].
Ltac solve_le :=
  let F := fresh in intros F; destruct F; lock_cbn; intros ? [=]; subst; lia.
Ltac solve_sim :=
  split; lock_cbn;
  [ reflexivity | reflexivity | reflexivity | reflexivity | reflexivity | reflexivity
  | reflexivity | reflexivity | reflexivity | solve_shape | solve_shape | solve_le | solve_le
  | unfold flush, pending; lock_cbn; rewrite ?Nat.sub_diag, ?take_0, ?deliver_nil;
    reflexivity || assumption ].
Ltac solve_pend :=
  lock_cbn;
  first
    [ split; [reflexivity |]; left; symmetry;
      first [ reflexivity | apply entry_pend_NEW_MESSAGE
            | apply entry_pend_parse_url_char; assumption ]
    | split; [reflexivity |]; right; split; reflexivity
    | split; [split; [reflexivity | left; reflexivity] | reflexivity] ].
Ltac lock_done :=
  lazymatch goal with |- in_step _ _ _ _ _ _ _ _ _ _ _ => idtac end;
  split; [reflexivity |];
  first
    [ exists None, None; split; [solve_sim | solve_pend]
    | exists (Some for_url), (Some for_url); split; [solve_sim | solve_pend]
    | exists (Some for_header_field), (Some for_header_field); split; [solve_sim | solve_pend]
    | exists (Some for_header_value), (Some for_header_value); split; [solve_sim | solve_pend]
    | exists (Some for_status), (Some for_status); split; [solve_sim | solve_pend]
    | exists (Some for_body), (Some for_body); split; [solve_sim | solve_pend] ].
Ltac lockstep := lock_start; repeat lock_step; try lock_done.
Section cases.
Context {U : Type} (settings : http_parser_settings U) `{!Streaming settings}.
Context (d1 d2 : list Byte.byte) (i j : nat) (mx : Z) (lenient acl : bool).
Abbreviation case_rel := (HttpLockstep.case_rel settings d1 d2 i j lenient acl).
Abbreviation sw d := (switch settings d mx lenient acl).

Lemma switch_rel st : loop_state st = false -> case_rel st (sw d1 st) (sw d2 st).
Proof.
  intros Hl. destruct st; try discriminate Hl; clear Hl; cbn [switch].
  all: unfold case_s_dead, case_s_start_req_or_res, case_s_res_or_resp_H, case_s_start_res,
    case_expect, case_version_digit, case_version_char, case_s_res_first_status_code,
    case_s_res_status_code, case_s_res_status_start, case_s_res_status, case_s_start_req,
    case_s_req_method, case_s_req_spaces_before_url, case_url_no_space, case_url,
    case_s_req_http_start, case_s_req_http_end, case_s_req_line_almost_done,
    case_s_header_field_start, case_s_header_value_discard_ws, case_s_header_value_start,
    case_s_header_almost_done, case_s_header_value_lws, case_s_header_value_discard_lws,
    case_s_headers_almost_done, case_s_headers_done, case_s_message_done,
    case_s_chunk_size_start, case_s_chunk_size, case_s_chunk_parameters,
    case_s_chunk_size_almost_done, case_s_chunk_data_almost_done, case_s_chunk_data_done,
    reset_message, url_step, incr_index, set_hs, flag_header_value, message_complete,
    reset_nread, assert_chunked.
  all: lockstep.
Qed.

(** The whole of [goto reexecute], from a state without a loop. *)
Lemma reexecute_rel fuel s1 s2 o1 o2 :
  sim settings d1 d2 i j lenient acl o1 o2 s1 s2 -> pend_ok (p_state s1) o1 o2 ->
  loop_state (p_state s1) = false ->
  rwp i j (reexecute settings d1 mx lenient acl fuel) (reexecute settings d2 mx lenient acl fuel)
    (fun _ s1' _ s2' => exists o,
       sim settings d1 d2 i j lenient acl o o s1' s2' /\ done_ok (p_state s1') o) s1 s2.
Proof.
  revert s1 s2 o1 o2. induction fuel as [| fuel IH]; intros s1 s2 o1 o2 Hsim Hpend Hloop; [done |].
  simpl. apply rwp_bind, rwp_gets, rwp_bind.
  rewrite <- (sim_state _ _ _ _ _ _ _ _ _ _ _ Hsim).
  eapply rwp_mono; [by eapply (switch_rel (p_state s1) Hloop _ _ o1 o2) |].
  intros c1 s1' c2 s2' (<- & o1' & o2' & Hsim' & Hc). destruct c1.
  - destruct Hc as [<- Hdone]. apply rwp_ret. eauto.
  - destruct Hc as [Hpend' Hloop']. by eapply IH.
Qed.
End cases.
