(* ===== verification/HttpSplit.v ===== *)
(** * HttpSplit: a buffer and the sequence of its bytes

    [run] feeds a buffer to the parser byte by byte.  [main_loop_run] shows that
    one call of [http_parser_execute] on the whole buffer does the same to a
    streaming application: the inner loops over header names, header values and
    bodies are optimisations of the byte-by-byte parser. *)

From S2P Require Import Prelude.
From S2P Require Import HttpTables.
From S2P Require Import HttpUrl.
From S2P Require Import HttpParser.
From S2P Require Import HttpMonad.
From S2P Require Import HttpExec.
From S2P Require Import HttpWp.
From S2P Require Import HttpInvariant.
From S2P Require Import HttpSafety.
From S2P Require Import HttpHeaders.
From S2P Require Import HttpBody.
From S2P Require Import HttpLoop.
From S2P Require Import HttpStream.
From S2P Require Import HttpLockstep.
Local Open Scope Z_scope.

(** One turn of the main loop, up to [p++]. *)
Definition turn {U} (settings : http_parser_settings U) (data : list Byte.byte) (mx : Z)
    (lenient acl : bool) : M U unit :=
  load_ch data;;
  st ← gets p_state;
  (if PARSING_HEADER st then COUNT_HEADER_SIZE mx 1 else mret tt);;
  reexecute settings data mx lenient acl reexecute_fuel.

(** What follows the main loop. *)
Definition epilogue {U} (settings : http_parser_settings U) (data : list Byte.byte)
    (n : nat) : M U Empty_set :=
  leftover_marks settings data;; RETURN n.

(** What a call on a single byte leaves: whether the parser stopped for an upgrade,
    the parser and the application; [None] for an error. *)
Definition settle {U} (settings : http_parser_settings U) (b : Byte.byte)
    (r : result U unit) : option (bool * http_parser * U) :=
  match r with
  | Next _ s =>
      match epilogue settings [b] 1 (with_pos 1 s) with
      | Return _ s' => Some (false, parser s', user s')
      | _ => None
      end
  | Return _ s =>
      if decide (hp_http_errno (parser s) = HPE_OK) then Some (true, parser s, user s) else None
  | _ => None
  end.

(** One byte as a buffer of its own. *)
Definition one {U} (settings : http_parser_settings U) (mx : Z) (lenient acl : bool)
    (b : Byte.byte) (p : http_parser) (u : U) : option (bool * http_parser * U) :=
  settle settings b
    (turn settings [b] mx lenient acl (entry_marks (hp_state p) (initial_frame p u))).

(** A sequence of bytes: how many were consumed and whether the parser stopped. *)
Fixpoint run {U} (settings : http_parser_settings U) (mx : Z) (lenient acl : bool)
    (l : list Byte.byte) (p : http_parser) (u : U)
    : option (nat * bool * http_parser * U) :=
  match l with
  | [] => Some (0%nat, false, p, u)
  | b :: l' =>
      match one settings mx lenient acl b p u with
      | None => None
      | Some (true, p', u') => Some (1%nat, true, p', u')
      | Some (false, p', u') =>
          match run settings mx lenient acl l' p' u' with
          | None => None
          | Some (n, stop, p'', u'') => Some (S n, stop, p'', u'')
          end
      end
  end.

(** [k] more bytes were consumed before. *)
Definition shift {U} (k : nat) (r : option (nat * bool * http_parser * U)) :=
  match r with
  | None => None
  | Some (n, stop, p, u) => Some ((k + n)%nat, stop, p, u)
  end.

(** An outcome of a call and the result of the bytes. *)
Definition agree {U} (o : outcome U) (r : option (nat * bool * http_parser * U)) : Prop :=
  match r with
  | Some (n, _, p, u) => o = Returned n p u /\ hp_http_errno p = HPE_OK
  | None => match o with Returned _ p _ => hp_http_errno p <> HPE_OK | Faulty _ => True end
  end.

Section split.
Context {U : Type} (settings : http_parser_settings U) `{!Streaming settings}.
Context (data : list Byte.byte) (mx : Z) (lenient acl : bool).
Abbreviation len := (length data).
Abbreviation one := (one settings mx lenient acl).
Abbreviation run := (run settings mx lenient acl).
Abbreviation turn := (turn settings data mx lenient acl).
Abbreviation main_loop := (main_loop settings data mx lenient acl).
Abbreviation flush := (flush settings).
Abbreviation settle := (settle settings).
Implicit Types s : frame U.

Lemma shift_0 (r : option (nat * bool * http_parser * U)) : shift 0 r = r.
Proof. by destruct r as [[[[]]]|]. Qed.
Lemma shift_shift k k' (r : option (nat * bool * http_parser * U)) :
  shift k (shift k' r) = shift (k + k') r.
Proof. destruct r as [[[[n st] p] u]|]; simpl; [| done]. by rewrite Nat.add_assoc. Qed.

Lemma run_cons b l p u p' u' :
  one b p u = Some (false, p', u') -> run (b :: l) p u = shift 1 (run l p' u').
Proof. simpl. intros ->. by destruct (run l p' u') as [[[[]]]|]. Qed.

Lemma run_fail b l p u : one b p u = None -> run (b :: l) p u = None.
Proof. simpl. by intros ->. Qed.

(** The main loop by turns. *)
Lemma main_loop_turn fuel s :
  (pos s < len)%nat ->
  main_loop (S fuel) s =
  match turn s with
  | Next _ s' => main_loop fuel (with_pos (pos s' + 1) s')
  | Return n s' => Return n s'
  | Goto_error s' => Goto_error s'
  | Fault f => Fault f
  end.
Proof.
  intros Hlt. cbn [HttpExec.main_loop].
  unfold HttpSplit.turn, mbind, M_bind, mret, M_ret, gets, modify.
  destruct (Nat.eqb_spec (pos s) len); [lia |].
  destruct (load_ch data s) as [[] s0 | | |]; try done.
  destruct (PARSING_HEADER (p_state s0));
    [destruct (COUNT_HEADER_SIZE mx 1 s0) as [[] s1 | | |]; try done |];
    by match goal with |- context [HttpExec.reexecute ?a ?b ?c ?d ?e ?f ?x] =>
         destruct (HttpExec.reexecute a b c d e f x) end.
Qed.

(** ** The boundary between two bytes *)

(** A frame of the call on the whole buffer, between two bytes, and the parser and
    application of the byte-by-byte run at the same point; but for the count of the
    header bytes. *)
Record boundary (s : frame U) (p : http_parser) (u : U) : Prop := {
  bd_state : hp_state p = p_state s;
  bd_parser : erase (parser s) = erase p;
  bd_errno : hp_http_errno (parser s) = HPE_OK;
  bd_lenient : hp_lenient_http_headers (parser s) = lenient;
  bd_acl : hp_allow_chunked_length (parser s) = acl;
  bd_flush : flush data s = u;
  bd_shape : exists o, shape o s /\ done_ok (p_state s) o;
  bd_le : marks_le s
}.

Lemma shape_unique o o' s : shape o s -> shape o' s -> o = o'.
Proof.
  intros H H'. destruct o as [F |].
  - symmetry. apply H', H. done.
  - destruct o' as [F |]; [| done]. apply H, H'. done.
Qed.

Lemma entry_shape p (u : U) :
  shape (entry_pend (hp_state p)) (entry_marks (hp_state p) (initial_frame p u)).
Proof.
  unfold initial_frame. intros FOR.
  destruct (hp_state p); destruct FOR; simpl; split; intros H;
    first [discriminate H | by destruct H | reflexivity | by eexists].
Qed.

Lemma entry_frame p (u : U) :
  let s := entry_marks (hp_state p) (initial_frame p u) in
  pos s = 0%nat /\ p_state s = hp_state p /\ nread s = hp_nread p /\ parser s = p /\ user s = u.
Proof. unfold initial_frame. by destruct (hp_state p). Qed.

Lemma pending_at d FOR s m : mark_of FOR s = Some m -> pos s = m -> pending d FOR s = [].
Proof. unfold pending. intros -> ->. by rewrite Nat.sub_diag. Qed.

Lemma flush_no_pending d s : (forall FOR, pending d FOR s = []) -> flush d s = user s.
Proof. intros H. unfold HttpStream.flush. rewrite !H. by rewrite !deliver_nil. Qed.

Lemma entry_flush d p (u : U) :
  flush d (entry_marks (hp_state p) (initial_frame p u)) = u.
Proof.
  rewrite flush_no_pending; [by apply entry_frame |]. intros FOR. unfold pending.
  destruct (mark_of FOR _) as [m |] eqn:Hm; [| done].
  unfold initial_frame in *. destruct (hp_state p); destruct FOR; simpl in *;
    first [discriminate Hm | by injection Hm as <-].
Qed.

(** From a boundary the whole call and a new call on the next byte are in step. *)
Lemma boundary_sim s p u n b :
  boundary s p u -> data !! pos s = Some b ->
  exists o, pend_ok (p_state s) o (entry_pend (p_state s)) /\
    sim settings data [b] (pos s) 0 lenient acl o (entry_pend (p_state s))
      (with_nread n (with_ch (uchar b) s))
      (with_nread n (with_ch (uchar b) (entry_marks (hp_state p) (initial_frame p u)))).
Proof.
  intros [Hst Hp He Hlen Hacl Hfl (o & Hsh & Hdone) Hle] Hb.
  destruct (entry_frame p u) as (Hpos & Hst' & Hn & Hp' & Hu).
  exists o. split; [split; [done | exact Hdone] |].
  assert (forall FOR m, mark_of FOR (entry_marks (hp_state p) (initial_frame p u)) = Some m ->
            m = 0%nat) as Hmark0.
  { intros FOR m Hm. unfold initial_frame in Hm.
    destruct (hp_state p); destruct FOR; simpl in Hm; congruence. }
  split; simpl; try done; try congruence.
  - intros FOR. rewrite <- Hst. pose proof (entry_shape p u FOR) as Hs. by destruct FOR.
  - intros FOR m Hm. simpl. enough (m = 0%nat) by lia. apply (Hmark0 FOR). by destruct FOR.
  - rewrite <- Hfl in *. transitivity (flush data s); [by destruct s |].
    rewrite Hfl. symmetry. etransitivity; [| apply (entry_flush [b] p)].
    unfold initial_frame. by destruct (hp_state p).
Qed.


(** ** What the marks still owe *)

Lemma shape_pending o d s FOR : shape o s -> o <> Some FOR -> pending d FOR s = [].
Proof.
  intros Hsh Hne. unfold pending. destruct (mark_of FOR s) as [m |] eqn:Hm; [| done].
  destruct Hne. apply Hsh. by eexists.
Qed.

Lemma flush_shape o d s :
  shape o s ->
  flush d s = match o with
              | None => user s
              | Some FOR => deliver settings FOR (pending d FOR s) (user s)
              end.
Proof.
  intros Hsh. unfold HttpStream.flush.
  destruct o as [[] |]; rewrite ?(shape_pending _ _ _ for_header_field Hsh),
    ?(shape_pending _ _ _ for_header_value Hsh), ?(shape_pending _ _ _ for_url Hsh),
    ?(shape_pending _ _ _ for_body Hsh), ?(shape_pending _ _ _ for_status Hsh),
    ?deliver_nil by done; done.
Qed.

Lemma shape_with_pos o n s : shape o s -> shape o (with_pos n s).
Proof. intros H FOR. specialize (H FOR). by destruct FOR. Qed.

(** One more byte behind the mark. *)
Lemma flush_advance o d s b :
  shape o s -> marks_le s -> d !! pos s = Some b ->
  flush d (with_pos (S (pos s)) s)
  = match o with None => flush d s | Some FOR => deliver settings FOR [b] (flush d s) end.
Proof.
  intros Hsh Hle Hb. rewrite (flush_shape o) by (by apply shape_with_pos).
  rewrite (flush_shape o) by done. destruct o as [FOR |]; [| by destruct s].
  destruct (proj2 (Hsh FOR) eq_refl) as [m Hm]. specialize (Hle FOR m Hm).
  rewrite <- deliver_app. unfold pending. rewrite Hm.
  replace (mark_of FOR (with_pos (S (pos s)) s)) with (Some m) by (by destruct FOR).
  change (pos (with_pos (S (pos s)) s)) with (S (pos s)).
  change (user (with_pos (S (pos s)) s)) with (user s). f_equal.
  replace (S (pos s) - m)%nat with (S (pos s - m)) by lia.
  apply take_S_r. rewrite lookup_drop. by replace (m + (pos s - m))%nat with (pos s) by lia.
Qed.

(** One of the callbacks after the main loop. *)
Lemma leftover_step d FOR s :
  hp_http_errno (parser s) = HPE_OK ->
  exists s', CALLBACK_DATA_NOADVANCE settings d FOR s = Next tt s' /\
    hp_http_errno (parser s') = HPE_OK /\
    user s' = deliver settings FOR (pending d FOR s) (user s) /\
    (exists x, parser s' = HttpParser.set_state x (parser s)) /\
    p_state s' = p_state s /\ nread s' = nread s /\
    (forall F, F <> FOR -> pending d F s' = pending d F s).
Proof.
  intros He. unfold CALLBACK_DATA_NOADVANCE, mbind, M_bind, gets.
  destruct (CALLBACK_DATA_eq settings d FOR (fun m => pos s - m)%nat (pos s) s He)
    as (p' & Hp' & ->).
  apply state_stored_set in Hp' as [x ->]. eexists. split; [reflexivity |].
  replace (match mark_of FOR s with
           | Some m => deliver settings FOR (take (pos s - m) (drop m d)) (user s)
           | None => user s
           end) with (deliver settings FOR (pending d FOR s) (user s))
    by (unfold pending; destruct (mark_of FOR s); [done | by rewrite deliver_nil]).
  destruct FOR; split_and!; try done; try by eexists.
  all: intros []; done.
Qed.

(** The epilogue delivers everything and stores the local variables. *)
Lemma epilogue_eq o d n s :
  hp_http_errno (parser s) = HPE_OK -> shape o s ->
  exists s', epilogue settings d n s = Return n s' /\ user s' = flush d s /\
    parser s' = HttpParser.set_state (p_state s) (HttpParser.set_nread (nread s) (parser s)).
Proof.
  intros He Hsh. unfold epilogue, leftover_marks.
  unfold mbind at 1 2, M_bind at 1 2, gets at 1.
  rewrite mark_count_inj.
  2: { intros F1 F2 H1%Hsh H2%Hsh. congruence. }
  unfold assert_ at 1, mret, M_ret, mbind, M_bind.
  destruct (leftover_step d for_header_field s He)
    as (s1 & -> & He1 & Hu1 & [x1 Hp1] & Hs1 & Hn1 & Hq1).
  destruct (leftover_step d for_header_value s1 He1)
    as (s2 & -> & He2 & Hu2 & [x2 Hp2] & Hs2 & Hn2 & Hq2).
  destruct (leftover_step d for_url s2 He2)
    as (s3 & -> & He3 & Hu3 & [x3 Hp3] & Hs3 & Hn3 & Hq3).
  destruct (leftover_step d for_body s3 He3)
    as (s4 & -> & He4 & Hu4 & [x4 Hp4] & Hs4 & Hn4 & Hq4).
  destruct (leftover_step d for_status s4 He4)
    as (s5 & -> & He5 & Hu5 & [x5 Hp5] & Hs5 & Hn5 & Hq5).
  eexists. split; [reflexivity |]. simpl. split.
  - unfold HttpStream.flush. rewrite Hu5, Hu4, Hu3, Hu2, Hu1.
    by rewrite Hq4, Hq3, Hq2, Hq1, Hq3, Hq2, Hq1, Hq2, Hq1, Hq1 by done.
  - rewrite Hs5, Hs4, Hs3, Hs2, Hs1, Hn5, Hn4, Hn3, Hn2, Hn1, Hp5, Hp4, Hp3, Hp2, Hp1.
    by destruct (parser s).
Qed.

(** ** A turn of the main loop and the bytes it consumes *)

Lemma shape_with_nread o n s : shape o s -> shape o (with_nread n s).
Proof. intros H FOR. specialize (H FOR). by destruct FOR. Qed.

(** Two related frames after a byte: the next boundary. *)
Lemma sim_boundary b i o s1 s2 :
  data !! i = Some b -> sim settings data [b] i 0 lenient acl o o s1 s2 ->
  done_ok (p_state s1) o ->
  exists p' u', settle b (Next tt s2) = Some (false, p', u') /\
    boundary (with_pos (S i) s1) p' u' /\ hp_nread p' = nread s1.
Proof.
  intros Hb [Hp1 Hp2 Hch Hst Hn Hpar Herr Hlen Hacl Hsh1 Hsh2 Hle1 Hle2 Hfl] Hdone.
  assert (hp_http_errno (parser s2) = HPE_OK) as Herr2.
  { rewrite <- Herr. by injection Hpar. }
  destruct (epilogue_eq o [b] 1 (with_pos 1 s2)) as (s' & Hep & Hu & Hp);
    [done | by apply shape_with_pos |].
  eexists _, _. split; [by simpl; rewrite Hep |]. rewrite Hp, Hu. split; [| by simpl].
  assert (flush data (with_pos (S i) s1) = flush [b] (with_pos 1 s2)) as Hfl'.
  { rewrite <- Hp1, (flush_advance o data s1 b) by (done || by rewrite Hp1).
    assert (1%nat = S (pos s2)) as -> by (by rewrite Hp2).
    rewrite (flush_advance o [b] s2 b) by (done || by rewrite Hp2).
    by rewrite Hfl. }
  split; simpl; try done.
  - exists o. split; [by apply shape_with_pos | done].
  - intros FOR m Hm. enough (m <= i)%nat by (simpl; lia). rewrite <- Hp1.
    apply (Hle1 FOR). by destruct FOR.
Qed.

(** The result [r] of a turn that begins at byte [k] with the parser [p] and the
    application [u], and the byte-by-byte parser on the bytes it consumed. *)
Definition turn_rel (k : nat) (p : http_parser) (u : U) (r : result U unit) : Prop :=
  match r with
  | Next _ s' =>
      (k <= S (pos s'))%nat /\
      exists p' u', boundary (with_pos (S (pos s')) s') p' u' /\ hp_nread p' = nread s' /\
        run (drop k data) p u = shift (S (pos s') - k) (run (drop (S (pos s')) data) p' u')
  | Return n s' =>
      if decide (hp_http_errno (parser s') = HPE_OK)
      then (k <= n)%nat /\ run (drop k data) p u = Some ((n - k)%nat, true, parser s', user s')
      else run (drop k data) p u = None
  | Goto_error _ => run (drop k data) p u = None
  | Fault _ => True
  end.

(** [r] ends with an error, or with a fault. *)
Definition stops (r : result U unit) : Prop :=
  match r with
  | Next _ _ => False
  | Return _ s => hp_http_errno (parser s) <> HPE_OK
  | _ => True
  end.

Lemma turn_rel_stops k p u r :
  stops r -> run (drop k data) p u = None -> turn_rel k p u r.
Proof. unfold stops, turn_rel. destruct r; try done. by intros ?; rewrite decide_False. Qed.

(** One byte more in front. *)
Lemma turn_rel_cons k b p u p' u' r :
  data !! k = Some b -> one b p u = Some (false, p', u') -> turn_rel (S k) p' u' r ->
  turn_rel k p u r.
Proof.
  intros Hb Hone Hr.
  assert (run (drop k data) p u = shift 1 (run (drop (S k) data) p' u')) as Hrun
    by (rewrite (drop_S _ _ _ Hb); by apply run_cons).
  unfold turn_rel in *. rewrite Hrun. destruct r as [a s | n s | s |].
  - destruct Hr as (Hle & p'' & u'' & Hbd & Hn & ->). split; [lia |].
    exists p'', u''. split_and!; [done | done |]. rewrite shift_shift. f_equal. lia.
  - case_decide; [| by rewrite Hr]. destruct Hr as [Hle ->]. split; [lia |]. simpl.
    repeat f_equal. lia.
  - by rewrite Hr.
  - done.
Qed.

Lemma boundary_ch s p u n c :
  boundary (with_pos n (with_ch c s)) p u -> boundary (with_pos n s) p u.
Proof. intros []. by constructor. Qed.

(** Two frames of which the first may hold an older byte. *)
Definition next_rel b (i : nat) (_ : unit) s1 (_ : unit) s2 : Prop :=
  exists o c, sim settings data [b] i 0 lenient acl o o (with_ch c s1) s2 /\
    done_ok (p_state s1) o.

(** A byte that ends the turn, in step with the byte-by-byte parser. *)
Lemma turn_rel_last i b p u (m1 m2 : M U unit) s1 s2 :
  data !! i = Some b -> rwp i 0 m1 m2 (next_rel b i) s1 s2 ->
  one b p u = settle b (m2 s2) -> turn_rel i p u (m1 s1).
Proof.
  intros Hb Hrwp Hone. unfold rwp in Hrwp. unfold turn_rel. rewrite (drop_S _ _ _ Hb).
  destruct (m1 s1) as [[] s1' | n1 s1' | s1' |], (m2 s2) as [[] s2' | n2 s2' | s2' |];
    try done.
  - destruct Hrwp as (o & c & Hsim & Hdone).
    destruct (sim_boundary b i o _ s2' Hb Hsim Hdone) as (p' & u' & Hset & Hbd & Hn).
    pose proof (sim_pos1 _ _ _ _ _ _ _ _ _ _ _ Hsim) as Hi. simpl in Hi. rewrite Hi.
    split; [lia |]. exists p', u'.
    split_and!; [by eapply boundary_ch | done |].
    rewrite (run_cons b _ p u p' u') by (by rewrite Hone). f_equal. lia.
  - destruct Hrwp as [He Hok]. simpl in Hone. rewrite <- He in Hone. case_decide as Hd.
    + destruct (Hok Hd) as (-> & -> & Hp & Hu). split; [lia |]. simpl. rewrite Hone, Hp, Hu.
      repeat f_equal. lia.
    + by apply run_fail.
  - by apply run_fail.
Qed.

(** The same in lockstep, with [goto reexecute]. *)
Lemma in_step_next b i c1 s1 c2 s2 fuel :
  in_step settings data [b] i 0 lenient acl c1 s1 c2 s2 ->
  rwp i 0
    (match c1 with
     | Break => mret tt | Reexecute => reexecute settings data mx lenient acl fuel
     end)
    (match c2 with
     | Break => mret tt | Reexecute => reexecute settings [b] mx lenient acl fuel
     end) (next_rel b i) s1 s2.
Proof.
  assert (forall s, with_ch (ch s) s = s) as Hch by (by intros []).
  intros (<- & o1 & o2 & Hsim & Hc). destruct c1.
  - destruct Hc as [<- Hdone]. apply rwp_ret. exists o1, (ch s1). by rewrite Hch.
  - destruct Hc as [Hpend Hloop]. eapply rwp_mono; [by eapply reexecute_rel |].
    intros [] s1' [] s2' (o & Hsim' & Hdone). exists o, (ch s1'). by rewrite Hch.
Qed.

(** The states without a loop over the buffer. *)
Lemma turn_rel_plain s p u :
  boundary s p u -> hp_nread p = nread s -> loop_state (p_state s) = false ->
  (pos s < len)%nat -> turn_rel (pos s) p u (turn s).
Proof.
  intros Hbd Hn Hloop Hpos.
  destruct (lookup_lt_is_Some_2 data (pos s) Hpos) as [b Hb].
  apply (turn_rel_last (pos s) b p u turn (HttpSplit.turn settings [b] mx lenient acl)
           s (entry_marks (hp_state p) (initial_frame p u))); [done | | done].
  destruct (entry_frame p u) as (Hpos2 & Hst2 & Hn2 & _ & _).
  set (s2 := entry_marks (hp_state p) (initial_frame p u)) in *.
  assert (forall n, rwp (pos s) 0
    (reexecute settings data mx lenient acl reexecute_fuel)
    (reexecute settings [b] mx lenient acl reexecute_fuel)
    (next_rel b (pos s))
    (with_nread n (with_ch (uchar b) s)) (with_nread n (with_ch (uchar b) s2))) as Hrex.
  { intros n. destruct (boundary_sim s p u n b Hbd Hb) as (o & Hpend & Hsim).
    eapply (in_step_next b (pos s) Reexecute _ Reexecute).
    split; [done |]. by exists o, (entry_pend (p_state s)). }
  unfold HttpSplit.turn, load_ch. apply rwp_bind, rwp_bind, rwp_gets.
  rewrite Hb, Hpos2. simpl. apply rwp_modify, rwp_bind, rwp_gets. frame_cbn.
  rewrite Hst2, (bd_state _ _ _ Hbd).
  apply rwp_bind. destruct (PARSING_HEADER (p_state s)).
  - apply rwp_COUNT; frame_cbn; [by rewrite Hn2, Hn |]. intros _. apply Hrex.
  - apply rwp_ret. specialize (Hrex (nread s)).
    replace (with_nread (nread s) (with_ch (uchar b) s)) with (with_ch (uchar b) s)
      in Hrex by (by destruct s).
    replace (with_nread (nread s) (with_ch (uchar b) s2)) with (with_ch (uchar b) s2)
      in Hrex by (rewrite <- Hn, <- Hn2; by destruct s2).
    exact Hrex.
Qed.
End split.
