(* ===== verification/HttpSplitLines.v ===== *)
(** * HttpSplitLines: the loops over header names and values, byte by byte *)

From S2P Require Import Prelude.
From S2P Require Import HttpTables.
From S2P Require Import HttpUrl.
From S2P Require Import HttpParser.
From S2P Require Import HttpMonad.
From S2P Require Import HttpExec.
From S2P Require Import HttpWp.
From S2P Require Import HttpInvariant.
From S2P Require Import HttpSafety.
From S2P Require Import HttpStream.
From S2P Require Import HttpLockstep.
From S2P Require Import HttpSplit.
Local Open Scope Z_scope.

(** What a character of a field name, and one of a value, changes in the parser. *)
Definition set_matcher (ix : Z) (h : header_states) (te : bool) (p : http_parser)
    : http_parser :=
  set_index ix (set_header_state h (set_uses_transfer_encoding te p)).
Definition set_value (fl ix cl : Z) (p : http_parser) : http_parser :=
  set_flags fl (set_index ix (set_content_length cl p)).

(** Take apart two frames with the same parser but for the erased fields. *)
Ltac same_parser H :=
  unfold erase in H;
  cbn [HttpParser.set_state HttpParser.set_nread set_header_state hp_type hp_flags hp_state
       hp_header_state hp_index hp_uses_transfer_encoding hp_allow_chunked_length
       hp_lenient_http_headers hp_nread hp_content_length hp_http_major hp_http_minor
       hp_status_code hp_method hp_http_errno hp_upgrade parser] in H;
  injection H as <- <- <- <- <- <- <- <- <- <- <- <- <- <-.

(** The same when the state of the matcher has been replaced in both. *)
Ltac same_parser_value H :=
  unfold erase in H;
  cbn [HttpParser.set_state HttpParser.set_nread set_header_state hp_type hp_flags hp_state
       hp_header_state hp_index hp_uses_transfer_encoding hp_allow_chunked_length
       hp_lenient_http_headers hp_nread hp_content_length hp_http_major hp_http_minor
       hp_status_code hp_method hp_http_errno hp_upgrade parser] in H;
  injection H as <- <- <- <- <- <- <- <- <- <- <- <- <-.

(** Compute the operations on frames and parsers. *)
Ltac frame_cbv :=
  cbv beta iota delta [with_pos with_ch with_p_state with_nread with_parser with_user
    with_header_field_mark with_header_value_mark with_body_mark pos ch p_state nread
    parser user set_matcher set_value
    set_flags set_header_state set_index set_uses_transfer_encoding HttpParser.set_state
    HttpParser.set_nread set_content_length set_http_errno add_flag
    hp_type hp_flags hp_state hp_header_state hp_index hp_uses_transfer_encoding
    hp_allow_chunked_length hp_lenient_http_headers hp_nread hp_content_length
    hp_http_major hp_http_minor hp_status_code hp_method hp_http_errno hp_upgrade].

Section chars.
Context {U : Type} (d1 d2 : list Byte.byte) (mx : Z) (lenient : bool).
Implicit Types s : frame U.

(** A character of a field name outside the inner loop: both frames are faulty, or
    they change in the same way. *)
Lemma header_field_char_same c s1 s2 :
  erase (parser s1) = erase (parser s2) -> ch s1 = ch s2 ->
  hp_header_state (parser s1) <> h_general ->
  (exists f, header_field_char d1 mx c s1 = Fault f /\
     header_field_char d2 mx c s2 = Fault f) \/
  (exists ix h te,
     header_field_char d1 mx c s1 = Next tt (with_parser (set_matcher ix h te (parser s1)) s1) /\
     header_field_char d2 mx c s2 = Next tt (with_parser (set_matcher ix h te (parser s2)) s2)).
Proof.
  destruct s1 as [i1 c1 ps1 n1 f1 v1 w1 b1 t1 [ty fl st1 hs ix ute acl' len' nr1 cl ma mi sc me er up] u1].
  destruct s2 as [i2 c2 ps2 n2 f2 v2 w2 b2 t2 [? ? st2 ? ? ? ? ? nr2 ? ? ? ? ? ? ?] u2].
  intros H Hc Hg. same_parser H. cbn [ch] in Hc. subst c2. cbn [parser hp_header_state] in *.
  unfold header_field_char, match_word, incr_index, set_hs, modify_parser, modify, gets,
    mbind, M_bind, mret, M_ret, assert_, fault_with.
  destruct hs; try done; lock_cbn;
    repeat (match goal with
            | |- context [if ?b then _ else _] => destruct b
            | |- context [match str_at ?w ?n with _ => _ end] => destruct (str_at w n)
            end; lock_cbn); frame_cbv;
    first [ left; eexists; split; reflexivity | right; do 3 eexists; split; reflexivity ].
Qed.

(** The same for a character of a value. *)
Lemma header_value_char_same h s1 s2 :
  erase (set_header_state h (parser s1)) = erase (set_header_state h (parser s2)) ->
  ch s1 = ch s2 -> p_state s1 = s_header_value -> p_state s2 = s_header_value ->
  h <> h_general ->
  (exists f, header_value_char d1 mx lenient h s1 = Fault f /\
     header_value_char d2 mx lenient h s2 = Fault f) \/
  (exists s1' s2', header_value_char d1 mx lenient h s1 = Goto_error s1' /\
     header_value_char d2 mx lenient h s2 = Goto_error s2') \/
  (exists h' fl ix cl,
     header_value_char d1 mx lenient h s1
     = Next h' (with_parser (set_value fl ix cl (parser s1)) s1) /\
     header_value_char d2 mx lenient h s2
     = Next h' (with_parser (set_value fl ix cl (parser s2)) s2)).
Proof.
  destruct s1 as [i1 c1 ps1 n1 f1 v1 w1 b1 t1 [ty fl st1 hs1 ix ute acl' len' nr1 cl ma mi sc me er up] u1].
  destruct s2 as [i2 c2 ps2 n2 f2 v2 w2 b2 t2 [? ? st2 hs2 ? ? ? ? nr2 ? ? ? ? ? ? ?] u2].
  intros H Hc Hp1 Hp2 Hg. same_parser_value H. cbn [ch p_state] in Hc, Hp1, Hp2. subst c2 ps1 ps2.
  unfold header_value_char, content_length_digit, fail_content_length, match_word, incr_index,
    set_hs, SET_ERRNO, goto_error, UPDATE_STATE, modify_parser, modify, gets,
    mbind, M_bind, mret, M_ret, assert_, fault_with.
  destruct h; try done; lock_cbn;
    repeat (match goal with
            | |- context [if ?b then _ else _] => destruct b
            | |- context [match str_at ?w ?n with _ => _ end] => destruct (str_at w n)
            end; lock_cbn); frame_cbv;
    first [ left; eexists; split; reflexivity
          | right; left; do 2 eexists; split; reflexivity
          | right; right; do 4 eexists; split; reflexivity ].
Qed.
End chars.

(** ** Runs that stop *)

(** A return carries an error number; nothing is said of [goto error]. *)
Definition pwp {U A} (m : M U A) (Q : A -> frame U -> Prop) (s : frame U) : Prop :=
  match m s with
  | Next a s' => Q a s'
  | Return _ s' => hp_http_errno (parser s') <> HPE_OK
  | _ => True
  end.
#[global] Arguments pwp : simpl never.

Section lines.
Context {U : Type} (settings : http_parser_settings U) `{!Streaming settings}.
Context (data : list Byte.byte) (mx : Z) (lenient acl : bool).
Abbreviation len := (length data).
Abbreviation one := (one settings mx lenient acl).
Abbreviation run := (run settings mx lenient acl).
Abbreviation flush := (flush settings).
Abbreviation settle := (settle settings).
Abbreviation boundary := (boundary settings data lenient acl).
Abbreviation turn_rel := (turn_rel settings data mx lenient acl).
Implicit Types s : frame U.

Lemma pwp_bind {A B} (m : M U A) (f : A -> M U B) Q s :
  pwp m (fun a s' => pwp (f a) Q s') s -> pwp (m ≫= f) Q s.
Proof. unfold pwp, mbind, M_bind. by destruct (m s). Qed.
Lemma pwp_mono {A} (m : M U A) (Q Q' : A -> frame U -> Prop) s :
  pwp m Q s -> (forall a s', Q a s' -> Q' a s') -> pwp m Q' s.
Proof. unfold pwp. destruct (m s); auto. Qed.
Lemma pwp_COUNT V (Q : unit -> frame U -> Prop) s :
  (u32 (nread s + u32 V) <= mx -> Q tt (with_nread (u32 (nread s + u32 V)) s)) ->
  pwp (COUNT_HEADER_SIZE mx V) Q s.
Proof.
  intros HQ. unfold pwp, COUNT_HEADER_SIZE, mbind, M_bind, modify, gets. simpl.
  destruct (Z.ltb_spec mx (u32 (nread s + u32 V))); [done | by apply HQ].
Qed.

(** The call on a single byte of a header. *)
Lemma one_counted b p (u : U) :
  PARSING_HEADER (hp_state p) = true ->
  let n := u32 (hp_nread p + u32 1) in
  one b p u =
  if mx <? n then None
  else settle b (reexecute settings [b] mx lenient acl reexecute_fuel
                   (with_nread n (with_ch (uchar b)
                      (entry_marks (hp_state p) (initial_frame p u))))).
Proof.
  intros Hh n. unfold HttpSplit.one, turn, load_ch, COUNT_HEADER_SIZE.
  destruct (entry_frame p u) as (Hpos & Hst & Hn & _ & _).
  unfold mbind, M_bind, gets, modify. rewrite Hpos. cbn [lookup list_lookup].
  change (p_state (with_ch (uchar b) ?s)) with (p_state s). rewrite Hst, Hh.
  change (nread (with_ch (uchar b) ?s)) with (nread s). rewrite Hn.
  change (nread (with_nread ?n ?s)) with n. fold n. by destruct (mx <? n).
Qed.

(** The boundary after a byte behind a mark, with changes in the parser. *)
Lemma boundary_advance FOR s p u p1 p2 b c n :
  boundary s p u -> entry_pend (p_state s) = Some FOR ->
  marked_in for_body (p_state s) = false -> data !! pos s = Some b ->
  erase p1 = erase p2 -> hp_http_errno p1 = HPE_OK ->
  hp_lenient_http_headers p1 = lenient -> hp_allow_chunked_length p1 = acl ->
  boundary (with_pos (S (pos s)) (with_parser p1 (with_ch c s)))
    (HttpParser.set_state (p_state s) (HttpParser.set_nread n p2))
    (deliver settings FOR [b] u).
Proof.
  intros [Hst Hp He Hlen Hacl Hfl (o & Hsh & Hdone) Hle] HFOR Hbody Hb Hp12 He1 Hl1 Ha1.
  assert (o = Some FOR) as ->.
  { destruct Hdone as [-> | [_ Hd]]; [done | congruence]. }
  split; simpl; try done.
  - rewrite <- Hfl, <- (flush_advance settings (Some FOR) data s b Hsh Hle Hb).
    by destruct s.
  - exists (Some FOR). split; [| by left]. intros F. specialize (Hsh F). by destruct F.
  - intros F m Hm. enough (m <= pos s)%nat by (simpl; lia). apply (Hle F). by destruct F.
Qed.

(** ** The field name *)

(** What follows the [switch]. *)
Definition after (d : list Byte.byte) (c : ctl) : M U unit :=
  match c with
  | Break => mret tt
  | Reexecute => reexecute settings d mx lenient acl 7
  end.

(** What follows the loop over a field name, and the rest of the turn from inside
    the loop. *)
Definition field_end (d : list Byte.byte) (start : nat) : M U ctl :=
  p ← gets pos;
  if (p =? length d)%nat then
    modify (with_pos (p - 1)%nat);;
    COUNT_HEADER_SIZE mx (Z.of_nat (p - 1) - Z.of_nat start);;
    mret Break
  else
  COUNT_HEADER_SIZE mx (Z.of_nat p - Z.of_nat start);;
  c0 ← gets ch;
  if c0 =? ":"%ch then
    UPDATE_STATE s_header_value_discard_ws;;
    CALLBACK_DATA settings d for_header_field;;
    mret Break
  else fail HPE_INVALID_HEADER_TOKEN.
Definition field_rest (d : list Byte.byte) (fuel start : nat) : M U unit :=
  header_field_loop d mx fuel;; c ← field_end d start; after d c.

Lemma reexecute_field d s :
  p_state s = s_header_field ->
  reexecute settings d mx lenient acl reexecute_fuel s
  = field_rest d (S (length d)) (pos s) s.
Proof.
  intros Hst. unfold reexecute_fuel. cbn [reexecute]. unfold mbind at 1, M_bind at 1, gets at 1.
  rewrite Hst. cbn [switch]. unfold case_s_header_field, field_rest, field_end, after.
  unfold mbind, M_bind, gets. cbn [pos].
  by destruct (header_field_loop d mx (S (length d)) s).
Qed.

(** The loops only move [p] forward, inside the buffer. *)
Definition moved s (s' : frame U) : Prop :=
  nread s' = nread s /\ (pos s <= pos s')%nat /\ (pos s < len -> pos s' < len)%nat.

Lemma token_run_moved fuel pe s :
  (pe <= len)%nat -> pwp (token_run data fuel pe) (fun _ s' => moved s s') s.
Proof.
  intros Hpe. revert s. induction fuel as [| fuel IH]; intros s; [done |].
  cbn [token_run]. unfold pwp, mbind, M_bind, gets, modify, mret, M_ret.
  destruct (Nat.ltb_spec (pos s + 1) pe); [| by split_and!].
  destruct (data !! (pos s + 1)%nat); [| done]. destruct (negb _); [| by split_and!].
  specialize (IH (with_pos (pos s + 1) s)). unfold pwp in IH.
  destruct (token_run data fuel pe _); try done.
  destruct IH as (? & ? & ?). simpl in *. split_and!; [done | lia | lia].
Qed.

Lemma header_field_char_moved c s :
  (pos s < len)%nat -> pwp (header_field_char data mx c) (fun _ s' => moved s s') s.
Proof.
  intros Hpos. destruct (decide (hp_header_state (parser s) = h_general)) as [Hg | Hg].
  - unfold header_field_char, pwp, mbind, M_bind, gets. rewrite Hg.
    apply (token_run_moved (S len) (run_end data mx (pos s))). unfold run_end. lia.
  - destruct (header_field_char_same data data mx c s s eq_refl eq_refl Hg)
      as [(f & Hf & _) | (ix & h & te & Hn & _)]; unfold pwp; rewrite ?Hf, ?Hn; [done |].
    by split_and!.
Qed.

Lemma header_field_loop_moved fuel s :
  (pos s <= len)%nat ->
  pwp (header_field_loop data mx fuel)
    (fun _ s' => nread s' = nread s /\ (pos s <= pos s' <= len)%nat) s.
Proof.
  revert s. induction fuel as [| fuel IH]; intros s Hpos; [done |].
  cbn [header_field_loop]. apply pwp_bind. unfold pwp at 1, gets at 1.
  destruct (Nat.eqb_spec (pos s) len); [by split_and! |].
  destruct (lookup_lt_is_Some_2 data (pos s)) as [b Hb]; [lia |].
  apply pwp_bind. unfold pwp, load_ch, mbind, M_bind, gets, modify. rewrite Hb. cbn [ch with_ch].
  destruct (TOKEN (uchar b) =? 0); [by split_and! |].
  pose proof (header_field_char_moved (TOKEN (uchar b)) (with_ch (uchar b) s)) as Hc.
  unfold pwp in Hc. cbn [pos with_ch] in *.
  destruct (header_field_char _ _ _ _) as [[] s' | | |]; try (by apply Hc; lia); try done.
  destruct Hc as (Hn & H1 & H2); [lia |]. simpl in *.
  specialize (IH (with_pos (pos s' + 1) s')). simpl in IH. unfold pwp in IH.
  specialize (IH ltac:(lia)). destruct (header_field_loop _ _ _ _); try done.
  destruct IH as [-> ?]. split; [done | lia].
Qed.

(** Bytes up to [k] of the line that began at [start] are too many. *)
Definition too_many (k start : nat) s : Prop :=
  (start <= k <= pos s)%nat /\ (k < len)%nat /\ (pos s <= len)%nat /\
  0 <= nread s /\ nread s + Z.of_nat len < 2 ^ 32 /\
  mx < nread s + (Z.of_nat k - Z.of_nat start).

Lemma count_too_many k start o s (Q : unit -> frame U -> Prop) :
  too_many k start s -> (k <= o < len)%nat ->
  pwp (COUNT_HEADER_SIZE mx (Z.of_nat o - Z.of_nat start)) Q s.
Proof.
  intros (? & ? & ? & ? & ? & ?) Ho. apply pwp_COUNT.
  rewrite (u32_small (_ - _)), u32_small by lia. lia.
Qed.

Lemma field_rest_too_many k fuel start s :
  too_many k start s -> stops (field_rest data fuel start s).
Proof.
  intros Hk. enough (pwp (field_rest data fuel start) (fun _ _ => False) s) as H by exact H.
  unfold field_rest. apply pwp_bind. destruct Hk as (? & ? & ? & ? & ? & ?).
  eapply pwp_mono; [by apply header_field_loop_moved |]. intros [] s' [Hn Hpos].
  apply pwp_bind. unfold field_end. apply pwp_bind. unfold pwp at 1, gets at 1.
  assert (too_many k start s') by (split_and!; lia).
  destruct (Nat.eqb_spec (pos s') len).
  - apply pwp_bind. unfold pwp at 1, modify at 1. apply pwp_bind, (count_too_many k); [| lia].
    split_and!; simpl; lia.
  - by apply pwp_bind, (count_too_many k); [| lia].
Qed.

(** ** Inside a line *)

(** Inside a line that began at [start], in the state [st]: the byte-by-byte parser
    has counted one byte at a time. *)
Record line_inside (st : state) (start : nat) s p u : Prop := {
  li_boundary : boundary s p u;
  li_state : p_state s = st;
  li_pos : (start <= pos s <= len)%nat;
  li_start : (start < len)%nat;
  li_nread : 1 <= nread s <= mx;
  li_count : hp_nread p = u32 (nread s + (Z.of_nat (pos s) - Z.of_nat start) - 1);
  li_le : (start < pos s)%nat -> nread s + (Z.of_nat (pos s) - Z.of_nat start) - 1 <= mx
}.

Context (Hmx : mx < 2 ^ 31) (Hsize : Z.of_nat len < 2 ^ 31).

(** The count of the byte-by-byte parser at the next byte. *)
Lemma line_count st start s p u :
  line_inside st start s p u -> (pos s < len)%nat ->
  u32 (hp_nread p + u32 1) = nread s + (Z.of_nat (pos s) - Z.of_nat start).
Proof.
  intros H Hpos. destruct H as [_ _ ? ? ? Hc _]. rewrite Hc. unfold u32.
  rewrite <- Zplus_mod. rewrite Z.mod_small by lia. lia.
Qed.

Lemma line_errno st start s p u :
  line_inside st start s p u -> hp_http_errno p = HPE_OK.
Proof.
  intros [[_ Hp He _ _ _ _ _] _ _ _ _ _ _]. rewrite <- He. symmetry. by injection Hp.
Qed.

Lemma line_too_many st start s p u :
  line_inside st start s p u -> (pos s < len)%nat ->
  mx < nread s + (Z.of_nat (pos s) - Z.of_nat start) -> too_many (pos s) start s.
Proof. intros [_ _ ? ? ? _ _] ? ?. split_and!; lia. Qed.

(** The frame in which a new call on a byte of a line begins. *)
Definition line_frame (b : Byte.byte) (st : state) (n : Z) (p : http_parser) (u : U) : frame U :=
  with_nread n (with_ch (uchar b) (entry_marks st (mk_frame 0 0 st (hp_nread p) None None None None None p u))).

Lemma header_field_loop_end d fuel s :
  pos s = length d -> header_field_loop d mx (S fuel) s = Next tt s.
Proof.
  intros Hpos. cbn [header_field_loop]. unfold mbind, M_bind, gets. by rewrite Hpos, Nat.eqb_refl.
Qed.

Lemma header_field_loop_turn d fuel s b :
  d !! pos s = Some b ->
  header_field_loop d mx (S fuel) s =
  if TOKEN (uchar b) =? 0 then Next tt (with_ch (uchar b) s) else
  match header_field_char d mx (TOKEN (uchar b)) (with_ch (uchar b) s) with
  | Next _ s' => header_field_loop d mx fuel (with_pos (pos s' + 1) s')
  | r => r
  end.
Proof.
  intros Hb. pose proof (lookup_lt_Some _ _ _ Hb). cbn [header_field_loop].
  unfold load_ch, mbind, M_bind, gets, modify, mret, M_ret.
  destruct (Nat.eqb_spec (pos s) (length d)); [lia |]. rewrite Hb. cbn [ch with_ch]. by destruct (TOKEN (uchar b) =? 0).
Qed.

(** One character of a field name. *)
Lemma field_byte b p u ix h te :
  let n := u32 (hp_nread p + u32 1) in
  let s := line_frame b s_header_field n p u in
  hp_state p = s_header_field -> hp_http_errno p = HPE_OK -> TOKEN (uchar b) <> 0 -> n <= mx ->
  header_field_char [b] mx (TOKEN (uchar b)) s
  = Next tt (with_parser (set_matcher ix h te p) s) ->
  one b p u = Some (false, HttpParser.set_state s_header_field
                      (HttpParser.set_nread n (set_matcher ix h te p)),
                    deliver settings for_header_field [b] u).
Proof.
  intros n s Hst He Ht Hn Hchar. rewrite one_counted by (by rewrite Hst). fold n.
  destruct (Z.ltb_spec mx n); [lia |]. unfold initial_frame. rewrite Hst. fold s.
  change (with_nread n _) with s. rewrite reexecute_field by done.
  change (S (length [b])) with 2%nat. change (pos s) with 0%nat.
  unfold field_rest, mbind, M_bind. rewrite (header_field_loop_turn [b] 1 s b) by done.
  destruct (Z.eqb_spec (TOKEN (uchar b)) 0); [done |].
  change (with_ch (uchar b) s) with s. rewrite Hchar.
  rewrite header_field_loop_end by done. unfold field_end, COUNT_HEADER_SIZE.
  unfold mbind, M_bind, gets, modify. cbn -[Z.ltb u32].
  change (Z.of_nat 0 - Z.of_nat 0) with 0. rewrite (u32_small 0), Z.add_0_r, (u32_small n) by (lia || apply u32_range).
  destruct (Z.ltb_spec mx n); [lia |]. cbn -[epilogue].
  match goal with |- context [epilogue _ _ _ ?s] => set (s1 := s) end.
  destruct (epilogue_eq settings (Some for_header_field) [b] 1 s1) as (s' & -> & -> & ->).
  - done.
  - intros []; split; simpl; intros Hx; first [discriminate Hx | by destruct Hx | done | by eexists].
  - unfold HttpStream.flush, pending. simpl. by rewrite !deliver_nil.
Qed.

(** One byte further inside a line. *)
Lemma line_inside_advance FOR st start s p u p1 p2 b c :
  let n := u32 (hp_nread p + u32 1) in
  line_inside st start s p u -> entry_pend st = Some FOR -> marked_in for_body st = false ->
  data !! pos s = Some b -> n <= mx ->
  erase p1 = erase p2 -> hp_http_errno p1 = HPE_OK ->
  hp_lenient_http_headers p1 = lenient -> hp_allow_chunked_length p1 = acl ->
  line_inside st start (with_pos (S (pos s)) (with_parser p1 (with_ch c s)))
    (HttpParser.set_state st (HttpParser.set_nread n p2)) (deliver settings FOR [b] u).
Proof.
  intros n Hin HFOR Hbody Hb Hn He12 He1 Hl1 Ha1. pose proof (lookup_lt_Some _ _ _ Hb) as Hlt.
  pose proof (line_count _ _ _ _ _ Hin Hlt) as Hc. fold n in Hc.
  destruct Hin as [Hbd <- Hpos Hs Hr Hcnt Hle].
  split; simpl; try done; try lia.
  - by apply (boundary_advance FOR s p).
  - rewrite Hc, u32_small; lia.
Qed.

(** The same for a field name. *)
Lemma field_advance start s p u b c ix h te :
  let n := u32 (hp_nread p + u32 1) in
  line_inside s_header_field start s p u -> data !! pos s = Some b -> n <= mx ->
  line_inside s_header_field start
    (with_pos (S (pos s)) (with_parser (set_matcher ix h te (parser s)) (with_ch c s)))
    (HttpParser.set_state s_header_field (HttpParser.set_nread n (set_matcher ix h te p)))
    (deliver settings for_header_field [b] u).
Proof.
  intros n Hin Hb Hn. pose proof (li_boundary _ _ _ _ _ Hin) as [_ Hp He Hl Ha _ _ _].
  apply (line_inside_advance for_header_field); try done.
  destruct (parser s), p. same_parser Hp. done.
Qed.

Lemma set_matcher_id p :
  set_matcher (hp_index p) (hp_header_state p) (hp_uses_transfer_encoding p) p = p.
Proof. by destruct p. Qed.

(** In the general state a single token changes nothing. *)
Lemma field_advance_general start s p u b c :
  let n := u32 (hp_nread p + u32 1) in
  line_inside s_header_field start s p u -> data !! pos s = Some b -> n <= mx ->
  hp_header_state (parser s) = h_general -> TOKEN (uchar b) <> 0 ->
  exists p' u', one b p u = Some (false, p', u') /\
    line_inside s_header_field start (with_pos (S (pos s)) (with_ch c s)) p' u'.
Proof.
  intros n Hin Hb Hn Hg Ht.
  pose proof (li_boundary _ _ _ _ _ Hin) as [Hst Hp He _ _ _ _ _].
  assert (hp_header_state p = h_general) as Hgp by (rewrite <- Hg; symmetry; by injection Hp).
  eexists _, _. split.
  - apply (field_byte b p u (hp_index p) (hp_header_state p) (hp_uses_transfer_encoding p)).
    + by rewrite Hst, (li_state _ _ _ _ _ Hin).
    + by eapply line_errno.
    + done.
    + done.
    + rewrite set_matcher_id. unfold header_field_char, mbind, M_bind, gets.
      cbn [parser line_frame with_nread with_ch entry_marks with_header_field_mark].
      rewrite Hgp. cbn [token_run]. unfold mbind, M_bind, gets, run_end.
      cbn -[Z.min Z.to_nat Z.of_nat Nat.ltb].
      destruct (Nat.ltb_spec 1 (Z.to_nat (Z.min (Z.of_nat 1) mx))); [lia | done].
  - pose proof (field_advance start s p u b c (hp_index (parser s)) (hp_header_state (parser s))
      (hp_uses_transfer_encoding (parser s)) Hin Hb Hn) as H.
    rewrite set_matcher_id in H.
    assert (set_matcher (hp_index (parser s)) (hp_header_state (parser s))
              (hp_uses_transfer_encoding (parser s)) p = p) as Heq.
    { rewrite <- (set_matcher_id p) at 2. destruct (parser s), p. same_parser Hp. done. }
    rewrite Heq in H. rewrite set_matcher_id. by destruct s.
Qed.

(** A byte too many: both end with an error. *)
Lemma line_overflow st start s p u :
  line_inside st start s p u -> PARSING_HEADER st = true -> (pos s < len)%nat ->
  mx < u32 (hp_nread p + u32 1) ->
  run (drop (pos s) data) p u = None /\ too_many (pos s) start s.
Proof.
  intros Hin Hst Hlt Hn. destruct (lookup_lt_is_Some_2 data (pos s) Hlt) as [b Hb]. split.
  - rewrite (drop_S _ _ _ Hb). apply run_fail.
    rewrite one_counted
      by (by rewrite (bd_state _ _ _ _ _ _ _ (li_boundary _ _ _ _ _ Hin)),
            (li_state _ _ _ _ _ Hin)).
    by destruct (Z.ltb_spec mx (u32 (hp_nread p + u32 1))); [| lia].
  - eapply line_too_many; [done | done |]. by rewrite <- (line_count _ _ _ _ _ Hin Hlt).
Qed.

(** The inner loop over tokens, in front of a continuation. *)
Lemma token_run_turn pe start (K : frame U -> result U unit) fuel s p u b :
  (pe <= len)%nat ->
  (forall s p u, line_inside s_header_field start s p u -> turn_rel (pos s) p u (K s)) ->
  (forall k s, too_many k start s -> stops (K s)) ->
  line_inside s_header_field start s p u -> hp_header_state (parser s) = h_general ->
  data !! pos s = Some b -> TOKEN (uchar b) <> 0 ->
  turn_rel (pos s) p u
    (match token_run data fuel pe s with
     | Next _ s' => K (with_pos (pos s' + 1) s')
     | r => r
     end).
Proof.
  intros Hpe HK Hstop. revert s p u b.
  induction fuel as [| fuel IH]; intros s p u b Hin Hg Hb Ht; [done |].
  pose proof (lookup_lt_Some _ _ _ Hb) as Hlt.
  destruct (Z.le_gt_cases (u32 (hp_nread p + u32 1)) mx) as [Hn | Hn].
  - destruct (field_advance_general start s p u b (ch s) Hin Hb Hn Hg Ht)
      as (p' & u' & Hone & Hin').
    replace (with_pos (S (pos s)) (with_ch (ch s) s)) with (with_pos (pos s + 1) s) in Hin'
      by (rewrite Nat.add_1_r; by destruct s).
    apply (turn_rel_cons settings data mx lenient acl (pos s) b p u p' u'); [done | done |].
    replace (S (pos s)) with (pos (with_pos (pos s + 1) s)) by (simpl; lia).
    cbn [token_run]. unfold mbind, M_bind, gets, modify, mret, M_ret.
    destruct (Nat.ltb_spec (pos s + 1) pe); [| by apply HK].
    destruct (data !! (pos s + 1)%nat) as [b' |] eqn:Hb'; [| done].
    destruct (Z.eqb_spec (TOKEN (uchar b')) 0); [by apply HK |].
    by apply (IH _ _ _ b').
  - destruct (line_overflow _ _ _ _ _ Hin eq_refl Hlt ltac:(lia)) as [Hrun Hmany].
    apply turn_rel_stops; [| done].
    pose proof (token_run_moved (S fuel) pe s Hpe) as Hmoved. unfold pwp in Hmoved.
    destruct (token_run data (S fuel) pe s) as [[] s' | | |]; try done.
    destruct Hmoved as (Hnr & Hp1 & Hp2). apply (Hstop (pos s)).
    destruct Hmany as (? & ? & ? & ? & ? & ?). split_and!; simpl; lia.
Qed.

(** The end of a field name, in step. *)
Lemma field_end_rel i b :
  case_rel settings data [b] i 0 lenient acl s_header_field
    (c0 ← gets ch;
     if c0 =? ":"%ch then
       UPDATE_STATE s_header_value_discard_ws;;
       CALLBACK_DATA settings data for_header_field;;
       mret Break
     else fail HPE_INVALID_HEADER_TOKEN)
    (c0 ← gets ch;
     if c0 =? ":"%ch then
       UPDATE_STATE s_header_value_discard_ws;;
       CALLBACK_DATA settings [b] for_header_field;;
       mret Break
     else fail HPE_INVALID_HEADER_TOKEN).
Proof. lockstep. Qed.

Lemma boundary_with_nread s p u n c o :
  boundary s p u -> pos s = o -> boundary (with_pos o (with_nread n (with_ch c s))) p u.
Proof. intros [] <-. by constructor. Qed.

(** The end of the buffer inside a field name. *)
Lemma field_rest_end fuel start s p u :
  line_inside s_header_field start s p u -> pos s = len ->
  turn_rel (pos s) p u (field_rest data (S fuel) start s).
Proof.
  intros Hin Hpos. unfold field_rest, mbind, M_bind. rewrite header_field_loop_end by done.
  unfold field_end, COUNT_HEADER_SIZE, mbind, M_bind, gets, modify.
  rewrite Hpos, Nat.eqb_refl. cbn [nread with_nread with_pos].
  pose proof Hin as [Hbd Hst Hp Hs Hr Hc Hle].
  specialize (Hle ltac:(lia)).
  assert (u32 (nread s + u32 (Z.of_nat (len - 1) - Z.of_nat start)) = hp_nread p) as ->.
  { rewrite Hc. rewrite (u32_small (_ - _)) by lia. f_equal. lia. }
  assert (hp_nread p <= mx) by (rewrite Hc, u32_small; lia).
  destruct (Z.ltb_spec mx (hp_nread p)); [lia |]. simpl.
  split; [lia |]. exists p, u. split_and!; [| done |].
  - eapply boundary_ch with (c := ch s).
    apply (boundary_with_nread s p u (hp_nread p) (ch s) _ Hbd). lia.
  - replace (S (len - 1)) with len by lia. by rewrite Nat.sub_diag, shift_0.
Qed.

(** A byte that is not part of the name. *)
Lemma field_rest_last fuel start s p u b :
  line_inside s_header_field start s p u -> data !! pos s = Some b -> TOKEN (uchar b) = 0 ->
  u32 (hp_nread p + u32 1) <= mx ->
  turn_rel (pos s) p u (field_rest data (S fuel) start s).
Proof.
  intros Hin Hb Ht Hn. pose proof (lookup_lt_Some _ _ _ Hb) as Hlt.
  pose proof Hin as [Hbd Hst Hp Hs Hr Hc Hle].
  pose proof (line_count _ _ _ _ _ Hin Hlt) as Hcount.
  set (n := u32 (hp_nread p + u32 1)) in *.
  set (s2 := line_frame b s_header_field n p u).
  assert (rwp (pos s) 0 (c ← field_end data start; after data c)
            (c ← field_end [b] 0; after [b] c)
            (next_rel settings data lenient acl b (pos s)) (with_ch (uchar b) s) s2) as Hrel.
  { apply rwp_bind. eapply rwp_mono with (Q := in_step settings data [b] (pos s) 0 lenient acl);
      [| intros; by apply in_step_next].
    unfold field_end. apply rwp_bind, rwp_gets. cbn [pos with_ch].
    destruct (Nat.eqb_spec (pos s) len); [lia |]. cbn [s2 line_frame pos with_nread with_ch
      entry_marks with_header_field_mark length Nat.eqb].
    apply rwp_bind, rwp_COUNT; cbn [nread with_nread with_ch with_header_field_mark].
    - change (Z.of_nat 0 - Z.of_nat 0) with 0. rewrite (u32_small 0), Z.add_0_r by lia.
      rewrite (u32_small (_ - _)) by lia. by rewrite <- Hcount.
    - intros _. rewrite (u32_small (_ - _)), (u32_small (_ + _)), <- Hcount by lia.
      destruct (boundary_sim settings data lenient acl s p u n b Hbd Hb) as (o & Hpend & Hsim).
      rewrite Hst in *. pose proof (bd_state _ _ _ _ _ _ _ Hbd) as Hps. rewrite Hst in Hps.
      unfold initial_frame in Hsim. rewrite Hps in Hsim.
      eapply (field_end_rel (pos s) b); [exact Hsim | done | done]. }
  apply (turn_rel_last settings data mx lenient acl (pos s) b p u _
           (field_rest [b] 2 0) s s2); [done | |].
  - unfold rwp, field_rest, mbind, M_bind in *.
    rewrite (header_field_loop_turn data fuel s b), (header_field_loop_turn [b] 1 _ b) by done.
    rewrite Ht. exact Hrel.
  - pose proof (bd_state _ _ _ _ _ _ _ Hbd) as Hps. rewrite Hst in Hps.
    rewrite one_counted by (by rewrite Hps). fold n.
    destruct (Z.ltb_spec mx n); [lia |]. unfold initial_frame. rewrite Hps.
    by rewrite reexecute_field.
Qed.

Lemma line_inside_ch st start s p u c :
  line_inside st start s p u -> line_inside st start (with_ch c s) p u.
Proof. intros [[] ? ? ? ? ? ?]. by split. Qed.

(** The loop over a field name and the bytes it consumes. *)
Lemma field_run fuel start s p u :
  line_inside s_header_field start s p u ->
  turn_rel (pos s) p u (field_rest data fuel start s).
Proof.
  revert s p u. induction fuel as [| fuel IH]; intros s p u Hin; [done |].
  destruct (Nat.eq_dec (pos s) len) as [Hpos | Hpos]; [by apply field_rest_end |].
  assert (pos s < len)%nat as Hlt by (pose proof (li_pos _ _ _ _ _ Hin); lia).
  destruct (lookup_lt_is_Some_2 data (pos s) Hlt) as [b Hb].
  destruct (Z.le_gt_cases (u32 (hp_nread p + u32 1)) mx) as [Hn | Hn].
  2: { destruct (line_overflow _ _ _ _ _ Hin eq_refl Hlt ltac:(lia)) as [Hrun Hmany].
       apply turn_rel_stops; [| done]. by eapply field_rest_too_many. }
  destruct (Z.eq_dec (TOKEN (uchar b)) 0) as [Ht | Ht]; [by eapply field_rest_last |].
  unfold field_rest, mbind, M_bind. rewrite (header_field_loop_turn data fuel s b) by done.
  destruct (Z.eqb_spec (TOKEN (uchar b)) 0); [done |].
  pose proof (li_boundary _ _ _ _ _ Hin) as Hbd.
  destruct (decide (hp_header_state (parser s) = h_general)) as [Hg | Hg].
  - unfold header_field_char, mbind, M_bind, gets. cbn [parser with_ch pos]. rewrite Hg.
    assert (run_end data mx (pos s) <= len)%nat as Hend by (unfold run_end; lia).
    assert (forall k s, too_many k start s -> stops (field_rest data fuel start s)) as Hstop
      by (intros; by eapply field_rest_too_many).
    pose proof (token_run_turn _ start _ (S len) (with_ch (uchar b) s) p u b Hend IH Hstop
      (line_inside_ch _ _ _ _ _ _ Hin) Hg Hb Ht) as H.
    cbn [pos with_ch] in H. by destruct (token_run data (S len) _ _).
  - destruct (header_field_char_same data [b] mx (TOKEN (uchar b)) (with_ch (uchar b) s)
      (line_frame b s_header_field (u32 (hp_nread p + u32 1)) p u))
      as [(f & -> & _) | (ix & h & te & -> & Hbyte)]; [| done | done | done |].
    { apply (bd_parser _ _ _ _ _ _ _ Hbd). }
    cbn [pos with_ch with_parser]. rewrite Nat.add_1_r.
    pose proof (field_advance start s p u b (uchar b) ix h te Hin Hb Hn) as Hin'.
    eapply turn_rel_cons; [done | | exact (IH _ _ _ Hin')].
    apply field_byte; [| by eapply line_errno | done | done | done].
    by rewrite (bd_state _ _ _ _ _ _ _ Hbd), (li_state _ _ _ _ _ Hin).
Qed.

(** ** The turn that begins a loop over a line *)

Lemma turn_counted s b :
  PARSING_HEADER (p_state s) = true -> data !! pos s = Some b ->
  let n := u32 (nread s + u32 1) in
  if mx <? n then exists s', turn settings data mx lenient acl s = Goto_error s'
  else turn settings data mx lenient acl s
       = reexecute settings data mx lenient acl reexecute_fuel (with_nread n (with_ch (uchar b) s)).
Proof.
  intros Hh Hb n. unfold turn, load_ch, COUNT_HEADER_SIZE, mbind, M_bind, gets, modify.
  rewrite Hb. change (p_state (with_ch (uchar b) s)) with (p_state s). rewrite Hh.
  change (nread (with_ch (uchar b) s)) with (nread s).
  change (nread (with_nread ?n ?s)) with n. fold n.
  destruct (Z.ltb_spec mx n); [by eexists | done].
Qed.

Lemma line_enter st s p u c :
  boundary s p u -> hp_nread p = nread s -> 0 <= nread s <= mx -> p_state s = st ->
  (pos s < len)%nat -> nread s + 1 <= mx ->
  line_inside st (pos s) (with_nread (nread s + 1) (with_ch c s)) p u.
Proof.
  intros Hbd Hn Hr Hst Hpos Hle. split; simpl; try done; try lia.
  - apply (boundary_with_nread s p u (nread s + 1) c _ Hbd eq_refl).
  - rewrite Hn, u32_small; lia.
Qed.

(** A header line at its first byte, when the rest of the turn is [rest]. *)
Lemma turn_rel_line st (rest : frame U -> result U unit) s p u :
  PARSING_HEADER st = true ->
  (forall s, p_state s = st ->
     reexecute settings data mx lenient acl reexecute_fuel s = rest s) ->
  (forall s p u, line_inside st (pos s) s p u -> turn_rel (pos s) p u (rest s)) ->
  boundary s p u -> hp_nread p = nread s -> 0 <= nread s <= mx -> p_state s = st ->
  (pos s < len)%nat -> turn_rel (pos s) p u (turn settings data mx lenient acl s).
Proof.
  intros Hh Hrest Hrun Hbd Hn Hr Hst Hpos.
  destruct (lookup_lt_is_Some_2 data (pos s) Hpos) as [b Hb].
  pose proof (turn_counted s b) as Ht. rewrite Hst in Ht. specialize (Ht Hh Hb). cbv zeta in Ht.
  assert (u32 (nread s + u32 1) = nread s + 1) as Hu
    by (rewrite (u32_small 1), u32_small by lia; lia). rewrite Hu in Ht.
  destruct (Z.ltb_spec mx (nread s + 1)) as [Hlt | Hle].
  - destruct Ht as [s' ->]. simpl. rewrite (drop_S _ _ _ Hb). apply run_fail.
    rewrite one_counted by (by rewrite (bd_state _ _ _ _ _ _ _ Hbd), Hst). rewrite Hn, Hu.
    by destruct (Z.ltb_spec mx (nread s + 1)); [| lia].
  - rewrite Ht, Hrest by done.
    apply (Hrun (with_nread (nread s + 1) (with_ch (uchar b) s)) p u). exact (line_enter st s p u (uchar b) Hbd Hn Hr Hst Hpos Hle).
Qed.

Lemma turn_rel_header_field s p u :
  boundary s p u -> hp_nread p = nread s -> 0 <= nread s <= mx ->
  p_state s = s_header_field -> (pos s < len)%nat ->
  turn_rel (pos s) p u (turn settings data mx lenient acl s).
Proof.
  apply (turn_rel_line s_header_field (fun s => field_rest data (S len) (pos s) s)); [done | |].
  - intros s' Hst. by apply reexecute_field.
  - intros. by apply field_run.
Qed.
End lines.
