(* ===== verification/HttpSplitValues.v ===== *)
(** * HttpSplitValues: the loop over a header value, byte by byte *)

From S2P Require Import Prelude.
From S2P Require Import HttpTables.
From S2P Require Import HttpUrl.
From S2P Require Import HttpParser.
From S2P Require Import HttpMonad.
From S2P Require Import HttpExec.
From S2P Require Import HttpWp.
From S2P Require Import HttpInvariant.
From S2P Require Import HttpSafety.
From S2P Require Import HttpStream.
From S2P Require Import HttpLockstep.
From S2P Require Import HttpSplit.
From S2P Require Import HttpSplitLines.
Local Open Scope Z_scope.

Section values.
Context {U : Type} (settings : http_parser_settings U) `{!Streaming settings}.
Context (data : list Byte.byte) (mx : Z) (lenient acl : bool).
Abbreviation len := (length data).
Abbreviation one := (one settings mx lenient acl).
Abbreviation run := (run settings mx lenient acl).
Abbreviation settle := (settle settings).
Abbreviation boundary := (boundary settings data lenient acl).
Abbreviation turn_rel := (turn_rel settings data mx lenient acl).
Abbreviation line_inside := (line_inside settings data mx lenient acl).
Abbreviation too_many := (too_many data mx).
Abbreviation after := (after settings mx lenient acl).
Abbreviation loop d := (header_value_loop settings d mx lenient).
Implicit Types s : frame U.

(** What follows the loop over a value, and the rest of the turn from inside it. *)
Definition value_end (d : list Byte.byte) (start : nat) (r : header_states + unit) : M U ctl :=
  match r with
  | inr _ => mret Reexecute
  | inl h_state =>
      set_hs h_state;;
      p ← gets pos;
      (if (p =? length d)%nat then modify (with_pos (p - 1)%nat) else mret tt);;
      p ← gets pos;
      COUNT_HEADER_SIZE mx (Z.of_nat p - Z.of_nat start);;
      mret Break
  end.
Definition value_rest (d : list Byte.byte) (fuel start : nat) (h : header_states) : M U unit :=
  r ← loop d fuel start h; c ← value_end d start r; after d c.

Lemma reexecute_value d s :
  p_state s = s_header_value ->
  reexecute settings d mx lenient acl reexecute_fuel s
  = value_rest d (S (length d)) (pos s) (hp_header_state (parser s)) s.
Proof.
  intros Hst. unfold reexecute_fuel. cbn [reexecute]. unfold mbind at 1, M_bind at 1, gets at 1.
  rewrite Hst. cbn [switch]. unfold case_s_header_value, value_rest.
  unfold mbind, M_bind, gets. cbn [pos].
  destruct (loop d (S (length d)) (pos s) (hp_header_state (parser s)) s) as [[|] ? | | |]; done.
Qed.

(** The ends of a line. *)
Definition value_cr (d : list Byte.byte) (h : header_states) : M U (header_states + unit) :=
  UPDATE_STATE s_header_almost_done;;
  set_hs h;;
  CALLBACK_DATA settings d for_header_value;;
  mret (inl h).
Definition value_lf (d : list Byte.byte) (start : nat) (h : header_states)
    : M U (header_states + unit) :=
  p ← gets pos;
  UPDATE_STATE s_header_almost_done;;
  COUNT_HEADER_SIZE mx (Z.of_nat p - Z.of_nat start);;
  set_hs h;;
  CALLBACK_DATA_NOADVANCE settings d for_header_value;;
  mret (inr tt).

Definition end_of_line (c : Z) : bool := (c =? CR) || (c =? LF).
Definition bad_char (c : Z) : bool := negb lenient && negb (IS_HEADER_CHAR c).

(** A turn of the loop. *)
Lemma loop_turn d fuel start h s b :
  d !! pos s = Some b ->
  let s1 := with_ch (uchar b) s in
  loop d (S fuel) start h s =
  if uchar b =? CR then value_cr d h s1
  else if uchar b =? LF then value_lf d start h s1
  else if bad_char (uchar b) then fail HPE_INVALID_HEADER_TOKEN s1
  else match header_value_char d mx lenient h s1 with
       | Next h' s' => loop d fuel start h' (with_pos (pos s' + 1) s')
       | Return v s' => Return v s'
       | Goto_error s' => Goto_error s'
       | Fault f => Fault f
       end.
Proof.
  intros Hb s1. pose proof (lookup_lt_Some _ _ _ Hb). cbn [header_value_loop].
  unfold load_ch, mbind, M_bind, gets, modify.
  destruct (Nat.eqb_spec (pos s) (length d)); [lia |]. rewrite Hb. cbn [ch with_ch].
  destruct (uchar b =? CR); [done |]. destruct (uchar b =? LF); [done |].
  unfold bad_char. by destruct (negb lenient && _).
Qed.

Lemma loop_end d fuel start h s :
  pos s = length d -> loop d (S fuel) start h s = Next (inl h) s.
Proof.
  intros Hpos. cbn [header_value_loop]. unfold mbind, M_bind, gets.
  by rewrite Hpos, Nat.eqb_refl.
Qed.

(** ** The loops only move forward *)

Definition value_moved (lb : nat) s (s' : frame U) : Prop :=
  nread s' = nread s /\ p_state s' = p_state s /\ (lb <= pos s' <= len)%nat.

Lemma value_run_moved fuel lb pe s :
  (pe <= len)%nat -> (lb <= pos s <= len)%nat ->
  (lb < pos s \/ exists b, data !! pos s = Some b /\ end_of_line (uchar b) = false)%nat ->
  pwp (value_run data lenient fuel pe) (fun _ s' => value_moved lb s s') s.
Proof.
  intros Hpe. revert s. induction fuel as [| fuel IH]; intros s Hpos Hlb; [done |].
  cbn [value_run]. unfold pwp, load_ch, mbind, M_bind, gets, modify, mret, M_ret.
  destruct (Nat.eqb_spec (pos s) pe); [by split_and!; try lia |].
  destruct (data !! pos s) as [b |] eqn:Hb; [| done]. cbn [ch with_ch].
  destruct ((uchar b =? CR) || (uchar b =? LF)) eqn:Heol.
  - destruct Hlb as [Hlb | (b' & [= <-] & Hf)]; [| unfold end_of_line in Hf; congruence].
    by split_and!; simpl; try lia.
  - destruct (negb lenient && negb (IS_HEADER_CHAR (uchar b))); [done |].
    pose proof (lookup_lt_Some _ _ _ Hb).
    specialize (IH (with_pos (pos s + 1) (with_ch (uchar b) s))). unfold pwp in IH.
    destruct (value_run data lenient fuel pe _); try (by apply IH; simpl; lia); try done.
Qed.

Lemma header_value_char_moved h s b :
  data !! pos s = Some b -> end_of_line (uchar b) = false -> p_state s = s_header_value ->
  pwp (header_value_char data mx lenient h)
    (fun _ s' => value_moved (pos s) s s' /\ (pos s' < len)%nat) s.
Proof.
  intros Hb Heol Hst. pose proof (lookup_lt_Some _ _ _ Hb) as Hlt.
  destruct (decide (h = h_general)) as [-> | Hg].
  - unfold header_value_char. do 2 (apply pwp_bind; unfold pwp at 1, gets at 1).
    apply pwp_bind. eapply pwp_mono.
    { apply (value_run_moved _ (pos s)); [unfold run_end; lia | lia |]. right. by exists b. }
    intros [] s' (Hn & Hst' & Hpos). apply pwp_bind. unfold pwp at 1, gets at 1.
    apply pwp_bind. unfold pwp at 1, modify, mret, M_ret.
    destruct (Nat.eqb_spec (pos s') len); unfold value_moved; split_and!; simpl; try done; lia.
  - destruct (header_value_char_same data data mx lenient h s s eq_refl eq_refl Hst Hst Hg)
      as [(f & Hf & _) | [(s1 & s2 & Hf & _) | (h' & fl & ix & cl & Hn & _)]];
      unfold pwp; rewrite ?Hf, ?Hn; try done.
    split; [split_and!; simpl; try done; lia | done].
Qed.

Lemma pwp_CALLBACK_DATA_ d FOR L E (Q : unit -> frame U -> Prop) s :
  (forall x u, Q tt (with_mark FOR None (with_user u
                       (with_parser (HttpParser.set_state x (parser s)) s)))) ->
  pwp (CALLBACK_DATA_ settings d FOR L E) Q s.
Proof.
  intros HQ. unfold pwp.
  destruct (decide (hp_http_errno (parser s) = HPE_OK)) as [He | He].
  - destruct (CALLBACK_DATA_eq settings d FOR L E s He) as (p' & Hp' & ->).
    apply state_stored_set in Hp' as [x ->]. apply HQ.
  - unfold CALLBACK_DATA_, mbind, M_bind, gets, assert_. by rewrite bool_decide_false.
Qed.

Lemma loop_too_many k fuel start h s :
  too_many k start s -> p_state s = s_header_value ->
  pwp (loop data fuel start h)
    (fun r s' => match r with
                 | inl _ => too_many k start s'
                 | inr _ => False
                 end) s.
Proof.
  revert h s. induction fuel as [| fuel IH]; intros h s Hk Hst; [done |].
  destruct (Nat.eq_dec (pos s) len) as [Hpos | Hpos].
  { unfold pwp. by rewrite loop_end. }
  pose proof Hk as (? & ? & ? & ? & ? & ?).
  destruct (lookup_lt_is_Some_2 data (pos s)) as [b Hb]; [lia |].
  unfold pwp. rewrite (loop_turn data fuel start h s b Hb).
  destruct (uchar b =? CR) eqn:Hcr.
  { match goal with |- match ?m ?s1 with _ => _ end => change (pwp m
      (fun r s' => match r with inl _ => too_many k start s' | inr _ => False end) s1) end.
    unfold value_cr, CALLBACK_DATA, set_hs. apply pwp_bind. unfold pwp at 1, UPDATE_STATE, modify.
    apply pwp_bind. unfold pwp at 1, modify_parser, modify.
    apply pwp_bind, pwp_bind. unfold pwp at 1, gets. apply pwp_CALLBACK_DATA_.
    intros x u. exact Hk. }
  destruct (uchar b =? LF) eqn:Hlf.
  { match goal with |- match ?m ?s1 with _ => _ end => change (pwp m
      (fun r s' => match r with inl _ => too_many k start s' | inr _ => False end) s1) end.
    unfold value_lf. apply pwp_bind. unfold pwp at 1, gets. apply pwp_bind.
    unfold pwp at 1, UPDATE_STATE, modify.
    apply pwp_bind, (count_too_many data mx k); [exact Hk | simpl; lia]. }
  destruct (bad_char (uchar b)); [done |].
  assert (end_of_line (uchar b) = false) as Heol
    by (unfold end_of_line; by rewrite Hcr, Hlf).
  pose proof (header_value_char_moved h (with_ch (uchar b) s) b Hb Heol Hst) as Hc.
  unfold pwp in Hc. destruct (header_value_char _ _ _ _ _) as [h' s' | | |]; try done.
  destruct Hc as ((Hn & Hst' & Hp) & Hlt). simpl in *. apply IH; simpl; [| congruence].
  split_and!; simpl; lia.
Qed.

Lemma value_rest_too_many k fuel start h s :
  too_many k start s -> p_state s = s_header_value -> stops (value_rest data fuel start h s).
Proof.
  intros Hk Hst. enough (pwp (value_rest data fuel start h) (fun _ _ => False) s) as H by exact H.
  unfold value_rest. apply pwp_bind. eapply pwp_mono; [by apply loop_too_many |].
  intros [h' |] s' Hk'; [| done]. pose proof Hk' as (? & ? & ? & ? & ? & ?).
  unfold value_end. apply pwp_bind, pwp_bind. unfold pwp at 1, set_hs, modify_parser, modify.
  apply pwp_bind. unfold pwp at 1, gets. apply pwp_bind. unfold pwp at 1, mret, M_ret.
  cbn [pos with_parser]. destruct (Nat.eqb_spec (pos s') len); apply pwp_bind; unfold pwp at 1;
    cbn [pos with_parser with_pos];
    apply pwp_bind, (count_too_many data mx k); try lia; try exact Hk'.
  all: split_and!; simpl; lia.
Qed.

(** ** Inside a value *)

Context (Hmx : mx < 2 ^ 31) (Hsize : Z.of_nat len < 2 ^ 31).

(** The local [h_state] stands for the field of the parser. *)
Definition local_state (h : header_states) s : frame U :=
  with_parser (set_header_state h (parser s)) s.
Definition value_inside (start : nat) (h : header_states) s p u : Prop :=
  line_inside s_header_value start (local_state h s) p u.

Lemma value_byte b p u h' p1 :
  let n := u32 (hp_nread p + u32 1) in
  let s := line_frame b s_header_value n p u in
  hp_state p = s_header_value -> hp_http_errno p1 = HPE_OK ->
  end_of_line (uchar b) = false -> bad_char (uchar b) = false -> n <= mx ->
  header_value_char [b] mx lenient (hp_header_state p) s = Next h' (with_parser p1 s) ->
  one b p u = Some (false, HttpParser.set_state s_header_value
                      (HttpParser.set_nread n (set_header_state h' p1)),
                    deliver settings for_header_value [b] u).
Proof.
  intros n s Hst He Heol Hbad Hn Hchar. rewrite one_counted by (by rewrite Hst). fold n.
  destruct (Z.ltb_spec mx n); [lia |]. unfold initial_frame. rewrite Hst.
  change (with_nread n _) with s. rewrite reexecute_value by done.
  change (S (length [b])) with 2%nat. change (pos s) with 0%nat. change (parser s) with p.
  unfold value_rest, mbind, M_bind. rewrite (loop_turn [b] 1 0 _ s b) by done. cbv zeta.
  apply orb_false_iff in Heol as [-> ->]. rewrite Hbad.
  change (with_ch (uchar b) s) with s. rewrite Hchar, loop_end by done.
  unfold value_end, COUNT_HEADER_SIZE, set_hs, modify_parser, mbind, M_bind, gets, modify, mret, M_ret.
  cbn -[Z.ltb u32].
  change (Z.of_nat 0 - Z.of_nat 0) with 0.
  rewrite (u32_small 0), Z.add_0_r, (u32_small n) by (lia || apply u32_range).
  destruct (Z.ltb_spec mx n); [lia |]. cbn -[epilogue].
  match goal with |- context [epilogue _ _ _ ?s] => set (s1 := s) end.
  destruct (epilogue_eq settings (Some for_header_value) [b] 1 s1) as (s' & -> & -> & ->).
  - done.
  - intros []; split; simpl; intros Hx;
      first [discriminate Hx | by destruct Hx | done | by eexists].
  - unfold HttpStream.flush, pending. simpl. by rewrite !deliver_nil.
Qed.

Lemma value_inside_header_state start h s p u :
  value_inside start h s p u -> hp_header_state p = h.
Proof.
  intros Hin. pose proof (bd_parser _ _ _ _ _ _ _ (li_boundary _ _ _ _ _ _ _ _ _ _ Hin)) as Hp.
  change h with (hp_header_state (parser (local_state h s))). symmetry. by injection Hp.
Qed.

(** One byte further inside a value. *)
Lemma value_advance start h s p u b c h' p1 p2 :
  let n := u32 (hp_nread p + u32 1) in
  value_inside start h s p u -> data !! pos s = Some b -> n <= mx ->
  erase (set_header_state h' p1) = erase (set_header_state h' p2) ->
  hp_http_errno p1 = HPE_OK -> hp_lenient_http_headers p1 = lenient ->
  hp_allow_chunked_length p1 = acl ->
  value_inside start h' (with_pos (S (pos s)) (with_parser p1 (with_ch c s)))
    (HttpParser.set_state s_header_value
       (HttpParser.set_nread n (set_header_state h' p2)))
    (deliver settings for_header_value [b] u).
Proof.
  intros n Hin Hb Hn Hp12 He Hl Ha.
  apply (line_inside_advance settings data mx lenient acl Hmx Hsize for_header_value
    s_header_value start (local_state h s) p u (set_header_state h' p1) (set_header_state h' p2) b c);
    done.
Qed.

(** In the general state a single character changes nothing. *)
Lemma value_advance_general start s p u b c :
  let n := u32 (hp_nread p + u32 1) in
  value_inside start h_general s p u -> data !! pos s = Some b -> n <= mx ->
  end_of_line (uchar b) = false -> bad_char (uchar b) = false ->
  exists p' u', one b p u = Some (false, p', u') /\
    value_inside start h_general (with_pos (S (pos s)) (with_ch c s)) p' u'.
Proof.
  intros n Hin Hb Hn Heol Hbad. pose proof (value_inside_header_state _ _ _ _ _ Hin) as Hh.
  pose proof (li_boundary _ _ _ _ _ _ _ _ _ _ Hin) as [Hst Hp He Hl Ha _ _ _].
  exists (HttpParser.set_state s_header_value (HttpParser.set_nread n (set_header_state h_general p))),
    (deliver settings for_header_value [b] u).
  split.
  - apply (value_byte b p u h_general p); try done.
    + by rewrite Hst, (li_state _ _ _ _ _ _ _ _ _ _ Hin).
    + by eapply line_errno.
    + rewrite Hh. unfold header_value_char. set (s0 := line_frame _ _ _ _ _).
      unfold mbind at 1 2 3 4 5, M_bind at 1 2 3 4 5, gets.
      assert (exists o, (o <= 1)%nat /\ value_run [b] lenient (S (length [b]))
                (run_end [b] mx (pos s0)) s0 = Next tt (with_pos o s0)) as (o & Ho & ->).
      { cbn [value_run]. unfold load_ch, mbind, M_bind, gets, modify, mret, M_ret, run_end.
        cbn [s0 line_frame pos with_nread with_ch entry_marks with_header_value_mark length].
        destruct (Z.to_nat (Z.min (Z.of_nat (1 - 0)) mx)) as [| [| k]] eqn:Hk; [| | lia].
        - by exists 0%nat; split; [lia |].
        - cbn -[IS_HEADER_CHAR]. unfold end_of_line in Heol. rewrite Heol.
          unfold bad_char in Hbad. rewrite Hbad. by exists 1%nat; split; [lia |]. }
      cbn [pos with_pos length]. unfold modify, mret, M_ret.
      by destruct o as [| [| ?]]; [| | lia].
  - pose proof (value_advance start h_general s p u b c h_general (parser s) p Hin Hb Hn) as H.
    replace (with_parser (parser s) (with_ch c s)) with (with_ch c s) in H by (by destruct s).
    apply H; try done. etransitivity; [exact Hp |]. rewrite <- Hh. by destruct p.
Qed.

Lemma value_inside_ch start h s p u c :
  value_inside start h s p u -> value_inside start h (with_ch c s) p u.
Proof. intros Hin. exact (line_inside_ch settings data mx lenient acl _ _ _ _ _ c Hin). Qed.

Lemma value_overflow start h s p u :
  value_inside start h s p u -> (pos s < len)%nat -> mx < u32 (hp_nread p + u32 1) ->
  run (drop (pos s) data) p u = None /\ too_many (pos s) start s.
Proof.
  intros Hin Hlt Hn.
  exact (line_overflow settings data mx lenient acl Hmx Hsize _ _ _ _ _ Hin eq_refl Hlt Hn).
Qed.

Lemma value_hp_state start h s p u :
  value_inside start h s p u -> hp_state p = s_header_value.
Proof.
  intros Hin. rewrite (bd_state _ _ _ _ _ _ _ (li_boundary _ _ _ _ _ _ _ _ _ _ Hin)).
  apply (li_state _ _ _ _ _ _ _ _ _ _ Hin).
Qed.

(** The call on a byte of a value, from the [switch] on. *)
Lemma one_value start h s p u b :
  value_inside start h s p u -> u32 (hp_nread p + u32 1) <= mx ->
  one b p u = settle b (value_rest [b] 2 0 h
    (line_frame b s_header_value (u32 (hp_nread p + u32 1)) p u)).
Proof.
  intros Hin Hn. pose proof (value_hp_state _ _ _ _ _ Hin) as Hst.
  rewrite one_counted by (by rewrite Hst).
  destruct (Z.ltb_spec mx (u32 (hp_nread p + u32 1))); [lia |].
  unfold initial_frame. rewrite Hst, reexecute_value by done. f_equal. cbn [pos parser with_nread
    with_ch entry_marks with_header_value_mark length].
  by rewrite (value_inside_header_state _ _ _ _ _ Hin).
Qed.

Lemma value_bad start h s p u b :
  value_inside start h s p u -> data !! pos s = Some b ->
  end_of_line (uchar b) = false -> bad_char (uchar b) = true ->
  run (drop (pos s) data) p u = None.
Proof.
  intros Hin Hb Heol Hbad. pose proof (lookup_lt_Some _ _ _ Hb).
  destruct (Z.le_gt_cases (u32 (hp_nread p + u32 1)) mx) as [Hn | Hn].
  2: { apply (value_overflow start h s p u); [done | done | lia]. }
  rewrite (drop_S _ _ _ Hb). apply run_fail. rewrite (one_value _ _ _ _ _ b Hin Hn).
  unfold value_rest, mbind, M_bind. rewrite (loop_turn [b] 1 0 h _ b) by done. cbv zeta.
  apply orb_false_iff in Heol as [-> ->]. by rewrite Hbad.
Qed.

(** The inner loop over the characters of a value. *)
Lemma value_run_turn pe start k0 (K : frame U -> result U unit) fuel s p u :
  let next s := K (with_pos ((if (pos s =? len)%nat then pos s - 1 else pos s) + 1) s) in
  (forall s p u, value_inside start h_general s p u -> turn_rel (pos s) p u (K s)) ->
  (forall k s, too_many k start s -> p_state s = s_header_value -> stops (K s)) ->
  value_inside start h_general s p u ->
  (pos s <= pe <= len)%nat -> (k0 <= pos s)%nat ->
  ((pe < len)%nat -> mx < nread s + (Z.of_nat pe - Z.of_nat start)) ->
  (k0 < pos s \/ exists b, data !! pos s = Some b /\ end_of_line (uchar b) = false)%nat ->
  turn_rel (pos s) p u
    (match value_run data lenient fuel pe s with
     | Next _ s' => next s'
     | r => r
     end).
Proof.
  intros next HK Hstop. revert s p u.
  induction fuel as [| fuel IH]; intros s p u Hin Hpe Hle Hover Hk0; [done |].
  pose proof (li_pos _ _ _ _ _ _ _ _ _ _ Hin) as Hpos.
  pose proof (li_start _ _ _ _ _ _ _ _ _ _ Hin) as Hstart. cbn [pos local_state with_parser] in Hpos.
  cbn [value_run]. unfold load_ch, mbind, M_bind, gets, modify, mret, M_ret.
  destruct (Nat.eqb_spec (pos s) pe) as [Heq | Hne].
  - unfold next. destruct (Nat.eqb_spec (pos s) len) as [Hl | Hl].
    + replace (with_pos (pos s - 1 + 1) s) with s by (replace (pos s - 1 + 1)%nat with (pos s) by lia; by destruct s).
      by apply HK.
    + assert (mx < u32 (hp_nread p + u32 1)) as Hn.
      { rewrite (line_count settings data mx lenient acl Hmx Hsize _ _ _ _ _ Hin) by (simpl; lia).
        cbn [nread pos local_state with_parser]. rewrite Heq. apply Hover. lia. }
      destruct (value_overflow _ _ _ _ _ Hin ltac:(lia) Hn) as [Hrun Hmany].
      apply turn_rel_stops; [| done]. apply (Hstop (pos s)); [| apply (li_state _ _ _ _ _ _ _ _ _ _ Hin)].
      destruct Hmany as (? & ? & ? & ? & ? & ?). split_and!; simpl; lia.
  - destruct (lookup_lt_is_Some_2 data (pos s)) as [b Hb]; [lia |]. rewrite Hb. cbn [ch with_ch].
    destruct ((uchar b =? CR) || (uchar b =? LF)) eqn:Heol.
    { destruct Hk0 as [Hk0 | (b' & Hb' & Hf)]; [| rewrite Hb in Hb'; injection Hb' as <-; unfold end_of_line in Hf; congruence].
      unfold next. cbn [pos with_pos].
      destruct (Nat.eqb_spec (pos s - 1) len); [lia |].
      replace (with_pos (pos s - 1 + 1) (with_pos (pos s - 1) (with_ch (uchar b) s)))
        with (with_ch (uchar b) s) by (replace (pos s - 1 + 1)%nat with (pos s) by lia; by destruct s).
      apply (HK (with_ch (uchar b) s)). by apply value_inside_ch. }
    destruct (negb lenient && negb (IS_HEADER_CHAR (uchar b))) eqn:Hbad.
    { by apply (value_bad start h_general s p u b). }
    destruct (Z.le_gt_cases (u32 (hp_nread p + u32 1)) mx) as [Hn | Hn].
    + destruct (value_advance_general start s p u b (uchar b) Hin Hb Hn Heol Hbad)
        as (p' & u' & Hone & Hin').
      eapply turn_rel_cons; [done | done |]. rewrite Nat.add_1_r.
      apply (IH (with_pos (S (pos s)) (with_ch (uchar b) s)));
        [done | simpl; lia | simpl; lia | exact Hover | left; simpl; lia].
    + destruct (value_overflow _ _ _ _ _ Hin ltac:(lia) ltac:(lia)) as [Hrun Hmany].
      apply turn_rel_stops; [| done].
      pose proof (value_run_moved fuel (pos s) pe (with_pos (pos s + 1) (with_ch (uchar b) s))) as Hm.
      unfold pwp in Hm. destruct (value_run _ _ _ _ _) as [[] s' | | |];
        try (by apply Hm; simpl; lia); try done.
      destruct Hm as (Hnr & Hst' & Hp); [lia | simpl; lia | left; simpl; lia |]. simpl in *.
      apply (Hstop (pos s)).
      * destruct Hmany as (? & ? & ? & ? & ? & ?).
        destruct (Nat.eqb_spec (pos s') len); split_and!; simpl; lia.
      * simpl. rewrite Hst'. apply (li_state _ _ _ _ _ _ _ _ _ _ Hin).
Qed.

(** ** The ends of a value *)

(** The whole call has not counted the line yet and has not stored [h_state]. *)
Definition uncounted (c : Z) (x : header_states) s : frame U :=
  with_nread c (with_parser (set_header_state x (parser s)) s).

Lemma value_cr_rel i b start h s1 s2 o1 o2 :
  sim settings data [b] i 0 lenient acl o1 o2 s1 s2 -> p_state s1 = s_header_value ->
  pend_ok s_header_value o1 o2 -> forall c x,
  (i < len)%nat -> u32 (c + u32 (Z.of_nat i - Z.of_nat start)) = nread s1 ->
  u32 (nread s1 + u32 0) = nread s1 ->
  rwp i 0 (r ← value_cr data h; value_end data start r) (r ← value_cr [b] h; value_end [b] 0 r)
    (in_step settings data [b] i 0 lenient acl) (uncounted c x s1) s2.
Proof.
  revert s1 s2 o1 o2. unfold value_cr, set_hs, uncounted. lock_start. intros c x Hi Hc1 Hc2.
  cbn [nread] in *. lock_cbn. repeat lock_step.
  cbn [value_end]. unfold set_hs. do 5 lock_step.
  assert ((i =? len)%nat = false) as -> by (apply Nat.eqb_neq; lia).
  change (0 =? length [b])%nat with false. cbv iota.
  do 4 lock_step. apply rwp_COUNT; lock_cbn; [by rewrite Hc1 | intros _].
  rewrite Hc1. lock_step. lock_done.
Qed.

Lemma value_lf_rel i b start h s1 s2 o1 o2 :
  sim settings data [b] i 0 lenient acl o1 o2 s1 s2 -> p_state s1 = s_header_value ->
  pend_ok s_header_value o1 o2 -> forall c x,
  u32 (c + u32 (Z.of_nat i - Z.of_nat start)) = nread s1 ->
  u32 (nread s1 + u32 0) = nread s1 ->
  rwp i 0 (r ← value_lf data start h; value_end data start r)
    (r ← value_lf [b] 0 h; value_end [b] 0 r)
    (in_step settings data [b] i 0 lenient acl) (uncounted c x s1) s2.
Proof.
  revert s1 s2 o1 o2. unfold value_lf, set_hs, uncounted. lock_start. intros c x Hc1 Hc2.
  cbn [nread] in *. lock_cbn. do 5 lock_step.
  apply rwp_bind, rwp_COUNT; lock_cbn; [by rewrite Hc1 | intros _].
  rewrite Hc1. repeat lock_step. cbn [value_end]. lock_step. lock_done.
Qed.

(** The end of the buffer inside a value. *)
Lemma value_rest_end fuel start h s p u :
  value_inside start h s p u -> pos s = len ->
  turn_rel (pos s) p u (value_rest data (S fuel) start h s).
Proof.
  intros Hin Hl. pose proof Hin as [Hbd Hst Hp Hs Hr Hc Hle].
  cbn [pos nread local_state with_parser] in Hp, Hr, Hc, Hle.
  unfold value_rest, mbind, M_bind. rewrite loop_end by done.
  unfold value_end, set_hs, modify_parser, COUNT_HEADER_SIZE, mbind, M_bind, gets, modify, mret, M_ret.
  cbn [pos with_parser]. rewrite Hl, Nat.eqb_refl. cbn [nread with_nread with_pos pos].
  change (nread (with_parser ?p s)) with (nread s). specialize (Hle ltac:(lia)).
  assert (u32 (nread s + u32 (Z.of_nat (len - 1) - Z.of_nat start)) = hp_nread p) as ->.
  { rewrite Hc. rewrite (u32_small (_ - _)) by lia. f_equal. lia. }
  assert (hp_nread p <= mx) by (rewrite Hc, u32_small; lia).
  destruct (Z.ltb_spec mx (hp_nread p)); [lia |]. simpl.
  split; [lia |]. exists p, u. split_and!; [| done |].
  - eapply boundary_ch with (c := ch s).
    apply (boundary_with_nread settings data lenient acl (local_state h s) p u (hp_nread p)
             (ch s) _ Hbd). simpl. lia.
  - replace (S (len - 1)) with len by lia. by rewrite Nat.sub_diag, shift_0.
Qed.

Lemma value_rest_cr d fuel start h s b :
  d !! pos s = Some b -> (uchar b =? CR) = true ->
  value_rest d (S fuel) start h s
  = (r ← value_cr d h; c ← value_end d start r; after d c) (with_ch (uchar b) s).
Proof.
  intros Hb Hc. unfold value_rest, mbind, M_bind. rewrite (loop_turn d fuel start h s b Hb).
  cbv zeta. by rewrite Hc.
Qed.

Lemma value_rest_lf d fuel start h s b :
  d !! pos s = Some b -> (uchar b =? CR) = false -> (uchar b =? LF) = true ->
  value_rest d (S fuel) start h s
  = (r ← value_lf d start h; c ← value_end d start r; after d c) (with_ch (uchar b) s).
Proof.
  intros Hb Hc Hl. unfold value_rest, mbind, M_bind. rewrite (loop_turn d fuel start h s b Hb).
  cbv zeta. by rewrite Hc, Hl.
Qed.

(** From the end of the line to the end of the turn. *)
Lemma value_after_rel i b start (m1 m2 : M U (header_states + unit)) s1 s2 :
  rwp i 0 (r ← m1; value_end data start r) (r ← m2; value_end [b] 0 r)
    (in_step settings data [b] i 0 lenient acl) s1 s2 ->
  rwp i 0 (r ← m1; c ← value_end data start r; after data c)
    (r ← m2; c ← value_end [b] 0 r; after [b] c)
    (next_rel settings data lenient acl b i) s1 s2.
Proof.
  intros H.
  assert (rwp i 0 (c ← (r ← m1; value_end data start r); after data c)
            (c ← (r ← m2; value_end [b] 0 r); after [b] c)
            (next_rel settings data lenient acl b i) s1 s2) as H'.
  { apply rwp_bind. eapply rwp_mono; [exact H | intros; by apply in_step_next]. }
  revert H'. unfold rwp, mbind, M_bind. by destruct (m1 _), (m2 _).
Qed.

(** The last byte of a value. *)
Lemma value_rest_eol fuel start h s p u b :
  value_inside start h s p u -> data !! pos s = Some b -> end_of_line (uchar b) = true ->
  u32 (hp_nread p + u32 1) <= mx ->
  turn_rel (pos s) p u (value_rest data (S fuel) start h s).
Proof.
  intros Hin Hb Heol Hn. pose proof (lookup_lt_Some _ _ _ Hb) as Hlt.
  pose proof (li_boundary _ _ _ _ _ _ _ _ _ _ Hin) as Hbd.
  pose proof (li_pos _ _ _ _ _ _ _ _ _ _ Hin) as Hpos. cbn [pos local_state with_parser] in Hpos.
  pose proof (li_nread _ _ _ _ _ _ _ _ _ _ Hin) as Hnr. cbn [nread local_state with_parser] in Hnr.
  pose proof (line_count settings data mx lenient acl Hmx Hsize _ _ _ _ _ Hin Hlt) as Hcount.
  cbn [pos nread local_state with_parser] in Hcount.
  set (n := u32 (hp_nread p + u32 1)) in *.
  set (s2 := line_frame b s_header_value n p u).
  pose proof (value_hp_state _ _ _ _ _ Hin) as Hps.
  destruct (boundary_sim settings data lenient acl (local_state h s) p u n b Hbd Hb)
    as (o & Hpend & Hsim).
  rewrite (li_state _ _ _ _ _ _ _ _ _ _ Hin) in Hpend, Hsim.
  unfold initial_frame in Hsim. rewrite Hps in Hsim.
  change (with_nread n _) with s2 in Hsim at 2.
  assert (u32 (nread s + u32 (Z.of_nat (pos s) - Z.of_nat start)) = n) as Hc1
    by (rewrite (u32_small (_ - _)), u32_small by lia; done).
  assert (u32 (n + u32 0) = n) as Hc2 by (rewrite (u32_small 0), u32_small; lia).
  assert (uncounted (nread s) (hp_header_state (parser s))
            (with_nread n (with_ch (uchar b) (local_state h s))) = with_ch (uchar b) s) as Hun
    by (destruct s as [? ? ? ? ? ? ? ? ? [] ?]; done).
  pose proof (li_state _ _ _ _ _ _ _ _ _ _ Hin) as Hst1.
  apply (turn_rel_last settings data mx lenient acl (pos s) b p u _
           (value_rest [b] 2 0 h) s s2); [done | | by apply (one_value start h s)].
  unfold rwp. destruct (uchar b =? CR) eqn:Hcr.
  - rewrite (value_rest_cr data fuel start h s b), (value_rest_cr [b] 1 0 h s2 b) by done.
    change (with_ch (uchar b) s2) with s2. apply value_after_rel. rewrite <- Hun.
    by apply (value_cr_rel (pos s) b start h _ s2 o _ Hsim Hst1 Hpend).
  - assert ((uchar b =? LF) = true) as Hlf
      by (unfold end_of_line in Heol; by rewrite Hcr in Heol).
    rewrite (value_rest_lf data fuel start h s b), (value_rest_lf [b] 1 0 h s2 b) by done.
    change (with_ch (uchar b) s2) with s2. apply value_after_rel. rewrite <- Hun.
    by apply (value_lf_rel (pos s) b start h _ s2 o _ Hsim Hst1 Hpend).
Qed.

(** The loop over a value and the bytes it consumes. *)
Lemma value_run_rel fuel start h s p u :
  value_inside start h s p u -> turn_rel (pos s) p u (value_rest data fuel start h s).
Proof.
  revert h s p u. induction fuel as [| fuel IH]; intros h s p u Hin; [done |].
  pose proof (li_pos _ _ _ _ _ _ _ _ _ _ Hin) as Hpos. cbn [pos local_state with_parser] in Hpos.
  destruct (Nat.eq_dec (pos s) len) as [Hl | Hl]; [by apply value_rest_end |].
  destruct (lookup_lt_is_Some_2 data (pos s)) as [b Hb]; [lia |].
  pose proof (li_state _ _ _ _ _ _ _ _ _ _ Hin) as Hst. cbn [p_state local_state with_parser] in Hst.
  destruct (Z.le_gt_cases (u32 (hp_nread p + u32 1)) mx) as [Hn | Hn].
  2: { destruct (value_overflow _ _ _ _ _ Hin ltac:(lia) ltac:(lia)) as [Hrun Hmany].
       apply turn_rel_stops; [| done]. by apply (value_rest_too_many (pos s)). }
  destruct (end_of_line (uchar b)) eqn:Heol; [by eapply value_rest_eol |].
  unfold value_rest, mbind, M_bind. rewrite (loop_turn data fuel start h s b Hb). cbv zeta.
  pose proof Heol as Hor. apply orb_false_iff in Hor as [-> ->].
  destruct (bad_char (uchar b)) eqn:Hbad; [by eapply value_bad |].
  assert (Hin1 : value_inside start h (with_ch (uchar b) s) p u) by (by apply value_inside_ch).
  destruct (decide (h = h_general)) as [-> | Hg].
  - unfold header_value_char, mbind, M_bind, gets, modify, mret, M_ret. cbn [pos with_ch].
    assert (forall k s, too_many k start s -> p_state s = s_header_value ->
              stops (value_rest data fuel start h_general s)) as Hstop
      by (intros; by eapply value_rest_too_many).
    pose proof (value_run_turn (run_end data mx (pos s)) start (pos s) _ (S len)
      (with_ch (uchar b) s) p u (IH h_general) Hstop Hin1) as H.
    pose proof (li_nread _ _ _ _ _ _ _ _ _ _ Hin) as Hnr.
    cbn [nread pos with_ch local_state with_parser] in Hnr, H.
    assert (pos s <= run_end data mx (pos s) <= len)%nat as Hend by (unfold run_end; lia).
    specialize (H Hend ltac:(lia) ltac:(unfold run_end; lia)
                  (or_intror (ex_intro _ b (conj Hb Heol)))).
    destruct (value_run data lenient (S len) _ _) as [[] s' | | |]; try exact H.
    by destruct (pos s' =? len)%nat.
  - destruct (header_value_char_same data [b] mx lenient h (with_ch (uchar b) s)
      (line_frame b s_header_value (u32 (hp_nread p + u32 1)) p u))
      as [(f & -> & _) | [(s1' & s2' & -> & Hbyte) | (h' & fl & ix & cl & -> & Hbyte)]];
      try done.
    { etransitivity; [apply (bd_parser _ _ _ _ _ _ _ (li_boundary _ _ _ _ _ _ _ _ _ _ Hin)) |].
      rewrite <- (value_inside_header_state _ _ _ _ _ Hin). by destruct p. }
    + simpl. rewrite (drop_S _ _ _ Hb). apply run_fail. rewrite (one_value _ _ _ _ _ b Hin Hn).
      unfold value_rest, mbind, M_bind. rewrite (loop_turn [b] 1 0 h _ b) by done. cbv zeta.
      pose proof Heol as Hor. apply orb_false_iff in Hor as [-> ->]. rewrite Hbad.
      change (with_ch (uchar b) (line_frame b ?st ?n p u)) with (line_frame b st n p u).
      by rewrite Hbyte.
    + cbn [pos with_ch with_parser]. rewrite Nat.add_1_r.
      pose proof (li_boundary _ _ _ _ _ _ _ _ _ _ Hin) as Hbd.
      pose proof (bd_parser _ _ _ _ _ _ _ Hbd) as Hp.
      pose proof (value_inside_header_state _ _ _ _ _ Hin) as Hh.
      pose proof (line_errno settings data mx lenient acl _ _ _ _ _ Hin) as He.
      change (parser (with_ch (uchar b) s)) with (parser s).
      assert (erase (set_header_state h' (set_value fl ix cl (parser s)))
              = erase (set_header_state h' (set_value fl ix cl p))) as Hv.
      { unfold local_state in Hp. cbn [parser with_parser] in Hp.
        destruct (parser s), p. by same_parser Hp. }
      eapply turn_rel_cons; [done | | apply (IH h'), (value_advance start h s p u b (uchar b) h'
        (set_value fl ix cl (parser s)) (set_value fl ix cl p) Hin Hb Hn Hv)];
        [| apply (bd_errno _ _ _ _ _ _ _ Hbd) | apply (bd_lenient _ _ _ _ _ _ _ Hbd)
         | apply (bd_acl _ _ _ _ _ _ _ Hbd)].
      apply value_byte; try done; [by eapply value_hp_state |]. by rewrite Hh.
Qed.

Lemma turn_rel_header_value s p u :
  boundary s p u -> hp_nread p = nread s -> 0 <= nread s <= mx ->
  p_state s = s_header_value -> (pos s < len)%nat ->
  turn_rel (pos s) p u (turn settings data mx lenient acl s).
Proof.
  apply (turn_rel_line settings data mx lenient acl Hmx s_header_value
    (fun s => value_rest data (S len) (pos s) (hp_header_state (parser s)) s)); [done | |].
  - intros s' Hst. by apply reexecute_value.
  - intros s' p' u' Hin. apply value_run_rel. unfold value_inside, local_state.
    replace (with_parser (set_header_state (hp_header_state (parser s')) (parser s')) s') with s';
      [done | by destruct s' as [? ? ? ? ? ? ? ? ? [] ?]].
Qed.
End values.
