(* ===== verification/HttpSplitBodies.v ===== *)
(** * HttpSplitBodies: the bodies, byte by byte *)

From S2P Require Import Prelude.
From S2P Require Import HttpTables.
From S2P Require Import HttpUrl.
From S2P Require Import HttpParser.
From S2P Require Import HttpMonad.
From S2P Require Import HttpExec.
From S2P Require Import HttpWp.
From S2P Require Import HttpInvariant.
From S2P Require Import HttpSafety.
From S2P Require Import HttpBody.
From S2P Require Import HttpStream.
From S2P Require Import HttpLockstep.
From S2P Require Import HttpSplit.
From S2P Require Import HttpSplitLines.
Local Open Scope Z_scope.

Section bodies.
Context {U : Type} (settings : http_parser_settings U) `{!Streaming settings}.
Context (data : list Byte.byte) (mx : Z) (lenient acl : bool).
Abbreviation len := (length data).
Abbreviation one := (one settings mx lenient acl).
Abbreviation run := (run settings mx lenient acl).
Abbreviation settle := (settle settings).
Abbreviation flush := (flush settings).
Abbreviation boundary := (boundary settings data lenient acl).
Abbreviation turn_rel := (turn_rel settings data mx lenient acl).
Abbreviation reexecute d := (reexecute settings d mx lenient acl reexecute_fuel).
Implicit Types s : frame U.

(** Outside the headers no byte is counted. *)
Lemma turn_uncounted s b :
  PARSING_HEADER (p_state s) = false -> data !! pos s = Some b ->
  turn settings data mx lenient acl s = reexecute data (with_ch (uchar b) s).
Proof.
  intros Hh Hb. unfold turn, load_ch, mbind, M_bind, gets, modify. rewrite Hb.
  change (p_state (with_ch (uchar b) s)) with (p_state s). by rewrite Hh.
Qed.

Lemma one_uncounted b p (u : U) :
  PARSING_HEADER (hp_state p) = false ->
  one b p u
  = settle b (reexecute [b] (with_ch (uchar b) (entry_marks (hp_state p) (initial_frame p u)))).
Proof.
  intros Hh. unfold HttpSplit.one, turn, load_ch, mbind, M_bind, gets, modify.
  destruct (entry_frame p u) as (Hpos & Hst & _). rewrite Hpos. cbn [lookup list_lookup].
  change (p_state (with_ch (uchar b) ?s)) with (p_state s). by rewrite Hst, Hh.
Qed.

(** [MARK(body)]. *)
Definition mark_body s : frame U :=
  match body_mark s with
  | None => with_body_mark (Some (pos s)) s
  | Some _ => s
  end.

Lemma mark_body_shape o s :
  shape o s -> (o = None \/ o = Some for_body) -> shape (Some for_body) (mark_body s).
Proof.
  intros Hsh Ho FOR. specialize (Hsh FOR). unfold mark_body.
  destruct (body_mark s) eqn:Hm; destruct FOR; simpl in *; rewrite ?Hm in *;
    destruct Ho as [-> | ->]; split; intros H; try done; try by eexists.
  all: first [ by apply Hsh in H | by destruct (proj1 Hsh (ex_intro _ _ eq_refl)) ].
Qed.

Lemma mark_body_flush d s : flush d (mark_body s) = flush d s.
Proof.
  unfold mark_body. destruct (body_mark s) eqn:Hm; [done |].
  unfold HttpStream.flush, pending. simpl. by rewrite Hm, Nat.sub_diag, take_0.
Qed.

Lemma mark_body_le s : marks_le s -> marks_le (mark_body s).
Proof.
  intros H FOR m. unfold mark_body. destruct (body_mark s) eqn:Hm; [apply H |].
  destruct FOR; simpl; try apply (H for_header_field); try apply (H for_header_value);
    try apply (H for_url); try apply (H for_status). intros [= <-]. done.
Qed.

(** One byte further inside a body. *)
Lemma body_advance s p u p1 p2 b n :
  boundary s p u -> marked_in for_body (p_state s) = true -> entry_pend (p_state s) = None ->
  data !! pos s = Some b -> erase p1 = erase p2 -> hp_http_errno p1 = HPE_OK ->
  hp_lenient_http_headers p1 = lenient -> hp_allow_chunked_length p1 = acl ->
  boundary (with_pos (S (pos s)) (with_parser p1 (mark_body s)))
    (HttpParser.set_state (p_state s) (HttpParser.set_nread n p2))
    (deliver settings for_body [b] u).
Proof.
  intros [Hst Hp He Hlen Hacl Hfl (o & Hsh & Hdone) Hle] Hin Hent Hb Hp12 He1 Hl1 Ha1.
  assert (o = None \/ o = Some for_body) as Ho.
  { destruct Hdone as [-> | [-> _]]; [by left | by right]. }
  assert (pos (mark_body s) = pos s) as Hpos by (unfold mark_body; by destruct (body_mark s)).
  assert (p_state (mark_body s) = p_state s) as Hps
    by (unfold mark_body; by destruct (body_mark s)).
  pose proof (mark_body_shape o s Hsh Ho) as Hsh'. pose proof (mark_body_le s Hle) as Hle'.
  split; cbn [p_state with_pos with_parser parser]; try done.
  - rewrite <- Hfl, <- (mark_body_flush data s).
    rewrite <- (flush_advance settings (Some for_body) data (mark_body s) b Hsh' Hle')
      by (by rewrite Hpos).
    rewrite Hpos. by destruct (mark_body s).
  - exists (Some for_body). split; [| right; split; [done | by rewrite Hps]].
    intros FOR. specialize (Hsh' FOR). by destruct FOR.
  - intros FOR m Hm. enough (m <= pos s)%nat by (simpl; lia). rewrite <- Hpos.
    apply (Hle' FOR). by destruct FOR.
Qed.

(** ** A body of known length *)

(** The states that read such a body, and what holds of their fields. *)
Definition counted_body (st : state) : Prop := st = s_body_identity \/ st = s_chunk_data.
Definition body_fields (st : state) (p : http_parser) : Prop :=
  0 < hp_content_length p < ULLONG_MAX /\
  (st = s_chunk_data -> has_flag F_CHUNKED p = true).

(** The case when a single byte is read. *)
Definition body_one : M U unit :=
  p ← gets parser;
  MARK for_body;;
  modify_parser (set_content_length (hp_content_length p - 1)).
Definition body_case (d : list Byte.byte) (st : state) : M U ctl :=
  match st with
  | s_body_identity =>
      p ← gets parser;
      assert_ (content_length_known p);;
      body_one;;
      p ← gets parser;
      o ← gets pos;
      if hp_content_length p =? 0 then
        UPDATE_STATE s_message_done;;
        CALLBACK_DATA_ settings d for_body (fun mark => o - mark + 1)%nat o;;
        mret Reexecute
      else mret Break
  | _ =>
      assert_chunked;;
      p ← gets parser;
      assert_ (content_length_known p);;
      body_one;;
      p ← gets parser;
      if hp_content_length p =? 0
      then UPDATE_STATE s_chunk_data_almost_done;; mret Break
      else mret Break
  end.
Definition body_after (d : list Byte.byte) (c : ctl) : M U unit :=
  match c with
  | Break => mret tt
  | Reexecute => HttpExec.reexecute settings d mx lenient acl 7
  end.

(** A single byte is left of the body or of the buffer. *)
Lemma consume_body_one d s :
  to_read d (parser s) (pos s) = 1 -> consume_body d s = body_one s.
Proof.
  intros H1. unfold consume_body, body_one, mbind, M_bind, gets, modify_parser, modify, MARK.
  rewrite H1. change (Z.to_nat 1 - 1)%nat with 0%nat. rewrite Nat.add_0_r.
  by destruct s as [? ? ? ? ? ? ? [|] ? ? ?].
Qed.

Lemma bind_gets {A B} (f : frame U -> A) (k : A -> M U B) s : (x ← gets f; k x) s = k (f s) s.
Proof. done. Qed.
Lemma bind_assert {A} b (m : M U A) s :
  (assert_ b;; m) s = if b then m s else Fault assertion_failed.
Proof. by destruct b. Qed.
Lemma bind_bind {A B C} (m : M U A) (f : A -> M U B) (g : B -> M U C) s :
  (x ← (y ← m; f y); g x) s = (y ← m; x ← f y; g x) s.
Proof. unfold mbind, M_bind. by destruct (m s). Qed.
Lemma bind_ext {A B} (m1 m2 : M U A) (f1 f2 : A -> M U B) s :
  m1 s = m2 s -> (forall a s', f1 a s' = f2 a s') -> (m1 ≫= f1) s = (m2 ≫= f2) s.
Proof. unfold mbind, M_bind. intros -> Hf. by destruct (m2 s). Qed.

Lemma bind_ext_s {A B} (m : M U A) (f : A -> M U B) s1 s2 :
  m s1 = m s2 -> (m ≫= f) s1 = (m ≫= f) s2.
Proof. unfold mbind, M_bind. by intros ->. Qed.

Lemma reexecute_body_one d st s :
  counted_body st -> p_state s = st -> to_read d (parser s) (pos s) = 1 ->
  reexecute d s = (c ← body_case d st; body_after d c) s.
Proof.
  intros Hst Hp H1. pose proof (consume_body_one d s H1) as Hc.
  unfold reexecute_fuel. cbn [HttpExec.reexecute]. rewrite bind_gets, Hp.
  apply bind_ext; [| by intros []]. destruct Hst as [-> | ->]; cbn [switch body_case].
  - unfold case_s_body_identity. rewrite !bind_gets, !bind_assert. case_match; [| done].
    by apply bind_ext.
  - unfold case_s_chunk_data, assert_chunked. rewrite !bind_bind, !bind_gets, !bind_assert.
    case_match; [| done]. rewrite !bind_gets, !bind_assert. case_match; [| done].
    by apply bind_ext.
Qed.

(** Two bytes or more are left: the first one may be skipped. *)
Definition body_skip s : frame U :=
  with_pos (S (pos s))
    (with_parser (set_content_length (hp_content_length (parser s) - 1) (parser s))
       (mark_body s)).

Lemma consume_body_more s :
  (pos s + 1 < len)%nat -> 2 <= hp_content_length (parser s) ->
  consume_body data s = consume_body data (body_skip s).
Proof.
  intros Hpos Hcl. unfold consume_body. rewrite !bind_gets.
  unfold mbind, M_bind, modify_parser, modify, MARK, mark_body, body_skip.
  destruct s as [i c st n hf hv um bm sm p u]. cbn [pos parser body_mark] in *.
  assert (to_read data (set_content_length (hp_content_length p - 1) p) (S i)
          = to_read data p i - 1) as Ht by (unfold to_read; simpl; lia).
  assert (2 <= to_read data p i) by (unfold to_read; simpl; lia).
  set (t := to_read data p i) in *.
  assert (S (i + (Z.to_nat (t - 1) - 1)) = i + (Z.to_nat t - 1))%nat as Hi by lia.
  assert (hp_content_length p - 1 - (t - 1) = hp_content_length p - t) as Hl by lia.
  destruct bm as [m |]; simpl; rewrite Ht, Hi, Hl; by destruct p.
Qed.

Lemma reexecute_body_more st s :
  counted_body st -> p_state s = st -> body_fields st (parser s) ->
  (pos s + 1 < len)%nat -> 2 <= hp_content_length (parser s) ->
  reexecute data s = reexecute data (body_skip s).
Proof.
  intros Hst Hp [Hcl Hch] Hpos H2. pose proof (consume_body_more s Hpos H2) as Hc.
  assert (p_state (body_skip s) = p_state s) as Hp'
    by (unfold body_skip, mark_body; by destruct (body_mark s)).
  assert (content_length_known (parser s) = true) as Hk by (apply content_length_known_intro; lia).
  assert (content_length_known (parser (body_skip s)) = true) as Hk'
    by (apply content_length_known_intro; simpl; lia).
  unfold reexecute_fuel. cbn [HttpExec.reexecute]. rewrite !bind_gets, Hp', Hp.
  enough (switch settings data mx lenient acl st s
          = switch settings data mx lenient acl st (body_skip s)) as H
    by (unfold mbind, M_bind; by rewrite H).
  destruct Hst as [-> | ->]; cbn [switch].
  - unfold case_s_body_identity. rewrite !bind_gets, !bind_assert, Hk, Hk'. by apply bind_ext_s.
  - unfold case_s_chunk_data, assert_chunked. rewrite !bind_bind, !bind_gets, !bind_assert.
    change (has_flag F_CHUNKED (parser (body_skip s))) with (has_flag F_CHUNKED (parser s)).
    rewrite Hch by done. rewrite !bind_gets, !bind_assert, Hk, Hk'. by apply bind_ext_s.
Qed.

Lemma deliver_one (d : list Byte.byte) m i b (u : U) :
  (m <= i)%nat -> d !! i = Some b ->
  deliver settings for_body (take (i - m + 1) (drop m d)) u
  = deliver settings for_body [b] (deliver settings for_body (take (i - m) (drop m d)) u).
Proof.
  intros Hm Hb. rewrite <- deliver_app. f_equal. rewrite Nat.add_1_r. apply take_S_r.
  rewrite lookup_drop. by replace (m + (i - m))%nat with i by lia.
Qed.

(** The end of the turn: the whole call may hold an older byte in [ch]. *)
Ltac body_done :=
  lazymatch goal with |- next_rel _ _ _ _ _ _ _ _ _ _ => idtac end;
  first
    [ exists (Some for_body); eexists; split; [solve_sim | right; split; reflexivity]
    | exists None; eexists; split;
      [solve_sim | left; symmetry; lock_cbn; reflexivity || apply entry_pend_NEW_MESSAGE] ].
(** The delivery of the last byte of the body. *)
Ltac body_data :=
  lazymatch goal with HS : Streaming _ |- rwp _ _ (CALLBACK_DATA_ _ _ _ _ _) _ _ _ _ =>
    apply (@rwp_DATA _ _ HS) end;
  [ reflexivity | reflexivity
  | lock_cbn;
    lazymatch goal with Hb : ?d !! ?i = Some ?b |- _ =>
      rewrite (deliver_one d _ i b) by (lia || assumption) end;
    rewrite ?Nat.sub_diag, ?take_0, ?deliver_nil; reflexivity
  | intros ? ? ?; lock_cbn ].
Ltac body_step :=
  first [ lock_step | body_data
        | lazymatch goal with |- rwp _ _ (body_after _ _) _ _ _ _ =>
            cbn [body_after HttpExec.reexecute] end
        | lazymatch goal with |- rwp _ _ (switch _ _ _ _ _ s_message_done) _ _ _ _ =>
            cbn [switch]; unfold case_s_message_done, message_complete end ].

Lemma body_case_rel st i b s1 s2 o1 o2 :
  counted_body st -> sim settings data [b] i 0 lenient acl o1 o2 s1 s2 ->
  p_state s1 = st -> pend_ok st o1 o2 -> data !! i = Some b -> forall c,
  rwp i 0 (c ← body_case data st; body_after data c) (c ← body_case [b] st; body_after [b] c)
    (next_rel settings data lenient acl b i) (with_ch c s1) s2.
Proof.
  intros Hst. revert s1 s2 o1 o2. destruct Hst as [-> | ->]; cbn [body_case].
  - lock_start; intros Hbyte c; lock_cbn;
      unfold body_one; repeat body_step.
    all: try body_done.
  - lock_start; intros Hbyte c; lock_cbn; unfold body_one, assert_chunked; repeat body_step.
    all: body_done.
Qed.

Lemma counted_body_facts st :
  counted_body st ->
  PARSING_HEADER st = false /\ marked_in for_body st = true /\ entry_pend st = None /\
  (forall p (u : U), hp_state p = st ->
     entry_marks (hp_state p) (initial_frame p u)
     = mk_frame 0 0 st (hp_nread p) None None None None None p u).
Proof. intros [-> | ->]; split_and!; try done; intros p u Hp; unfold initial_frame; by rewrite Hp. Qed.

(** A byte that is not the last of the body. *)
Lemma body_byte st b p (u : U) :
  counted_body st -> hp_state p = st -> hp_http_errno p = HPE_OK -> body_fields st p ->
  2 <= hp_content_length p ->
  one b p u = Some (false, HttpParser.set_state st (HttpParser.set_nread (hp_nread p)
                      (set_content_length (hp_content_length p - 1) p)),
                    deliver settings for_body [b] u).
Proof.
  intros Hst Hp He [Hcl Hch] H2. destruct (counted_body_facts st Hst) as (Hh & _ & _ & Hentry).
  rewrite one_uncounted by (by rewrite Hp). rewrite Hentry by done.
  set (s := with_ch (uchar b) _).
  rewrite (reexecute_body_one [b] st s) by (done || (unfold to_read; simpl; lia)).
  set (p1 := set_content_length (hp_content_length p - 1) p).
  set (s1 := with_parser p1 (mark_body s)).
  assert ((c ← body_case [b] st; body_after [b] c) s = Next tt s1) as ->.
  { assert (content_length_known (parser s) = true) as Hk by (apply content_length_known_intro; simpl; lia).
    assert ((hp_content_length p1 =? 0) = false) as Hz by (apply Z.eqb_neq; simpl; lia).
    destruct Hst as [-> | ->]; cbn [body_case]; rewrite !bind_bind.
    - rewrite bind_gets, bind_bind, bind_assert, Hk.
      unfold body_one, MARK, modify_parser, modify, mbind, M_bind, gets. cbn -[Z.eqb].
      change (hp_content_length p - 1) with (hp_content_length p1). by rewrite Hz.
    - unfold assert_chunked. rewrite !bind_bind, bind_gets, bind_assert.
      change (has_flag F_CHUNKED (parser s)) with (has_flag F_CHUNKED p).
      rewrite Hch by done. rewrite bind_bind, bind_gets, bind_bind, bind_assert, Hk.
      unfold body_one, MARK, modify_parser, modify, mbind, M_bind, gets. cbn -[Z.eqb].
      change (hp_content_length p - 1) with (hp_content_length p1). by rewrite Hz. }
  cbn [HttpSplit.settle].
  destruct (epilogue_eq settings (Some for_body) [b] 1 (with_pos 1 s1)) as (s' & -> & -> & ->).
  - done.
  - intros []; split; simpl; intros Hx;
      first [discriminate Hx | by destruct Hx | done | by eexists].
  - unfold HttpStream.flush, pending. simpl. by rewrite !deliver_nil.
Qed.

Lemma boundary_fields s p u :
  boundary s p u -> hp_content_length p = hp_content_length (parser s) /\
    hp_http_errno p = HPE_OK /\ hp_flags p = hp_flags (parser s).
Proof.
  intros [_ Hp He _ _ _ _ _]. rewrite <- He.
  split_and!; symmetry; by injection Hp.
Qed.

(** The frame with which a new call on a byte of a body begins, in step. *)
Lemma body_last st s p u b c :
  counted_body st -> boundary s p u -> hp_nread p = nread s -> p_state s = st ->
  data !! pos s = Some b -> to_read data (parser s) (pos s) = 1 ->
  0 < hp_content_length (parser s) ->
  turn_rel (pos s) p u (reexecute data (with_ch c s)).
Proof.
  intros Hst Hbd Hn Hp Hb H1 Hcl.
  destruct (counted_body_facts st Hst) as (Hh & _ & _ & Hentry).
  pose proof (bd_state _ _ _ _ _ _ _ Hbd) as Hps. rewrite Hp in Hps.
  destruct (boundary_fields s p u Hbd) as (Hcl' & _ & _).
  destruct (boundary_sim settings data lenient acl s p u (nread s) b Hbd Hb)
    as (o & Hpend & Hsim). rewrite Hp in Hpend, Hsim.
  set (s2 := with_ch (uchar b) (entry_marks (hp_state p) (initial_frame p u))).
  assert (with_nread (nread s) s2 = s2) as Hs2.
  { unfold s2. rewrite Hentry, <- Hn by done. done. }
  assert (with_nread (nread s) (with_ch (uchar b) s) = with_ch (uchar b) s) as Hs1
    by (by destruct s).
  fold s2 in Hsim. rewrite Hs1, Hs2 in Hsim.
  apply (turn_rel_last settings data mx lenient acl (pos s) b p u (reexecute data)
           (reexecute [b]) (with_ch c s) s2); [done | | by apply one_uncounted; rewrite Hps].
  unfold rwp. rewrite (reexecute_body_one data st (with_ch c s)) by done.
  rewrite (reexecute_body_one [b] st s2); [| done | |].
  - exact (body_case_rel st (pos s) b _ s2 o _ Hst Hsim Hp Hpend Hb c).
  - unfold s2. by rewrite Hentry.
  - unfold s2. rewrite Hentry by done. unfold to_read. simpl. lia.
Qed.

(** A body of known length, or what is left of the buffer. *)
Lemma counted_run st k s p u c :
  counted_body st -> (len - pos s <= k)%nat -> boundary s p u -> hp_nread p = nread s ->
  p_state s = st -> body_fields st (parser s) -> (pos s < len)%nat ->
  turn_rel (pos s) p u (reexecute data (with_ch c s)).
Proof.
  intros Hst. revert s p u c. induction k as [| k IH]; intros s p u c Hk Hbd Hn Hp Hf Hpos; [lia |].
  destruct (lookup_lt_is_Some_2 data (pos s) Hpos) as [b Hb].
  pose proof Hf as [Hcl Hch].
  destruct (Z.eq_dec (to_read data (parser s) (pos s)) 1) as [H1 | H1].
  { eapply body_last; eauto. lia. }
  assert (2 <= hp_content_length (parser s) /\ (pos s + 1 < len)%nat) as [H2 Hpos2]
    by (unfold to_read in H1; lia).
  destruct (counted_body_facts st Hst) as (Hh & Hin & Hent & _).
  destruct (boundary_fields s p u Hbd) as (Hcl' & Herr & Hfl).
  rewrite (reexecute_body_more st (with_ch c s)) by done.
  eapply turn_rel_cons; [done | |].
  { apply (body_byte st); try done; [| | lia].
    - by rewrite (bd_state _ _ _ _ _ _ _ Hbd).
    - split; [by rewrite Hcl' |]. intros H. unfold has_flag. rewrite Hfl. by apply Hch. }
  assert (boundary (body_skip s)
    (HttpParser.set_state st (HttpParser.set_nread (hp_nread p)
      (set_content_length (hp_content_length p - 1) p))) (deliver settings for_body [b] u)) as Hbd'.
  { rewrite <- Hp. apply (body_advance s p u); try done; try (by rewrite Hp).
    - rewrite Hcl'. pose proof (bd_parser _ _ _ _ _ _ _ Hbd) as He.
      destruct (parser s), p. by same_parser He.
    - apply (bd_errno _ _ _ _ _ _ _ Hbd).
    - apply (bd_lenient _ _ _ _ _ _ _ Hbd).
    - apply (bd_acl _ _ _ _ _ _ _ Hbd). }
  replace (body_skip (with_ch c s)) with (with_ch c (body_skip s))
    by (unfold body_skip, mark_body; by destruct s as [? ? ? ? ? ? ? [|] ? ? ?]).
  assert (nread (body_skip s) = nread s /\ p_state (body_skip s) = st) as [Hn' Hp'].
  { unfold body_skip, mark_body. by destruct (body_mark s). }
  apply (IH (body_skip s)); try done; simpl; try lia.
  - exact (eq_trans Hn (eq_sym Hn')).
  - split; [simpl; lia | exact Hch].
Qed.

Lemma turn_rel_counted s p u :
  boundary s p u -> hp_nread p = nread s -> counted_body (p_state s) ->
  body_fields (p_state s) (parser s) -> (pos s < len)%nat ->
  turn_rel (pos s) p u (turn settings data mx lenient acl s).
Proof.
  intros Hbd Hn Hst Hf Hpos. destruct (lookup_lt_is_Some_2 data (pos s) Hpos) as [b Hb].
  rewrite (turn_uncounted s b) by (done || by apply counted_body_facts).
  by apply (counted_run (p_state s) len); try done; lia.
Qed.

(** ** A body that ends with the connection *)

Lemma eof_byte b p (u : U) :
  hp_state p = s_body_identity_eof -> hp_http_errno p = HPE_OK ->
  one b p u = Some (false, HttpParser.set_state s_body_identity_eof
                      (HttpParser.set_nread (hp_nread p) p), deliver settings for_body [b] u).
Proof.
  intros Hp He. rewrite one_uncounted by (by rewrite Hp). unfold initial_frame. rewrite Hp.
  set (s := with_ch (uchar b) _).
  change (reexecute [b] s) with (Next (U:=U) tt (mark_body s)). cbn [HttpSplit.settle].
  destruct (epilogue_eq settings (Some for_body) [b] 1 (with_pos 1 (mark_body s)))
    as (s' & -> & -> & ->).
  - done.
  - intros []; split; simpl; intros Hx;
      first [discriminate Hx | by destruct Hx | done | by eexists].
  - unfold HttpStream.flush, pending. simpl. by rewrite !deliver_nil.
Qed.

Lemma eof_run k s p u :
  (len - pos s = k)%nat -> boundary s p u -> p_state s = s_body_identity_eof ->
  is_Some (body_mark s) -> (pos s <= len)%nat ->
  exists p' u', run (drop (pos s) data) p u = shift (len - pos s) (run [] p' u') /\
    boundary (with_pos len s) p' u' /\ hp_nread p' = hp_nread p.
Proof.
  revert s p u. induction k as [| k IH]; intros s p u Hk Hbd Hp Hm Hpos.
  - assert (pos s = len) as Hl by lia. exists p, u. rewrite Hl, drop_all, Nat.sub_diag.
    split_and!; [done | | done]. rewrite <- Hl. by destruct s.
  - destruct (lookup_lt_is_Some_2 data (pos s)) as [b Hb]; [lia |].
    destruct (boundary_fields s p u Hbd) as (_ & Herr & _).
    pose proof (eof_byte b p u) as Hone. rewrite (bd_state _ _ _ _ _ _ _ Hbd) in Hone.
    specialize (Hone Hp Herr).
    assert (boundary (with_pos (S (pos s)) s)
      (HttpParser.set_state s_body_identity_eof (HttpParser.set_nread (hp_nread p) p))
      (deliver settings for_body [b] u)) as Hbd'.
    { rewrite <- Hp.
      replace (with_pos (S (pos s)) s)
        with (with_pos (S (pos s)) (with_parser (parser s) (mark_body s)))
        by (unfold mark_body; destruct Hm as [m Hm]; rewrite Hm; by destruct s).
      apply (body_advance s p u); try done; try (by rewrite Hp);
        [apply (bd_parser _ _ _ _ _ _ _ Hbd) | apply (bd_errno _ _ _ _ _ _ _ Hbd)
        | apply (bd_lenient _ _ _ _ _ _ _ Hbd) | apply (bd_acl _ _ _ _ _ _ _ Hbd)]. }
    destruct (IH (with_pos (S (pos s)) s) _ _ ltac:(simpl; lia) Hbd' Hp Hm ltac:(simpl; lia))
      as (p' & u' & Hrun & Hbd'' & Hn).
    exists p', u'. split_and!; [| done | done]. cbn [pos with_pos] in Hrun.
    rewrite (drop_S _ _ _ Hb), (run_cons settings mx lenient acl b _ p u _ _ Hone), Hrun, shift_shift.
    f_equal. lia.
Qed.

Lemma boundary_mark s p u :
  boundary s p u -> marked_in for_body (p_state s) = true -> entry_pend (p_state s) = None ->
  boundary (mark_body s) p u.
Proof.
  intros [Hst Hp He Hlen Hacl Hfl (o & Hsh & Hdone) Hle] Hin Hent.
  assert (o = None \/ o = Some for_body) as Ho.
  { destruct Hdone as [-> | [-> _]]; [by left | by right]. }
  assert (p_state (mark_body s) = p_state s /\ parser (mark_body s) = parser s) as [Hps Hpar]
    by (unfold mark_body; by destruct (body_mark s)).
  split; rewrite ?Hps, ?Hpar; try done.
  - by rewrite mark_body_flush.
  - exists (Some for_body). split; [by eapply mark_body_shape | by right].
  - by apply mark_body_le.
Qed.

Lemma turn_rel_eof s p u :
  boundary s p u -> hp_nread p = nread s -> p_state s = s_body_identity_eof ->
  (pos s < len)%nat -> turn_rel (pos s) p u (turn settings data mx lenient acl s).
Proof.
  intros Hbd Hn Hp Hpos. destruct (lookup_lt_is_Some_2 data (pos s) Hpos) as [b Hb].
  rewrite (turn_uncounted s b) by (by rewrite ?Hp). clear Hb.
  assert (reexecute data (with_ch (uchar b) s)
          = Next tt (with_pos (len - 1) (mark_body (with_ch (uchar b) s)))) as ->.
  { unfold reexecute_fuel. cbn [HttpExec.reexecute]. rewrite bind_gets.
    cbn [p_state with_ch]. rewrite Hp. cbn [switch]. unfold case_s_body_identity_eof.
    unfold mbind, M_bind, MARK, modify, mark_body. cbn [mark_of body_mark with_ch].
    by destruct (body_mark s). }
  assert (pos (mark_body s) = pos s /\ nread (mark_body s) = nread s
          /\ p_state (mark_body s) = p_state s) as (Hpm & Hnm & Hsm)
    by (unfold mark_body; by destruct (body_mark s)).
  assert (with_pos (len - 1) (mark_body (with_ch (uchar b) s))
          = with_pos (len - 1) (with_ch (uchar b) (mark_body s))) as ->
    by (unfold mark_body; cbn [body_mark with_ch]; by destruct (body_mark s)).
  destruct (eof_run _ (mark_body s) p u eq_refl) as (p' & u' & Hrun & Hbd' & Hn').
  - apply boundary_mark; [done | by rewrite Hp | by rewrite Hp].
  - by rewrite Hsm.
  - unfold mark_body. destruct (body_mark s) eqn:Hm; [rewrite Hm | simpl]; by eexists.
  - lia.
  - simpl. split; [lia |]. exists p', u'. rewrite Hpm in Hrun.
    replace (S (len - 1)) with len by lia. split_and!.
    + eapply boundary_ch with (c := ch (mark_body s)). by destruct (mark_body s).
    + by rewrite Hn', Hnm.
    + by rewrite Hrun, drop_all.
Qed.
End bodies.
