(* ===== verification/HttpChunking.v ===== *)
(** * HttpChunking: it does not matter how the input is cut into buffers

    [execute_run] identifies a call of [http_parser_execute] with the byte-by-byte
    parser [run]; what is fed is then a sequence of bytes, and not of buffers. *)

From S2P Require Import Prelude.
From S2P Require Import HttpTables.
From S2P Require Import HttpUrl.
From S2P Require Import HttpParser.
From S2P Require Import HttpMonad.
From S2P Require Import HttpExec.
From S2P Require Import HttpWp.
From S2P Require Import HttpInvariant.
From S2P Require Import HttpSafety.
From S2P Require Import HttpLoop.
From S2P Require Import HttpSize.
From S2P Require Import HttpOptions.
From S2P Require Import HttpStream.
From S2P Require Import HttpLockstep.
From S2P Require Import HttpSplit.
From S2P Require Import HttpSplitLines.
From S2P Require Import HttpSplitValues.
From S2P Require Import HttpSplitBodies.
Local Open Scope Z_scope.

Section main.
Context {U : Type} (settings : http_parser_settings U) `{!Streaming settings}.
Context (data : list Byte.byte) (mx : Z) (lenient acl : bool).
Context (Hmx : 0 <= mx < 2 ^ 31) (Hsize : Z.of_nat (length data) < 2 ^ 31).
Abbreviation len := (length data).
Abbreviation run := (run settings mx lenient acl).
Abbreviation boundary := (boundary settings data lenient acl).
Abbreviation turn_rel := (turn_rel settings data mx lenient acl).
Abbreviation turn := (turn settings data mx lenient acl).
Abbreviation main_loop := (main_loop settings data mx lenient acl).
Implicit Types s : frame U.

(** A turn from any state. *)
Lemma turn_rel_any s p u :
  body_inv 0 s -> counted mx s -> boundary s p u -> hp_nread p = nread s ->
  (pos s < len)%nat -> turn_rel (pos s) p u (turn s).
Proof.
  intros Hinv Hc Hbd Hn Hpos. pose proof (bi_state _ _ Hinv) as Hs.
  destruct (loop_state (p_state s)) eqn:Hl; [| by apply turn_rel_plain].
  destruct (p_state s) eqn:Hst; try discriminate Hl; simpl in Hs.
  - apply turn_rel_header_field; try done; lia.
  - apply turn_rel_header_value; try done; lia.
  - destruct Hs as [Hf Hcl].
    apply turn_rel_counted; rewrite ?Hst; try done; by right.
  - apply turn_rel_counted; rewrite ?Hst; try done; by left.
  - by apply turn_rel_eof.
Qed.

Lemma turn_ok s :
  body_inv 0 s -> (pos s < len)%nat ->
  wp (returned_ok data) (error_ok data) turn
    (fun _ s' => (pos s <= pos s' < len)%nat /\ body_inv 0 s') s.
Proof.
  intros [Herr Hr Hn Hch Hs Hmarks] Hpos. pose proof (state_ok_count _ _ _ Hn Hs) as Hs1.
  unfold HttpSplit.turn. wp_case. apply wp_load_ch; [lia |]. intros b Hb.
  pose proof (uchar_range b).
  assert (forall n', n' = (if PARSING_HEADER (p_state s) then u32 (nread s + u32 1)
                           else nread s) ->
    wp (returned_ok data) (error_ok data) (reexecute settings data mx lenient acl reexecute_fuel)
      (fun _ s' => (pos s <= pos s' < len)%nat /\ body_inv 0 s')
      (with_nread n' (with_ch (uchar b) s))) as Hre.
  { intros n' ->. apply (reexecute_ok settings data mx lenient acl reexecute_fuel
      (with_nread _ (with_ch (uchar b) s))); [| done | apply reexecute_rank_small].
    constructor; simpl; try done. destruct (PARSING_HEADER _); auto with ranges. }
  do 3 wp_case. frame_cbn. destruct (PARSING_HEADER (p_state s)) eqn:Hp.
  - apply wp_COUNT_HEADER_SIZE; intros _; [wp_case; auto with ranges; lia | by apply Hre].
  - apply wp_ret. specialize (Hre _ eq_refl). by destruct s.
Qed.

Lemma turn_keeps : keeps mx turn.
Proof.
  unfold HttpSplit.turn. apply keeps_bind; [apply load_ch_keeps | intros _].
  apply keeps_bind; [apply keeps_gets | intros st].
  apply keeps_bind; [case_match; [apply keeps_COUNT | apply keeps_ret] | intros _].
  apply reexecute_keeps. lia.
Qed.

(** The parser is determined by what it shares and the two local variables. *)
Lemma erase_eq p q :
  erase p = erase q -> hp_state p = hp_state q -> hp_nread p = hp_nread q -> p = q.
Proof. destruct p, q. intros H. same_parser H. simpl. by intros -> ->. Qed.

(** The main loop and the bytes that are left. *)
Lemma main_run fuel s p u :
  body_inv 0 s -> counted mx s -> boundary s p u -> hp_nread p = nread s ->
  (pos s <= len)%nat -> (len - pos s < fuel)%nat ->
  agree (finish ((main_loop fuel;; epilogue settings data len) s))
    (shift (pos s) (run (drop (pos s) data) p u)).
Proof.
  revert s p u. induction fuel as [| fuel IH]; intros s p u Hinv Hc Hbd Hn Hle Hfuel; [lia |].
  destruct (Nat.eq_dec (pos s) len) as [Hpos | Hpos].
  - rewrite Hpos, drop_all. unfold mbind, M_bind. cbn [HttpExec.main_loop].
    rewrite bind_gets, Hpos, Nat.eqb_refl. unfold mret, M_ret.
    pose proof Hbd as [Hst Hp He Hlen Hacl Hfl (o & Hsh & _) _].
    destruct (epilogue_eq settings o data len s He Hsh) as (s' & -> & Hu & Hp').
    simpl. rewrite Nat.add_0_r.
    assert (parser s' = p) as ->.
    { rewrite Hp'. apply erase_eq; [etransitivity; [| exact Hp] | by rewrite Hst | by rewrite Hn].
      by destruct (parser s). }
    split; [by rewrite Hu, Hfl |]. rewrite <- He. symmetry. by injection Hp.
  - assert (pos s < len)%nat as Hlt by lia.
    pose proof (turn_rel_any s p u Hinv Hc Hbd Hn Hlt) as Hrel.
    pose proof (turn_ok s Hinv Hlt) as Hok. pose proof (turn_keeps s Hc) as Hk.
    unfold mbind, M_bind. rewrite (main_loop_turn settings data mx lenient acl fuel s Hlt).
    unfold wp in Hok. destruct (turn s) as [[] s' | n s' | s' |]; [| | | done].
    + destruct Hrel as (Hk1 & p' & u' & Hbd' & Hn' & ->). destruct Hok as [Hpos' Hinv'].
      rewrite shift_shift, Nat.add_1_r. replace (pos s + (S (pos s') - pos s))%nat
        with (S (pos s')) by lia.
      apply (IH (with_pos (S (pos s')) s')); simpl; try done; try lia.
      destruct Hinv'. constructor; simpl; try done. intros FOR.
      specialize (bi_marks FOR). unfold mark_ok in *. destruct FOR; simpl in *; case_match;
        intuition lia.
    + simpl. unfold HttpSplit.turn_rel in Hrel. case_decide as Hd.
      * destruct Hrel as [Hle' ->]. simpl. split; [| done]. f_equal. lia.
      * rewrite Hrel. done.
    + simpl in Hrel. rewrite Hrel. simpl. unfold at_error. case_decide; done.
Qed.

(** A call from its entry on. *)
Lemma execute_body_run p u :
  well_formed p -> hp_http_errno p = HPE_OK -> 0 <= hp_nread p <= mx ->
  hp_lenient_http_headers p = lenient -> hp_allow_chunked_length p = acl ->
  agree (finish (execute_body settings data mx lenient acl (initial_frame p u)))
    (run data p u).
Proof.
  intros Hwf He Hn Hlen Hacl. destruct (entry_frame p u) as (Hpos & Hst & Hnr & Hp & Hu).
  set (s := entry_marks (hp_state p) (initial_frame p u)) in *.
  assert (boundary s p u) as Hbd.
  { split; rewrite ?Hst, ?Hp; try done.
    - apply entry_flush.
    - exists (entry_pend (hp_state p)). split; [apply entry_shape | by left].
    - intros FOR m Hm. enough (m = 0%nat) by lia. unfold s, initial_frame in Hm.
      destruct (hp_state p); destruct FOR; simpl in Hm; congruence. }
  pose proof (main_run (S len) s p u (entry_marks_ok p u Hwf He) ltac:(unfold counted; lia) Hbd
    ltac:(by rewrite Hnr) ltac:(lia) ltac:(lia)) as H.
  rewrite Hpos, drop_0, shift_0 in H. exact H.
Qed.
End main.

(** ** Calls as sequences of bytes *)

Section chunking.
Context {U : Type} (settings : http_parser_settings U) `{!Streaming settings}.
Context (mx : Z) (Hmx : 0 <= mx < 2 ^ 31).

(** The bytes as seen from a parser. *)
Definition run_from (p : http_parser) (l : list Byte.byte) (u : U) :=
  run settings mx (hp_lenient_http_headers p) (hp_allow_chunked_length p) l p u.

(** A parser that may be given another buffer. *)
Definition ready (p : http_parser) : Prop :=
  well_formed p /\ hp_http_errno p = HPE_OK /\ 0 <= hp_nread p <= mx.

Lemma execute_run data p u :
  ready p -> Z.of_nat (length data) < 2 ^ 31 -> data <> [] ->
  agree (http_parser_execute settings mx data p u) (run_from p data u).
Proof.
  intros (Hwf & He & Hn) Hsize Hne. unfold http_parser_execute. rewrite decide_True by done.
  destruct data as [| b data]; [done |]. cbn [length Nat.eqb].
  by apply execute_body_run.
Qed.

Lemma ready_after data p u n p' u' :
  ready p -> data <> [] -> http_parser_execute settings mx data p u = Returned n p' u' ->
  hp_http_errno p' = HPE_OK ->
  ready p' /\ hp_lenient_http_headers p' = hp_lenient_http_headers p /\
  hp_allow_chunked_length p' = hp_allow_chunked_length p.
Proof.
  intros (Hwf & He & Hn) Hne Hex He'.
  pose proof (execute_ok settings mx data p u Hwf) as Hok. rewrite Hex in Hok.
  pose proof (execute_options settings mx data p u n p' u' Hex) as Ho.
  injection Ho as Hl Ha. split_and!; [| done | done].
  split_and!; [apply Hok | done | | ];
    by apply (execute_nread settings mx data p u n p' u' Hne Hn Hex He').
Qed.

(** [run] on two parts. *)
Lemma run_app lenient acl a b p u :
  run settings mx lenient acl (a ++ b) p u =
  match run settings mx lenient acl a p u with
  | Some (_, false, p1, u1) => shift (length a) (run settings mx lenient acl b p1 u1)
  | r => r
  end.
Proof.
  revert p u. induction a as [| x a IH]; intros p u; simpl; [by rewrite shift_0 |].
  destruct (one settings mx lenient acl x p u) as [[[[] p'] u'] |]; [done | | done].
  rewrite IH. destruct (run settings mx lenient acl a p' u') as [[[[n []] p1] u1] |]; try done.
  by destruct (run settings mx lenient acl b p1 u1) as [[[[]]] |].
Qed.

Lemma run_length lenient acl a p u n stop p' u' :
  run settings mx lenient acl a p u = Some (n, stop, p', u') ->
  (n <= length a)%nat /\ (stop = false -> n = length a).
Proof.
  revert n p u. induction a as [| x a IH]; intros n p u; simpl; [intros [= <- <- <- <-]; done |].
  destruct (one settings mx lenient acl x p u) as [[[[] p1] u1] |]; [| | done].
  - intros [= <- <- <- <-]. split; [lia | done].
  - destruct (run settings mx lenient acl a p1 u1) as [[[[m st] p2] u2] |] eqn:Hr; [| done].
    intros [= <- <- <- <-]. apply IH in Hr as [? Hst]. split; [lia |]. intros Heq.
    by rewrite (Hst Heq).
Qed.

(** The bytes without regard to upgrades: what successive calls do. *)
Fixpoint through (lenient acl : bool) (l : list Byte.byte) (p : http_parser) (u : U)
    : option (http_parser * U) :=
  match l with
  | [] => Some (p, u)
  | b :: l' =>
      match one settings mx lenient acl b p u with
      | None => None
      | Some (_, p', u') => through lenient acl l' p' u'
      end
  end.

Lemma through_app lenient acl a b p u :
  through lenient acl (a ++ b) p u =
  match through lenient acl a p u with
  | Some (p1, u1) => through lenient acl b p1 u1
  | None => None
  end.
Proof.
  revert p u. induction a as [| x a IH]; intros p u; simpl; [done |].
  by destruct (one settings mx lenient acl x p u) as [[[] u'] |].
Qed.

(** A part that is consumed completely, even if the parser stops at its end. *)
Lemma run_through lenient acl a p u stop p' u' :
  run settings mx lenient acl a p u = Some (length a, stop, p', u') ->
  through lenient acl a p u = Some (p', u').
Proof.
  revert p u. induction a as [| x a IH]; intros p u; simpl; [by intros [= <- <- <-] |].
  destruct (one settings mx lenient acl x p u) as [[[[] p1] u1] |]; [| | done].
  - destruct a; [by intros [= <- <- <-] | done].
  - specialize (IH p1 u1).
    destruct (run settings mx lenient acl a p1 u1) as [[[[m st] p2] u2] |]; [| done].
    intros [= -> -> -> ->]. by apply IH.
Qed.

(** An application that hands its buffers to the parser one after the other and
    gives up when a call does not consume all it is given. *)
Fixpoint feed (pieces : list (list Byte.byte)) (p : http_parser) (u : U)
    : option (http_parser * U) :=
  match pieces with
  | [] => Some (p, u)
  | a :: l =>
      match http_parser_execute settings mx a p u with
      | Returned n p1 u1 =>
          if (n =? length a)%nat && bool_decide (hp_http_errno p1 = HPE_OK)
          then feed l p1 u1 else None
      | Faulty _ => None
      end
  end.

(** A buffer as the network delivers it. *)
Definition piece (a : list Byte.byte) : Prop := a <> [] /\ Z.of_nat (length a) < 2 ^ 31.

Lemma feed_through pieces p u r :
  ready p -> Forall piece pieces -> feed pieces p u = Some r ->
  through (hp_lenient_http_headers p) (hp_allow_chunked_length p) (concat pieces) p u = Some r.
Proof.
  revert p u. induction pieces as [| a l IH]; intros p u Hr Hall; simpl; [done |].
  apply Forall_cons_1 in Hall as [[Hne Hsize] Hall].
  destruct (http_parser_execute settings mx a p u) as [n p1 u1 |] eqn:Hex; [| done].
  destruct (Nat.eqb_spec n (length a)) as [-> |]; [| done]. case_bool_decide as He; [| done].
  intros Hfeed. destruct (ready_after a p u _ p1 u1 Hr Hne Hex He) as (Hr1 & Hl & Ha).
  pose proof (execute_run a p u Hr Hsize Hne) as Hagree. rewrite Hex in Hagree.
  rewrite through_app. unfold run_from, agree in Hagree.
  destruct (run settings mx _ _ a p u) as [[[[m st] p2] u2] |] eqn:Hrun; [| done].
  destruct Hagree as [[= <- <- <-] _]. rewrite (run_through _ _ _ _ _ _ _ _ Hrun).
  rewrite <- Hl, <- Ha. by apply IH.
Qed.

(** A call that does not take all of its buffer, because it has to report an upgrade. *)
Definition upgrades_inside (pieces : list (list Byte.byte)) (p : http_parser) (u : U) : Prop :=
  exists l1 a l2 q v n q' v',
    pieces = l1 ++ a :: l2 /\ feed l1 p u = Some (q, v) /\
    http_parser_execute settings mx a q v = Returned n q' v' /\
    (n < length a)%nat /\ hp_http_errno q' = HPE_OK /\ hp_upgrade q' = true.

Lemma through_run lenient acl a p u r :
  through lenient acl a p u = Some r ->
  exists n stop p' u', run settings mx lenient acl a p u = Some (n, stop, p', u').
Proof.
  revert p u. induction a as [| x a IH]; intros p u; simpl; [by eauto |].
  destruct (one settings mx lenient acl x p u) as [[[[] p1] u1] |]; [by eauto 10 | | done].
  intros Ht. destruct (IH p1 u1 Ht) as (n & stop & p' & u' & ->). by eauto 10.
Qed.

(** Bytes that can be parsed one by one can be fed in pieces, unless a call stops inside its
    piece. *)
Lemma through_feed pieces p u r :
  ready p -> Forall piece pieces ->
  through (hp_lenient_http_headers p) (hp_allow_chunked_length p) (concat pieces) p u = Some r ->
  feed pieces p u = Some r \/ upgrades_inside pieces p u.
Proof.
  revert p u. induction pieces as [| a l IH]; intros p u Hr Hall; simpl; [by left |].
  apply Forall_cons_1 in Hall as [[Hne Hsize] Hall]. rewrite through_app.
  destruct (through _ _ a p u) as [[p1 u1] |] eqn:Ha; [| done]. intros Hl.
  destruct (through_run _ _ _ _ _ _ Ha) as (n & stop & p1' & u1' & Hrun).
  pose proof (execute_run a p u Hr Hsize Hne) as Hagree. unfold run_from in Hagree.
  rewrite Hrun in Hagree. destruct Hagree as [Hex He]. rewrite Hex.
  destruct (run_length _ _ _ _ _ _ _ _ _ Hrun) as [Hn _].
  destruct (Nat.eqb_spec n (length a)) as [-> | Hlt].
  - rewrite (run_through _ _ _ _ _ _ _ _ Hrun) in Ha. injection Ha as -> ->.
    rewrite bool_decide_true by done. cbn [andb].
    destruct (ready_after a p u _ p1 u1 Hr Hne Hex He) as (Hr1 & Hlen & Hacl).
    rewrite <- Hlen, <- Hacl in Hl. destruct (IH p1 u1 Hr1 Hall Hl) as [-> | Hup]; [by left | right].
    destruct Hup as (l1 & b & l2 & q & v & m & q' & v' & -> & Hf & Hx & Hrest).
    exists (a :: l1), b, l2, q, v, m, q', v'. split; [done |]. split; [| done].
    cbn [feed]. by rewrite Hex, Nat.eqb_refl, bool_decide_true.
  - right. exists [], a, l, p, u, n, p1', u1'. split_and!; try done; [lia |].
    pose proof (execute_ok settings mx a p u (proj1 Hr)) as Hok. rewrite Hex in Hok.
    destruct Hok as [_ Hok]. destruct a as [| x a]; [done |]. cbn -[length] in Hok.
    destruct Hok as [_ Hok]. by destruct (Hok He).
Qed.
End chunking.
