(* ===== verification/Logger.v ===== *)
(** * Logger: the wrapper of the logging library ([src/code/Logger.h], [Logger.cpp])

    The wrapper decides whether a message is written at all; its arguments are only looked
    at when it is.  The library itself ([spdlog]) is a parameter: whether it can open the
    file, and what it does with a message.  A pointer to characters is formatted as a C
    string ([c_string]), which is read up to its zero byte. *)

From S2P Require Import Prelude.
From S2P Require Import Cpp.
Local Open Scope Z_scope.

Inductive LogLevel := LL_Trace | LL_Debug | LL_Info | LL_Warn | LL_Error | LL_Critical | LL_Off.
Definition level_num (lv : LogLevel) : Z :=
  match lv with
  | LL_Trace => 0 | LL_Debug => 1 | LL_Info => 2 | LL_Warn => 3 | LL_Error => 4
  | LL_Critical => 5 | LL_Off => 6
  end.

Record Logger := mk_logger { init_ : bool; lv_ : LogLevel; async_ : bool }.

(** [Logger()]. *)
Definition Logger_new : Logger := mk_logger false LL_Info false.

(** [init(file, async)]: [named] says that the file name is no null pointer, [opens] that
    the library has opened the file. *)
Definition Logger_init (named opens async : bool) (l : Logger) : bool * Logger :=
  if init_ l || negb named then (false, l)
  else if negb opens then (false, l)
  else (true, mk_logger true LL_Info async).
Definition release (l : Logger) : Logger :=
  if negb (init_ l) then l else mk_logger false LL_Off false.
Definition set_level (lv : LogLevel) (l : Logger) : Logger :=
  if negb (init_ l) then l else mk_logger (init_ l) lv (async_ l).
Definition get_level (l : Logger) : LogLevel := if negb (init_ l) then LL_Off else lv_ l.

(** The condition of the macros [LOG_TRACE], [LOG_DEBUG] and so on. *)
Definition logs (lv : LogLevel) (l : Logger) : bool :=
  init_ l && (level_num (get_level l) <=? level_num lv).

(** The characters from [p] on, up to the zero byte, which has to be in the vector. *)
Fixpoint until_zero (l : list Byte.byte) : option (list Byte.byte) :=
  match l with
  | [] => None
  | b :: l => if uchar b =? 0 then Some [] else cons b <$> until_zero l
  end.
Definition past_the_end : string := "a C string without an end in its vector".
Definition c_string (v : list Byte.byte) (p : Z) : outcome (list Byte.byte) :=
  match until_zero (drop (Z.to_nat p) v) with
  | Some s => mret s
  | None => Undefined past_the_end
  end.

(** ** What is logged *)

(** Nothing is logged before [init] or after [release]; after [init] the level is [LL_Info],
    and a level lets through itself and what is above. *)
Lemma logs_init named opens async l lv :
  (Logger_init named opens async l).1 = true ->
  logs lv (Logger_init named opens async l).2 = (2 <=? level_num lv).
Proof. unfold Logger_init. repeat case_match; try done. Qed.
Lemma logs_released l lv : logs lv (release l) = false.
Proof. unfold release, logs. destruct (init_ l) eqn:Hi; simpl; [done | by rewrite Hi]. Qed.
Lemma logs_set_level l lv lv' :
  init_ l = true -> logs lv' (set_level lv l) = (level_num lv <=? level_num lv').
Proof. unfold logs, get_level, set_level. intros Hi. by rewrite Hi. Qed.
