(* ===== verification/HttpServer.v ===== *)
(** * HttpServer: requests and responses of the HTTP server
    ([src/examples/http/HttpRequest.*], [HttpResponse.*], [HttpTask.*], [HttpServer.cpp])

    A task belongs to a connection: it runs the parser of [HttpExec] on the bytes that
    arrive, collects the request, lets the application fill in the response and sends
    it.  The server is an application of [TcpConnection]; here it has no worker
    threads ([num_workers_] is 0), so everything runs in the connection's loop. *)

From S2P Require Import Prelude.
From S2P Require Import HttpTables.
From S2P Require Import HttpParser.
From S2P Require Import HttpMonad.
From S2P Require Import HttpExec.
From S2P Require Import Cpp.
From S2P Require Import Buffer.
From S2P Require Import TcpConnection.
From S2P Require Import Logger.
From stdpp Require Import gmap list pretty.
Local Open Scope Z_scope.

(** A [std::string]. *)
Abbreviation text := (list Byte.byte) (only parsing).
Definition CRLF : text := [Byte.x0d; Byte.x0a].
(** [fmt::format] of an integer. *)
Definition decimal (n : Z) : text := bytes (pretty n).

(** ** HttpRequest *)

Record HttpRequest := mk_request {
  method_ : text;
  url_ : text;
  keep_alive_ : bool;
  headers_ : gmap text text;
  body_ : Buffer
}.

Definition HttpRequest_init (r : HttpRequest) : HttpRequest :=
  mk_request [] [] false ∅ (has_readall (body_ r)).
Definition get_header (key : text) (r : HttpRequest) : option text := headers_ r !! key.

(** ** HttpResponse *)

Record HttpResponse := mk_response {
  code_ : Z;
  close_connection_ : bool;
  content_type_ : text;
  content_len_ : Z;                      (* uint32_t *)
  resp_headers_ : gmap text text;
  resp_body_ : Buffer
}.

Definition CodeStatus : list (Z * text) :=
  [(200, bytes "OK"); (400, bytes "Bad Request"); (403, bytes "Forbidden"); (404, bytes "Not Found")].

Definition HttpResponse_init (r : HttpResponse) : HttpResponse :=
  mk_response 200 true [] 0 ∅ (has_readall (resp_body_ r)).

Definition set_code (code : Z) (r : HttpResponse) : HttpResponse :=
  mk_response code (close_connection_ r) (content_type_ r) (content_len_ r) (resp_headers_ r) (resp_body_ r).
Definition set_closeconnection (on : bool) (r : HttpResponse) : HttpResponse :=
  mk_response (code_ r) on (content_type_ r) (content_len_ r) (resp_headers_ r) (resp_body_ r).
Definition set_content_type (type : text) (r : HttpResponse) : HttpResponse :=
  mk_response (code_ r) (close_connection_ r) type (content_len_ r) (resp_headers_ r) (resp_body_ r).
Definition set_content_length (len : Z) (r : HttpResponse) : HttpResponse :=
  mk_response (code_ r) (close_connection_ r) (content_type_ r) (u32 len) (resp_headers_ r) (resp_body_ r).
Definition set_header (key value : text) (r : HttpResponse) : HttpResponse :=
  mk_response (code_ r) (close_connection_ r) (content_type_ r) (content_len_ r)
    (<[key := value]> (resp_headers_ r)) (resp_body_ r).

(** The text of the response.  [items] are the headers in the order in which the
    [unordered_map] is iterated.  An unknown code dereferences [end()]. *)
Definition response_head (items : list (text * text)) (r : HttpResponse) : Cpp.outcome text :=
  match List.find (fun e => code_ r =? e.1) CodeStatus with
  | None => Undefined "end() of _CodeStatus"
  | Some e =>
      mret (bytes "HTTP/1.1 " ++ decimal (code_ r) ++ bytes " " ++ e.2 ++ CRLF ++
        concat ((fun item => item.1 ++ bytes ": " ++ item.2 ++ CRLF) <$> items) ++
        (if close_connection_ r then bytes "Connection: close" else bytes "Connection: Keep-Alive") ++ CRLF ++
        (match content_type_ r with [] => [] | type => bytes "Content-type: " ++ type ++ CRLF end) ++
        (if 0 <? content_len_ r then bytes "Content-length: " ++ decimal (content_len_ r) ++ CRLF else []) ++
        CRLF)
  end.

(** [make_buffer] writes the parts one after the other. *)
Fixpoint write_all (parts : list text) (b : Buffer) : Cpp.outcome Buffer :=
  match parts with
  | [] => mret b
  | s :: parts => b ← write_string s b; write_all parts b
  end.

Definition make_buffer (items : list (text * text)) (r : HttpResponse) (buffer : Buffer) :
    Cpp.outcome Buffer :=
  match List.find (fun e => code_ r =? e.1) CodeStatus with
  | None => Undefined "end() of _CodeStatus"
  | Some e =>
      buffer ← write_all
        ([bytes "HTTP/1.1 " ++ decimal (code_ r) ++ bytes " " ++ e.2 ++ CRLF] ++
         ((fun item => item.1 ++ bytes ": " ++ item.2 ++ CRLF) <$> items) ++
         [(if close_connection_ r then bytes "Connection: close" else bytes "Connection: Keep-Alive") ++ CRLF] ++
         (match content_type_ r with [] => [] | type => [bytes "Content-type: " ++ type ++ CRLF] end) ++
         (if 0 <? content_len_ r then [bytes "Content-length: " ++ decimal (content_len_ r) ++ CRLF] else []) ++
         [CRLF]) buffer;
      p ← begin_read (resp_body_ r);
      body ← vread (buff_ (resp_body_ r)) p (readable_bytes (resp_body_ r));
      write (Some body) buffer
  end.

(** ** HttpTask *)

(** [context_] is the application's own pointer, of which [V] is what it points to;
    the null pointer is [None]. *)
Record HttpTask (V : Type) := mk_task {
  parser_ : http_parser;
  header_field_ : text;
  completed_ : bool;
  request_ : HttpRequest;
  response_ : HttpResponse;
  send_progressively_ : bool;
  context_ : option V
}.
Arguments mk_task {V}.
Arguments parser_ {V}.
Arguments header_field_ {V}.
Arguments completed_ {V}.
Arguments request_ {V}.
Arguments response_ {V}.
Arguments send_progressively_ {V}.
Arguments context_ {V}.

Section task.
Context {V : Type}.
Implicit Types t : HttpTask V.

Definition with_parser (p : http_parser) t : HttpTask V :=
  mk_task p (header_field_ t) (completed_ t) (request_ t) (response_ t) (send_progressively_ t) (context_ t).
Definition with_request (r : HttpRequest) t : HttpTask V :=
  mk_task (parser_ t) (header_field_ t) (completed_ t) r (response_ t) (send_progressively_ t) (context_ t).
Definition with_response (r : HttpResponse) t : HttpTask V :=
  mk_task (parser_ t) (header_field_ t) (completed_ t) (request_ t) r (send_progressively_ t) (context_ t).
Definition set_send_progressively (on : bool) t : HttpTask V :=
  mk_task (parser_ t) (header_field_ t) (completed_ t) (request_ t) (response_ t) on (context_ t).
Definition set_context (c : option V) t : HttpTask V :=
  mk_task (parser_ t) (header_field_ t) (completed_ t) (request_ t) (response_ t) (send_progressively_ t) c.

(** The callbacks work on the task [parser->data] points to; when the body does not fit
    in memory an exception leaves them. *)
Definition Task_state : Type := Cpp.outcome (HttpTask V).

Definition on_message_begin : http_cb Task_state := fun p u => (0, p, u).
Definition on_url : http_data_cb Task_state := fun p at_ u =>
  (0, p, (fun t => with_request (mk_request (method_ (request_ t)) at_ (keep_alive_ (request_ t))
                     (headers_ (request_ t)) (body_ (request_ t))) t) <$> u).
Definition on_status : http_data_cb Task_state := fun p at_ u => (0, p, u).
Definition on_header_field : http_data_cb Task_state := fun p at_ u =>
  (0, p, (fun t => mk_task (parser_ t) at_ (completed_ t) (request_ t) (response_ t)
                     (send_progressively_ t) (context_ t)) <$> u).
Definition on_header_value : http_data_cb Task_state := fun p at_ u =>
  (0, p, (fun t => with_request (mk_request (method_ (request_ t)) (url_ (request_ t))
                     (keep_alive_ (request_ t)) (<[header_field_ t := at_]> (headers_ (request_ t)))
                     (body_ (request_ t))) t) <$> u).
Definition on_headers_complete : http_cb Task_state := fun p u =>
  (0, p, (fun t => with_request (mk_request (bytes (http_method_str (http_method_num (hp_method p))))
                     (url_ (request_ t)) (http_should_keep_alive p)
                     (headers_ (request_ t)) (body_ (request_ t))) t) <$> u).
Definition on_body : http_data_cb Task_state := fun p at_ u =>
  (0, p, t ← u; b ← write (Some at_) (body_ (request_ t));
         mret (with_request (mk_request (method_ (request_ t)) (url_ (request_ t))
                 (keep_alive_ (request_ t)) (headers_ (request_ t)) b) t)).
Definition on_message_complete : http_cb Task_state := fun p u =>
  (0, p, (fun t => mk_task (parser_ t) (header_field_ t) true (request_ t) (response_ t)
                     (send_progressively_ t) (context_ t)) <$> u).

Definition parser_settings : http_parser_settings Task_state :=
  mk_settings (Some on_message_begin) (Some on_url) (Some on_status) (Some on_header_field)
    (Some on_header_value) (Some on_headers_complete) (Some on_body) (Some on_message_complete)
    None None.

Definition init t : HttpTask V :=
  mk_task (http_parser_init HTTP_REQUEST) [] false (HttpRequest_init (request_ t))
    (HttpResponse_init (response_ t)) false None.

(** [parse(buffer)]: the result, what is to be removed from the buffer, and the task. *)
Definition parse (data : text) t : Cpp.outcome (bool * list op * HttpTask V) :=
  match http_parser_execute parser_settings max_header_size_init data (parser_ t) (Ok t) with
  | Faulty _ => Undefined "fault in http_parser_execute"
  | Returned nparsed p u =>
      t ← u;
      if decide (hp_http_errno p = HPE_OK)
      then mret (true, [Skip (Z.of_nat nparsed)], with_parser p t)
      else mret (false, [], with_parser p t)
  end.

(** The application: what it does with a request, and how it fills the next buffer.
    Either may throw. *)
Context (http_cb_ : HttpTask V -> Cpp.outcome (HttpTask V)).
Context (http_send_cb_ : HttpTask V -> Buffer -> Cpp.outcome (HttpTask V * Buffer)).
(** The order of an [unordered_map]. *)
Context (iterate : gmap text text -> list (text * text)).

Definition on_request t : Cpp.outcome (list request * HttpTask V) :=
  t ← http_cb_ t;
  b ← Buffer_init InitialSize;
  b ← make_buffer (iterate (resp_headers_ (response_ t))) (response_ t) b;
  mret ([Send_buffer (Some b)], t).

Definition on_send_progressively t : Cpp.outcome (list request * HttpTask V) :=
  b ← Buffer_init InitialSize;
  r ← http_send_cb_ t b;
  if 0 <? readable_bytes r.2 then mret ([Send_buffer (Some r.2)], r.1)
  else if close_connection_ (response_ r.1) then mret ([Close], r.1)
  else mret ([], init r.1).

(** ** HttpServer *)

(** What the connection keeps for the server: its task, once it is connected, or the
    reason why the program has stopped. *)
Definition context : Type := Cpp.outcome (option (HttpTask V)).

Definition new_task : Cpp.outcome (HttpTask V) :=
  b1 ← Buffer_init InitialSize;
  b2 ← Buffer_init InitialSize;
  mret (init (mk_task (http_parser_init HTTP_REQUEST) [] false (mk_request [] [] false ∅ b1)
    (mk_response 200 true [] 0 ∅ b2) false None)).

Definition on_connection (c : TcpConnection) (u : context) : list request * context :=
  if connected_ c then ([], _ ← u; Some <$> new_task) else ([], u).

Definition bad_request : text := bytes "HTTP/1.1 400 Bad Request" ++ CRLF ++ CRLF.

(** What [on_recv] does after it has logged.  The answer to malformed bytes and the closing
    are on their way before the application runs, and stay so when it throws. *)
Definition recv_task (data : text) t : list op * (list request * Cpp.outcome (HttpTask V)) :=
  match parse data t with
  | Ok (good, ops, t) =>
      let bad := if good : bool then [] else [Send (Some bad_request); Close] in
      if completed_ t then
        match on_request t with
        | Ok (reqs, t) => (ops, (bad ++ reqs, Ok t))
        | Throw e => (ops, (bad, Throw e))
        | Undefined e => (ops, (bad, Undefined e))
        end
      else (ops, (bad, Ok t))
  | Throw e => ([], ([], Throw e))
  | Undefined e => ([], ([], Undefined e))
  end.

(** [LOG_TRACE("{}", buffer->begin_read())]. *)
Definition log_received (LOGGER : Logger) (b : Buffer) : Cpp.outcome unit :=
  if logs LL_Trace LOGGER
  then p ← begin_read b; _ ← c_string (buff_ b) p; mret tt
  else mret tt.

(** [any_cast] of a context that was never set throws. *)
Definition on_recv (LOGGER : Logger) (c : TcpConnection) (len : Z) (u : context) :
    list op * (list request * context) :=
  match u with
  | Ok context =>
      match log_received LOGGER (recv_buffer_ c) with
      | Ok _ =>
          match context with
          | Some t =>
              let r := recv_task (contents (recv_buffer_ c)) t in
              (r.1, (r.2.1, Some <$> r.2.2))
          | None => ([], ([], Throw "boost::bad_any_cast"))
          end
      | Throw e => ([], ([], Throw e))
      | Undefined e => ([], ([], Undefined e))
      end
  | _ => ([], ([], u))
  end.

Definition on_sendcomplete (c : TcpConnection) (u : context) : list request * context :=
  match u with
  | Ok (Some t) =>
      if send_progressively_ t then
        match on_send_progressively t with
        | Ok (reqs, t) => (reqs, Ok (Some t))
        | Throw e => ([], Throw e)
        | Undefined e => ([], Undefined e)
        end
      else ([], u)
  | Ok None => ([], Throw "boost::bad_any_cast")
  | _ => ([], u)
  end.

Definition http_callbacks (LOGGER : Logger) : callbacks context :=
  mk_callbacks (Some on_connection) (Some (on_recv LOGGER)) (Some on_sendcomplete) (Some (fun _ u => u)).
End task.
