(* ===== verification/HttpTheorems.v ===== *)
(** * HttpTheorems: what [http_parser_execute] guarantees for every input

    The theorems of this file hold for every parser in a well-formed state, every
    buffer, and every set of callbacks that keep the contract of [http_parser.h]. *)

From S2P Require Import Prelude.
From S2P Require Import HttpTables.
From S2P Require Import HttpParser.
From S2P Require Import HttpMonad.
From S2P Require Import HttpExec.
From S2P Require Import HttpWp.
From S2P Require Import HttpInvariant.
From S2P Require Import HttpLoop.
From S2P Require Import HttpSize.
From S2P Require Import HttpOptions.
Local Open Scope Z_scope.

(** Callbacks for the witnesses: the application counts its events, and pauses the
    parser at the end of a message. *)
Definition count_event : http_cb nat := fun p u => (0, p, S u).
Definition count_data : http_data_cb nat := fun p _ u => (0, p, S u).
Definition pause_event : http_cb nat := fun p u =>
  match http_parser_pause p true with Some p' => (0, p', S u) | None => (1, p, u) end.
Definition counting_settings : http_parser_settings nat :=
  mk_settings (Some count_event) (Some count_data) (Some count_data) (Some count_data)
    (Some count_data) (Some count_event) (Some count_data) (Some pause_event)
    (Some count_event) (Some count_event).

Lemma cb_ok_count : cb_ok count_event.
Proof. intros p u. simpl. by left. Qed.
Lemma data_cb_ok_count : data_cb_ok count_data.
Proof. intros bs p u. simpl. by left. Qed.
Lemma cb_ok_pause : cb_ok pause_event.
Proof.
  intros p u. unfold pause_event, http_parser_pause. case_decide as Hd; [| by left].
  destruct Hd as [Hok | Hp]; [by right |]. left. destruct p. simpl in *. by rewrite Hp.
Qed.

#[export] Instance counting_settings_WellBehaved : WellBehaved counting_settings.
Proof.
  split; [intros [] | intros [] |]; simpl;
    auto using cb_ok_count, data_cb_ok_count, cb_ok_pause.
Qed.

Lemma init_well_formed t : well_formed (http_parser_init t).
Proof.
  split; [constructor; simpl; unfold ULLONG_MAX; lia |]. intros _. by destruct t.
Qed.

Definition get_request : list Byte.byte :=
  bytes "GET /index.html HTTP/1.1" ++ [Byte.x0d; Byte.x0a] ++
  bytes "Content-Length: 3" ++ [Byte.x0d; Byte.x0a; Byte.x0d; Byte.x0a] ++ bytes "abc".

(** C2. The parser is safe and terminates on every input.  From a well-formed parser,
    whatever the bytes and whatever the callbacks do within their contract,
    [http_parser_execute] returns: no [assert] fails, nothing is read outside the
    buffer, the method strings or the matched words, no loop goes on for ever; and
    the parser it leaves is well formed again. *)
Theorem execute_total {U} (settings : http_parser_settings U) `{!WellBehaved settings}
    (max_header_size : Z) (data : list Byte.byte) (p : http_parser) (u : U) :
  well_formed p ->
  exists n p' u',
    http_parser_execute settings max_header_size data p u = Returned n p' u' /\
    well_formed p'.
Proof.
  intros Hp. pose proof (execute_ok settings max_header_size data p u Hp) as Hok.
  destruct (http_parser_execute _ _ _ _ _) as [n p' u' |]; [| done].
  destruct Hok as [Hwf _]. eauto.
Qed.

Lemma execute_total_witness :
  exists n p' u',
    http_parser_execute counting_settings max_header_size_init get_request
      (http_parser_init HTTP_REQUEST) 0%nat = Returned n p' u' /\ well_formed p'.
Proof. apply (execute_total counting_settings), init_well_formed. Defined.

(** C4. The returned count.  On a non-empty buffer it never exceeds the length of the
    buffer, and when no error number is set the whole buffer was consumed, unless
    the parser reports an upgrade of the connection. *)
Theorem execute_consumes {U} (settings : http_parser_settings U) `{!WellBehaved settings}
    (max_header_size : Z) (data : list Byte.byte) (p p' : http_parser) (u u' : U) (n : nat) :
  well_formed p -> data <> [] ->
  http_parser_execute settings max_header_size data p u = Returned n p' u' ->
  (n <= length data)%nat /\
  (hp_http_errno p' = HPE_OK -> n = length data \/ hp_upgrade p' = true).
Proof.
  intros Hp Hdata Hret. pose proof (execute_ok settings max_header_size data p u Hp) as Hok.
  rewrite Hret in Hok. destruct Hok as [_ Hn]. by destruct data.
Qed.

Lemma execute_consumes_witness :
  exists p' u',
    http_parser_execute counting_settings max_header_size_init get_request
      (http_parser_init HTTP_REQUEST) 0%nat = Returned 50 p' u' /\
    (50 <= length get_request)%nat /\
    (hp_http_errno p' = HPE_OK -> 50%nat = length get_request \/ hp_upgrade p' = true).
Proof.
  eexists _, _. split; [vm_compute; reflexivity |].
  eapply (execute_consumes counting_settings max_header_size_init get_request
           (http_parser_init HTTP_REQUEST) _ 0%nat); [apply init_well_formed | done |].
  vm_compute. reflexivity.
Defined.

(** C3. Errors and pauses.  Once a call has left an error number, every further call
    consumes nothing and changes nothing.  When the number is that of a pause,
    [http_parser_pause(parser, 0)] is allowed and gives a well-formed parser without
    error, so parsing can go on with the bytes that follow. *)
Theorem execute_stopped {U} (settings : http_parser_settings U) `{!WellBehaved settings}
    (max_header_size : Z) (data data' : list Byte.byte) (p p' : http_parser) (u u' : U) (n : nat) :
  well_formed p ->
  http_parser_execute settings max_header_size data p u = Returned n p' u' ->
  hp_http_errno p' <> HPE_OK ->
  http_parser_execute settings max_header_size data' p' u' = Returned 0 p' u' /\
  (hp_http_errno p' = HPE_PAUSED ->
   exists p'', http_parser_pause p' false = Some p'' /\ well_formed p'' /\
     hp_http_errno p'' = HPE_OK /\ hp_state p'' = hp_state p').
Proof.
  intros Hp Hret He. pose proof (execute_ok settings max_header_size data p u Hp) as Hok.
  rewrite Hret in Hok. destruct Hok as [[Hr Hs] _]. split.
  - unfold http_parser_execute. by rewrite decide_False.
  - intros Hpause. unfold http_parser_pause. rewrite decide_True by auto.
    eexists. split; [done |]. split; [| done]. split; [auto with ranges |].
    intros _. specialize (Hs (or_intror Hpause)). simpl. by destruct (hp_state p').
Qed.

Lemma execute_stopped_witness :
  exists p' u',
    http_parser_execute counting_settings max_header_size_init get_request
      (http_parser_init HTTP_REQUEST) 0%nat = Returned 50 p' u' /\
    hp_http_errno p' = HPE_PAUSED /\
    http_parser_execute counting_settings max_header_size_init get_request p' u'
      = Returned 0 p' u'.
Proof.
  eexists _, _. split; [vm_compute; reflexivity |]. split; [reflexivity |].
  eapply (execute_stopped counting_settings max_header_size_init get_request get_request
           (http_parser_init HTTP_REQUEST) _ 0%nat); [apply init_well_formed | | done].
  vm_compute. reflexivity.
Defined.

(** C6. The limit on the size of the headers.  A call that starts with a count of
    header bytes within [max_header_size] and sets no error number ends with one
    within it, wherever the buffer ends and whatever the callbacks do to the parser
    (they do not see the local count). *)
Theorem execute_header_limit {U} (settings : http_parser_settings U)
    (max_header_size : Z) (data : list Byte.byte) (p p' : http_parser) (u u' : U) (n : nat) :
  data <> [] -> 0 <= hp_nread p <= max_header_size ->
  http_parser_execute settings max_header_size data p u = Returned n p' u' ->
  hp_http_errno p' = HPE_OK ->
  0 <= hp_nread p' <= max_header_size.
Proof. apply execute_nread. Qed.

Lemma execute_header_limit_witness :
  exists p' u',
    http_parser_execute counting_settings 80 (take 30 get_request)
      (http_parser_init HTTP_REQUEST) 0%nat = Returned 30 p' u' /\ hp_nread p' = 30 /\ 0 <= hp_nread p' <= 80.
Proof.
  eexists _, _. split; [vm_compute; reflexivity |]. split; [reflexivity |].
  eapply (execute_header_limit counting_settings 80 (take 30 get_request)
           (http_parser_init HTTP_REQUEST) _ 0%nat _ 30%nat); [done | simpl; lia | | reflexivity].
  vm_compute. reflexivity.
Defined.

(** The two options [lenient_http_headers] and [allow_chunked_length] belong to the
    application: no call changes them, whatever its outcome. *)
Theorem execute_keeps_options {U} (settings : http_parser_settings U) `{!WellBehaved settings}
    (max_header_size : Z) (data : list Byte.byte) (p p' : http_parser) (u u' : U) (n : nat) :
  http_parser_execute settings max_header_size data p u = Returned n p' u' ->
  hp_lenient_http_headers p' = hp_lenient_http_headers p /\ hp_allow_chunked_length p' = hp_allow_chunked_length p.
Proof. intros Hret. by injection (execute_options settings _ _ _ _ _ _ _ Hret). Qed.

Lemma execute_keeps_options_witness :
  exists p' u',
    http_parser_execute counting_settings max_header_size_init get_request
      (http_parser_init HTTP_REQUEST) 0%nat = Returned 50 p' u' /\ hp_lenient_http_headers p' = false /\ hp_allow_chunked_length p' = false.
Proof.
  eexists _, _. split; [vm_compute; reflexivity |].
  eapply (execute_keeps_options counting_settings max_header_size_init get_request
           (http_parser_init HTTP_REQUEST) _ 0%nat _ 50%nat).
  vm_compute. reflexivity.
Defined.
