(* ===== verification/HttpServerTheorems.v ===== *)
(** * HttpServerTheorems: the HTTP server on a connection

    The server is the application [http_callbacks] of a connection; its invariant
    [context_ok] puts the invariants of the parser and of the buffers together. *)

From S2P Require Import Prelude.
From S2P Require Import HttpTables.
From S2P Require Import HttpParser.
From S2P Require Import HttpMonad.
From S2P Require Import HttpExec.
From S2P Require Import HttpWp.
From S2P Require Import HttpInvariant.
From S2P Require Import HttpLoop.
From S2P Require Import HttpOptions.
From S2P Require Import HttpTheorems.
From S2P Require Import Cpp.
From S2P Require Import Buffer.
From S2P Require Import TcpConnection.
From S2P Require Import TcpSafety.
From S2P Require Import Logger.
From S2P Require Import HttpServer.
From stdpp Require Import gmap list pretty.
Local Open Scope Z_scope.

(** ** The text of a response *)

Lemma write_all_ok parts b :
  buffer_ok b -> Forall (fun s => vsize s <= max_size) parts ->
  Cpp.wp (write_all parts b) (fun b' => buffer_ok b' /\ contents b' = contents b ++ concat parts).
Proof.
  intros Hb Hp. revert b Hb. induction Hp as [| s parts Hs Hp IH]; intros b Hb; simpl.
  - by rewrite app_nil_r.
  - apply after_bind. eapply after_mono; [by apply (write_ok (Some s) b Hb) |].
    intros b1 (Hb1 & Hc1 & _). eapply after_mono; [by apply IH |].
    intros b2 (Hb2 & Hc2). rewrite Hc2, Hc1. by rewrite app_assoc.
Qed.

(** The codes with a text, and headers that fit in memory. *)
Definition known (code : Z) : bool := existsb (fun e => code =? e.1) CodeStatus.
Definition header_line (item : list Byte.byte * list Byte.byte) : list Byte.byte :=
  item.1 ++ bytes ": " ++ item.2 ++ CRLF.
Definition sized (items : list (list Byte.byte * list Byte.byte)) (r : HttpResponse) : Prop :=
  Forall (fun item => vsize (header_line item) <= max_size) items /\
  vsize (bytes "Content-type: " ++ content_type_ r ++ CRLF) <= max_size /\
  0 <= content_len_ r < 2 ^ 32.

Lemma known_find code :
  known code = true ->
  exists e, List.find (fun e => code =? e.1) CodeStatus = Some e /\ e.1 = code /\ In e CodeStatus.
Proof.
  unfold known. intros (e0 & Hin & He)%existsb_exists.
  destruct (List.find _ CodeStatus) as [e |] eqn:Hf.
  - pose proof (find_some _ _ Hf) as [H1 H2]. exists e. split; [done |]. by apply Z.eqb_eq in H2.
  - pose proof (find_none _ _ Hf e0 Hin) as Hn. simpl in *. congruence.
Qed.

Lemma pretty_N_go_length k x s :
  (x < 10 ^ N.of_nat k)%N -> (String.length (pretty_N_go x s) <= k + String.length s)%nat.
Proof.
  revert x s. induction k as [| k IH]; intros x s Hx.
  - replace x with 0%N by (simpl in Hx; lia). by rewrite pretty_N_go_0.
  - destruct (decide (x = 0)%N) as [-> | Hx0]; [rewrite pretty_N_go_0; lia |].
    rewrite pretty_N_go_step by lia. etransitivity; [apply IH | simpl; lia].
    rewrite Nat2N.inj_succ, N.pow_succ_r' in Hx. apply N.Div0.div_lt_upper_bound; lia.
Qed.

Lemma decimal_length n : 0 <= n < 10 ^ 19 -> (length (decimal n) <= 19)%nat.
Proof.
  intros Hn. unfold decimal. rewrite length_bytes. destruct n as [| p |]; [by vm_compute; lia | | lia].
  change (pretty (Z.pos p)) with (pretty (N.pos p)). unfold pretty, pretty_N.
  rewrite decide_False by done. etransitivity; [apply (pretty_N_go_length 19); lia | simpl; lia].
Qed.

Lemma small_text (l : list Byte.byte) : (length l <= 100)%nat -> vsize l <= max_size.
Proof. unfold vsize, max_size. lia. Qed.

Lemma make_buffer_ok items r b :
  buffer_ok b -> buffer_ok (resp_body_ r) -> known (code_ r) = true -> sized items r ->
  exists head, response_head items r = Ok head /\
    Cpp.wp (make_buffer items r b) (fun b' => buffer_ok b' /\
      contents b' = contents b ++ head ++ contents (resp_body_ r)).
Proof.
  intros Hb Hbody Hk (Hitems & Htype & Hlen).
  destruct (known_find _ Hk) as (e & Hfind & He & Hin).
  unfold response_head, make_buffer. rewrite Hfind. eexists. split; [done |].
  apply after_bind. eapply after_mono; [apply write_all_ok; [done |] |].
  - repeat (apply Forall_app; split).
    + constructor; [| done]. rewrite <- He. apply small_text.
      destruct Hin as [<- | [<- | [<- | [<- | []]]]]; vm_compute; lia.
    + apply Forall_fmap. exact Hitems.
    + constructor; [| done]. apply small_text. destruct (close_connection_ r); vm_compute; lia.
    + destruct (content_type_ r); [constructor |]. by constructor.
    + destruct (0 <? content_len_ r); [| constructor]. constructor; [| done]. apply small_text.
      pose proof (decimal_length (content_len_ r) ltac:(lia)).
      rewrite !length_app. change (length (bytes "Content-length: ")) with 16%nat. simpl. lia.
    + constructor; [by vm_compute | done].
  - intros b1 (Hb1 & Hc1). unfold begin_read. rewrite (begin_ok _ Hbody). simpl.
    pose proof Hbody as [Hr Hw Hs]. rewrite (readable_ok _ Hbody), vread_Ok by lia. simpl.
    rewrite Z.add_0_l. fold (contents (resp_body_ r)). eapply after_mono; [apply (write_ok (Some _) b1 Hb1) |].
    + cbn [default from_option id]. rewrite (contents_size _ Hbody), (readable_ok _ Hbody). lia.
    + intros b2 (Hb2 & Hc2 & _). split; [done |]. rewrite Hc2, Hc1. cbn [default from_option id].
      rewrite <- app_assoc. do 2 f_equal. rewrite !concat_app.
      destruct (close_connection_ r), (content_type_ r), (0 <? content_len_ r); simpl;
        repeat (rewrite <- ?app_assoc, ?app_nil_r; simpl); reflexivity.
Qed.

(** Into a buffer that was not read from, when all fits in memory. *)
Lemma write_all_total parts b :
  buffer_ok b -> read_index_ b = 0 -> vsize (contents b) + vsize (concat parts) <= max_size ->
  exists b', write_all parts b = Ok b' /\ buffer_ok b' /\ contents b' = contents b ++ concat parts /\
    read_index_ b' = 0.
Proof.
  revert b. induction parts as [| l parts IH]; intros b Hb Hr Hs.
  { exists b. by rewrite app_nil_r. }
  cbn [concat write_all] in *. rewrite vsize_app in Hs. pose proof (vsize_nonneg (concat parts)).
  destruct (write_total l b Hb Hr) as (b1 & -> & Hb1 & Hc1 & Hr1); [lia |]. cbn [mbind outcome_bind].
  destruct (IH b1 Hb1 Hr1) as (b2 & -> & Hb2 & Hc2 & Hr2); [rewrite Hc1, vsize_app; lia |].
  exists b2. split_and!; [done | done | by rewrite Hc2, Hc1, app_assoc | done].
Qed.

Lemma make_buffer_total items r b head :
  buffer_ok b -> read_index_ b = 0 -> contents b = [] -> buffer_ok (resp_body_ r) ->
  response_head items r = Ok head -> vsize head + vsize (contents (resp_body_ r)) <= max_size ->
  exists b', make_buffer items r b = Ok b' /\ buffer_ok b' /\
    contents b' = head ++ contents (resp_body_ r).
Proof.
  intros Hb Hr Hc Hbody. unfold response_head, make_buffer.
  destruct (List.find _ CodeStatus) as [e |]; [| done]. intros [= Hhead] Hs.
  pose proof (vsize_nonneg (contents (resp_body_ r))).
  match goal with |- context [write_all ?parts b] => assert (concat parts = head) as Hparts end.
  { rewrite <- Hhead, !concat_app.
    destruct (close_connection_ r), (content_type_ r), (0 <? content_len_ r); simpl;
      repeat (rewrite <- ?app_assoc, ?app_nil_r; simpl); reflexivity. }
  destruct (write_all_total _ b Hb Hr ltac:(rewrite Hc, Hparts; change (vsize []) with 0; lia))
    as (b1 & -> & Hb1 & Hc1 & Hr1). rewrite Hparts, Hc in Hc1. cbn [mbind outcome_bind].
  unfold begin_read. rewrite (begin_ok _ Hbody). simpl.
  pose proof Hbody as [Hr2 Hw2 Hs2]. rewrite (readable_ok _ Hbody), vread_Ok by lia. simpl.
  rewrite Z.add_0_l. fold (contents (resp_body_ r)).
  destruct (write_total (contents (resp_body_ r)) b1 Hb1 Hr1) as (b2 & Hw & Hb2 & Hc2 & _); [rewrite Hc1; simpl; lia |].
  exists b2. split_and!; [exact Hw | done | by rewrite Hc2, Hc1].
Qed.

(** ** The invariant of a task *)

(** [RI] is what the application wants of its response and of its own pointer. *)
Record task_ok {V} (RI : HttpResponse -> option V -> Prop) (t : HttpTask V) : Prop := {
  tk_parser : well_formed (parser_ t);
  tk_body : buffer_ok (body_ (request_ t));
  tk_response : buffer_ok (resp_body_ (response_ t));
  tk_app : RI (response_ t) (context_ t)
}.

(** What the parser works on. *)
Definition state_ok {V} RI (u : Task_state (V:=V)) : Prop := Cpp.wp u (task_ok RI).

(** What the server asks of the application: when its callbacks return, they have kept the
    invariant and answered with a code that has a text, and its strings fit in memory. *)
Class Application {V} (http_cb_ : HttpTask V -> Cpp.outcome (HttpTask V))
    (http_send_cb_ : HttpTask V -> Buffer -> Cpp.outcome (HttpTask V * Buffer))
    (iterate : gmap (list Byte.byte) (list Byte.byte) -> list (list Byte.byte * list Byte.byte))
    (RI : HttpResponse -> option V -> Prop) : Prop := {
  app_init r : RI (HttpResponse_init r) None;
  app_request t t' : task_ok RI t -> http_cb_ t = Ok t' ->
    task_ok RI t' /\ known (code_ (response_ t')) = true /\
    sized (iterate (resp_headers_ (response_ t'))) (response_ t');
  app_send t b r : task_ok RI t -> Buffer_init InitialSize = Ok b -> http_send_cb_ t b = Ok r ->
    task_ok RI r.1 /\ buffer_ok r.2
}.

(** The undefined behaviour that is the application's own. *)
Definition app_undefined {V} (http_cb_ : HttpTask V -> Cpp.outcome (HttpTask V))
    (http_send_cb_ : HttpTask V -> Buffer -> Cpp.outcome (HttpTask V * Buffer))
    (RI : HttpResponse -> option V -> Prop) (e : string) : Prop :=
  (exists t, task_ok RI t /\ http_cb_ t = Undefined e) \/
  (exists t b, task_ok RI t /\ http_send_cb_ t b = Undefined e).

(** The outcome of an operation whose undefined behaviour has a reason in [E]. *)
Definition only {A} (E : string -> Prop) (m : Cpp.outcome A) (Q : A -> Prop) : Prop :=
  match m with Ok a => Q a | Throw _ => True | Undefined e => E e end.

Lemma only_bind {A B} E (m : Cpp.outcome A) (f : A -> Cpp.outcome B) (Q : B -> Prop) :
  only E m (fun a => only E (f a) Q) -> only E (m ≫= f) Q.
Proof. by destruct m. Qed.
Lemma only_wp {A} E (m : Cpp.outcome A) (Q Q' : A -> Prop) :
  Cpp.wp m Q -> (forall a, Q a -> Q' a) -> only E m Q'.
Proof. destruct m; simpl; auto; done. Qed.

Section task.
Context {V : Type} (RI : HttpResponse -> option V -> Prop).
Implicit Types t : HttpTask V.

#[export] Instance parser_settings_WellBehaved : WellBehaved (parser_settings (V:=V)).
Proof. split; [intros [] | intros [] |]; simpl; try done; intros *; by left. Qed.

Lemma state_fmap (f : HttpTask V -> HttpTask V) (u : Cpp.outcome (HttpTask V)) :
  (forall t, task_ok RI t -> task_ok RI (f t)) -> state_ok RI u -> state_ok RI (f <$> u).
Proof. intros Hf. destruct u; simpl; auto. Qed.

#[export] Instance parser_settings_Keeps k :
  Z.of_nat k <= max_size -> Keeps_user (parser_settings (V:=V)) (state_ok RI) k.
Proof.
  intros Hk. split.
  - intros []; simpl; try done; intros p u; apply state_fmap; by intros t [].
  - intros []; simpl; intros p bs u Hbs; try (apply state_fmap; by intros t []); [| done].
    intros Hu. apply after_bind. eapply after_mono; [exact Hu |]. intros t [H1 H2 H3 H4].
    apply after_bind. eapply after_mono; [apply (write_ok (Some bs) _ H2) |].
    + simpl. unfold vsize. lia.
    + by intros b (Hb & _).
  - intros p u. apply state_fmap. by intros t [].
Qed.

(** [parse] never fails, and takes from the buffer no more than it holds. *)
Lemma parse_ok data t :
  task_ok RI t -> vsize data <= max_size ->
  Cpp.wp (parse data t) (fun r => Forall op_ok r.1.2 /\ task_ok RI r.2).
Proof.
  intros Ht Hd. unfold parse. pose proof Ht as [H1 H2 H3 H4].
  pose proof (execute_ok parser_settings max_header_size_init data (parser_ t) (Ok t) H1) as Hok.
  pose proof (parser_settings_Keeps (length data) Hd) as Hk.
  destruct (http_parser_execute _ _ _ _ _) as [n p u |] eqn:He; [| done].
  destruct (execute_keeps parser_settings (state_ok RI) _ _ _ _ _ _ _ He) as [_ Hu].
  specialize (Hu Ht). destruct Hok as [Hp Hn]. apply after_bind.
  eapply after_mono; [exact Hu |]. intros t' [H1' H2' H3' H4']. case_decide; [| by split].
  split; [| done]. constructor; [| done]. simpl. unfold vsize, max_size, SIZE_MAX in *.
  destruct data as [| x data]; [destruct Hn; lia |]. destruct Hn as [Hn _]. simpl in *. lia.
Qed.
End task.

Section server.
Context {V : Type} (http_cb_ : HttpTask V -> Cpp.outcome (HttpTask V))
  (http_send_cb_ : HttpTask V -> Buffer -> Cpp.outcome (HttpTask V * Buffer))
  (iterate : gmap (list Byte.byte) (list Byte.byte) -> list (list Byte.byte * list Byte.byte))
  (RI : HttpResponse -> option V -> Prop)
  `{!Application http_cb_ http_send_cb_ iterate RI} (LOGGER : Logger).
Implicit Types t : HttpTask V.
Abbreviation app_undefined := (app_undefined http_cb_ http_send_cb_ RI).

(** What the server keeps for a connection.  The two reasons for undefined behaviour: a
    callback of the application, and, at the level [LL_Trace], the logging of what was
    received. *)
Definition context_ok (u : context (V:=V)) : Prop :=
  match u with
  | Ok (Some t) => task_ok RI t
  | Undefined e => app_undefined e \/ logs LL_Trace LOGGER = true /\ e = past_the_end
  | _ => True
  end.

Lemma init_task_ok t : task_ok RI t -> task_ok RI (init t).
Proof.
  intros [H1 H2 H3 H4]. split; simpl; [apply init_well_formed | by apply has_readall_ok.. |].
  apply app_init.
Qed.

Lemma on_request_ok t :
  task_ok RI t ->
  only app_undefined (on_request http_cb_ iterate t)
    (fun r => Forall request_ok r.1 /\ task_ok RI r.2).
Proof.
  intros Ht. unfold on_request. apply only_bind.
  destruct (http_cb_ t) as [t' | |] eqn:Hcb; [| exact I | left; by exists t].
  cbn [only].
  destruct (app_request t t' Ht Hcb) as (Ht' & Hk & Hs).
  apply only_bind. eapply only_wp; [apply Buffer_init_wp; by vm_compute |].
  intros b (Hb & _). apply only_bind.
  destruct (make_buffer_ok _ _ b Hb (tk_response _ _ Ht') Hk Hs) as (head & _ & Hm).
  eapply only_wp; [exact Hm |]. intros b' [Hb' _]. split; [by apply Forall_singleton | done].
Qed.

Lemma on_send_progressively_ok t :
  task_ok RI t ->
  only app_undefined (on_send_progressively http_send_cb_ t)
    (fun r => Forall request_ok r.1 /\ task_ok RI r.2).
Proof.
  intros Ht. unfold on_send_progressively.
  destruct (Buffer_init_ok InitialSize) as (b & Hinit & _); [done |]. rewrite Hinit.
  cbn [mbind outcome_bind]. apply only_bind.
  destruct (http_send_cb_ t b) as [r | |] eqn:Hcb; [| exact I | right; by exists t, b].
  cbn [only].
  destruct (app_send t b r Ht Hinit Hcb) as [Ht' Hb'].
  case_match; [split; [by apply Forall_singleton | done] |].
  case_match; [split; [by apply Forall_singleton | done] |].
  split; [constructor | by apply init_task_ok].
Qed.

Lemma recv_task_ok data t :
  task_ok RI t -> vsize data <= max_size ->
  let r := recv_task http_cb_ iterate data t in
  Forall op_ok r.1 /\ Forall request_ok r.2.1 /\ only app_undefined r.2.2 (task_ok RI).
Proof.
  intros Ht Hd. unfold recv_task. pose proof (parse_ok RI data t Ht Hd) as Hp.
  destruct (parse data t) as [[[good ops] t'] | |]; simpl in *; [| by repeat constructor | done].
  destruct Hp as [Hops Ht'].
  assert (Forall request_ok (if good then [] else [Send (Some bad_request); Close])) as Hbad
    by (destruct good; repeat constructor).
  destruct (completed_ t'); [| done]. pose proof (on_request_ok t' Ht') as Hon.
  destruct (on_request http_cb_ iterate t') as [[reqs t''] | |]; [| done..].
  destruct Hon as [Hr Ht'']. split_and!; [done | by apply Forall_app | done].
Qed.

Lemma new_task_ok : Cpp.wp (new_task (V:=V)) (task_ok RI).
Proof.
  unfold new_task. do 2 (apply after_bind; eapply after_mono; [apply Buffer_init_wp; by vm_compute |];
    intros ? (? & _)). split; simpl; [apply init_well_formed | by apply has_readall_ok.. |].
  apply app_init.
Qed.

(** Reading what was received as a C string fails only where it is done. *)
Lemma log_received_ok b :
  buffer_ok b ->
  only (fun e => logs LL_Trace LOGGER = true /\ e = past_the_end) (log_received LOGGER b)
    (fun _ => True).
Proof.
  intros Hb. unfold log_received, begin_read. destruct (logs LL_Trace LOGGER); [| done].
  rewrite (begin_ok b Hb). simpl. unfold c_string. by destruct (until_zero _).
Qed.

#[export] Instance http_Contract :
  Contract (http_callbacks http_cb_ http_send_cb_ iterate LOGGER) context_ok.
Proof.
  split; [intros f c u [= <-] Hu | intros f c len u [= <-] Hu Hc _ | intros f c u [= <-] Hu | by intros f c u [= <-]].
  - unfold on_connection. destruct (connected_ c); [| done]. split; [constructor |].
    pose proof new_task_ok as Hnew. destruct u; [| done..]. cbn [snd mbind outcome_bind].
    by destruct new_task.
  - unfold on_recv. destruct u as [ctx | |];
      [| by repeat constructor | split; [constructor |]; split; [constructor | exact Hu]].
    pose proof (log_received_ok (recv_buffer_ c) Hc) as Hlog.
    destruct (log_received _ _); [| by repeat constructor | split; [constructor |]; split; [constructor | by right]].
    destruct ctx as [t |]; [| by repeat constructor].
    pose proof (recv_task_ok (contents (recv_buffer_ c)) t Hu) as Ht.
    rewrite (contents_size _ Hc), (readable_ok _ Hc) in Ht. destruct Hc.
    destruct (Ht ltac:(lia)) as (H1 & H2 & H3). split_and!; [exact H1 | exact H2 |].
    cbn [snd]. destruct (recv_task _ _ _ _).2.2; [exact H3 | exact I | by left].
  - unfold on_sendcomplete. destruct u as [[t |] | |];
      [| by repeat constructor | by repeat constructor | split; [constructor | exact Hu]].
    case_match; [| by split]. pose proof (on_send_progressively_ok t Hu) as Ht.
    destruct (on_send_progressively _ _) as [[reqs t'] | |]; [done | by repeat constructor |].
    split; [constructor | by left].
Qed.
End server.

(** ** Two applications *)

(** One that answers every request with the same text. *)
Definition hello (t : HttpTask unit) : Cpp.outcome (HttpTask unit) :=
  mret (with_response (mk_response 200 (negb (keep_alive_ (request_ t))) (bytes "text/plain") 2 ∅
    (mk_Buffer (bytes "hi") 0 2)) t).
Definition no_more (t : HttpTask unit) (b : Buffer) : Cpp.outcome (HttpTask unit * Buffer) := mret (t, b).
Definition hello_callbacks : callbacks context := http_callbacks hello no_more map_to_list Logger_new.

Definition anything {V} (r : HttpResponse) (c : option V) : Prop := True.
#[export] Instance hello_Application : Application hello no_more map_to_list anything.
Proof.
  assert (buffer_ok (mk_Buffer (bytes "hi") 0 2)) as Hhi
    by (split; unfold vsize, max_size; simpl; lia).
  split; [done | |].
  - intros t t' [H1 H2 H3 H4] [= <-]. split; [split; [exact H1 | exact H2 | exact Hhi | done] |].
    split; [reflexivity |]. unfold sized.
    cbn [response_ with_response resp_headers_ content_type_ content_len_].
    rewrite map_to_list_empty. split; [constructor |].
    split; [apply small_text; vm_compute; lia | lia].
  - intros t b r Ht Hinit [= <-]. split; [exact Ht |].
    destruct (Buffer_init_ok InitialSize) as (b' & Hb' & Hok & _); [done |]. simpl. congruence.
Qed.

(** One that announces six bytes and sends them afterwards, in two pieces. *)
Definition stream (t : HttpTask (list (list Byte.byte))) : Cpp.outcome (HttpTask (list (list Byte.byte))) :=
  mret (set_context (Some [bytes "one"; bytes "two"])
    (set_send_progressively true
      (with_response (mk_response 200 true (bytes "text/plain") 6 ∅ (mk_Buffer (bytes "-") 0 0)) t))).
Definition stream_next (t : HttpTask (list (list Byte.byte))) (b : Buffer) :
    Cpp.outcome (HttpTask (list (list Byte.byte)) * Buffer) :=
  match context_ t with
  | Some (piece :: rest) => b ← write_string piece b; mret (set_context (Some rest) t, b)
  | _ => mret (t, b)
  end.
Definition stream_callbacks : callbacks context := http_callbacks stream stream_next map_to_list Logger_new.

Definition get_page : list Byte.byte := bytes "GET /page HTTP/1.1" ++ CRLF ++ CRLF.

(** ** What the requests of the server do to its connection *)

Lemma head_nonempty items r head : response_head items r = Ok head -> head <> [].
Proof. unfold response_head. destruct (List.find _ _); [intros [= <-] | done]. done. Qed.

(** What [on_request] asks for. *)
Lemma on_request_text {V} (http_cb_ : HttpTask V -> Cpp.outcome (HttpTask V)) http_send_cb_ iterate RI
    `{!Application http_cb_ http_send_cb_ iterate RI} t reqs t' :
  task_ok RI t -> on_request http_cb_ iterate t = Ok (reqs, t') ->
  http_cb_ t = Ok t' /\ exists head b,
    response_head (iterate (resp_headers_ (response_ t'))) (response_ t') = Ok head /\
    reqs = [Send_buffer (Some b)] /\ buffer_ok b /\
    contents b = head ++ contents (resp_body_ (response_ t')).
Proof.
  intros Ht H. unfold on_request in H. apply bind_Ok in H as (t1 & Hcb & H). apply bind_Ok in H as (b0 & H0 & H).
  apply bind_Ok in H as (b & Hm & H). injection H as <- <-. split; [done |].
  destruct (app_request t t1 Ht Hcb) as (Ht' & Hk & Hs).
  destruct (after_Ok _ _ _ (Buffer_init_wp InitialSize eq_refl) H0) as (Hb0 & Hc0 & _).
  destruct (make_buffer_ok _ _ b0 Hb0 (tk_response _ _ Ht') Hk Hs) as (head & Hh & Hw).
  exists head, b. destruct (after_Ok _ _ _ Hw Hm) as [Hb Hc]. rewrite Hc0 in Hc. done.
Qed.

Section answers.
Context {V : Type} (http_cb_ : HttpTask V -> Cpp.outcome (HttpTask V))
  (http_send_cb_ : HttpTask V -> Buffer -> Cpp.outcome (HttpTask V * Buffer))
  (iterate : gmap (list Byte.byte) (list Byte.byte) -> list (list Byte.byte * list Byte.byte))
  (RI : HttpResponse -> option V -> Prop)
  `{!Application http_cb_ http_send_cb_ iterate RI} (LOGGER : Logger).
Abbreviation cbs := (http_callbacks http_cb_ http_send_cb_ iterate LOGGER).
Abbreviation context_ok := (context_ok http_cb_ http_send_cb_ RI LOGGER).

(** A piece that arrives when there is a task, and is not stopped by the logging. *)
Lemma received_task (l : list Byte.byte) (n n' : net context) (t : HttpTask V) :
  safe context_ok n -> user n = Ok (Some t) -> enabled (Received l) n = true ->
  handle cbs (Received l) n = Ok n' ->
  logs LL_Trace LOGGER = false \/ user n' <> Undefined past_the_end ->
  let r := recv_task http_cb_ iterate (contents (recv_buffer_ (conn n)) ++ l) t in
  vsize (contents (recv_buffer_ (conn n)) ++ l) <= max_size /\
  exists n1 n2, sending n1 = sending n /\ user n1 = Some <$> r.2.2 /\
    do_requests r.2.1 n1 = Ok n2 /\ sending n' = sending n2 /\ user n' = Some <$> r.2.2.
Proof.
  intros Hs Hu He Hh Hlog.
  destruct (received_split cbs _ l n n' eq_refl (safe_recv _ _ Hs) Hh He)
    as (c & n1 & n2 & Hbc & Hcc & Hs1 & Hu1 & Hreq & Hs2 & Hu2).
  pose proof (do_requests_kept _ _ _ Hreq) as Hk. injection Hk as _ Hk.
  rewrite Hu in Hu1, Hreq. unfold on_recv in Hu1, Hreq.
  pose proof (log_received_ok LOGGER (recv_buffer_ c) Hbc) as Hl.
  pose proof (contents_size _ Hbc) as Hsz. rewrite Hcc, (readable_ok _ Hbc) in Hsz.
  split; [destruct Hbc; lia |].
  destruct (log_received LOGGER (recv_buffer_ c)) as [[] | e | e] eqn:Hlr.
  - rewrite Hcc in Hu1, Hreq. exists n1, n2. split_and!; try done. by rewrite Hu2, Hk.
  - exfalso. unfold log_received, begin_read in Hlr. destruct (logs LL_Trace LOGGER); [| done].
    rewrite (begin_ok _ Hbc) in Hlr. simpl in Hlr. unfold c_string in Hlr. by destruct (until_zero _).
  - exfalso. destruct Hl as [Htr ->], Hlog as [Hlog | Hlog]; [congruence |].
    apply Hlog. by rewrite Hu2, Hk, Hu1.
Qed.

Lemma received_answered (l : list Byte.byte) (n n' : net context) (t t1 t2 : HttpTask V) (ops : list op) :
  safe context_ok n -> connected_ (conn n) = true -> user n = Ok (Some t) ->
  enabled (Received l) n = true ->
  parse (contents (recv_buffer_ (conn n)) ++ l) t = Ok (true, ops, t1) ->
  handle cbs (Received l) n = Ok n' -> user n' = Ok (Some t2) ->
  connected_ (conn n') = true /\
  if completed_ t1
  then http_cb_ t1 = Ok t2 /\ exists head,
    response_head (iterate (resp_headers_ (response_ t2))) (response_ t2) = Ok head /\
    accepted n' = accepted n ++ [head ++ contents (resp_body_ (response_ t2))]
  else t2 = t1 /\ accepted n' = accepted n.
Proof.
  intros Hs Hc Hu He Hp Hh Hu'.
  destruct (received_task l n n' t Hs Hu He Hh) as (Hsize & n1 & n2 & Hs1 & Hu1 & Hreq & Hs2 & Hu2);
    [by right; rewrite Hu' |].
  assert (task_ok RI t1) as Ht1.
  { pose proof (safe_user _ _ Hs) as Ht. rewrite Hu in Ht.
    pose proof (parse_ok RI _ t Ht Hsize) as Hw. by apply (after_Ok _ _ _ Hw) in Hp as [_ ?]. }
  injection Hs1 as Ha1 _ _ Hc1 _. injection Hs2 as Ha2 _ _ Hc2 _.
  unfold recv_task in Hreq, Hu2. rewrite Hp in Hreq, Hu2. cbn [app] in Hreq, Hu2.
  rewrite Hu' in Hu2. destruct (completed_ t1).
  - destruct (on_request http_cb_ iterate t1) as [[reqs t'] | |] eqn:Hon; [| done..].
    destruct (on_request_text _ _ _ _ _ _ _ Ht1 Hon) as (Hcall & head & b & Hhead & -> & Hb & Hcb).
    simpl in Hreq, Hu2. injection Hu2 as ->. apply bind_Ok in Hreq as (n2' & Hreq & [= ->]).
    assert (contents b <> []) as Hne.
    { rewrite Hcb. apply head_nonempty in Hhead. by destruct head. }
    apply (send_buffer_grown b n1 n2 ltac:(congruence) Hb Hne) in Hreq as (Ha3 & Hc3 & _).
    split; [congruence |]. split; [done |].
    exists head. split; [done |]. by rewrite Ha2, Ha3, Ha1, Hcb.
  - simpl in Hreq, Hu2. injection Hreq as <-. injection Hu2 as ->. split; [congruence |]. split; congruence.
Qed.

(** ** A message once completed is not forgotten *)

Definition stays_completed (progressive : bool) (u : Cpp.outcome (HttpTask V)) : Prop :=
  match u with
  | Ok t => completed_ t = true /\ send_progressively_ t = progressive
  | _ => True
  end.
Instance completed_Keeps b k : Keeps_user (parser_settings (V:=V)) (stays_completed b) k.
Proof.
  split; [intros []; simpl; try done; intros p u | intros []; simpl; intros p bs u _ | intros p u];
    destruct u as [t | |]; simpl; try done.
  - by intros [_ ?].
  - intros Ht. match goal with |- context [?m ≫= _] => destruct m end; [exact Ht | exact I..].
Qed.
Lemma parse_completed data (t : HttpTask V) good ops t1 :
  parse data t = Ok (good, ops, t1) -> completed_ t = true ->
  completed_ t1 = true /\ send_progressively_ t1 = send_progressively_ t.
Proof.
  unfold parse. destruct (http_parser_execute _ _ _ _ _) as [m p u |] eqn:He; [| done].
  destruct (execute_keeps parser_settings (stays_completed (send_progressively_ t)) _ _ _ _ _ _ _ He) as [_ Hk].
  intros (t' & -> & H)%bind_Ok Hc. case_decide; injection H as <- <- <-; by apply Hk.
Qed.

(** The task of a connection has a response that is not sent progressively. *)
Definition stale (u : context (V:=V)) : Prop :=
  match u with
  | Ok (Some t) => completed_ t = true /\ send_progressively_ t = false
  | Ok None => False
  | _ => True
  end.

Context (Hcb : forall t t', http_cb_ t = Ok t' ->
  completed_ t' = completed_ t /\ send_progressively_ t' = send_progressively_ t).

Lemma recv_task_stale data t :
  stale (Ok (Some t)) -> stale (Some <$> (recv_task http_cb_ iterate data t).2.2).
Proof.
  intros [Hc Hsp]. unfold recv_task. destruct (parse data t) as [[[good ops] t1] | |] eqn:Hp; [| done..].
  apply parse_completed in Hp as [Hc1 Hs1]; [| done]. rewrite Hc1.
  destruct (on_request http_cb_ iterate t1) as [[reqs t2] | |] eqn:Hon; [| done..].
  unfold on_request in Hon. apply bind_Ok in Hon as (t3 & H3 & Hon). apply bind_Ok in Hon as (b & _ & Hon).
  apply bind_Ok in Hon as (b' & _ & [= _ <-]). apply Hcb in H3 as [H3 H4]. simpl. split; congruence.
Qed.

Lemma handle_close_user n n' :
  stale (user n) -> handle_close cbs n = Ok n' -> stale (user n').
Proof.
  unfold handle_close, call. intros Hst (n1 & H1 & [= <-])%bind_Ok. simpl in H1.
  apply do_requests_kept in H1. injection H1 as _ H1. cbn [user with_user]. rewrite H1. unfold on_connection.
  destruct (connected_ (conn n)) eqn:Hc; cbn in *; rewrite ?Hc; done.
Qed.

Lemma handle_stale e n n' :
  stale (user n) -> handle cbs e n = Ok n' -> stale (user n').
Proof.
  intros Hst. destruct e as [l | | | | r]; cbn [handle].
  - unfold handle_recv. intros (b & _ & H)%bind_Ok. apply bind_Ok in H as (n1 & H & Hr).
    apply async_recv_sending in Hr as [_ ->]. cbn [recv_callback_ http_callbacks] in H.
    apply bind_Ok in H as (b2 & _ & H). apply do_requests_kept in H. injection H as _ ->.
    cbn [user with_user with_conn take_read conn]. unfold on_recv.
    destruct (user n) as [ctx | |]; [| exact I..].
    destruct (log_received _ _); [| exact I..]. destruct ctx as [t |]; [| exact I].
    by apply recv_task_stale.
  - intros H. apply (handle_close_user (take_read n)); [exact Hst | exact H].
  - unfold handle_send. set (n0 := match send_buffer_ _ with [] => _ | _ :: _ => _ end).
    assert (user n0 = user n) as Hn0 by (unfold n0; by case_match).
    intros (n1 & H & Hr)%bind_Ok.
    assert (user n' = user n1) as ->.
    { destruct (send_buffer_ (conn n1)); [by injection Hr as <- |].
      by apply async_send_kept in Hr as [= _ ->]. }
    unfold call in H. cbn [sendcomplete_callback_ http_callbacks] in H.
    apply do_requests_kept in H. injection H as _ ->. cbn [user with_user]. unfold on_sendcomplete.
    rewrite Hn0. destruct (user n) as [[t |] | |]; try done. destruct Hst as [Hc Hs]. by rewrite Hs.
  - intros H. apply (handle_close_user (take_write true n)); [exact Hst | exact H].
  - intros H. by apply do_request_kept in H as [= _ ->].
Qed.

Lemma run_events_stale es n n' :
  stale (user n) -> run_events cbs es n = Ok n' -> stale (user n').
Proof.
  revert n. induction es as [| e es IH]; intros n Hst; cbn [run_events]; [by intros [= <-] |].
  destruct (enabled e n); [| by apply IH]. intros (n1 & H1 & H2)%bind_Ok.
  eapply IH; [| exact H2]. by eapply handle_stale.
Qed.
End answers.

(** ** Properties *)

Section properties.
Context {V : Type} (http_cb_ : HttpTask V -> Cpp.outcome (HttpTask V))
  (http_send_cb_ : HttpTask V -> Buffer -> Cpp.outcome (HttpTask V * Buffer))
  (iterate : gmap (list Byte.byte) (list Byte.byte) -> list (list Byte.byte * list Byte.byte))
  (RI : HttpResponse -> option V -> Prop)
  `{!Application http_cb_ http_send_cb_ iterate RI} (LOGGER : Logger).
Abbreviation cbs := (http_callbacks http_cb_ http_send_cb_ iterate LOGGER).
Abbreviation context_ok := (context_ok http_cb_ http_send_cb_ RI LOGGER).


(** C11. What comes back for the bytes that arrive and are parsed without an error.  When
    [completed_] of the task is set after them, which it is from the end of a request
    until the task is initialised again, the connection accepts exactly one buffer: the
    head of the response the application has filled in, followed by its body.  As long
    as it is not set, nothing is sent, and the application is not asked. *)
Theorem server_answers (l : list Byte.byte) (n n' : net context) (t t1 t2 : HttpTask V) (ops : list op) :
  safe context_ok n -> connected_ (conn n) = true -> user n = Ok (Some t) ->
  enabled (Received l) n = true ->
  parse (contents (recv_buffer_ (conn n)) ++ l) t = Ok (true, ops, t1) ->
  handle cbs (Received l) n = Ok n' -> user n' = Ok (Some t2) ->
  connected_ (conn n') = true /\
  if completed_ t1
  then http_cb_ t1 = Ok t2 /\ exists head,
    response_head (iterate (resp_headers_ (response_ t2))) (response_ t2) = Ok head /\
    accepted n' = accepted n ++ [head ++ contents (resp_body_ (response_ t2))]
  else t2 = t1 /\ accepted n' = accepted n.
Proof. exact (received_answered http_cb_ http_send_cb_ iterate RI LOGGER l n n' t t1 t2 ops). Qed.

(** C19. Malformed bytes close the connection.  Whether a request was complete before or not:
    the connection accepts the answer 400 and nothing after it; the writing of this answer
    has started if and only if no other buffer was waiting to be written; and the socket
    is shut down.  When a request was complete before, the application is asked once more,
    also by bytes that are no request, and its response is dropped. *)
Theorem bad_request_closes (l : list Byte.byte) (n n' : net context) (t t1 : HttpTask V) (ops : list op) :
  safe context_ok n -> connected_ (conn n) = true -> user n = Ok (Some t) ->
  enabled (Received l) n = true -> logs LL_Trace LOGGER = false ->
  parse (contents (recv_buffer_ (conn n)) ++ l) t = Ok (false, ops, t1) ->
  handle cbs (Received l) n = Ok n' ->
  accepted n' = accepted n ++ [bad_request] /\
  writes n' = writes n ++ match send_buffer_ (conn n) with [] => [bad_request] | _ => [] end /\
  connected_ (conn n') = false /\ shut n' = true /\
  user n' = (if completed_ t1
             then (fun r => Some r.2) <$> on_request http_cb_ iterate t1
             else Ok (Some t1)).
Proof.
  intros Hs Hc Hu He Hlog Hp Hh.
  destruct (received_task http_cb_ http_send_cb_ iterate RI LOGGER l n n' t Hs Hu He Hh)
    as (Hsize & n1 & n2 & Hs1 & Hu1 & Hreq & Hs2 & Hu2); [by left |].
  injection Hs1 as Ha1 Hw1 _ Hc1 Hq1. injection Hs2 as Ha2 Hw2 Hsh2 Hc2 _.
  assert (exists reqs, do_requests (Send (Some bad_request) :: Close :: reqs) n1 = Ok n2 /\
    user n' = (if completed_ t1 then (fun r => Some r.2) <$> on_request http_cb_ iterate t1
               else Ok (Some t1))) as (reqs & Hr & ->).
  { unfold recv_task in Hreq, Hu2. rewrite Hp in Hreq, Hu2. cbn iota in Hreq, Hu2.
    destruct (completed_ t1); [| by exists []].
    destruct (on_request http_cb_ iterate t1) as [[reqs t'] | |];
      [by exists reqs | by exists [] | by exists []]. }
  clear Hreq Hu2. cbn [do_requests] in Hr. apply bind_Ok in Hr as (n3 & Hsend & Hr).
  apply bind_Ok in Hr as (n4 & Hclose & Hr).
  assert (vsize bad_request <= max_size) as Hsz by (apply small_text; vm_compute; lia).
  pose proof (send_starts bad_request n1 n3 ltac:(congruence) ltac:(done) Hsz Hsend) as Hw3.
  apply send_grown in Hsend as (Ha3 & Hc3 & _); [| congruence | done | done].
  cbn [do_request] in Hclose. unfold close_loop in Hclose. rewrite Hc3 in Hclose. injection Hclose as <-.
  apply do_requests_ignored in Hr; [| done]. subst n2. simpl in *.
  rewrite Ha2, Hw2, Ha3, Hw3, Ha1, Hw1, Hq1. done.
Qed.

(** C38. After a response the server does not forget the request.  Once a request is complete
    and its response is not sent progressively, both stay so whatever happens to the
    connection (as long as the application leaves the two flags alone), and every later
    piece that arrives while the connection is open and is not malformed, be it a single
    byte of the next request, makes the server ask the application again and send
    another full response. *)
Theorem stale_request_answered (es : list TcpConnection.event) (n n1 : net context) (t1 : HttpTask V) :
  (forall t t', http_cb_ t = Ok t' ->
     completed_ t' = completed_ t /\ send_progressively_ t' = send_progressively_ t) ->
  safe context_ok n -> stale (user n) -> Forall event_ok es ->
  run_events cbs es n = Ok n1 -> user n1 = Ok (Some t1) ->
  completed_ t1 = true /\ send_progressively_ t1 = false /\
  forall l n2 ops t2 t3,
    connected_ (conn n1) = true -> enabled (Received l) n1 = true ->
    parse (contents (recv_buffer_ (conn n1)) ++ l) t1 = Ok (true, ops, t2) ->
    handle cbs (Received l) n1 = Ok n2 -> user n2 = Ok (Some t3) ->
    http_cb_ t2 = Ok t3 /\ stale (user n2) /\ exists text,
      text <> [] /\ accepted n2 = accepted n1 ++ [text].
Proof.
  intros Hcb Hs Hst Hes Hr Hu1.
  pose proof (run_events_stale http_cb_ http_send_cb_ iterate LOGGER Hcb es n n1 Hst Hr) as Hst1.
  pose proof (run_events_safe cbs context_ok es n Hs Hes) as Hs1. rewrite Hr in Hs1. simpl in Hs1.
  rewrite Hu1 in Hst1. destruct Hst1 as [Hc1 Hp1]. split_and!; [done | done |].
  intros l n2 ops t2 t3 Hopen He Hp Hh Hu2. pose proof (parse_completed _ _ _ _ _ Hp Hc1) as [Ht2 _].
  pose proof (received_answered http_cb_ http_send_cb_ iterate RI LOGGER l n1 n2 t1 t2 t3 ops
    Hs1 Hopen Hu1 He Hp Hh Hu2) as [_ H].
  rewrite Ht2 in H. destruct H as (Hcall & head & Hhead & Ha). split_and!; [done | |].
  - apply (handle_stale http_cb_ http_send_cb_ iterate LOGGER Hcb (Received l) n1); [| done].
    by rewrite Hu1.
  - eexists. split; [| exact Ha]. apply head_nonempty in Hhead. by destruct head.
Qed.
End properties.

(** ** Examples *)

(** The connection of [hello] after some events, and its task. *)
Definition hello_net (es : list TcpConnection.event) : net context :=
  result (mk_net (mk_conn false (mk_Buffer [] 0 0) []) false 0 [] [] [] 0 (Ok None))
    (session hello_callbacks (Ok None) es).
Definition hello_task (data : list Byte.byte) (es : list TcpConnection.event) :
    bool * list op * HttpTask unit :=
  let t := match user (hello_net es) with
           | Ok (Some t) => t
           | _ => mk_task (http_parser_init HTTP_REQUEST) [] false
                    (mk_request [] [] false ∅ (mk_Buffer [] 0 0))
                    (mk_response 0 false [] 0 ∅ (mk_Buffer [] 0 0)) false None
           end in
  match data with
  | [] => (true, [], t)
  | _ => result (true, [], t) (parse data t)
  end.

Abbreviation hello_ok := (context_ok hello no_more anything Logger_new).

Lemma hello_net_safe es :
  forallb (fun e => match e with Requested _ => false | _ => true end) es = true ->
  session hello_callbacks (Ok None) es = Ok (hello_net es) -> safe hello_ok (hello_net es).
Proof.
  intros Hes Hs. pose proof (session_safe hello_callbacks hello_ok (Ok None) es I) as H.
  rewrite Hs in H. apply H, Forall_forall. intros e He r ->.
  rewrite forallb_forall in Hes. apply list_elem_of_In in He. by specialize (Hes _ He).
Qed.


(** At the level that [main] sets, a piece that fills the receive buffer and has no zero byte
    is read past the end of the buffer, before anything is parsed. *)
Definition tracing : Logger := set_level LL_Trace (Logger_init true true false Logger_new).2.
Lemma trace_reads_past_the_end :
  exists n, session (http_callbacks hello no_more map_to_list tracing) (Ok None)
      [Received (replicate 1024 Byte.x41)] = Ok n /\ user n = Undefined past_the_end.
Proof. eexists. split; [vm_compute; reflexivity | vm_compute; reflexivity]. Qed.

Lemma server_answers_witness :
  connected_ (conn (hello_net [Received get_page])) = true /\
  exists head, accepted (hello_net [Received get_page]) = [head ++ bytes "hi"].
Proof.
  assert (Hs : session hello_callbacks (Ok None) [] = Ok (hello_net [])) by (vm_compute; reflexivity).
  assert (Hn : handle hello_callbacks (Received get_page) (hello_net [])
    = Ok (hello_net [Received get_page])) by (vm_compute; reflexivity).
  destruct (server_answers hello no_more map_to_list anything Logger_new get_page (hello_net [])
    (hello_net [Received get_page]) (hello_task [] []).2 (hello_task get_page []).2
    (hello_task [] [Received get_page]).2 (hello_task get_page []).1.2) as [H1 H2].
  - apply hello_net_safe; [reflexivity | exact Hs].
  - vm_compute. reflexivity.
  - vm_compute. reflexivity.
  - vm_compute. reflexivity.
  - vm_compute. reflexivity.
  - exact Hn.
  - vm_compute. reflexivity.
  - split; [exact H1 |].
    replace (completed_ (hello_task get_page []).2) with true in H2 by (vm_compute; reflexivity).
    destruct H2 as (_ & head & _ & H2). exists head. etransitivity; [exact H2 |].
    vm_compute (accepted (hello_net [])). reflexivity.
Defined.

(** A malformed piece after a complete request, while the response to it is being written:
    the answer 400 is queued and never started. *)
Lemma bad_request_closes_witness :
  accepted (hello_net [Received get_page; Received (bytes "?")])
    = accepted (hello_net [Received get_page]) ++ [bad_request] /\
  writes (hello_net [Received get_page; Received (bytes "?")])
    = writes (hello_net [Received get_page]) /\
  shut (hello_net [Received get_page; Received (bytes "?")]) = true.
Proof.
  assert (Hs : session hello_callbacks (Ok None) [Received get_page] = Ok (hello_net [Received get_page]))
    by (vm_compute; reflexivity).
  assert (Hn : handle hello_callbacks (Received (bytes "?")) (hello_net [Received get_page])
    = Ok (hello_net [Received get_page; Received (bytes "?")])) by (vm_compute; reflexivity).
  destruct (bad_request_closes hello no_more map_to_list anything Logger_new (bytes "?")
    (hello_net [Received get_page]) (hello_net [Received get_page; Received (bytes "?")])
    (hello_task [] [Received get_page]).2 (hello_task (bytes "?") [Received get_page]).2
    (hello_task (bytes "?") [Received get_page]).1.2) as (H1 & H2 & _ & H3 & _).
  - apply hello_net_safe; [reflexivity | exact Hs].
  - vm_compute. reflexivity.
  - vm_compute. reflexivity.
  - vm_compute. reflexivity.
  - reflexivity.
  - vm_compute. reflexivity.
  - exact Hn.
  - assert (negb (length (send_buffer_ (conn (hello_net [Received get_page]))) =? 0)%nat = true) as Hq
      by (vm_compute; reflexivity).
    split; [exact H1 |]. split; [| exact H3]. rewrite H2.
    destruct (send_buffer_ (conn (hello_net [Received get_page]))); [discriminate Hq | apply app_nil_r].
Defined.

(** The first byte of a second request brings the whole page again. *)
Lemma stale_request_answered_witness : exists text,
  text <> [] /\ accepted (hello_net [Received get_page; Sent; Received (bytes "G")])
    = accepted (hello_net [Received get_page; Sent]) ++ [text].
Proof.
  assert (Hs : session hello_callbacks (Ok None) [Received get_page]
    = Ok (hello_net [Received get_page])) by (vm_compute; reflexivity).
  assert (Hr : run_events hello_callbacks [Sent] (hello_net [Received get_page])
    = Ok (hello_net [Received get_page; Sent])) by (vm_compute; reflexivity).
  assert (Hn : handle hello_callbacks (Received (bytes "G")) (hello_net [Received get_page; Sent])
    = Ok (hello_net [Received get_page; Sent; Received (bytes "G")])) by (vm_compute; reflexivity).
  destruct (stale_request_answered hello no_more map_to_list anything Logger_new [Sent]
    (hello_net [Received get_page]) (hello_net [Received get_page; Sent])
    (hello_task [] [Received get_page; Sent]).2) as (_ & _ & H).
  - intros t t' [= <-]. split; reflexivity.
  - apply hello_net_safe; [reflexivity | exact Hs].
  - vm_compute. split; reflexivity.
  - repeat constructor. discriminate.
  - exact Hr.
  - vm_compute. reflexivity.
  - destruct (H (bytes "G") (hello_net [Received get_page; Sent; Received (bytes "G")])
      (hello_task (bytes "G") [Received get_page; Sent]).1.2
      (hello_task (bytes "G") [Received get_page; Sent]).2
      (hello_task [] [Received get_page; Sent; Received (bytes "G")]).2) as (_ & _ & text & Ht & Ha).
    + vm_compute. reflexivity.
    + vm_compute. reflexivity.
    + vm_compute. reflexivity.
    + exact Hn.
    + vm_compute. reflexivity.
    + exists text. split; [exact Ht | exact Ha].
Defined.

(** A response sent progressively reaches the client twice.  When the head has been
    written, the server sends the next piece from the callback for completed sends; the
    queue being empty, [send] starts a write, and [handle_send] starts a second one for
    the same piece.  The client of [stream] gets each of the two pieces twice, under a
    length of six, and the connection is closed. *)
Theorem server_streams_twice :
  exists n head,
    session stream_callbacks (Ok None) [Received get_page; Sent; Sent; Sent; Sent; Sent] = Ok n /\
    delivered n = [head; bytes "one"; bytes "one"; bytes "two"; bytes "two"] /\
    accepted n = [head; bytes "one"; bytes "two"] /\
    writes n = [] /\ connected_ (conn n) = false.
Proof.
  eexists _, _. split; [vm_compute; reflexivity |]. split_and!; vm_compute; reflexivity.
Qed.
