(* ===== verification/HttpChunkingTheorems.v ===== *)
(** * HttpChunkingTheorems: the cuts between buffers do not matter

    For applications that accumulate what they are given ([Streaming]), the result
    of parsing depends on the bytes and not on the buffers they arrive in. *)

From S2P Require Import Prelude.
From S2P Require Import HttpTables.
From S2P Require Import HttpParser.
From S2P Require Import HttpMonad.
From S2P Require Import HttpExec.
From S2P Require Import HttpWp.
From S2P Require Import HttpInvariant.
From S2P Require Import HttpLoop.
From S2P Require Import HttpOptions.
From S2P Require Import HttpSize.
From S2P Require Import HttpStream.
From S2P Require Import HttpSplit.
From S2P Require Import HttpChunking.
From S2P Require Import HttpTheorems.
Local Open Scope Z_scope.

(** ** An application that records everything *)

Definition event : Type := notify_for + data_for * Byte.byte.
Definition record_event (FOR : notify_for) : http_cb (list event) :=
  fun p u => (0, p, u ++ [inl FOR]).
Definition record_data (FOR : data_for) : http_data_cb (list event) :=
  fun p bs u => (0, p, u ++ ((fun b => inr (FOR, b)) <$> bs)).
Definition recording_settings : http_parser_settings (list event) :=
  mk_settings (Some (record_event for_message_begin)) (Some (record_data for_url))
    (Some (record_data for_status)) (Some (record_data for_header_field))
    (Some (record_data for_header_value)) None (Some (record_data for_body))
    (Some (record_event for_message_complete)) (Some (record_event for_chunk_header))
    (Some (record_event for_chunk_complete)).

#[export] Instance recording_settings_Streaming : Streaming recording_settings.
Proof.
  refine {| notify_effect FOR _ u := u ++ [inl FOR];
            data_effect FOR bs u := u ++ ((fun b => inr (FOR, b)) <$> bs);
            headers_effect _ u := (0, u) |}.
  - by intros [] cb p u [= <-].
  - by intros [] cb p bs u [= <-].
  - done.
  - intros FOR u. by rewrite app_nil_r.
  - intros FOR a b u. by rewrite fmap_app, app_assoc.
Defined.

Lemma init_ready t : ready max_header_size_init (http_parser_init t).
Proof. split_and!; [apply init_well_formed | done | done | done]. Qed.

(** C1. How a stream of bytes is cut into buffers makes no difference to an application
    whose data callbacks accumulate what they get and whose callbacks do not look at the
    buffers ([Streaming]; a callback that assigns its piece, as [HttpTask::on_url] does, is
    not of this kind).  When one way to cut the stream is parsed to its end, so is every
    other, with the same parser and the same state of the application; the only exception
    is a call that stops inside its buffer to report an upgrade, which the caller has to
    look at before it goes on. *)
Theorem feed_deterministic {U} (settings : http_parser_settings U) `{!Streaming settings}
    (mx : Z) (pieces pieces' : list (list Byte.byte)) (p p1 : http_parser) (u u1 : U) :
  0 <= mx < 2 ^ 31 -> ready mx p -> Forall piece pieces -> Forall piece pieces' ->
  concat pieces = concat pieces' ->
  feed settings mx pieces p u = Some (p1, u1) ->
  feed settings mx pieces' p u = Some (p1, u1) \/ upgrades_inside settings mx pieces' p u.
Proof.
  intros Hmx Hr H1 H2 Hcat Hf. apply (through_feed settings mx Hmx); [done | done |].
  rewrite <- Hcat. by apply (feed_through settings mx Hmx).
Qed.

(** The request of [HttpTheorems] in one piece and cut in three, inside a header name
    and inside the body. *)
Definition request_cut : list (list Byte.byte) :=
  [take 30 get_request; take 18 (drop 30 get_request); drop 48 get_request].

Lemma feed_deterministic_witness :
  exists p1 u1,
    feed recording_settings max_header_size_init [get_request] (http_parser_init HTTP_REQUEST) []
      = Some (p1, u1) /\ length u1 = 31%nat /\
    (feed recording_settings max_header_size_init request_cut (http_parser_init HTTP_REQUEST) []
      = Some (p1, u1) \/
     upgrades_inside recording_settings max_header_size_init request_cut
       (http_parser_init HTTP_REQUEST) []).
Proof.
  eexists _, _. split; [vm_compute; reflexivity |]. split; [vm_compute; reflexivity |].
  eapply (feed_deterministic recording_settings max_header_size_init [get_request] request_cut
    (http_parser_init HTTP_REQUEST) _ []);
    [split; [done | reflexivity] | apply init_ready | | | reflexivity | vm_compute; reflexivity];
    repeat constructor; done.
Defined.

(** The exception: a CONNECT request with the first bytes of the tunnel in the same buffer.
    In one piece the call stops after the head; cut there, the bytes are parsed on. *)
Definition connect_request : list Byte.byte :=
  bytes "CONNECT h:1 HTTP/1.1" ++ [Byte.x0d; Byte.x0a; Byte.x0d; Byte.x0a].
Lemma upgrade_inside :
  feed recording_settings max_header_size_init [connect_request ++ bytes "GET"]
    (http_parser_init HTTP_REQUEST) [] = None /\
  is_Some (feed recording_settings max_header_size_init [connect_request; bytes "GET"]
    (http_parser_init HTTP_REQUEST) []).
Proof. split; vm_compute; [reflexivity | by eexists]. Qed.

(** C5. A buffer may be cut anywhere, as long as the application is [Streaming].  If a call
    on [a ++ b] succeeds and consumes more than [a], then a call on [a] alone succeeds and consumes all of it, and a
    second call on [b] consumes the rest and leaves the same parser and the same
    application. *)
Theorem execute_split {U} (settings : http_parser_settings U) `{!Streaming settings}
    (mx : Z) (a b : list Byte.byte) (p p2 : http_parser) (u u2 : U) (n : nat) :
  0 <= mx < 2 ^ 31 -> ready mx p -> piece a -> piece b -> piece (a ++ b) ->
  http_parser_execute settings mx (a ++ b) p u = Returned n p2 u2 ->
  hp_http_errno p2 = HPE_OK -> (length a < n)%nat ->
  exists p1 u1,
    http_parser_execute settings mx a p u = Returned (length a) p1 u1 /\
    hp_http_errno p1 = HPE_OK /\
    http_parser_execute settings mx b p1 u1 = Returned (n - length a) p2 u2.
Proof.
  intros Hmx Hr [Hna Hsa] [Hnb Hsb] [Hnab Hsab] Hex He Hlt.
  pose proof (execute_run settings mx Hmx _ p u Hr Hsab Hnab) as Hab. rewrite Hex in Hab.
  pose proof (execute_run settings mx Hmx a p u Hr Hsa Hna) as Ha.
  unfold run_from in *. rewrite run_app in Hab.
  destruct (run settings mx _ _ a p u) as [[[[m st] p1] u1] |] eqn:Hrun; [| done].
  destruct (run_length _ _ _ _ _ _ _ _ _ _ _ Hrun) as [Hm Hst]. destruct st.
  { simpl in Hab. destruct Hab as [[= -> _ _] _]. lia. }
  rewrite (Hst eq_refl) in Ha. simpl in Ha. destruct Ha as [Ha He1].
  exists p1, u1. split_and!; [done | done |].
  destruct (ready_after settings mx a p u _ p1 u1 Hr Hna Ha He1) as (Hr1 & Hl & Hac).
  pose proof (execute_run settings mx Hmx b p1 u1 Hr1 Hsb Hnb) as Hb. unfold run_from in Hb.
  rewrite Hl, Hac in Hb.
  destruct (run settings mx _ _ b p1 u1) as [[[[k st] p3] u3] |] eqn:Hrun2; simpl in Hab; [| done].
  simpl in Hb. destruct Hab as [[= -> -> ->] _]. destruct Hb as [-> _]. f_equal. lia.
Qed.

Lemma execute_split_witness :
  exists p1 u1 p2 u2,
    http_parser_execute recording_settings max_header_size_init (take 30 get_request)
      (http_parser_init HTTP_REQUEST) [] = Returned 30 p1 u1 /\
    hp_http_errno p1 = HPE_OK /\
    http_parser_execute recording_settings max_header_size_init (drop 30 get_request) p1 u1
      = Returned 20 p2 u2.
Proof.
  eassert (Hex : http_parser_execute recording_settings max_header_size_init
    (take 30 get_request ++ drop 30 get_request) (http_parser_init HTTP_REQUEST) []
    = Returned 50 _ _) by (vm_compute; reflexivity).
  match type of Hex with _ = Returned _ ?p2 ?u2 =>
    destruct (execute_split recording_settings max_header_size_init (take 30 get_request)
      (drop 30 get_request) (http_parser_init HTTP_REQUEST) p2 [] u2 50%nat)
      as (p1 & u1 & H1 & H2 & H3) end.
  - split; [done | reflexivity].
  - apply init_ready.
  - by split.
  - by split.
  - by split.
  - exact Hex.
  - reflexivity.
  - vm_compute. lia.
  - eexists p1, u1, _, _. by split_and!.
Defined.

(** Buffers may be joined.  If a call on [a] succeeds, consumes all of it and does
    not announce an upgrade, then a call on [a ++ b] does what a second call on [b]
    does: the same success with the same parser and application, or an error as
    well. *)
Theorem execute_append {U} (settings : http_parser_settings U) `{!Streaming settings}
    (mx : Z) (a b : list Byte.byte) (p p1 : http_parser) (u u1 : U) :
  0 <= mx < 2 ^ 31 -> ready mx p -> piece a -> piece b -> piece (a ++ b) ->
  http_parser_execute settings mx a p u = Returned (length a) p1 u1 ->
  hp_http_errno p1 = HPE_OK -> hp_upgrade p1 = false ->
  exists n p2 u2,
    http_parser_execute settings mx b p1 u1 = Returned n p2 u2 /\
    if decide (hp_http_errno p2 = HPE_OK)
    then http_parser_execute settings mx (a ++ b) p u = Returned (length a + n) p2 u2
    else exists n' p' u', http_parser_execute settings mx (a ++ b) p u = Returned n' p' u' /\
           hp_http_errno p' <> HPE_OK.
Proof.
  intros Hmx Hr [Hna Hsa] [Hnb Hsb] [Hnab Hsab] Ha He Hup.
  pose proof (execute_run settings mx Hmx _ p u Hr Hsab Hnab) as Hab.
  pose proof (execute_run settings mx Hmx a p u Hr Hsa Hna) as Hra.
  destruct (ready_after settings mx a p u _ p1 u1 Hr Hna Ha He) as (Hr1 & Hl & Hac).
  pose proof (execute_run settings mx Hmx b p1 u1 Hr1 Hsb Hnb) as Hb.
  pose proof (execute_ok settings mx b p1 u1 (proj1 Hr1)) as Hok.
  pose proof (execute_ok settings mx (a ++ b) p u (proj1 Hr)) as Hokab.
  unfold run_from in *. rewrite run_app in Hab. rewrite Ha in Hra. rewrite Hl, Hac in Hb.
  destruct (http_parser_execute settings mx b p1 u1) as [n p2 u2 |]; [| done].
  destruct (http_parser_execute settings mx (a ++ b) p u) as [n' p' u' |]; [| done].
  exists n, p2, u2. split; [done |].
  destruct (run settings mx _ _ a p u) as [[[[m st] q1] v1] |] eqn:Hrun; [| done].
  simpl in Hra. destruct Hra as [[= <- <- <-] _]. destruct st.
  { simpl in Hab. destruct Hab as [[= -> -> ->] _]. destruct Hokab as [_ Hd].
    destruct a as [| x a]; [done |]. simpl in Hd. destruct Hd as [_ Hd].
    destruct (Hd He) as [Hlen | Hu]; [| congruence].
    rewrite length_app in Hlen. destruct b; [done | simpl in Hlen; lia]. }
  destruct (run settings mx _ _ b p1 u1) as [[[[k st] q2] v2] |]; simpl in Hab, Hb.
  - destruct Hb as [[= -> -> ->] Hq]. rewrite decide_True by done. by destruct Hab as [-> _].
  - rewrite decide_False by done. by eexists _, _, _.
Qed.

Lemma execute_append_witness :
  exists p1 u1 n p2 u2,
    http_parser_execute recording_settings max_header_size_init (take 30 get_request)
      (http_parser_init HTTP_REQUEST) [] = Returned 30 p1 u1 /\
    http_parser_execute recording_settings max_header_size_init (drop 30 get_request) p1 u1
      = Returned n p2 u2 /\
    if decide (hp_http_errno p2 = HPE_OK)
    then http_parser_execute recording_settings max_header_size_init
           (take 30 get_request ++ drop 30 get_request) (http_parser_init HTTP_REQUEST) []
         = Returned (30 + n) p2 u2
    else exists n' p' u', http_parser_execute recording_settings max_header_size_init
           (take 30 get_request ++ drop 30 get_request) (http_parser_init HTTP_REQUEST) []
           = Returned n' p' u' /\ hp_http_errno p' <> HPE_OK.
Proof.
  eassert (Hex : http_parser_execute recording_settings max_header_size_init
    (take 30 get_request) (http_parser_init HTTP_REQUEST) [] = Returned 30 _ _)
    by (vm_compute; reflexivity).
  match type of Hex with _ = Returned _ ?p1 ?u1 =>
    destruct (execute_append recording_settings max_header_size_init (take 30 get_request)
      (drop 30 get_request) (http_parser_init HTTP_REQUEST) p1 [] u1)
      as (n & p2 & u2 & H1 & H2); [.. | exists p1, u1, n, p2, u2; by split_and!] end.
  - split; [done | reflexivity].
  - apply init_ready.
  - by split.
  - by split.
  - by split.
  - exact Hex.
  - reflexivity.
  - reflexivity.
Defined.
