(* ===== verification/HttpRead.v ===== *)
(** * HttpRead: well-formed messages, read byte by byte

    Header lines and bodies as the byte-by-byte parser takes them in, with the
    application of [HttpChunkingTheorems] that records everything.  [ok] is the
    postcondition of a piece of the body of [http_parser_execute] that falls through. *)

From S2P Require Import Prelude.
From S2P Require Import HttpTables.
From S2P Require Import HttpUrl.
From S2P Require Import HttpParser.
From S2P Require Import HttpMonad.
From S2P Require Import HttpExec.
From S2P Require Import HttpWp.
From S2P Require Import HttpInvariant.
From S2P Require Import HttpSafety.
From S2P Require Import HttpStream.
From S2P Require Import HttpLockstep.
From S2P Require Import HttpSplit.
From S2P Require Import HttpChunking.
From S2P Require Import HttpChunkingTheorems.
Local Open Scope Z_scope.

Definition ok {U A} (m : M U A) (Q : A -> frame U -> Prop) (s : frame U) : Prop :=
  match m s with Next a s' => Q a s' | _ => False end.

Abbreviation rec := recording_settings.

(** What the first line of a message of version 1.1 leaves in the parser. *)
Record first_line := mk_first_line {
  fl_type : http_parser_type;
  fl_status : Z;
  fl_method : http_method
}.
Definition response_line (code : Z) : first_line := mk_first_line HTTP_RESPONSE code HTTP_DELETE.

Section rules.
Context {U : Type}.
Implicit Types s : frame U.

Lemma ok_ret {A} (a : A) Q s : Q a s -> ok (U:=U) (mret a) Q s.
Proof. done. Qed.
Lemma ok_bind {A B} (m : M U A) (f : A -> M U B) Q s :
  ok m (fun a s' => ok (f a) Q s') s -> ok (m ≫= f) Q s.
Proof. unfold ok, mbind, M_bind. by destruct (m s). Qed.
Lemma ok_mono {A} (m : M U A) (Q Q' : A -> frame U -> Prop) s :
  ok m Q s -> (forall a s', Q a s' -> Q' a s') -> ok m Q' s.
Proof. unfold ok. destruct (m s); auto. Qed.
Lemma ok_gets {A} (f : frame U -> A) Q s : Q (f s) s -> ok (gets f) Q s.
Proof. done. Qed.
Lemma ok_modify f Q s : Q tt (f s) -> ok (modify f) Q s.
Proof. done. Qed.
Lemma ok_modify_parser f Q s : Q tt (with_parser (f (parser s)) s) -> ok (modify_parser f) Q s.
Proof. done. Qed.
Lemma ok_UPDATE_STATE v Q s : Q tt (with_p_state v s) -> ok (UPDATE_STATE v) Q s.
Proof. done. Qed.
Lemma ok_assert b Q s : b = true -> Q tt s -> ok (assert_ b) Q s.
Proof. by intros ->. Qed.
Lemma ok_MARK FOR Q s :
  Q tt (match mark_of FOR s with None => with_mark FOR (Some (pos s)) s | Some _ => s end) ->
  ok (MARK FOR) Q s.
Proof. done. Qed.
Lemma ok_load_ch d b Q s : d !! pos s = Some b -> Q tt (with_ch (uchar b) s) -> ok (load_ch d) Q s.
Proof. intros Hb HQ. unfold ok, load_ch, mbind, M_bind, gets, modify. by rewrite Hb. Qed.
Lemma ok_COUNT mx V Q s :
  0 <= nread s -> 0 <= V -> nread s + V <= mx -> mx < 2 ^ 31 ->
  Q tt (with_nread (nread s + V) s) -> ok (COUNT_HEADER_SIZE mx V) Q s.
Proof.
  intros H1 H2 H3 H4 HQ. unfold ok, COUNT_HEADER_SIZE, mbind, M_bind, gets, modify. simpl.
  rewrite (u32_small V), u32_small by lia. destruct (Z.ltb_spec mx (nread s + V)); [lia | done].
Qed.
End rules.

(** The callbacks of the recorder. *)
Lemma ok_NOTIFY FOR ER Q (s : frame (list event)) :
  hp_http_errno (parser s) = HPE_OK ->
  Q tt (with_user (user s ++ [inl FOR])
          (with_parser (HttpParser.set_state (p_state s) (parser s)) s)) ->
  ok (CALLBACK_NOTIFY_ rec FOR ER) Q s.
Proof.
  intros He HQ. unfold ok, CALLBACK_NOTIFY_, invoke, UPDATE_STATE, modify, assert_, mbind, M_bind, gets.
  rewrite bool_decide_true by done. destruct s, FOR; simpl in *; by rewrite decide_True.
Qed.
Lemma ok_DATA d FOR LEN ER m Q (s : frame (list event)) :
  hp_http_errno (parser s) = HPE_OK -> mark_of FOR s = Some m ->
  Q tt (with_mark FOR None (with_user (user s ++ ((fun b => inr (FOR, b)) <$> take (LEN m) (drop m d)))
          (with_parser (HttpParser.set_state (p_state s) (parser s)) s))) ->
  ok (CALLBACK_DATA_ rec d FOR LEN ER) Q s.
Proof.
  intros He Hm HQ. unfold ok, CALLBACK_DATA_, invoke, UPDATE_STATE, modify, assert_, mbind, M_bind, gets.
  rewrite bool_decide_true by done. destruct s, FOR; simpl in *; rewrite Hm; simpl; by rewrite decide_True.
Qed.

(** A parser in the headers of a message, or after them. *)
Definition head_parser (w : first_line) (st : state) (hs : header_states) (idx F n cl : Z) : http_parser :=
  mk_http_parser (fl_type w) F st hs idx false false false n cl 1 1 (fl_status w) (fl_method w) HPE_OK false.

Definition put (y : header_states * Z) (s : frame (list event)) : frame (list event) :=
  with_parser (set_index y.2 (set_header_state y.1 (parser s))) s.

(** Compute the frame, and what the code reads of it. *)
Ltac reduce_all := cbv beta iota delta [with_pos with_ch with_p_state with_nread with_header_field_mark
       with_header_value_mark with_url_mark with_body_mark with_status_mark with_parser
       with_user pos ch p_state nread header_field_mark header_value_mark url_mark
       body_mark status_mark parser user mark_of with_mark entry_marks id initial_frame head_parser put
       set_type set_flags HttpParser.set_state set_header_state set_index
       set_uses_transfer_encoding HttpParser.set_nread set_content_length set_http_major
       set_http_minor set_status_code set_method set_http_errno set_upgrade add_flag
       hp_type hp_flags hp_state hp_header_state hp_index hp_uses_transfer_encoding
       hp_allow_chunked_length hp_lenient_http_headers hp_nread hp_content_length
       hp_http_major hp_http_minor hp_status_code hp_method hp_http_errno hp_upgrade
       Nat.add Nat.sub fst snd].
Ltac reduce :=
  lazymatch goal with
  | |- ok ?m ?Q ?s =>
      let s' := eval cbv beta iota delta [with_pos with_ch with_p_state with_nread with_header_field_mark
       with_header_value_mark with_url_mark with_body_mark with_status_mark with_parser
       with_user pos ch p_state nread header_field_mark header_value_mark url_mark
       body_mark status_mark parser user mark_of with_mark entry_marks id initial_frame head_parser put
       set_type set_flags HttpParser.set_state set_header_state set_index
       set_uses_transfer_encoding HttpParser.set_nread set_content_length set_http_major
       set_http_minor set_status_code set_method set_http_errno set_upgrade add_flag
       hp_type hp_flags hp_state hp_header_state hp_index hp_uses_transfer_encoding
       hp_allow_chunked_length hp_lenient_http_headers hp_nread hp_content_length
       hp_http_major hp_http_minor hp_status_code hp_method hp_http_errno hp_upgrade
       Nat.add Nat.sub fst snd] in s in
      let m' := eval cbn [with_pos with_ch with_p_state with_nread with_header_field_mark
       with_header_value_mark with_url_mark with_body_mark with_status_mark with_parser
       with_user pos ch p_state nread header_field_mark header_value_mark url_mark
       body_mark status_mark parser user mark_of with_mark entry_marks id initial_frame head_parser put
       set_type set_flags HttpParser.set_state set_header_state set_index
       set_uses_transfer_encoding HttpParser.set_nread set_content_length set_http_major
       set_http_minor set_status_code set_method set_http_errno set_upgrade add_flag
       hp_type hp_flags hp_state hp_header_state hp_index hp_uses_transfer_encoding
       hp_allow_chunked_length hp_lenient_http_headers hp_nread hp_content_length
       hp_http_major hp_http_minor hp_status_code hp_method hp_http_errno hp_upgrade
       Nat.eqb Nat.add Nat.sub fst snd] in m in
      change (ok m' Q s')
  | |- _ => reduce_all
  end.
Ltac ok_step :=
  lazymatch goal with
  | |- ok (mret _) _ _ => apply ok_ret
  | |- ok (mbind _ _) _ _ => apply ok_bind
  | |- ok (gets _) _ _ => apply ok_gets
  | |- ok (modify _) _ _ => apply ok_modify
  | |- ok (modify_parser _) _ _ => apply ok_modify_parser
  | |- ok (UPDATE_STATE _) _ _ => apply ok_UPDATE_STATE
  | |- ok (assert_ _) _ _ => apply ok_assert; [reflexivity |]
  | |- ok (load_ch _) _ _ => eapply ok_load_ch; [reflexivity |]
  | |- ok (COUNT_HEADER_SIZE _ _) _ _ => apply ok_COUNT; reduce; [lia | lia | lia | lia |]
  | |- ok (MARK _) _ _ => apply ok_MARK
  | |- ok (CALLBACK_NOTIFY _ _) _ _ => unfold CALLBACK_NOTIFY
  | |- ok (CALLBACK_NOTIFY_NOADVANCE _ _) _ _ => unfold CALLBACK_NOTIFY_NOADVANCE
  | |- ok (CALLBACK_NOTIFY_ _ _ _) _ _ => apply ok_NOTIFY; [reflexivity |]
  | |- ok (CALLBACK_DATA _ _ _) _ _ => unfold CALLBACK_DATA
  | |- ok (CALLBACK_DATA_NOADVANCE _ _ _) _ _ => unfold CALLBACK_DATA_NOADVANCE
  | |- ok (CALLBACK_DATA_ _ _ _ _ _) _ _ => eapply ok_DATA; [reflexivity | reflexivity |]
  | |- ok (set_hs _) _ _ => unfold set_hs
  | |- ok incr_index _ _ => unfold incr_index
  end; cbv beta; reduce.

Definition settled (b : Byte.byte) (p' : http_parser) (u' : list event) (s : frame (list event)) : Prop :=
  hp_http_errno (parser s) = HPE_OK /\ (exists o, shape o s) /\
  HttpParser.set_state (p_state s) (HttpParser.set_nread (nread s) (parser s)) = p' /\
  flush rec [b] (with_pos 1 s) = u'.

Ltac known H := rewrite (proj2 (Z.eqb_neq _ _) H).

Definition sent (FOR : data_for) (l : list Byte.byte) : list event := (fun b => inr (FOR, b)) <$> l.


(** The byte is done; [o] is the mark that is set. *)
Ltac finish o :=
  unfold settled; split; [reflexivity |]; split;
  [exists o; intros []; reduce_all; split; (by intros [? [=]]) || (by intros [=]; eexists)
  | split; [reduce_all; f_equal; lia
           | unfold flush, pending; reduce_all; unfold deliver; cbn; rewrite ?app_nil_r; reflexivity]].

(** ** One byte *)

Section bytes.
Context (mx : Z) (Hmx : 0 < mx < 2 ^ 31).
Abbreviation one := (one rec mx false false).
Abbreviation through := (through rec mx false false).

Lemma one_intro b p u p' u' :
  ok (turn rec [b] mx false false)
    (fun _ s => hp_http_errno (parser s) = HPE_OK /\ (exists o, shape o s) /\
       HttpParser.set_state (p_state s) (HttpParser.set_nread (nread s) (parser s)) = p' /\
       flush rec [b] (with_pos 1 s) = u')
    (entry_marks (hp_state p) (initial_frame p u)) ->
  one b p u = Some (false, p', u').
Proof.
  unfold ok, HttpSplit.one. destruct (turn _ _ _ _ _ _) as [[] s | | |]; [| done..].
  intros (He & [o Ho] & <- & <-). simpl.
  destruct (epilogue_eq rec o [b] 1 (with_pos 1 s)) as (s' & -> & -> & ->); done.
Qed.

Lemma ok_reexecute b k Q s :
  ok (switch rec [b] mx false false (p_state s)) (fun c s' =>
    match c with Break => Q tt s' | Reexecute => ok (reexecute rec [b] mx false false k) Q s' end) s ->
  ok (reexecute rec [b] mx false false (S k)) Q s.
Proof.
  intros H. cbn [reexecute]. apply ok_bind, ok_gets, ok_bind. eapply ok_mono; [exact H |]. by intros [].
Qed.

(** A byte of the headers is counted. *)
Lemma one_in_headers b p u p' u' :
  PARSING_HEADER (hp_state p) = true -> 0 <= hp_nread p -> hp_nread p + 1 <= mx ->
  ok (reexecute rec [b] mx false false 8) (fun _ => settled b p' u')
    (with_nread (hp_nread p + 1) (with_ch (uchar b) (entry_marks (hp_state p) (initial_frame p u)))) ->
  one b p u = Some (false, p', u').
Proof.
  intros Hp Hn Hle H. apply one_intro. unfold turn.
  destruct (entry_frame p u) as (H1 & H2 & H3 & _ & _).
  apply ok_bind. eapply ok_load_ch; [by rewrite H1 |]. apply ok_bind, ok_gets.
  cbn [p_state with_ch]. rewrite H2, Hp. apply ok_bind, ok_COUNT; cbn [nread with_ch]; rewrite ?H3; try lia.
  exact H.
Qed.

(** The header state and the index after a character of a header name; nothing is said of
    the end of [transfer-encoding]. *)
Definition word_next (w : string) (c idx : Z) (self full : header_states) : option (header_states * Z) :=
  let i := u5 (idx + 1) in
  if Z.of_nat (String.length w) <? i then Some (h_general, i) else
  match str_at w i with
  | None => None
  | Some x =>
      if negb (c =? x) then Some (h_general, i)
      else if i =? Z.of_nat (String.length w) - 1
      then if decide (full = h_transfer_encoding) then None else Some (full, i)
      else Some (self, i)
  end.
Definition field_next (c : Z) (x : header_states * Z) : option (header_states * Z) :=
  let '(hs, idx) := x in
  match hs with
  | h_general => Some x
  | h_C => Some (if c =? "o"%ch then h_CO else h_general, u5 (idx + 1))
  | h_CO => Some (if c =? "n"%ch then h_CON else h_general, u5 (idx + 1))
  | h_CON => Some (if c =? "n"%ch then h_matching_connection
                   else if c =? "t"%ch then h_matching_content_length else h_general, u5 (idx + 1))
  | h_matching_connection => word_next CONNECTION c idx hs h_connection
  | h_matching_proxy_connection => word_next PROXY_CONNECTION c idx hs h_connection
  | h_matching_content_length => word_next CONTENT_LENGTH c idx hs h_content_length
  | h_matching_transfer_encoding => word_next TRANSFER_ENCODING c idx hs h_transfer_encoding
  | h_matching_upgrade => word_next UPGRADE c idx hs h_upgrade
  | h_connection | h_content_length | h_transfer_encoding | h_upgrade => Some (h_general, idx)
  | _ => None
  end.

Lemma match_word_ok w c full complete y Q (s : frame (list event)) :
  word_next w c (hp_index (parser s)) (hp_header_state (parser s)) full = Some y ->
  (full <> h_transfer_encoding -> complete = set_hs full) -> Q tt (put y s) ->
  ok (incr_index;; match_word w c (set_hs h_general) (mret tt) complete) Q s.
Proof.
  intros Hy Hfull HQ. unfold incr_index, match_word. apply ok_bind, ok_modify_parser, ok_bind, ok_gets.
  destruct s as [o c0 ps nn m1 m2 m3 m4 m5 [ty fl st hs' ix ute acl len nr cl ma mi sc me er up] u]. unfold word_next, put in *. reduce.
  cbv beta iota delta [with_parser parser hp_index hp_header_state] in Hy.
  set (i := u5 _) in *. replace (Z.of_nat (String.length w) + 1 - 1) with (Z.of_nat (String.length w)) by lia.
  replace (Z.of_nat (String.length w) + 1 - 2) with (Z.of_nat (String.length w) - 1) by lia.
  destruct (_ <? i); [by injection Hy as <- |]. destruct (str_at w i) as [x |]; [| done].
  destruct (negb (c =? x)); [by injection Hy as <- |].
  destruct (i =? _); [| by injection Hy as <-]. case_decide; [done |]. rewrite Hfull by done.
  by injection Hy as <-.
Qed.

Lemma reply_field_char b c y Q (s : frame (list event)) :
  field_next c (hp_header_state (parser s), hp_index (parser s)) = Some y ->
  pos s = 0%nat -> ch s <> 32 -> Q tt (put y s) -> ok (header_field_char [b] mx c) Q s.
Proof.
  intros Hy Hpos Hch HQ. unfold header_field_char. apply ok_bind, ok_gets.
  destruct (hp_header_state (parser s)) eqn:Hhs; simpl in Hy; try done;
    try (by eapply match_word_ok; [by rewrite Hhs | | done]).
  all: injection Hy as <-.
  all: try (unfold incr_index, set_hs; apply ok_bind, ok_modify_parser, ok_modify_parser; exact HQ).
  all: try (apply ok_bind, ok_gets; change (" "%ch) with 32; destruct (Z.eqb_spec (ch s) 32); [done |];
    unfold set_hs; apply ok_modify_parser; revert HQ; unfold put; by destruct (parser s)).
  apply ok_bind, ok_gets. rewrite Hpos. cbn [token_run length]. apply ok_bind, ok_gets.
  rewrite Hpos, (proj2 (Nat.ltb_ge _ _)) by (unfold run_end; simpl length; lia).
  apply ok_ret. revert HQ. unfold put. destruct s as [? ? ? ? ? ? ? ? ? p ?], p. simpl in *. by subst.
Qed.

(** ** A header name *)

Definition token (b : Byte.byte) : bool := negb (TOKEN (uchar b) =? 0).
Lemma token_not_space b : token b = true -> uchar b <> 32 /\ uchar b <> CR /\ uchar b <> LF /\ uchar b <> TAB.
Proof. unfold token. intros H. split_and!; intros Heq; rewrite Heq in H; by vm_compute in H. Qed.

Lemma one_field w hs idx hs' idx' F n cl b u :
  token b = true -> field_next (TOKEN (uchar b)) (hs, idx) = Some (hs', idx') -> 0 <= n -> n + 1 <= mx ->
  one b (head_parser w s_header_field hs idx F n cl) u =
  Some (false, head_parser w s_header_field hs' idx' F (n + 1) cl, u ++ sent for_header_field [b]).
Proof.
  intros Ht Hy Hn Hle. apply one_in_headers; [reflexivity | done | done |]. apply ok_reexecute. reduce.
  cbn [switch]. unfold case_s_header_field. do 3 ok_step. cbn [length header_field_loop].
  repeat ok_step. pose proof (token_not_space b Ht) as (Hsp & _).
  unfold token in Ht. apply negb_true_iff in Ht. rewrite Ht.
  ok_step. eapply reply_field_char; [exact Hy | done | done |]. reduce.
  repeat ok_step. finish (Some for_header_field).
Qed.

(** The first character of a name, at the start of a line or after another header, whose
    flag is set then. *)
Definition field_first (c : Z) : header_states :=
  if c =? "c"%ch then h_C
  else if c =? "p"%ch then h_matching_proxy_connection
  else if c =? "t"%ch then h_matching_transfer_encoding
  else if c =? "u"%ch then h_matching_upgrade
  else h_general.
Definition flagged (hs : header_states) (F : Z) : Z :=
  match header_value_flag hs with Some f => Z.lor F f | None => F end.
Definition line_start (st : state) : Prop := st = s_header_value_lws \/ st = s_header_field_start.
Definition line_flags (st : state) (hs : header_states) (F : Z) : Z :=
  if decide (st = s_header_value_lws) then flagged hs F else F.

Lemma start_of_line w st hs idx F n cl c b u Q :
  line_start st -> c <> 32 -> c <> TAB ->
  (forall k, (6 <= k)%nat -> ok (reexecute rec [b] mx false false k) Q
     (mk_frame 0 c s_header_field_start (n + 1) None None None None None
        (head_parser w st hs idx (line_flags st hs F) n cl) u)) ->
  ok (reexecute rec [b] mx false false 8) Q
     (mk_frame 0 c st (n + 1) None None None None None (head_parser w st hs idx F n cl) u).
Proof.
  intros [-> | ->] H1 H2 HQ; [| apply HQ; lia].
  apply ok_reexecute. reduce. cbn [switch]. unfold case_s_header_value_lws. repeat ok_step.
  change (" "%ch) with 32. known H1. known H2. cbn [orb]. unfold flag_header_value.
  do 3 ok_step. unfold line_flags, flagged in HQ. simpl in HQ. destruct (header_value_flag hs); repeat ok_step; apply HQ; lia.
Qed.

Lemma one_at_line w st hs idx F n cl b u p' u' :
  line_start st -> uchar b <> 32 -> uchar b <> TAB -> 0 <= n -> n + 1 <= mx ->
  (forall k, (6 <= k)%nat -> ok (reexecute rec [b] mx false false k) (fun _ => settled b p' u')
     (mk_frame 0 (uchar b) s_header_field_start (n + 1) None None None None None
        (head_parser w st hs idx (line_flags st hs F) n cl) u)) ->
  one b (head_parser w st hs idx F n cl) u = Some (false, p', u').
Proof.
  intros Hst H1 H2 Hn Hle HQ. apply one_in_headers; [by destruct Hst as [-> | ->] | done | done |].
  assert (with_nread (n + 1) (with_ch (uchar b)
    (entry_marks st (initial_frame (head_parser w st hs idx F n cl) u))) =
    mk_frame 0 (uchar b) st (n + 1) None None None None None (head_parser w st hs idx F n cl) u) as Heq
    by (by destruct Hst as [-> | ->]).
  change (hp_state (head_parser w st hs idx F n cl)) with st.
  change (hp_nread (head_parser w st hs idx F n cl)) with n. rewrite Heq. by apply start_of_line.
Qed.

Lemma one_first w st hs idx F n cl b u :
  line_start st -> token b = true -> 0 <= n -> n + 1 <= mx ->
  one b (head_parser w st hs idx F n cl) u =
  Some (false, head_parser w s_header_field (field_first (TOKEN (uchar b))) 0 (line_flags st hs F) (n + 1) cl,
        u ++ sent for_header_field [b]).
Proof.
  intros Hst Ht Hn Hle. pose proof (token_not_space b Ht) as (H1 & H2 & H3 & H4).
  apply one_at_line; [done.. |]. intros k Hk.
  destruct k as [| k]; [lia |]. apply ok_reexecute. reduce. cbn [switch]. unfold case_s_header_field_start.
  repeat ok_step. unfold token in Ht. apply negb_true_iff in Ht. known H2. known H3. rewrite Ht.
  repeat ok_step. finish (Some for_header_field).
Qed.

Lemma one_colon w hs idx F n cl u :
  0 <= n -> n + 1 <= mx ->
  one Byte.x3a (head_parser w s_header_field hs idx F n cl) u =
  Some (false, head_parser w s_header_value_discard_ws hs idx F (n + 1) cl, u).
Proof.
  intros Hn Hle. apply one_in_headers; [reflexivity | done | done |]. apply ok_reexecute. reduce.
  cbn [switch]. unfold case_s_header_field. do 3 ok_step. cbn [length header_field_loop].
  repeat ok_step. change (TOKEN (uchar Byte.x3a) =? 0) with true. cbv iota. repeat ok_step.
  change (uchar Byte.x3a =? 58) with true. cbv iota. repeat ok_step. rewrite app_nil_r. finish (@None data_for).
Qed.

Lemma one_space w hs idx F n cl u :
  0 <= n -> n + 1 <= mx ->
  one Byte.x20 (head_parser w s_header_value_discard_ws hs idx F n cl) u =
  Some (false, head_parser w s_header_value_discard_ws hs idx F (n + 1) cl, u).
Proof.
  intros Hn Hle. apply one_in_headers; [reflexivity | done | done |]. apply ok_reexecute. reduce.
  cbn [switch]. unfold case_s_header_value_discard_ws. repeat ok_step.
  change ((uchar Byte.x20 =? " "%ch) || _) with true. cbv iota. repeat ok_step. finish (@None data_for).
Qed.

(** ** A header value

    The first character of a value gives the header state, the flags and the content
    length; only the values that the server writes are followed. *)

Definition value_first (hs : header_states) (c F cl : Z) : option (header_states * Z * Z) :=
  match hs with
  | h_content_length =>
      if IS_NUM c && (Z.land F F_CONTENTLENGTH =? 0)
      then Some (h_content_length_num, Z.lor F F_CONTENTLENGTH, c - "0"%ch) else None
  | h_connection =>
      if LOWER c =? "k"%ch then Some (h_matching_connection_keep_alive, F, cl)
      else if LOWER c =? "c"%ch then Some (h_matching_connection_close, F, cl)
      else None
  | h_general | h_C | h_CO | h_CON | h_matching_connection | h_matching_proxy_connection
  | h_matching_content_length | h_matching_transfer_encoding | h_matching_upgrade =>
      Some (h_general, F, cl)
  | _ => None
  end.

Definition match_next (w : string) (c idx : Z) (self full : header_states) (cl : Z) :
    option (header_states * Z * Z) :=
  let i := u5 (idx + 1) in
  if Z.of_nat (String.length w) <? i then None else
  match str_at w i with
  | Some x => if c =? x then Some (if i =? Z.of_nat (String.length w) - 1 then full else self, i, cl) else None
  | None => None
  end.
Definition value_next (c : Z) (x : header_states * Z * Z) : option (header_states * Z * Z) :=
  let '(hs, idx, cl) := x in
  match hs with
  | h_general => Some x
  | h_matching_connection_keep_alive => match_next KEEP_ALIVE (LOWER c) idx hs h_connection_keep_alive cl
  | h_matching_connection_close => match_next CLOSE (LOWER c) idx hs h_connection_close cl
  | h_content_length_num =>
      if IS_NUM c && (cl <=? (ULLONG_MAX - 10) / 10)
      then Some (hs, idx, u64 (u64 (cl * 10) + (c - "0"%ch))) else None
  | _ => None
  end.

Definition value_byte (b : Byte.byte) : bool :=
  IS_HEADER_CHAR (uchar b) && negb (uchar b =? CR) && negb (uchar b =? LF).

Lemma one_value_first w hs idx F n cl b u hs' F' cl' :
  value_byte b = true -> uchar b <> 32 -> uchar b <> TAB ->
  value_first hs (uchar b) F cl = Some (hs', F', cl') -> 0 <= n -> n + 1 <= mx ->
  one b (head_parser w s_header_value_discard_ws hs idx F n cl) u =
  Some (false, head_parser w s_header_value hs' 0 F' (n + 1) cl', u ++ sent for_header_value [b]).
Proof.
  intros Hb H1 H2 Hv Hn Hle. unfold value_byte in Hb. boolify.
  apply one_in_headers; [reflexivity | done | done |]. apply ok_reexecute. reduce.
  cbn [switch]. unfold case_s_header_value_discard_ws. repeat ok_step.
  change (" "%ch) with 32. known H1. known H2. cbn [orb].
  do 2 match goal with H : uchar b <> _ |- _ => known H; clear H end.
  unfold case_s_header_value_start. repeat ok_step.
  destruct hs; try done; unfold value_first in Hv; reduce;
    try (injection Hv as <- <- <-; repeat ok_step; finish (Some for_header_value)).
  - repeat ok_step. destruct (LOWER (uchar b) =? "k"%ch);
      [| destruct (LOWER (uchar b) =? "c"%ch); [| done]]; injection Hv as <- <- <-;
      finish (Some for_header_value).
  - destruct (IS_NUM (uchar b)) eqn:Hnum; [| done]. unfold has_flag. reduce.
    destruct (Z.land F F_CONTENTLENGTH =? 0); [| done]. injection Hv as <- <- <-. cbn [negb].
    repeat ok_step. finish (Some for_header_value).
Qed.

Lemma match_next_length w c idx self full cl y : match_next w c idx self full cl = Some y -> y.2 = cl.
Proof. unfold match_next. intros H. repeat case_match; try done; by injection H as <-. Qed.

Lemma match_word_next w c full complete s y (A : header_states) Q :
  match_next w c (hp_index (parser s)) A full (hp_content_length (parser s)) = Some y ->
  complete = mret full ->
  Q y.1.1 (with_parser (set_index y.1.2 (parser s)) s) -> y.2 = hp_content_length (parser s) ->
  ok (U:=list event) (incr_index;; match_word w c (mret h_matching_connection_token) (mret A) complete) Q s.
Proof.
  intros Hy -> HQ Hcl. unfold incr_index, match_word. apply ok_bind, ok_modify_parser, ok_bind, ok_gets.
  unfold match_next in Hy. change (hp_index (parser (with_parser (set_index _ (parser s)) s)))
    with (u5 (hp_index (parser s) + 1)).
  set (i := u5 _) in *. replace (Z.of_nat (String.length w) + 1 - 1) with (Z.of_nat (String.length w)) by lia.
  replace (Z.of_nat (String.length w) + 1 - 2) with (Z.of_nat (String.length w) - 1) by lia.
  destruct (_ <? i); [done |]. destruct (str_at w i) as [x |]; [| done].
  destruct (c =? x); [| done]. injection Hy as <-. simpl in *. by destruct (i =? _).
Qed.

Lemma run_end_one (b : Byte.byte) : run_end [b] mx 0 = 1%nat.
Proof. unfold run_end. simpl length. lia. Qed.

Lemma reply_value_char b hs hs' idx' cl' (s : frame (list event)) Q :
  value_next (uchar b) (hs, hp_index (parser s), hp_content_length (parser s)) = Some (hs', idx', cl') ->
  value_byte b = true -> pos s = 0%nat -> ch s = uchar b ->
  Q hs' (with_parser (set_content_length cl' (set_index idx' (parser s))) s) ->
  ok (header_value_char [b] mx false hs) Q s.
Proof.
  intros Hv Hb Hpos Hch HQ. unfold header_value_char. apply ok_bind, ok_gets. rewrite Hch.
  unfold value_byte in Hb. boolify.
  destruct s as [o c0 ps nn m1 m2 m3 m4 m5 [ty fl st hs0 ix ute acl len nr cl ma mi sc me er up] u].
  cbn in Hv, Hpos, Hch. subst o c0. destruct hs; try done; simpl in Hv.
  - injection Hv as <- <- <-. apply ok_bind, ok_gets. cbn [pos]. rewrite run_end_one.
    cbn [length value_run]. repeat ok_step.
    do 2 match goal with H : uchar b <> _ |- _ => known H; clear H end. cbn [orb].
    match goal with H : IS_HEADER_CHAR _ = true |- _ => rewrite H end. cbn [negb andb].
    repeat ok_step. exact HQ.
  - destruct (IS_NUM (uchar b)) eqn:Hnum; [| done]. unfold content_length_digit.
    assert (uchar b <> 32) as Hsp by (intros Heq; by rewrite Heq in Hnum).
    change (" "%ch) with 32. known Hsp. rewrite Hnum. cbn [negb]. ok_step. ok_step.
    simpl in Hv. rewrite Z.ltb_antisym. destruct (cl <=? (ULLONG_MAX - 10) / 10); [| done]. cbn [negb].
    injection Hv as <- <- <-. repeat ok_step. exact HQ.
  - pose proof (match_next_length _ _ _ _ _ _ _ Hv) as Hcl. simpl in Hcl. subst cl'.
    by eapply match_word_next; [exact Hv | reflexivity | exact HQ |].
  - pose proof (match_next_length _ _ _ _ _ _ _ Hv) as Hcl. simpl in Hcl. subst cl'.
    by eapply match_word_next; [exact Hv | reflexivity | exact HQ |].
Qed.

Lemma one_value_next w hs idx F n cl b u hs' idx' cl' :
  value_byte b = true -> value_next (uchar b) (hs, idx, cl) = Some (hs', idx', cl') ->
  0 <= n -> n + 1 <= mx ->
  one b (head_parser w s_header_value hs idx F n cl) u =
  Some (false, head_parser w s_header_value hs' idx' F (n + 1) cl', u ++ sent for_header_value [b]).
Proof.
  intros Hb Hv Hn Hle. apply one_in_headers; [reflexivity | done | done |]. apply ok_reexecute. reduce.
  cbn [switch]. unfold case_s_header_value. repeat ok_step. cbn [length header_value_loop].
  pose proof Hb as Hb'. unfold value_byte in Hb'. boolify.
  repeat ok_step. do 2 match goal with H : uchar b <> _ |- _ => known H; clear H end.
  match goal with H : IS_HEADER_CHAR _ = true |- _ => rewrite H end. cbn [negb andb].
  ok_step. eapply reply_value_char; [exact Hv | done | done | done |]. reduce.
  repeat ok_step. finish (Some for_header_value).
Qed.

Lemma one_value_cr w hs idx F n cl u :
  0 <= n -> n + 1 <= mx ->
  one Byte.x0d (head_parser w s_header_value hs idx F n cl) u =
  Some (false, head_parser w s_header_almost_done hs idx F (n + 1) cl, u).
Proof.
  intros Hn Hle. apply one_in_headers; [reflexivity | done | done |]. apply ok_reexecute. reduce.
  cbn [switch]. unfold case_s_header_value. repeat ok_step. cbn [length header_value_loop].
  repeat ok_step. change (uchar Byte.x0d =? CR) with true. cbv iota. repeat ok_step.
  rewrite app_nil_r. cbn [length]. repeat ok_step. finish (@None data_for).
Qed.

Lemma one_almost_done w hs idx F n cl u :
  0 <= n -> n + 1 <= mx ->
  one Byte.x0a (head_parser w s_header_almost_done hs idx F n cl) u =
  Some (false, head_parser w s_header_value_lws hs idx F (n + 1) cl, u).
Proof.
  intros Hn Hle. apply one_in_headers; [reflexivity | done | done |]. apply ok_reexecute. reduce.
  cbn [switch]. unfold case_s_header_almost_done. repeat ok_step.
  change (uchar Byte.x0a =? LF) with true. cbn [negb]. repeat ok_step. finish (@None data_for).
Qed.

Lemma one_end_cr w st hs idx F n cl u :
  line_start st -> 0 <= n -> n + 1 <= mx ->
  one Byte.x0d (head_parser w st hs idx F n cl) u =
  Some (false, head_parser w s_headers_almost_done hs idx (line_flags st hs F) (n + 1) cl, u).
Proof.
  intros Hst Hn Hle. apply one_at_line; try done. intros k Hk.
  destruct k as [| k]; [lia |]. apply ok_reexecute. reduce. cbn [switch]. unfold case_s_header_field_start.
  repeat ok_step. change (uchar Byte.x0d =? CR) with true. cbv iota. repeat ok_step. finish (@None data_for).
Qed.

(** The flags and the codes of the server's responses. *)
Definition reply_flags (close sized : bool) : Z :=
  Z.lor (if close then F_CONNECTION_CLOSE else F_CONNECTION_KEEP_ALIVE) (if sized then F_CONTENTLENGTH else 0).
Definition reply_code (sc : Z) : Prop := sc ∈ [200; 400; 403; 404].

Lemma one_end_lf sc hs idx (close sized : bool) n cl u :
  reply_code sc -> 0 <= n -> n + 1 <= mx ->
  (if sized then 0 < cl < ULLONG_MAX else cl = ULLONG_MAX) ->
  one Byte.x0a (head_parser (response_line sc) s_headers_almost_done hs idx (reply_flags close sized) n cl) u =
  Some (false, head_parser (response_line sc) (if sized then s_body_identity else s_body_identity_eof) hs idx
                 (reply_flags close sized) 0 cl, u).
Proof.
  intros Hsc Hn Hle Hcl. apply one_in_headers; [reflexivity | done | done |]. apply ok_reexecute. reduce.
  cbn [switch]. unfold case_s_headers_almost_done. repeat ok_step.
  change (uchar Byte.x0a =? LF) with true. cbn [negb STRICT_CHECK]. repeat ok_step.
  assert (forall p, hp_flags p = reply_flags close sized -> hp_status_code p = sc ->
    hp_type p = HTTP_RESPONSE -> hp_uses_transfer_encoding p = false -> hp_content_length p = ULLONG_MAX ->
    http_message_needs_eof p = true) as Heof.
  { intros p Hf Hs Ht Hu Hl. unfold http_message_needs_eof, has_flag. rewrite Hs, Ht, Hu, Hl, Hf.
    unfold reply_code in Hsc. repeat (apply elem_of_cons in Hsc as [-> | Hsc]; [by destruct close, sized |]).
    by apply elem_of_nil in Hsc. }
  unfold reply_code in Hsc. destruct close, sized;
    repeat first [ok_step | apply ok_reexecute; reduce
      | progress (cbn [switch]; unfold case_s_headers_done, call_headers_complete, reset_nread)
      | match goal with
        | |- context [upgrade_requested ?p] => change (upgrade_requested p) with false
        | |- context [STRICT_CHECK (negb (?c =? LF))] => change (c =? LF) with true; cbn [negb STRICT_CHECK]
        end];
    cbn [andb]; repeat match goal with |- context [if has_flag ?f ?p then _ else _] =>
      change (has_flag f p) with false end; cbv iota.
  1, 3: rewrite (proj2 (Z.eqb_neq cl 0)), (proj2 (Z.eqb_neq cl ULLONG_MAX)) by lia; cbn [negb].
  3, 4: subst cl; rewrite Heof by done; cbn [negb]; cbv beta iota delta [Z.eqb ULLONG_MAX].
  all: repeat ok_step; finish (@None data_for).
Qed.

(** ** The body *)

Lemma one_in_body b p u p' u' :
  PARSING_HEADER (hp_state p) = false ->
  ok (reexecute rec [b] mx false false 8) (fun _ => settled b p' u')
    (with_ch (uchar b) (entry_marks (hp_state p) (initial_frame p u))) ->
  one b p u = Some (false, p', u').
Proof.
  intros Hp H. apply one_intro. unfold turn.
  destruct (entry_frame p u) as (H1 & H2 & _ & _ & _).
  apply ok_bind. eapply ok_load_ch; [by rewrite H1 |]. apply ok_bind, ok_gets.
  cbn [p_state with_ch]. rewrite H2, Hp. exact H.
Qed.

Lemma ok_consume_body b Q (s : frame (list event)) :
  pos s = 0%nat -> body_mark s = None -> 0 < hp_content_length (parser s) ->
  Q tt (with_parser (set_content_length (hp_content_length (parser s) - 1) (parser s))
          (with_body_mark (Some 0%nat) s)) ->
  ok (consume_body [b]) Q s.
Proof.
  intros Hp Hm Hcl HQ. unfold consume_body. do 2 (apply ok_bind, ok_gets).
  destruct s as [o c0 ps nn m1 m2 m3 m4 m5 p u]. cbn in Hp, Hm, Hcl, HQ. subst o m4. cbn [pos parser].
  assert (to_read [b] p 0 = 1) as -> by (unfold to_read; simpl length; lia).
  apply ok_bind, ok_MARK, ok_bind, ok_modify_parser, ok_modify. exact HQ.
Qed.

Lemma one_body w hs idx F n cl b u :
  1 < cl < ULLONG_MAX ->
  one b (head_parser w s_body_identity hs idx F n cl) u =
  Some (false, head_parser w s_body_identity hs idx F n (cl - 1), u ++ sent for_body [b]).
Proof.
  intros Hcl. apply one_in_body; [reflexivity |]. apply ok_reexecute. reduce.
  cbn [switch]. unfold case_s_body_identity. repeat ok_step.
  unfold content_length_known. reduce.
  rewrite (proj2 (Z.eqb_neq cl 0)), (proj2 (Z.eqb_neq cl ULLONG_MAX)) by lia. ok_step. ok_step.
  apply ok_consume_body; [done | done | simpl; lia |]. reduce. repeat ok_step.
  rewrite (proj2 (Z.eqb_neq (cl - 1) 0)) by lia. repeat ok_step. finish (Some for_body).
Qed.

(** The state after a response. *)
Definition reply_done (close : bool) : state := if close then s_dead else s_start_res.

Lemma one_body_last sc hs idx n b close u :
  reply_code sc ->
  one b (head_parser (response_line sc) s_body_identity hs idx (reply_flags close true) n 1) u =
  Some (false, head_parser (response_line sc) (reply_done close) hs idx (reply_flags close true) n 0,
        u ++ sent for_body [b] ++ [inl for_message_complete]).
Proof.
  intros Hsc. apply one_in_body; [reflexivity |]. apply ok_reexecute. reduce.
  cbn [switch]. unfold case_s_body_identity. repeat ok_step.
  apply ok_consume_body; [done | done | simpl; lia |]. reduce. repeat ok_step.
  cbv beta iota delta [Z.eqb Z.sub Z.add Z.opp Z.pos_sub]. repeat ok_step. apply ok_reexecute. reduce.
  cbn [switch]. unfold case_s_message_done, message_complete. repeat ok_step.
  match goal with |- context [NEW_MESSAGE ?p] => assert (NEW_MESSAGE p = reply_done close) as -> end.
  { unfold reply_code in Hsc. repeat (apply elem_of_cons in Hsc as [-> | Hsc]; [by destruct close |]).
    by apply elem_of_nil in Hsc. }
  rewrite app_assoc. finish (@None data_for).
Qed.

Lemma one_body_eof w hs idx F n cl b u :
  one b (head_parser w s_body_identity_eof hs idx F n cl) u =
  Some (false, head_parser w s_body_identity_eof hs idx F n cl, u ++ sent for_body [b]).
Proof.
  apply one_in_body; [reflexivity |]. apply ok_reexecute. reduce.
  cbn [switch]. unfold case_s_body_identity_eof. cbn [length]. repeat ok_step. finish (Some for_body).
Qed.
End bytes.
