(* ===== verification/HttpReadRequest.v ===== *)
(** * HttpReadRequest: the first line of a request, read byte by byte *)

From S2P Require Import Prelude.
From S2P Require Import HttpTables.
From S2P Require Import HttpUrl.
From S2P Require Import HttpParser.
From S2P Require Import HttpMonad.
From S2P Require Import HttpExec.
From S2P Require Import HttpWp.
From S2P Require Import HttpInvariant.
From S2P Require Import HttpSafety.
From S2P Require Import HttpStream.
From S2P Require Import HttpLockstep.
From S2P Require Import HttpSplit.
From S2P Require Import HttpChunking.
From S2P Require Import HttpChunkingTheorems.
From S2P Require Import HttpRead.
Local Open Scope Z_scope.

(** A parser in the first line of a request: the version is still that of the last one. *)
Definition line_parser (ma mi : Z) (w : first_line) (st : state) (hs : header_states) (idx n : Z) : http_parser :=
  mk_http_parser (fl_type w) 0 st hs idx false false false n ULLONG_MAX ma mi (fl_status w) (fl_method w) HPE_OK false.
Definition request_line (me : http_method) : first_line := mk_first_line HTTP_REQUEST 0 me.

Ltac decide_bytes := repeat match goal with |- context [uchar ?b =? ?c] =>
  let v := eval vm_compute in (uchar b =? c) in change (uchar b =? c) with v end; cbn [negb andb orb]; cbv iota.
Ltac line_step := unfold line_parser in *; repeat (ok_step; decide_bytes).

Section line.
Context (mx : Z) (Hmx : 0 < mx < 2 ^ 31).
Abbreviation one := (one rec mx false false).

(** The characters of a URL; [url_state] are the states inside one. *)
Lemma one_url_first ma mi w hs idx n b u st' :
  uchar b <> 32 -> fl_method w <> HTTP_CONNECT ->
  parse_url_char s_req_spaces_before_url (uchar b) = st' -> st' <> s_dead -> 0 <= n -> n + 1 <= mx ->
  one b (line_parser ma mi w s_req_spaces_before_url hs idx n) u =
  Some (false, line_parser ma mi w st' hs idx (n + 1), u ++ sent for_url [b]).
Proof.
  intros Hsp Hm Hst Hd Hn Hle. apply (one_in_headers mx Hmx); [reflexivity | done | done |].
  unfold line_parser. apply ok_reexecute. reduce.
  cbn [switch]. unfold case_s_req_spaces_before_url. repeat ok_step. change (" "%ch) with 32. known Hsp.
  repeat ok_step. rewrite decide_False by done. repeat ok_step. unfold url_step. repeat ok_step.
  rewrite Hst, decide_False by done. repeat ok_step. finish (Some for_url).
Qed.

Definition url_char (b : Byte.byte) : bool :=
  negb (uchar b =? 32) && negb (uchar b =? CR) && negb (uchar b =? LF).
(** The states in which a space ends the URL. *)
Definition url_end (st : state) : bool :=
  match st with
  | s_req_server | s_req_server_with_at | s_req_path | s_req_query_string_start
  | s_req_query_string | s_req_fragment_start | s_req_fragment => true
  | _ => false
  end.

Lemma one_url ma mi w st hs idx n b u st' :
  url_state st = true -> url_char b = true -> parse_url_char st (uchar b) = st' -> st' <> s_dead ->
  0 <= n -> n + 1 <= mx ->
  one b (line_parser ma mi w st hs idx n) u =
  Some (false, line_parser ma mi w st' hs idx (n + 1), u ++ sent for_url [b]).
Proof.
  intros Hst Hb Hnext Hd Hn Hle. unfold url_char in Hb. boolify.
  apply (one_in_headers mx Hmx); [by destruct st | done | done |]. unfold line_parser. apply ok_reexecute.
  destruct st; try discriminate Hst; reduce; cbn [switch]; unfold case_url, case_url_no_space; repeat ok_step;
    change (" "%ch) with 32; repeat match goal with H : uchar b <> _ |- _ => known H; clear H end;
    cbn [orb]; unfold url_step; repeat ok_step; rewrite Hnext, decide_False by done; repeat ok_step;
    finish (Some for_url).
Qed.

Lemma one_url_space ma mi w st hs idx n u :
  url_end st = true -> 0 <= n -> n + 1 <= mx ->
  one Byte.x20 (line_parser ma mi w st hs idx n) u =
  Some (false, line_parser ma mi w s_req_http_start hs idx (n + 1), u).
Proof.
  intros Hst Hn Hle. apply (one_in_headers mx Hmx); [by destruct st | done | done |]. unfold line_parser.
  apply ok_reexecute. destruct st; try discriminate Hst; reduce; cbn [switch]; unfold case_url; repeat ok_step;
    decide_bytes; repeat ok_step; rewrite app_nil_r; finish (@None data_for).
Qed.

(** The characters of [HTTP/1.1] and the end of the line. *)
Ltac fixed_byte := intros Hn Hle; apply (one_in_headers mx Hmx); [reflexivity | done | done |];
  unfold line_parser; apply ok_reexecute; reduce; cbn [switch];
  unfold case_s_req_http_start, case_expect, case_version_digit, case_version_char, case_s_req_http_end,
    case_s_req_line_almost_done, STRICT_CHECK; repeat (ok_step; decide_bytes); finish (@None data_for).

Lemma one_H ma mi w hs idx n u : 0 <= n -> n + 1 <= mx ->
  one Byte.x48 (line_parser ma mi w s_req_http_start hs idx n) u =
  Some (false, line_parser ma mi w s_req_http_H hs idx (n + 1), u).
Proof. fixed_byte. Qed.
Lemma one_T ma mi w hs idx n u : 0 <= n -> n + 1 <= mx ->
  one Byte.x54 (line_parser ma mi w s_req_http_H hs idx n) u =
  Some (false, line_parser ma mi w s_req_http_HT hs idx (n + 1), u).
Proof. fixed_byte. Qed.
Lemma one_TT ma mi w hs idx n u : 0 <= n -> n + 1 <= mx ->
  one Byte.x54 (line_parser ma mi w s_req_http_HT hs idx n) u =
  Some (false, line_parser ma mi w s_req_http_HTT hs idx (n + 1), u).
Proof. fixed_byte. Qed.
Lemma one_P ma mi w hs idx n u : 0 <= n -> n + 1 <= mx ->
  one Byte.x50 (line_parser ma mi w s_req_http_HTT hs idx n) u =
  Some (false, line_parser ma mi w s_req_http_HTTP hs idx (n + 1), u).
Proof. fixed_byte. Qed.
Lemma one_slash ma mi w hs idx n u : 0 <= n -> n + 1 <= mx ->
  one Byte.x2f (line_parser ma mi w s_req_http_HTTP hs idx n) u =
  Some (false, line_parser ma mi w s_req_http_major hs idx (n + 1), u).
Proof. fixed_byte. Qed.
Lemma one_major ma mi w hs idx n u : 0 <= n -> n + 1 <= mx ->
  one Byte.x31 (line_parser ma mi w s_req_http_major hs idx n) u =
  Some (false, line_parser 1 mi w s_req_http_dot hs idx (n + 1), u).
Proof. fixed_byte. Qed.
Lemma one_dot ma mi w hs idx n u : 0 <= n -> n + 1 <= mx ->
  one Byte.x2e (line_parser ma mi w s_req_http_dot hs idx n) u =
  Some (false, line_parser ma mi w s_req_http_minor hs idx (n + 1), u).
Proof. fixed_byte. Qed.
Lemma one_minor ma mi w hs idx n u : 0 <= n -> n + 1 <= mx ->
  one Byte.x31 (line_parser ma mi w s_req_http_minor hs idx n) u =
  Some (false, line_parser ma 1 w s_req_http_end hs idx (n + 1), u).
Proof. fixed_byte. Qed.
Lemma one_line_cr ma mi w hs idx n u : 0 <= n -> n + 1 <= mx ->
  one Byte.x0d (line_parser ma mi w s_req_http_end hs idx n) u =
  Some (false, line_parser ma mi w s_req_line_almost_done hs idx (n + 1), u).
Proof. fixed_byte. Qed.
Lemma one_line_lf w hs idx n u : 0 <= n -> n + 1 <= mx ->
  one Byte.x0a (line_parser 1 1 w s_req_line_almost_done hs idx n) u =
  Some (false, head_parser w s_header_field_start hs idx 0 (n + 1) ULLONG_MAX, u).
Proof. fixed_byte. Qed.

(** ** The end of the headers, and the body *)

(** The flags that the framing headers of a request leave. *)
Definition request_flags (keep close sized : bool) : Z :=
  Z.lor (Z.lor (if keep then F_CONNECTION_KEEP_ALIVE else 0) (if close then F_CONNECTION_CLOSE else 0))
    (if sized then F_CONTENTLENGTH else 0).
Definition request_done (close : bool) : state := if close then s_dead else s_start_req.

(** The flags are known once the three headers are. *)
Ltac known_flags := repeat match goal with
  | |- context [has_flag ?f ?p] =>
      let v := eval vm_compute in (has_flag f p) in change (has_flag f p) with v
  end; cbn [andb orb negb]; cbv iota.
Lemma not_connect me p :
  me <> HTTP_CONNECT -> hp_method p = me -> has_flag F_UPGRADE p = false -> upgrade_requested p = false.
Proof. intros Hm <- Hu. unfold upgrade_requested. rewrite Hu. by apply bool_decide_false. Qed.

Ltac head_step Hm := first [ok_step | apply ok_reexecute; reduce
  | progress (cbn [switch]; unfold case_s_headers_done, call_headers_complete, reset_nread)
  | match goal with
    | |- context [upgrade_requested ?p] => rewrite (not_connect _ p Hm) by reflexivity
    | |- context [STRICT_CHECK (negb (?c =? LF))] => change (c =? LF) with true; cbn [negb STRICT_CHECK]
    | |- context [framing_conflict false false ?p] => change (framing_conflict false false p) with false; cbv iota
    end
  | progress known_flags].

Ltac message_end := match goal with |- context [NEW_MESSAGE ?p] =>
  let v := eval vm_compute in (NEW_MESSAGE p) in change (NEW_MESSAGE p) with v end; finish (@None data_for).

(** Whether a body follows, and what is told when none does. *)
Definition more_body (sized : bool) (cl : Z) : bool := sized && (0 <? cl).
Definition end_state (more close : bool) : state := if more then s_body_identity else request_done close.
Definition end_events (more : bool) : list HttpChunkingTheorems.event := if more then [] else [inl for_message_complete].

Lemma one_end_lf_req me hs idx keep close (sized : bool) n cl u :
  me <> HTTP_CONNECT -> 0 <= n -> n + 1 <= mx -> (if sized then 0 <= cl < ULLONG_MAX else cl = ULLONG_MAX) ->
  one Byte.x0a (head_parser (request_line me) s_headers_almost_done hs idx (request_flags keep close sized) n cl) u =
  Some (false, head_parser (request_line me) (end_state (more_body sized cl) close) hs idx
                 (request_flags keep close sized) 0 cl, u ++ end_events (more_body sized cl)).
Proof.
  intros Hm Hn Hle Hcl. apply (one_in_headers mx Hmx); [reflexivity | done | done |]. apply ok_reexecute. reduce.
  cbn [switch]. unfold case_s_headers_almost_done, STRICT_CHECK. repeat (ok_step; decide_bytes).
  unfold more_body. destruct sized; [destruct (Z.ltb_spec 0 cl) |]; cbn [andb end_state end_events].
  1: rewrite app_nil_r.
  1: destruct keep, close; repeat head_step Hm; known (not_eq_sym (Z.lt_neq 0 cl H)).
  1-4: rewrite (proj2 (Z.eqb_neq cl ULLONG_MAX)) by lia; cbn [negb]; repeat head_step Hm; finish (@None data_for).
  1: assert (cl = 0) as -> by lia.
  2: subst cl.
  all: destruct keep, close; repeat head_step Hm.
  all: repeat match goal with |- context [http_message_needs_eof ?p] => change (http_message_needs_eof p) with false end.
  all: try (change (ULLONG_MAX =? 0) with false; change (ULLONG_MAX =? ULLONG_MAX) with true);
    change (0 =? 0) with true; cbn [negb]; cbv iota; unfold message_complete; repeat head_step Hm; message_end.
Qed.

(** The body; its last byte ends the message. *)
Lemma one_body_last_req me hs idx keep close n b u :
  one b (head_parser (request_line me) s_body_identity hs idx (request_flags keep close true) n 1) u =
  Some (false, head_parser (request_line me) (request_done close) hs idx (request_flags keep close true) n 0,
        u ++ sent for_body [b] ++ [inl for_message_complete]).
Proof.
  apply one_in_body; [reflexivity |]. apply ok_reexecute. reduce.
  cbn [switch]. unfold case_s_body_identity. repeat ok_step.
  apply ok_consume_body; [done | done | simpl; lia |]. reduce. repeat ok_step.
  cbv beta iota delta [Z.eqb Z.sub Z.add Z.opp Z.pos_sub]. repeat ok_step. apply ok_reexecute. reduce.
  cbn [switch]. unfold case_s_message_done, message_complete. repeat ok_step. rewrite app_assoc.
  destruct keep, close; message_end.
Qed.
End line.
