(* ===== verification/HttpReadLines.v ===== *)
(** * HttpReadLines: the lines of a message

    [reads] is a part of the input that the byte-by-byte parser takes in completely; header
    names, values, lines and numbers are composed of such parts. *)

From S2P Require Import Prelude.
From S2P Require Import HttpTables.
From S2P Require Import HttpUrl.
From S2P Require Import HttpParser.
From S2P Require Import HttpMonad.
From S2P Require Import HttpExec.
From S2P Require Import HttpWp.
From S2P Require Import HttpInvariant.
From S2P Require Import HttpSafety.
From S2P Require Import HttpStream.
From S2P Require Import HttpLockstep.
From S2P Require Import HttpSplit.
From S2P Require Import HttpChunking.
From S2P Require Import Cpp.
From S2P Require Import Buffer.
From S2P Require Import TcpConnection.
From S2P Require Import HttpServer.
From S2P Require Import HttpServerTheorems.
From S2P Require Import HttpChunkingTheorems.
From S2P Require Import HttpRead.
From stdpp Require Import gmap list pretty.
Local Open Scope Z_scope.

(** ** Parts of the input *)

Definition reads (mx : Z) (l : text) (p : http_parser) (u : list event) (p' : http_parser) (u' : list event) : Prop :=
  run rec mx false false l p u = Some (length l, false, p', u').

Section parts.
Context {mx : Z} (Hmx : 0 < mx < 2 ^ 31).
Abbreviation reads := (reads mx).

Lemma reads_nil p u : reads [] p u p u.
Proof. done. Qed.
Lemma reads_app a b p u p1 u1 p2 u2 :
  reads a p u p1 u1 -> reads b p1 u1 p2 u2 -> reads (a ++ b) p u p2 u2.
Proof. unfold reads. intros Ha Hb. by rewrite run_app, Ha, Hb, length_app. Qed.
Lemma reads_one b p u p' u' :
  one rec mx false false b p u = Some (false, p', u') -> reads [b] p u p' u'.
Proof. unfold reads. simpl. by intros ->. Qed.
Lemma reads_cons b l p u p1 u1 p2 u2 :
  one rec mx false false b p u = Some (false, p1, u1) -> reads l p1 u1 p2 u2 -> reads (b :: l) p u p2 u2.
Proof. intros H. apply (reads_app [b] l), reads_one, H. Qed.

Lemma reads_split a b p u p2 u2 :
  reads (a ++ b) p u p2 u2 -> exists p1 u1, reads a p u p1 u1 /\ reads b p1 u1 p2 u2.
Proof.
  unfold reads. rewrite run_app.
  destruct (run rec mx false false a p u) as [[[[n []] p1] u1] |] eqn:Ha; [by intros [=] | | done].
  destruct (run_length _ _ _ _ _ _ _ _ _ _ _ Ha) as [_ Hn]. rewrite Hn in Ha by done.
  unfold shift. destruct (run rec mx false false b p1 u1) as [[[[m st] p3] u3] |] eqn:Hb; [| done].
  intros [= Hm -> -> ->]. rewrite length_app in Hm. exists p1, u1. split; [by rewrite Hn |].
  rewrite Hb. do 3 f_equal. f_equal. lia.
Qed.

(** What the byte-by-byte parser takes in is taken in by any calls. *)
Lemma feed_reads pieces p u p' u' :
  ready mx p -> hp_lenient_http_headers p = false -> hp_allow_chunked_length p = false ->
  Forall piece pieces -> reads (concat pieces) p u p' u' -> feed rec mx pieces p u = Some (p', u').
Proof.
  intros Hr Hl Ha Hall. revert p u Hr Hl Ha. induction Hall as [| a l [Hne Hsize] Hall IH];
    intros p u Hr Hl Ha Hreads; [by injection Hreads as <- <- |].
  apply reads_split in Hreads as (p1 & u1 & H1 & H2). simpl.
  pose proof (execute_run rec mx ltac:(lia) a p u Hr Hsize Hne) as Hex.
  unfold run_from in Hex. rewrite Hl, Ha, H1 in Hex. destruct Hex as [Hex He]. rewrite Hex.
  rewrite Nat.eqb_refl, bool_decide_true by done. cbn [andb].
  destruct (ready_after rec mx a p u _ p1 u1 Hr Hne Hex He) as (Hr1 & Hl1 & Ha1).
  apply IH; congruence || done.
Qed.

(** ** A header name *)

Fixpoint field_scan (l : text) (x : header_states * Z) : option (header_states * Z) :=
  match l with
  | [] => Some x
  | b :: l => field_next (TOKEN (uchar b)) x ≫= field_scan l
  end.

Lemma reads_field w F cl l hs idx hs' idx' n u :
  forallb token l = true -> field_scan l (hs, idx) = Some (hs', idx') ->
  0 <= n -> n + Z.of_nat (length l) <= mx ->
  reads l (head_parser w s_header_field hs idx F n cl) u
    (head_parser w s_header_field hs' idx' F (n + Z.of_nat (length l)) cl) (u ++ sent for_header_field l).
Proof.
  revert hs idx n u. induction l as [| b l IH]; intros hs idx n u Ht Hs Hn Hle.
  { injection Hs as -> ->. simpl. rewrite Z.add_0_r, app_nil_r. apply reads_nil. }
  cbn [forallb field_scan length] in Ht, Hs, Hle. apply andb_prop in Ht as [Hb Ht].
  destruct (field_next _ _) as [[hs1 idx1] |] eqn:Hx; [| done]. simpl in Hs.
  eapply reads_cons; [eapply one_field; [exact Hmx | done | exact Hx | lia | lia] |].
  replace (n + Z.of_nat (length (b :: l))) with (n + 1 + Z.of_nat (length l)) by (simpl length; lia).
  change (sent for_header_field (b :: l)) with (sent for_header_field [b] ++ sent for_header_field l).
  rewrite app_assoc. apply IH; done || lia.
Qed.

(** ** A header value *)

Fixpoint value_scan (l : text) (x : header_states * Z * Z) : option (header_states * Z * Z) :=
  match l with
  | [] => Some x
  | b :: l => value_next (uchar b) x ≫= value_scan l
  end.

Lemma reads_value w F l hs idx cl hs' idx' cl' n u :
  forallb value_byte l = true -> value_scan l (hs, idx, cl) = Some (hs', idx', cl') ->
  0 <= n -> n + Z.of_nat (length l) <= mx ->
  reads l (head_parser w s_header_value hs idx F n cl) u
    (head_parser w s_header_value hs' idx' F (n + Z.of_nat (length l)) cl') (u ++ sent for_header_value l).
Proof.
  revert hs idx cl n u. induction l as [| b l IH]; intros hs idx cl n u Ht Hs Hn Hle.
  { injection Hs as -> -> ->. simpl. rewrite Z.add_0_r, app_nil_r. apply reads_nil. }
  cbn [forallb value_scan length] in Ht, Hs, Hle. apply andb_prop in Ht as [Hb Ht].
  destruct (value_next _ _) as [[[hs1 idx1] cl1] |] eqn:Hx; [| done]. simpl in Hs.
  eapply reads_cons; [eapply one_value_next; [exact Hmx | done | exact Hx | lia | lia] |].
  replace (n + Z.of_nat (length (b :: l))) with (n + 1 + Z.of_nat (length l)) by (simpl length; lia).
  change (sent for_header_value (b :: l)) with (sent for_header_value [b] ++ sent for_header_value l).
  rewrite app_assoc. apply IH; done || lia.
Qed.

(** ** A line *)

Definition line (name value : text) : text := name ++ bytes ": " ++ value ++ CRLF.
Definition value_ok (value : text) : bool :=
  match value with
  | [] => false
  | b :: _ => forallb value_byte value && negb (uchar b =? 32) && negb (uchar b =? TAB)
  end.

(** The parser after the name, and after the value. *)
Definition name_scan (name : text) : option (header_states * Z) :=
  match name with
  | [] => None
  | b :: l => field_scan l (field_first (TOKEN (uchar b)), 0)
  end.
Definition text_scan (value : text) (hs : header_states) (F cl : Z) : option (header_states * Z * Z * Z) :=
  match value with
  | [] => None
  | b :: l =>
      '(hs, F, cl) ← value_first hs (uchar b) F cl;
      '(hs, idx, cl) ← value_scan l (hs, 0, cl);
      Some (hs, idx, F, cl)
  end.

Lemma reads_line w st hs idx F n cl name value hsn idxn hs' idx' F' cl' u :
  line_start st -> forallb token name = true -> value_ok value = true ->
  name_scan name = Some (hsn, idxn) -> text_scan value hsn (line_flags st hs F) cl = Some (hs', idx', F', cl') ->
  0 <= n -> n + Z.of_nat (length (line name value)) <= mx ->
  reads (line name value) (head_parser w st hs idx F n cl) u
    (head_parser w s_header_value_lws hs' idx' F' (n + Z.of_nat (length (line name value))) cl')
    (u ++ sent for_header_field name ++ sent for_header_value value).
Proof.
  intros Hst Hname Hvalue Hn Hv H0 Hle. destruct name as [| b name]; [done |]. destruct value as [| c value]; [done |].
  cbn [forallb name_scan text_scan] in Hname, Hn, Hv. apply andb_prop in Hname as [Hb Hname].
  unfold value_ok in Hvalue. cbn [forallb] in Hvalue. boolify.
  destruct (value_first _ _ _ _) as [[[hs1 F1] cl1] |] eqn:Hfirst; [| done]. cbn in Hv.
  destruct (value_scan _ _) as [[[hs2 idx2] cl2] |] eqn:Hscan; [| done]. injection Hv as <- <- <- <-.
  assert (Z.of_nat (length (line (b :: name) (c :: value))) =
          1 + Z.of_nat (length name) + 1 + 1 + 1 + Z.of_nat (length value) + 1 + 1) as Hlen.
  { unfold line. rewrite !length_app. simpl length. lia. }
  rewrite Hlen in Hle |- *.
  replace (n + _) with (n + 1 + Z.of_nat (length name) + 1 + 1 + 1 + Z.of_nat (length value) + 1 + 1) by lia.
  replace (u ++ _) with ((((u ++ sent for_header_field [b]) ++ sent for_header_field name) ++
      sent for_header_value [c]) ++ sent for_header_value value) by (by rewrite <- !app_assoc).
  change (line (b :: name) (c :: value)) with (b :: (name ++ Byte.x3a :: Byte.x20 :: c :: (value ++ CRLF))).
  eapply reads_cons; [apply one_first; done || lia |].
  eapply reads_app; [apply reads_field; [done | exact Hn | lia | lia] |].
  eapply reads_cons; [apply one_colon; done || lia |].
  eapply reads_cons; [apply one_space; done || lia |].
  eapply reads_cons; [eapply one_value_first; [exact Hmx | done | done | done | exact Hfirst | lia | lia] |].
  eapply reads_app; [apply reads_value; [done | exact Hscan | lia | lia] |].
  eapply reads_cons; [apply one_value_cr; done || lia |].
  apply reads_one, one_almost_done; done || lia.
Qed.

(** Where a line may begin; the flags include that of the header before. *)
Definition at_line (w : first_line) (F n cl : Z) (p : http_parser) : Prop :=
  exists st hs idx F0, line_start st /\ line_flags st hs F0 = F /\ p = head_parser w st hs idx F0 n cl.

Lemma at_line_reads w F n cl p name value hsn idxn hs' idx' F' cl' u :
  at_line w F n cl p -> forallb token name = true -> value_ok value = true ->
  name_scan name = Some (hsn, idxn) -> text_scan value hsn F cl = Some (hs', idx', F', cl') ->
  0 <= n -> n + Z.of_nat (length (line name value)) <= mx ->
  exists p', reads (line name value) p u p' (u ++ sent for_header_field name ++ sent for_header_value value) /\
    at_line w (flagged hs' F') (n + Z.of_nat (length (line name value))) cl' p'.
Proof.
  intros (st & hs & idx & F0 & Hst & <- & ->) Hname Hvalue Hn Hv H0 Hle. eexists. split.
  - by eapply reads_line.
  - eexists _, _, _, _. split; [by left | done].
Qed.

(** A header that has no meaning for the parser. *)
Definition ordinary (hs : header_states) : bool :=
  match hs with
  | h_general | h_C | h_CO | h_CON | h_matching_connection | h_matching_proxy_connection
  | h_matching_content_length | h_matching_transfer_encoding | h_matching_upgrade => true
  | _ => false
  end.
Definition plain_name (name : text) : bool :=
  forallb token name &&
  match name_scan name with Some (hs, _) => ordinary hs | None => false end.
Definition header_ok (h : text * text) : bool := plain_name h.1 && value_ok h.2.

Definition header_events (h : text * text) : list event :=
  sent for_header_field h.1 ++ sent for_header_value h.2.

Lemma reads_special w F n cl p h u hsn idxn hs' idx' F' cl' Fx :
  at_line w F n cl p -> forallb token h.1 = true -> value_ok h.2 = true ->
  name_scan h.1 = Some (hsn, idxn) -> text_scan h.2 hsn F cl = Some (hs', idx', F', cl') ->
  flagged hs' F' = Fx -> 0 <= n -> n + Z.of_nat (length (header_line h)) <= mx ->
  exists p', reads (header_line h) p u p' (u ++ header_events h) /\
    at_line w Fx (n + Z.of_nat (length (header_line h))) cl' p'.
Proof. destruct h. intros ????? <- ??. by eapply at_line_reads. Qed.

Lemma value_scan_general l idx cl : value_scan l (h_general, idx, cl) = Some (h_general, idx, cl).
Proof. by induction l. Qed.

Lemma reads_header w F n cl p h u :
  at_line w F n cl p -> header_ok h = true -> 0 <= n -> n + Z.of_nat (length (header_line h)) <= mx ->
  exists p', reads (header_line h) p u p' (u ++ header_events h) /\
    at_line w F (n + Z.of_nat (length (header_line h))) cl p'.
Proof.
  destruct h as [name value]. unfold header_ok, plain_name. simpl. intros Hp Hok Hn Hle. boolify.
  destruct (name_scan name) as [[hs idx] |] eqn:Hname; [| done].
  assert (text_scan value hs F cl = Some (h_general, 0, F, cl)) as Hv.
  { destruct value as [| c value]; [done |]. simpl.
    assert (value_first hs (uchar c) F cl = Some (h_general, F, cl)) as -> by (by destruct hs).
    simpl. by rewrite value_scan_general. }
  by apply (reads_special w F n cl p (name, value) u hs idx h_general 0 F cl).
Qed.

Lemma reads_headers w F cl l n p u :
  at_line w F n cl p -> forallb header_ok l = true -> 0 <= n ->
  n + Z.of_nat (length (concat (header_line <$> l))) <= mx ->
  exists p', reads (concat (header_line <$> l)) p u p' (u ++ concat (header_events <$> l)) /\
    at_line w F (n + Z.of_nat (length (concat (header_line <$> l)))) cl p'.
Proof.
  revert n p u. induction l as [| h l IH]; intros n p u Hp Hok Hn.
  { intros _. exists p. simpl. rewrite app_nil_r, Z.add_0_r. done. }
  cbn [fmap list_fmap concat forallb] in *. rewrite !length_app, !Nat2Z.inj_add. intros Hle. boolify.
  destruct (reads_header w F n cl p h u) as (p1 & H1 & Hp1); try done; [lia |].
  destruct (IH (n + Z.of_nat (length (header_line h))) p1 (u ++ header_events h)) as (p2 & H2 & Hp2);
    try done; [lia | lia |].
  exists p2. rewrite app_assoc, Z.add_assoc. split; [by eapply reads_app | done].
Qed.

(** ** Which names are plain *)

Definition codes (w : string) : list Z := uchar <$> bytes w.
(** What a header state says of the characters read so far, in lower case. *)
Definition scanned (t : list Z) (x : header_states * Z) : Prop :=
  let '(hs, idx) := x in
  let matching w := 0 <= idx /\ idx + 1 < Z.of_nat (length (codes w)) /\ t = take (Z.to_nat (idx + 1)) (codes w) in
  match hs with
  | h_general => True
  | h_C => t = codes "c" /\ idx = 0
  | h_CO => t = codes "co" /\ idx = 1
  | h_CON => t = codes "con" /\ idx = 2
  | h_matching_connection => matching CONNECTION
  | h_matching_proxy_connection => matching PROXY_CONNECTION
  | h_matching_content_length => matching CONTENT_LENGTH
  | h_matching_transfer_encoding => matching TRANSFER_ENCODING
  | h_matching_upgrade => matching UPGRADE
  | h_connection => t = codes CONNECTION \/ t = codes PROXY_CONNECTION
  | h_content_length => t = codes CONTENT_LENGTH
  | h_upgrade => t = codes UPGRADE
  | _ => False
  end.

Lemma word_scanned w c idx self full t :
  (length (codes w) <= 20)%nat -> 0 <= idx -> idx + 1 < Z.of_nat (length (codes w)) ->
  t = take (Z.to_nat (idx + 1)) (codes w) -> (full = h_transfer_encoding -> t ++ [c] <> codes w) ->
  exists hs i, word_next w c idx self full = Some (hs, i) /\
    (hs = h_general \/
     hs = self /\ 0 <= i /\ i + 1 < Z.of_nat (length (codes w)) /\ t ++ [c] = take (Z.to_nat (i + 1)) (codes w) \/
     hs = full /\ t ++ [c] = codes w).
Proof.
  intros Hlen H0 Hlt -> Hfull. unfold word_next.
  assert (String.length w = length (codes w)) as Hw by (unfold codes; by rewrite length_fmap, length_bytes).
  assert (u5 (idx + 1) = idx + 1) as -> by (unfold u5; apply Z.mod_small; lia). rewrite Hw.
  rewrite (proj2 (Z.ltb_ge _ _)) by lia. destruct (lookup_lt_is_Some_2 (codes w) (Z.to_nat (idx + 1))) as [x Hx]; [lia |].
  unfold str_at. rewrite (proj2 (Z.ltb_ge _ _)), lookup_app_l by (done || lia || (fold (codes w); lia)).
  fold (codes w). rewrite Hx. destruct (Z.eqb_spec c x) as [-> | Hc]; cbn [negb]; [| by eauto 6].
  pose proof (take_S_r _ _ _ Hx) as Htake. rewrite <- Htake in Hfull. rewrite <- Htake.
  destruct (Z.eqb_spec (idx + 1) (Z.of_nat (length (codes w)) - 1)) as [Hend | Hend].
  - rewrite take_ge in Hfull |- * by lia. case_decide as Hf; [by destruct (Hfull Hf) |]. eauto 7.
  - do 2 eexists. split; [done |]. right. left. split_and!; [done | lia | lia |]. f_equal. lia.
Qed.

Lemma field_scanned t x c :
  scanned t x -> t ++ [c] <> codes TRANSFER_ENCODING -> exists y, field_next c x = Some y /\ scanned (t ++ [c]) y.
Proof.
  destruct x as [hs idx]. intros Hx Hte.
  destruct hs; simpl in Hx; try done.
  all: try (by eexists).
  all: try (destruct Hx as (H1 & H2 & H3)).
  all: match goal with |- context [field_next ?c (?hs, ?idx)] =>
    match eval cbn in (field_next c (hs, idx)) with word_next ?w _ _ _ ?full =>
      destruct (word_scanned w c idx hs full t) as (hs' & i & Hy & Hs);
        [by vm_compute; lia | assumption | assumption | assumption | done |];
      exists (hs', i); split; [exact Hy |];
      destruct Hs as [-> | [(-> & ? & ? & ?) | [-> ?]]]; simpl; auto end | _ => idtac end.
  all: destruct Hx as [-> ->]; eexists; split; [reflexivity |]; cbn [scanned].
  all: repeat match goal with |- context [?c =? ?n] => destruct (Z.eqb_spec c n) as [-> |] end; try done.
  all: split_and!; vm_compute; done || reflexivity.
Qed.

Lemma first_scanned c : scanned [c] (field_first c, 0).
Proof.
  unfold field_first.
  repeat match goal with |- context [?c =? ?n] => destruct (Z.eqb_spec c n) as [-> |] end; try done;
    split_and!; vm_compute; done || reflexivity.
Qed.

Definition lowered (name : text) : list Z := (fun b => TOKEN (uchar b)) <$> name.

Lemma scan_scanned l t x :
  scanned t x -> ~ codes TRANSFER_ENCODING `prefix_of` t ++ lowered l ->
  exists y, field_scan l x = Some y /\ scanned (t ++ lowered l) y.
Proof.
  revert t x. induction l as [| b l IH]; intros t x Hx Hte; [exists x; by rewrite app_nil_r |].
  assert (t ++ lowered (b :: l) = (t ++ [TOKEN (uchar b)]) ++ lowered l) as Heq by (by rewrite <- app_assoc).
  rewrite Heq in Hte. rewrite Heq.
  destruct (field_scanned t x (TOKEN (uchar b)) Hx) as (y & Hy & Hs).
  { intros Hc. apply Hte. rewrite Hc. by eexists. }
  cbn [field_scan]. rewrite Hy. by apply IH.
Qed.

(** A name without a meaning, in capital or in small letters. *)
Lemma plain_name_spec name :
  name <> [] -> forallb token name = true -> ~ codes TRANSFER_ENCODING `prefix_of` lowered name ->
  lowered name ∉ codes <$> [CONNECTION; PROXY_CONNECTION; CONTENT_LENGTH; UPGRADE] ->
  plain_name name = true.
Proof.
  intros Hne Ht Hte Hin. unfold plain_name. rewrite Ht. destruct name as [| b l]; [done |]. cbn [name_scan andb].
  destruct (scan_scanned l [TOKEN (uchar b)] (field_first (TOKEN (uchar b)), 0)) as ([hs idx] & -> & Hs);
    [apply first_scanned | done |]. change ([TOKEN (uchar b)] ++ lowered l) with (lowered (b :: l)) in Hs.
  destruct hs; cbn [scanned] in Hs; try done; exfalso; apply Hin; cbn [fmap list_fmap];
    try destruct Hs as [Hs | Hs]; rewrite Hs; set_solver.
Qed.

(** ** Numbers *)

Definition number (cl : Z) (ds : text) : Z := fold_left (fun a b => a * 10 + (uchar b - 48)) ds cl.
Definition digits (ds : text) : bool := forallb (fun b => IS_NUM (uchar b)) ds.

Lemma number_grows ds cl : digits ds = true -> 0 <= cl -> cl <= number cl ds.
Proof.
  revert cl. induction ds as [| b ds IH]; intros cl; simpl; [lia |]. intros [Hb Hd]%andb_prop Hcl.
  unfold IS_NUM in Hb. boolify. unfold number. simpl. etransitivity; [| apply IH; [done | lia]]. lia.
Qed.

Lemma value_scan_digits ds idx cl :
  digits ds = true -> 0 <= cl -> number cl ds < 2 ^ 32 ->
  value_scan ds (h_content_length_num, idx, cl) = Some (h_content_length_num, idx, number cl ds).
Proof.
  revert cl. induction ds as [| b ds IH]; intros cl; [done |]. cbn [digits forallb].
  intros [Hb Hd]%andb_prop Hcl Hn. pose proof Hb as Hb'. unfold IS_NUM in Hb'. boolify.
  unfold number in Hn. simpl in Hn. fold (number (cl * 10 + (uchar b - 48)) ds) in Hn.
  pose proof (number_grows ds (cl * 10 + (uchar b - 48)) Hd ltac:(lia)).
  cbn [value_scan value_next]. rewrite Hb. change ((ULLONG_MAX - 10) / 10) with 1844674407370955160.
  rewrite (proj2 (Z.leb_le cl _)) by lia. simpl.
  rewrite (u64_small (cl * 10)), u64_small by lia. apply IH; done || lia.
Qed.

Lemma pretty_N_char_ok x :
  (x < 10)%N -> uchar (byte_of_ascii (pretty_N_char x)) = 48 + Z.of_N x.
Proof.
  intros Hx. assert (x ∈ [0; 1; 2; 3; 4; 5; 6; 7; 8; 9]%N) as Hin.
  { rewrite !elem_of_cons. lia. }
  by repeat (apply elem_of_cons in Hin as [-> | Hin]; [done |]); apply elem_of_nil in Hin.
Qed.

Lemma pretty_digits x s :
  exists ds, bytes (pretty_N_go x s) = ds ++ bytes s /\ digits ds = true /\ number 0 ds = Z.of_N x /\
    ((0 < x)%N -> ds <> []).
Proof.
  revert s. induction (N.lt_wf_0 x) as [x _ IH]; intros s.
  destruct (decide (x = 0)%N) as [-> | Hx]; [by exists [] |].
  rewrite pretty_N_go_step by lia.
  destruct (IH (x / 10)%N ltac:(apply N.div_lt; lia) (String (pretty_N_char (x mod 10)) s)) as (ds & Hb & Hd & Hn & _).
  pose proof (pretty_N_char_ok (x mod 10) ltac:(apply N.mod_lt; lia)) as Hc.
  pose proof (N.mod_lt x 10 ltac:(lia)). pose proof (N.div_mod x 10 ltac:(lia)).
  exists (ds ++ [byte_of_ascii (pretty_N_char (x mod 10))]). split_and!.
  - rewrite Hb, <- app_assoc. done.
  - unfold digits in *. rewrite forallb_app, Hd. simpl. rewrite Hc. unfold IS_NUM.
    generalize dependent (x mod 10)%N. intros m; intros. rewrite andb_true_r. apply andb_true_intro.
    split; apply Z.leb_le; lia.
  - unfold number in *. rewrite fold_left_app, Hn. simpl. rewrite Hc. lia.
  - intros _. by destruct ds.
Qed.

Lemma decimal_digits n :
  0 < n -> digits (decimal n) = true /\ number 0 (decimal n) = n /\ decimal n <> [].
Proof.
  intros Hn. destruct n as [| p |]; [lia | | lia]. unfold decimal.
  change (pretty (Z.pos p)) with (pretty (N.pos p)). unfold pretty, pretty_N. rewrite decide_False by done.
  destruct (pretty_digits (N.pos p) "") as (ds & -> & Hd & Hv & Hne). simpl. rewrite app_nil_r.
  split_and!; [done | done | by apply Hne].
Qed.
End parts.


(** ** With the limit of the program *)

Abbreviation mx := max_header_size_init.
Lemma mx_ok : 0 < mx < 2 ^ 31.
Proof. by vm_compute. Qed.
(** The headers that frame a message. *)
Definition connection_header (close : bool) : text * text :=
  (bytes "Connection", if close then bytes "close" else bytes "Keep-Alive").
Definition length_header (n : Z) : list (text * text) :=
  if 0 <? n then [(bytes "Content-length", decimal n)] else [].
Definition connection_flag (close : bool) : Z := if close then F_CONNECTION_CLOSE else F_CONNECTION_KEEP_ALIVE.

Lemma reads_connection w n cl p close u :
  at_line w 0 n cl p -> 0 <= n -> n + Z.of_nat (length (header_line (connection_header close))) <= mx ->
  exists p', reads mx (header_line (connection_header close)) p u p' (u ++ header_events (connection_header close)) /\
    at_line w (connection_flag close) (n + Z.of_nat (length (header_line (connection_header close)))) cl p'.
Proof.
  intros Hp Hn Hle.
  destruct close; (eapply (reads_special mx_ok w 0 n cl p); [done.. | | | | | done | done]); vm_compute; reflexivity.
Qed.

Lemma digits_value ds :
  digits ds = true -> ds <> [] -> value_ok ds = true.
Proof.
  intros Hd Hne. assert (forallb value_byte ds = true) as Hv.
  { apply forallb_forall. intros b Hb. unfold digits in Hd. rewrite forallb_forall in Hd. specialize (Hd b Hb).
    unfold IS_NUM in Hd. boolify. unfold value_byte, IS_HEADER_CHAR, CR, LF, TAB.
    repeat (apply andb_true_intro; split); boolify; lia. }
  destruct ds as [| b ds]; [done |]. unfold value_ok. rewrite Hv. cbn [digits forallb] in Hd.
  unfold IS_NUM in Hd. boolify. unfold TAB. repeat (apply andb_true_intro; split); boolify; try done; lia.
Qed.

Lemma digits_scan ds F cl :
  digits ds = true -> ds <> [] -> number 0 ds < 2 ^ 32 -> Z.land F F_CONTENTLENGTH = 0 ->
  text_scan ds h_content_length F cl =
  Some (h_content_length_num, 0, Z.lor F F_CONTENTLENGTH, number 0 ds).
Proof.
  intros Hd Hne Hn HF. destruct ds as [| b ds]; [done |]. cbn [digits forallb] in Hd. boolify.
  cbn [text_scan value_first]. rewrite HF. match goal with H : IS_NUM _ = true |- _ => rewrite H end.
  cbn [andb Z.eqb mbind option_bind]. unfold IS_NUM in *. boolify.
  rewrite value_scan_digits; try done; lia.
Qed.

Lemma reads_length w n cl p close len u :
  at_line w (connection_flag close) n cl p -> 0 < len < 2 ^ 32 -> 0 <= n ->
  n + Z.of_nat (length (header_line (bytes "Content-length", decimal len))) <= mx ->
  exists p', reads mx (header_line (bytes "Content-length", decimal len)) p u p'
      (u ++ header_events (bytes "Content-length", decimal len)) /\
    at_line w (reply_flags close true) (n + Z.of_nat (length (header_line (bytes "Content-length", decimal len)))) len p'.
Proof.
  intros Hp Hlen Hn Hle. destruct (decimal_digits len ltac:(lia)) as (Hd & Hv & Hne).
  eapply (reads_special mx_ok w (connection_flag close) n cl p); cbn [fst snd]; [done | done | | | | | done | done].
  - by apply digits_value.
  - vm_compute. reflexivity.
  - rewrite <- Hv at 2. apply digits_scan; [done | done | lia | by destruct close].
  - by destruct close.
Qed.

Lemma reads_body_eof w hs idx F n cl l u :
  reads mx l (head_parser w s_body_identity_eof hs idx F n cl) u
    (head_parser w s_body_identity_eof hs idx F n cl) (u ++ sent for_body l).
Proof.
  revert u. induction l as [| b l IH]; intros u; [rewrite app_nil_r; apply reads_nil |].
  eapply reads_cons; [apply one_body_eof |].
  change (sent for_body (b :: l)) with (sent for_body [b] ++ sent for_body l).
  rewrite app_assoc. apply IH.
Qed.

Lemma sent_no_event FOR l e : inl e ∉ sent FOR l.
Proof. unfold sent. rewrite list_elem_of_fmap. by intros (b & [=] & _). Qed.
