(* ===== verification/HttpRequestTheorems.v ===== *)
(** * HttpRequestTheorems: requests are read as they were written

    A request of version 1.1 is a method, a URL, headers and a body; the parser for requests
    is told what the headers say of the framing. *)

From S2P Require Import Prelude.
From S2P Require Import HttpTables.
From S2P Require Import HttpUrl.
From S2P Require Import HttpParser.
From S2P Require Import HttpMonad.
From S2P Require Import HttpExec.
From S2P Require Import HttpWp.
From S2P Require Import HttpInvariant.
From S2P Require Import HttpSafety.
From S2P Require Import HttpStream.
From S2P Require Import HttpLockstep.
From S2P Require Import HttpSplit.
From S2P Require Import HttpChunking.
From S2P Require Import Cpp.
From S2P Require Import HttpServer.
From S2P Require Import HttpServerTheorems.
From S2P Require Import HttpChunkingTheorems.
From S2P Require Import HttpRead.
From S2P Require Import HttpReadRequest.
From S2P Require Import HttpReadLines.
From stdpp Require Import gmap list.
Local Open Scope Z_scope.

(** ** The first line *)

(** Between two requests. *)
Definition idle_req (p : http_parser) : Prop :=
  p = http_parser_init HTTP_REQUEST \/
  exists me hs idx F cl, p = head_parser (request_line me) s_start_req hs idx F 0 cl.

Definition method_text (me : http_method) : text := bytes (method_string me) ++ bytes " ".

Lemma reads_method me p u :
  idle_req p ->
  exists ma mi hs idx, reads mx (method_text me) p u
    (line_parser ma mi (request_line me) s_req_spaces_before_url hs idx (Z.of_nat (length (method_text me))))
    (u ++ [inl for_message_begin]).
Proof.
  unfold reads. intros [-> | (me0 & hs & idx & F & cl & ->)]; [exists 0, 0, h_general | exists 1, 1, hs];
    destruct me; eexists; vm_compute; reflexivity.
Qed.

(** The states that [parse_url_char] goes through. *)
Definition url_scan (l : text) (st : state) : state := fold_left (fun st b => parse_url_char st (uchar b)) l st.

Lemma parse_url_char_dead c : parse_url_char s_dead c = s_dead.
Proof. unfold parse_url_char. by repeat case_match. Qed.
Lemma url_scan_dead l : url_scan l s_dead = s_dead.
Proof. induction l as [| b l IH]; [done |]. simpl. by rewrite parse_url_char_dead. Qed.
Lemma url_scan_alive l st : url_end (url_scan l st) = true -> st <> s_dead.
Proof. intros H ->. by rewrite url_scan_dead in H. Qed.
Lemma url_next_char st b : parse_url_char st (uchar b) <> s_dead -> url_char b = true.
Proof.
  unfold parse_url_char, url_char. change (" "%ch) with 32.
  destruct (uchar b =? 32), (uchar b =? CR), (uchar b =? LF); done.
Qed.

Lemma reads_url ma mi w hs idx l st n u :
  url_state st = true -> url_end (url_scan l st) = true -> 0 <= n -> n + Z.of_nat (length l) <= mx ->
  reads mx l (line_parser ma mi w st hs idx n) u
    (line_parser ma mi w (url_scan l st) hs idx (n + Z.of_nat (length l))) (u ++ sent for_url l).
Proof.
  revert st n u. induction l as [| b l IH]; intros st n u Hst Hend Hn Hle.
  { simpl. rewrite Z.add_0_r, app_nil_r. apply reads_nil. }
  simpl length in *. simpl in Hend. pose proof (url_scan_alive _ _ Hend) as Hd.
  destruct (parse_url_char_states st (uchar b)) as [Hs | Hs]; [done |].
  eapply reads_cons; [apply (one_url mx mx_ok); [exact Hst | | reflexivity | done | lia | lia] |].
  - by eapply url_next_char.
  - replace (n + Z.of_nat (S (length l))) with (n + 1 + Z.of_nat (length l)) by lia.
    change (sent for_url (b :: l)) with (sent for_url [b] ++ sent for_url l).
    rewrite app_assoc. apply IH; done || lia.
Qed.

Definition url_ok (url : text) : bool := url_end (url_scan url s_req_spaces_before_url).
Definition version_text : text := bytes " HTTP/1.1" ++ CRLF.

Lemma reads_version ma mi w st hs idx n u :
  url_end st = true -> 0 <= n -> n + Z.of_nat (length version_text) <= mx ->
  reads mx version_text (line_parser ma mi w st hs idx n) u
    (head_parser w s_header_field_start hs idx 0 (n + Z.of_nat (length version_text)) ULLONG_MAX) u.
Proof.
  intros Hst Hn Hle. change (length version_text) with 11%nat in *.
  replace (n + Z.of_nat 11) with (n + 1 + 1 + 1 + 1 + 1 + 1 + 1 + 1 + 1 + 1 + 1) by lia.
  eapply reads_cons; [apply (one_url_space mx mx_ok); [done | lia..] |].
  eapply reads_cons; [apply (one_H mx mx_ok); lia |].
  eapply reads_cons; [apply (one_T mx mx_ok); lia |].
  eapply reads_cons; [apply (one_TT mx mx_ok); lia |].
  eapply reads_cons; [apply (one_P mx mx_ok); lia |].
  eapply reads_cons; [apply (one_slash mx mx_ok); lia |].
  eapply reads_cons; [apply (one_major mx mx_ok); lia |].
  eapply reads_cons; [apply (one_dot mx mx_ok); lia |].
  eapply reads_cons; [apply (one_minor mx mx_ok); lia |].
  eapply reads_cons; [apply (one_line_cr mx mx_ok); lia |].
  apply reads_one, (one_line_lf mx mx_ok); lia.
Qed.

Definition first_line_text (me : http_method) (url : text) : text := method_text me ++ url ++ version_text.

Lemma reads_first_line me url p u :
  idle_req p -> me <> HTTP_CONNECT -> url_ok url = true -> Z.of_nat (length (first_line_text me url)) <= mx ->
  exists p', reads mx (first_line_text me url) p u p' (u ++ [inl for_message_begin] ++ sent for_url url) /\
    at_line (request_line me) 0 (Z.of_nat (length (first_line_text me url))) ULLONG_MAX p'.
Proof.
  intros Hp Hm Hurl Hle. destruct (reads_method me p u Hp) as (ma & mi & hs & idx & Hr).
  destruct url as [| b url]; [done |]. unfold url_ok in Hurl. simpl in Hurl.
  pose proof (url_scan_alive _ _ Hurl) as Hd. pose proof (url_next_char _ _ Hd) as Hb.
  unfold first_line_text in *. rewrite !length_app, !Nat2Z.inj_add in *. simpl length in Hle |- *.
  eexists. split.
  - eapply reads_app; [exact Hr |]. rewrite app_assoc. change (sent for_url (b :: url)) with (sent for_url [b] ++ sent for_url url).
    rewrite app_assoc. eapply reads_cons.
    { apply (one_url_first mx mx_ok); [| done | reflexivity | done | lia | lia].
      unfold url_char in Hb. by boolify. }
    eapply reads_app; [apply reads_url; [| exact Hurl | lia | lia] |].
    { destruct (parse_url_char_states s_req_spaces_before_url (uchar b)); done. }
    apply reads_version; [exact Hurl | lia | change (length version_text) with 11%nat; lia].
  - eexists s_header_field_start, hs, idx, 0. split_and!; [by right | done |].
    f_equal. change (length version_text) with 11%nat. lia.
Qed.

(** ** The headers *)

(** What the headers say of the framing: the two values of [Connection], and the length. *)
Record framing := mk_framing { fr_keep : bool; fr_close : bool; fr_length : option Z }.
Definition fr_flags (f : framing) : Z := request_flags (fr_keep f) (fr_close f) (bool_decide (is_Some (fr_length f))).
Definition fr_cl (f : framing) : Z := default ULLONG_MAX (fr_length f).

Definition small (value : text) : list Z := (fun b => LOWER (uchar b)) <$> value.
Definition connection_name (name : text) : bool := bool_decide (lowered name ∈ codes <$> [CONNECTION; PROXY_CONNECTION]).
Definition length_name (name : text) : bool := bool_decide (lowered name = codes CONTENT_LENGTH).

(** One more header; names and the values of [Connection] in capital or in small letters. *)
Definition frame_header (f : framing) (h : text * text) : option framing :=
  if negb (forallb token h.1 && value_ok h.2) then None else
  if connection_name h.1 then
    if bool_decide (small h.2 = codes CLOSE) then Some (mk_framing (fr_keep f) true (fr_length f)) else
    if bool_decide (small h.2 = codes KEEP_ALIVE) then Some (mk_framing true (fr_close f) (fr_length f)) else None
  else if length_name h.1 then
    match fr_length f with
    | None => if digits h.2 && (number 0 h.2 <? 2 ^ 32)
              then Some (mk_framing (fr_keep f) (fr_close f) (Some (number 0 h.2))) else None
    | Some _ => None
    end
  else if plain_name h.1 then Some f else None.
Definition frame_headers (l : list (text * text)) : option framing :=
  foldl (fun f h => f ≫= fun f => frame_header f h) (Some (mk_framing false false None)) l.

(** The parser looks at small letters only. *)
Lemma name_scan_lowered a b : lowered a = lowered b -> name_scan a = name_scan b.
Proof.
  assert (forall l l' x, lowered l = lowered l' -> field_scan l x = field_scan l' x) as Hscan.
  { induction l as [| c l IH]; intros [| c' l'] x; try done. intros [= Hc Hl]. simpl. rewrite Hc.
    destruct (field_next _ x); simpl; auto. }
  destruct a, b; try done. intros [= Hc Hl]. simpl. rewrite Hc. by apply Hscan.
Qed.

(** The header states of a value of [Connection]. *)
Definition connection_value (hs : header_states) : bool :=
  match hs with
  | h_matching_connection_keep_alive | h_matching_connection_close
  | h_connection_keep_alive | h_connection_close => true
  | _ => false
  end.
Lemma value_scan_small l l' hs idx cl :
  connection_value hs = true -> small l = small l' -> value_scan l (hs, idx, cl) = value_scan l' (hs, idx, cl).
Proof.
  revert l' hs idx. induction l as [| c l IH]; intros [| c' l'] hs idx Hhs; try done. intros [= Hc Hl].
  cbn [value_scan]. destruct hs; try done; cbn [value_next]; rewrite ?Hc; unfold match_next;
    repeat case_match; try done; cbn [mbind option_bind]; by apply IH.
Qed.
Lemma text_scan_small a b F cl :
  small a = small b -> text_scan a h_connection F cl = text_scan b h_connection F cl.
Proof.
  destruct a as [| c a], b as [| c' b]; try done. intros [= Hc Hl]. cbn [text_scan value_first]. rewrite Hc.
  repeat case_match; try done; cbn [mbind option_bind]; by rewrite (value_scan_small a b).
Qed.

Lemma connection_scan name :
  connection_name name = true -> exists idx, name_scan name = Some (h_connection, idx).
Proof.
  unfold connection_name. intros H%bool_decide_eq_true. cbn [fmap list_fmap] in H.
  apply elem_of_cons in H as [H | H]; [| apply list_elem_of_singleton in H].
  - rewrite (name_scan_lowered name (bytes CONNECTION)) by (rewrite H; by vm_compute).
    eexists. vm_compute. reflexivity.
  - rewrite (name_scan_lowered name (bytes PROXY_CONNECTION)) by (rewrite H; by vm_compute).
    eexists. vm_compute. reflexivity.
Qed.

Lemma reads_frame w f h f' n p u :
  frame_header f h = Some f' -> at_line w (fr_flags f) n (fr_cl f) p ->
  0 <= n -> n + Z.of_nat (length (header_line h)) <= mx ->
  exists p', reads mx (header_line h) p u p' (u ++ header_events h) /\
    at_line w (fr_flags f') (n + Z.of_nat (length (header_line h))) (fr_cl f') p'.
Proof.
  destruct h as [name value], f as [keep close len]. unfold frame_header. cbn [fst snd fr_keep fr_close fr_length].
  intros Hf Hp Hn Hle.
  destruct (forallb token name) eqn:Hname; [| done]. destruct (value_ok value) eqn:Hvalue; [| done]. cbn [andb negb] in Hf.
  destruct (connection_name name) eqn:Hcn; [| destruct (length_name name) eqn:Hln; [destruct len as [m |]; [done |] |]].
  - destruct (connection_scan name Hcn) as (idx & Hscan). case_bool_decide as Hv; [| case_bool_decide as Hv'; [| done]];
      injection Hf as <-.
    + eapply (reads_special mx_ok w _ n _ p (name, value)); [done | done | done | exact Hscan | | | done | done].
      * cbn [snd]. rewrite (text_scan_small _ (bytes CLOSE)) by (rewrite Hv; by vm_compute). vm_compute. reflexivity.
      * by destruct keep, close, len.
    + eapply (reads_special mx_ok w _ n _ p (name, value)); [done | done | done | exact Hscan | | | done | done].
      * cbn [snd]. rewrite (text_scan_small _ (bytes KEEP_ALIVE)) by (rewrite Hv'; by vm_compute). vm_compute. reflexivity.
      * by destruct keep, close, len.
  - destruct (digits value && _) eqn:Hd; [| done]. boolify. injection Hf as <-.
    eapply (reads_special mx_ok w _ n _ p (name, value)); [done | done | done | | | | done | done].
    + cbn [fst]. unfold length_name in Hln. apply bool_decide_eq_true in Hln.
      rewrite (name_scan_lowered _ (bytes CONTENT_LENGTH)) by (rewrite Hln; by vm_compute). vm_compute. reflexivity.
    + cbn [snd]. apply digits_scan; [done | by intros -> | done | by destruct keep, close].
    + by destruct keep, close.
  - destruct (plain_name name) eqn:Hplain; [| done]. injection Hf as <-.
    apply (reads_header mx_ok); [done | | done | done]. unfold header_ok. cbn [fst snd]. by rewrite Hplain.
Qed.

Lemma frame_none l : foldl (fun f h => f ≫= fun f => frame_header f h) None l = None.
Proof. by induction l. Qed.

Lemma reads_framing w l f f' n p u :
  foldl (fun f h => f ≫= fun f => frame_header f h) (Some f) l = Some f' -> at_line w (fr_flags f) n (fr_cl f) p ->
  0 <= n -> n + Z.of_nat (length (concat (header_line <$> l))) <= mx ->
  exists p', reads mx (concat (header_line <$> l)) p u p' (u ++ concat (header_events <$> l)) /\
    at_line w (fr_flags f') (n + Z.of_nat (length (concat (header_line <$> l)))) (fr_cl f') p'.
Proof.
  revert f n p u. induction l as [| h l IH]; intros f n p u Hf Hp Hn.
  { intros _. injection Hf as <-. exists p. rewrite app_nil_r, Z.add_0_r. done. }
  cbn [fmap list_fmap concat foldl mbind option_bind] in *. rewrite !length_app, !Nat2Z.inj_add. intros Hle.
  destruct (frame_header f h) as [f1 |] eqn:H1; [| by rewrite frame_none in Hf].
  destruct (reads_frame w f h f1 n p u H1 Hp) as (p1 & Hr1 & Hp1); [done | lia |].
  destruct (IH f1 (n + Z.of_nat (length (header_line h))) p1 (u ++ header_events h) Hf Hp1) as (p2 & Hr2 & Hp2);
    [lia | lia |].
  exists p2. rewrite app_assoc, Z.add_assoc. split; [by eapply reads_app | done].
Qed.

Lemma frame_header_length f h f' :
  frame_header f h = Some f' -> 0 <= default 0 (fr_length f) < 2 ^ 32 -> 0 <= default 0 (fr_length f') < 2 ^ 32.
Proof.
  unfold frame_header. intros Hf Hlen. repeat case_match; try done; injection Hf as <-; try done; cbn [fr_length default].
  boolify. split; [by apply number_grows | done].
Qed.
Lemma frame_headers_length l f f' :
  foldl (fun f h => f ≫= fun f => frame_header f h) (Some f) l = Some f' ->
  0 <= default 0 (fr_length f) < 2 ^ 32 -> 0 <= default 0 (fr_length f') < 2 ^ 32.
Proof.
  revert f. induction l as [| h l IH]; intros f; [by intros [= <-] |]. cbn [foldl mbind option_bind].
  destruct (frame_header f h) as [f1 |] eqn:H1; [| by rewrite frame_none].
  intros Hf Hlen. eapply IH; [exact Hf |]. by eapply frame_header_length.
Qed.

(** ** A request *)

Record request := mk_req { rq_method : http_method; rq_url : text; rq_headers : list (text * text); rq_body : text }.
Definition request_head (r : request) : text :=
  first_line_text (rq_method r) (rq_url r) ++ concat (header_line <$> rq_headers r) ++ CRLF.
Definition request_text (r : request) : text := request_head r ++ rq_body r.
Definition request_events (r : request) : list HttpChunkingTheorems.event :=
  [inl for_message_begin] ++ sent for_url (rq_url r) ++ concat (header_events <$> rq_headers r) ++
  sent for_body (rq_body r) ++ [inl for_message_complete].

(** A request that [CONNECT] and the encodings have no part in: the length that is announced
    is that of the body. *)
Definition well_framed (r : request) (f : framing) : Prop :=
  rq_method r <> HTTP_CONNECT /\ url_ok (rq_url r) = true /\
  frame_headers (rq_headers r) = Some f /\ Z.of_nat (length (rq_body r)) = default 0 (fr_length f) /\
  Z.of_nat (length (request_head r)) <= mx.

Lemma reads_body_req me hs idx keep close n l u :
  l <> [] -> Z.of_nat (length l) < ULLONG_MAX ->
  reads mx l (head_parser (request_line me) s_body_identity hs idx (request_flags keep close true) n (Z.of_nat (length l))) u
    (head_parser (request_line me) (request_done close) hs idx (request_flags keep close true) n 0)
    (u ++ sent for_body l ++ [inl for_message_complete]).
Proof.
  revert u. induction l as [| b l IH]; intros u Hne Hlt; [done |].
  destruct l as [| c l].
  - apply reads_one. change (Z.of_nat (length [b])) with 1. apply one_body_last_req.
  - eapply reads_cons; [apply one_body; simpl length in *; lia |].
    replace (Z.of_nat (length (b :: c :: l)) - 1) with (Z.of_nat (length (c :: l))) by (simpl length; lia).
    change (sent for_body (b :: c :: l)) with (sent for_body [b] ++ sent for_body (c :: l)).
    rewrite <- app_assoc, (app_assoc u). apply IH; [done |]. simpl length in *. lia.
Qed.

(** The empty line and the body. *)
Lemma reads_rest me f n p body u :
  me <> HTTP_CONNECT -> at_line (request_line me) (fr_flags f) n (fr_cl f) p -> 0 <= n -> n + 2 <= mx ->
  0 <= default 0 (fr_length f) < 2 ^ 32 -> Z.of_nat (length body) = default 0 (fr_length f) ->
  exists hs idx cl, reads mx (CRLF ++ body) p u
    (head_parser (request_line me) (request_done (fr_close f)) hs idx (fr_flags f) 0 cl)
    (u ++ sent for_body body ++ [inl for_message_complete]).
Proof.
  intros Hm (st & hs & idx & F0 & Hst & HF & ->) Hn Hle Hlen Hbody. exists hs, idx. destruct f as [keep close len].
  unfold fr_flags, fr_cl in *. cbn [fr_keep fr_close fr_length] in *.
  set (sized := bool_decide (is_Some len)) in *.
  assert (reads mx CRLF (head_parser (request_line me) st hs idx F0 n (default ULLONG_MAX len)) u
    (head_parser (request_line me) (end_state (more_body sized (default ULLONG_MAX len)) close) hs idx
      (request_flags keep close sized) 0 (default ULLONG_MAX len)) (u ++ end_events (more_body sized (default ULLONG_MAX len)))) as Hr.
  { eapply reads_cons; [apply (one_end_cr mx mx_ok); done || lia |]. rewrite HF.
    apply reads_one, (one_end_lf_req mx mx_ok); [done | lia | lia |].
    destruct len; simpl in *; unfold ULLONG_MAX; lia. }
  destruct body as [| b body].
  - exists (default ULLONG_MAX len). rewrite app_nil_r.
    assert (more_body sized (default ULLONG_MAX len) = false) as Hmore.
    { destruct len as [len |]; [| done]. simpl in Hbody. by subst len. }
    by rewrite Hmore in Hr.
  - exists 0. destruct len as [len |]; [| done]. cbn [default] in *. unfold id in *.
    assert (more_body sized len = true) as Hmore by (subst len; done).
    rewrite Hmore in Hr. eapply reads_app; [exact Hr |]. cbn [end_events]. rewrite app_nil_r. subst len.
    apply reads_body_req; [done | unfold ULLONG_MAX; lia].
Qed.

Lemma reads_request r f p u :
  well_framed r f -> idle_req p ->
  exists hs idx F cl, reads mx (request_text r) p u
    (head_parser (request_line (rq_method r)) (request_done (fr_close f)) hs idx F 0 cl) (u ++ request_events r).
Proof.
  intros (Hm & Hurl & Hf & Hbody & Hle) Hp. unfold request_text, request_head in *.
  rewrite !length_app, !Nat2Z.inj_add in Hle. change (Z.of_nat (length CRLF)) with 2 in Hle.
  destruct (reads_first_line _ _ p u Hp Hm Hurl) as (p1 & Hr1 & Hp1); [lia |].
  destruct (reads_framing _ _ _ f _ p1 (u ++ [inl for_message_begin] ++ sent for_url (rq_url r)) Hf Hp1)
    as (p2 & Hr2 & Hp2); [lia | lia |].
  destruct (reads_rest _ f _ p2 (rq_body r) ((u ++ [inl for_message_begin] ++ sent for_url (rq_url r)) ++
    concat (header_events <$> rq_headers r)) Hm Hp2) as (hs & idx & cl & Hr3); [lia | lia | | done |].
  { by eapply (frame_headers_length _ _ _ Hf). }
  exists hs, idx, (fr_flags f), cl. pose proof (reads_app _ _ _ _ _ _ _ _ Hr1 (reads_app _ _ _ _ _ _ _ _ Hr2 Hr3)) as Hr.
  unfold request_events. rewrite <- !app_assoc in Hr. rewrite <- !app_assoc. exact Hr.
Qed.

(** Requests of which only the last may ask for the connection to be closed. *)
Lemma reads_requests rs fs p u :
  Forall2 well_framed rs fs -> Forall (fun f => fr_close f = false) (removelast fs) -> idle_req p ->
  exists p', reads mx (concat (request_text <$> rs)) p u p' (u ++ concat (request_events <$> rs)) /\
    (rs <> [] -> hp_state p' = request_done (default false (fr_close <$> last fs))).
Proof.
  intros Hs. revert p u. induction Hs as [| r f rs fs Hr Hs IH]; intros p u Hk Hp.
  { exists p. rewrite app_nil_r. split; [apply reads_nil | done]. }
  destruct (reads_request r f p u Hr Hp) as (hs & idx & F & cl & Hread).
  destruct fs as [| g fs].
  - inversion Hs; subst. eexists. simpl. rewrite !app_nil_r. split; [exact Hread | done].
  - cbn [removelast] in Hk. apply Forall_cons_1 in Hk as [Hkf Hk]. rewrite Hkf in Hread.
    destruct (IH (head_parser (request_line (rq_method r)) s_start_req hs idx F 0 cl) (u ++ request_events r) Hk)
      as (p' & Hr' & Hst); [right; by do 5 eexists |].
    exists p'. split; [| intros _; apply Hst; by inversion Hs].
    cbn [concat fmap list_fmap]. rewrite app_assoc. eapply reads_app; [exact Hread | exact Hr'].
Qed.

(** C16. Requests are read as they were written.  A client writes requests one after the
    other: a method other than [CONNECT], a URL that the URL automaton ends in a server, a
    path, a query or a fragment, headers with the names in capital or in small letters, of
    which at most one is [Content-Length] and [Connection] says [close] or [keep-alive], no
    [Transfer-Encoding] and no [Upgrade], and a body of the announced length.  Only the last
    may say [close].  However the network cuts this stream, the parser reports every
    request: its beginning, every byte of the URL, of every header in its order, and of the
    body, then its end, and nothing else; afterwards it waits for the next request, or is
    dead after a [close]. *)
Theorem requests_read_back rs fs pieces :
  rs <> [] -> Forall2 well_framed rs fs -> Forall (fun f => fr_close f = false) (removelast fs) ->
  Forall piece pieces -> concat pieces = concat (request_text <$> rs) ->
  exists p', feed rec mx pieces (http_parser_init HTTP_REQUEST) [] =
      Some (p', concat (request_events <$> rs)) /\
    hp_state p' = if default false (fr_close <$> last fs) then s_dead else s_start_req.
Proof.
  intros Hne Hs Hk Hp Heq. destruct (reads_requests rs fs (http_parser_init HTTP_REQUEST) [] Hs Hk) as (p' & Hr & Hst);
    [by left |].
  exists p'. split; [| by apply Hst]. rewrite <- Heq in Hr.
  apply (feed_reads mx_ok); [apply init_ready | done | done | done | exact Hr].
Qed.

(** A form that is posted, and a request that closes the connection, cut in three. *)
Definition form_request : request :=
  mk_req HTTP_POST (bytes "/login.html?from=home#top")
    [(bytes "Host", bytes "localhost:8080"); (bytes "content-LENGTH", bytes "12"); (bytes "Connection", bytes "Keep-alive")]
    (bytes "username=tom").
Definition last_request : request :=
  mk_req HTTP_GET (bytes "http://localhost/") [(bytes "connection", bytes "CLOSE")] [].
Definition request_stream : text := request_text form_request ++ request_text last_request.

Lemma form_request_framed : well_framed form_request (mk_framing true false (Some 12)).
Proof. split_and!; [done | vm_compute; reflexivity.. | vm_compute; discriminate]. Qed.
Lemma last_request_framed : well_framed last_request (mk_framing false true None).
Proof. split_and!; [done | vm_compute; reflexivity.. | vm_compute; discriminate]. Qed.

Lemma requests_read_back_witness :
  exists p', feed rec mx [take 7 request_stream; take 100 (drop 7 request_stream); drop 107 request_stream]
      (http_parser_init HTTP_REQUEST) [] =
      Some (p', request_events form_request ++ request_events last_request ++ []) /\ hp_state p' = s_dead.
Proof.
  apply (requests_read_back [form_request; last_request] [mk_framing true false (Some 12); mk_framing false true None]).
  - done.
  - constructor; [apply form_request_framed | constructor; [apply last_request_framed | constructor]].
  - constructor; [reflexivity | constructor].
  - repeat (constructor; [split; [vm_compute; discriminate | vm_compute; reflexivity] |]). constructor.
  - vm_compute. reflexivity.
Defined.
