(* ===== verification/HttpReplyTheorems.v ===== *)
(** * HttpReplyTheorems: responses are what the client reads

    The responses of [HttpServer] are read back by a parser for responses as they were
    meant, and a response without a length is not. *)

From S2P Require Import Prelude.
From S2P Require Import HttpTables.
From S2P Require Import HttpUrl.
From S2P Require Import HttpParser.
From S2P Require Import HttpMonad.
From S2P Require Import HttpExec.
From S2P Require Import HttpWp.
From S2P Require Import HttpInvariant.
From S2P Require Import HttpSafety.
From S2P Require Import HttpStream.
From S2P Require Import HttpLockstep.
From S2P Require Import HttpSplit.
From S2P Require Import HttpChunking.
From S2P Require Import Cpp.
From S2P Require Import Buffer.
From S2P Require Import TcpConnection.
From S2P Require Import HttpServer.
From S2P Require Import HttpServerTheorems.
From S2P Require Import HttpChunkingTheorems.
From S2P Require Import HttpRead.
From S2P Require Import HttpReadLines.
From stdpp Require Import gmap list pretty.
Local Open Scope Z_scope.

Abbreviation mx := max_header_size_init.
Definition status_line (code : Z) (reason : text) : text :=
  bytes "HTTP/1.1 " ++ decimal code ++ bytes " " ++ reason ++ CRLF.

(** Between two responses. *)
Definition idle (p : http_parser) : Prop :=
  p = http_parser_init HTTP_RESPONSE \/
  exists sc hs idx F cl, p = head_parser (response_line sc) s_start_res hs idx F 0 cl.

Lemma reads_status code reason p u :
  idle p -> In (code, reason) CodeStatus ->
  exists p', reads mx (status_line code reason) p u p' (u ++ [inl for_message_begin] ++ sent for_status reason) /\
    at_line (response_line code) 0 (Z.of_nat (length (status_line code reason))) ULLONG_MAX p'.
Proof.
  intros Hp Hin.
  assert (exists hs idx, reads mx (status_line code reason) p u
      (head_parser (response_line code) s_header_field_start hs idx 0 (Z.of_nat (length (status_line code reason))) ULLONG_MAX)
      (u ++ [inl for_message_begin] ++ sent for_status reason)) as (hs & idx & Hr).
  { unfold reads. destruct Hp as [-> | (sc & hs & idx & F & cl & ->)]; [exists h_general, 0 | exists hs, 0];
      (destruct Hin as [[= <- <-] | [[= <- <-] | [[= <- <-] | [[= <- <-] | []]]]]; vm_compute;
       fold (@app (notify_for + data_for * Byte.byte)); rewrite <- !app_assoc; reflexivity). }
  eexists. split; [exact Hr |]. eexists _, _, _, _. split_and!; [by right | done | done].
Qed.

(** ** The headers of a response *)

Definition type_header (type : text) : list (text * text) :=
  match type with [] => [] | _ => [(bytes "Content-type", type)] end.
Definition all_headers (items : list (text * text)) (r : HttpResponse) : list (text * text) :=
  items ++ [connection_header (close_connection_ r)] ++ type_header (content_type_ r) ++
  length_header (content_len_ r).

Lemma head_lines items r head :
  response_head items r = Ok head ->
  exists reason, In (code_ r, reason) CodeStatus /\
    head = status_line (code_ r) reason ++ concat (header_line <$> all_headers items r) ++ CRLF.
Proof.
  unfold response_head. destruct (List.find _ CodeStatus) as [[code reason] |] eqn:Hf; [| done].
  apply find_some in Hf as [Hin Hc]. apply Z.eqb_eq in Hc. simpl in Hc. subst code. intros [= <-].
  exists reason. split; [done |]. unfold status_line, all_headers. rewrite !fmap_app, !concat_app.
  rewrite <- !app_assoc. cbn [snd]. do 6 f_equal. unfold connection_header, type_header, length_header.
  destruct (close_connection_ r), (content_type_ r), (0 <? content_len_ r); simpl;
    unfold header_line; simpl; rewrite ?app_nil_r, <- ?app_assoc; reflexivity.
Qed.

(** What the application has filled in. *)
Definition reply_ok (items : list (text * text)) (r : HttpResponse) : bool :=
  forallb header_ok items && (value_ok (content_type_ r) || bool_decide (content_type_ r = [])) &&
  (0 <=? content_len_ r) && (content_len_ r <? 2 ^ 32).

(** The headers of a response as the client sees them. *)
Definition reason (code : Z) : text :=
  match List.find (fun e => code =? e.1) CodeStatus with Some e => e.2 | None => [] end.
Definition head_events (items : list (text * text)) (r : HttpResponse) : list event :=
  [inl for_message_begin] ++ sent for_status (reason (code_ r)) ++
  concat (header_events <$> all_headers items r).

Lemma reason_spec code text : In (code, text) CodeStatus -> reason code = text.
Proof. by intros [[= <- <-] | [[= <- <-] | [[= <- <-] | [[= <- <-] | []]]]]. Qed.
Lemma code_status code text : In (code, text) CodeStatus -> reply_code code.
Proof. unfold reply_code. by intros [[= <- <-] | [[= <- <-] | [[= <- <-] | [[= <- <-] | []]]]]; set_solver. Qed.

Lemma reads_type sc F n cl p type u :
  at_line sc F n cl p -> value_ok type || bool_decide (type = []) = true -> 0 <= n ->
  n + Z.of_nat (length (concat (header_line <$> type_header type))) <= mx ->
  exists p', reads mx (concat (header_line <$> type_header type)) p u p'
      (u ++ concat (header_events <$> type_header type)) /\
    at_line sc F (n + Z.of_nat (length (concat (header_line <$> type_header type)))) cl p'.
Proof.
  intros Hp Ht Hn Hle. apply (reads_headers mx_ok); try done. destruct type as [| b type]; [done |].
  rewrite orb_false_r in Ht. cbn [type_header forallb]. unfold header_ok. cbn [fst snd]. by rewrite Ht.
Qed.

Lemma reads_end sc n cl p close (sized : bool) u :
  at_line (response_line sc) (reply_flags close sized) n cl p -> reply_code sc -> 0 <= n -> n + 2 <= mx ->
  (if sized then 0 < cl < ULLONG_MAX else cl = ULLONG_MAX) ->
  exists hs idx, reads mx CRLF p u
    (head_parser (response_line sc) (if sized then s_body_identity else s_body_identity_eof) hs idx (reply_flags close sized) 0 cl) u.
Proof.
  intros (st & hs & idx & F0 & Hst & HF & ->) Hsc Hn Hle Hcl. exists hs, idx.
  eapply reads_cons; [apply (one_end_cr mx mx_ok); done || lia |].
  apply reads_one. rewrite HF. apply (one_end_lf mx mx_ok); done || lia.
Qed.

(** The length, if there is one, and the end of the headers. *)
Lemma reads_last sc n p close len u :
  at_line (response_line sc) (connection_flag close) n ULLONG_MAX p -> reply_code sc -> 0 <= len < 2 ^ 32 -> 0 <= n ->
  n + Z.of_nat (length (concat (header_line <$> length_header len))) + 2 <= mx ->
  exists hs idx, reads mx (concat (header_line <$> length_header len) ++ CRLF) p u
    (head_parser (response_line sc) (if 0 <? len then s_body_identity else s_body_identity_eof) hs idx
       (reply_flags close (0 <? len)) 0 (if 0 <? len then len else ULLONG_MAX))
    (u ++ concat (header_events <$> length_header len)).
Proof.
  intros Hp Hsc Hlen Hn Hle. unfold length_header in *. destruct (Z.ltb_spec 0 len).
  - cbn [fmap list_fmap concat] in *. rewrite app_nil_r in *.
    destruct (reads_length (response_line sc) _ _ p close len u Hp) as (p1 & Hr1 & Hp1); [lia | lia | lia |].
    destruct (reads_end sc _ _ p1 close true (u ++ header_events (bytes "Content-length", decimal len)) Hp1)
      as (hs & idx & Hr2); [done | lia | lia | unfold ULLONG_MAX; lia |].
    exists hs, idx. rewrite app_nil_r. by eapply reads_app.
  - cbn [fmap list_fmap concat length] in *. rewrite app_nil_r.
    apply (reads_end sc n ULLONG_MAX p close false u); try done; [| lia].
    unfold reply_flags. by rewrite Z.lor_0_r.
Qed.

Lemma reads_head items r head p u :
  idle p -> response_head items r = Ok head -> reply_ok items r = true -> Z.of_nat (length head) <= mx ->
  exists hs idx, reads mx head p u
    (head_parser (response_line (code_ r)) (if 0 <? content_len_ r then s_body_identity else s_body_identity_eof) hs idx
       (reply_flags (close_connection_ r) (0 <? content_len_ r)) 0
       (if 0 <? content_len_ r then content_len_ r else ULLONG_MAX)) (u ++ head_events items r).
Proof.
  intros Hp Hhead Hok Hle. apply head_lines in Hhead as (text & Hin & ->).
  unfold reply_ok in Hok. boolify. pose proof (code_status _ _ Hin) as Hsc.
  unfold head_events. rewrite (reason_spec _ _ Hin). unfold all_headers in *.
  rewrite ?fmap_app, ?concat_app in *. cbn [fmap list_fmap concat] in *. rewrite ?app_nil_r in *.
  rewrite !length_app, !Nat2Z.inj_add in Hle. change (Z.of_nat (length CRLF)) with 2 in Hle.
  destruct (reads_status (code_ r) text p u Hp Hin) as (p1 & Hr1 & Hp1).
  destruct (reads_headers mx_ok (response_line (code_ r)) 0 ULLONG_MAX items _ p1 (u ++ [inl for_message_begin] ++ sent for_status text)
    Hp1) as (p2 & Hr2 & Hp2); [done | lia | lia |].
  match type of Hr2 with reads _ _ _ _ _ ?v =>
    destruct (reads_connection (response_line (code_ r)) _ _ p2 (close_connection_ r) v Hp2) as (p3 & Hr3 & Hp3); [lia | lia |] end.
  match type of Hr3 with reads _ _ _ _ _ ?v =>
    destruct (reads_type (response_line (code_ r)) _ _ _ p3 (content_type_ r) v Hp3) as (p4 & Hr4 & Hp4); [done | lia | lia |] end.
  match type of Hr4 with reads _ _ _ _ _ ?v =>
    destruct (reads_last (code_ r) _ p4 (close_connection_ r) (content_len_ r) v Hp4) as (hs & idx & Hr5);
      [done | lia | lia | lia |] end.
  exists hs, idx. pose proof (reads_app _ _ _ _ _ _ _ _ Hr1 (reads_app _ _ _ _ _ _ _ _ Hr2
    (reads_app _ _ _ _ _ _ _ _ Hr3 (reads_app _ _ _ _ _ _ _ _ Hr4 Hr5)))) as Hr.
  rewrite <- !app_assoc in Hr. rewrite <- !app_assoc. exact Hr.
Qed.

(** ** The body *)

Lemma reads_body sc hs idx close n l u :
  reply_code sc -> l <> [] -> Z.of_nat (length l) < ULLONG_MAX ->
  reads mx l (head_parser (response_line sc) s_body_identity hs idx (reply_flags close true) n (Z.of_nat (length l))) u
    (head_parser (response_line sc) (reply_done close) hs idx (reply_flags close true) n 0)
    (u ++ sent for_body l ++ [inl for_message_complete]).
Proof.
  intros Hsc. revert u. induction l as [| b l IH]; intros u Hne Hlt; [done |].
  destruct l as [| c l].
  - apply reads_one. change (Z.of_nat (length [b])) with 1. by apply one_body_last.
  - eapply reads_cons; [apply one_body; simpl length in *; lia |].
    replace (Z.of_nat (length (b :: c :: l)) - 1) with (Z.of_nat (length (c :: l))) by (simpl length; lia).
    change (sent for_body (b :: c :: l)) with (sent for_body [b] ++ sent for_body (c :: l)).
    rewrite <- app_assoc, (app_assoc u). apply IH; [done |]. simpl length in *. lia.
Qed.

(** ** Whole responses *)

(** What [on_request] hands to the connection. *)
Definition response_bytes (items : list (text * text)) (r : HttpResponse) : Cpp.outcome text :=
  b ← Buffer_init InitialSize;
  b ← make_buffer items r b;
  mret (contents b).

(** A response that the server can send: its headers are well formed and not too long. *)
Record sendable (items : list (text * text)) (r : HttpResponse) (head : text) : Prop := {
  sd_head : response_head items r = Ok head;
  sd_size : Z.of_nat (length head) <= mx;
  sd_ok : reply_ok items r = true;
  sd_body : buffer_ok (resp_body_ r)
}.

Lemma sendable_sized items r head : sendable items r head -> known (code_ r) = true /\ sized items r.
Proof.
  intros [Hhead Hsize Hok _]. destruct (head_lines _ _ _ Hhead) as (text & Hin & ->).
  unfold reply_ok in Hok. boolify. split; [by destruct Hin as [[= <- _] | [[= <- _] | [[= <- _] | [[= <- _] | []]]]] |].
  assert (mx <= max_size) as Hmx by (vm_compute; discriminate).
  assert (forall item, item ∈ all_headers items r -> vsize (header_line item) <= max_size) as Hall.
  { intros item [k Hk]%list_elem_of_lookup. etransitivity; [| exact Hmx]. etransitivity; [| exact Hsize].
    rewrite <- (take_drop_middle _ _ _ Hk), fmap_app, fmap_cons, concat_app. unfold vsize. simpl.
    rewrite !length_app. lia. }
  unfold all_headers in Hall. split_and!; [| | done | done].
  - apply Forall_forall. intros item Hitem. apply Hall. set_solver.
  - destruct (content_type_ r) as [| c type] eqn:Ht; [by vm_compute |].
    apply (Hall (bytes "Content-type", c :: type)). set_solver.
Qed.

Lemma sendable_bytes items r head :
  sendable items r head -> Cpp.wp (response_bytes items r) (fun t => t = head ++ contents (resp_body_ r)).
Proof.
  intros Hs. destruct (sendable_sized _ _ _ Hs) as [Hk Hsz]. destruct Hs as [Hhead _ _ Hbody].
  unfold response_bytes. destruct (Buffer_init_ok InitialSize) as (b & -> & Hb & Hc); [done |].
  destruct (make_buffer_ok items r b Hb Hbody Hk Hsz) as (head' & Hhead' & Hw).
  rewrite Hhead in Hhead'. injection Hhead' as <-. simpl. apply after_bind.
  eapply after_mono; [exact Hw |]. intros b' (_ & Hc'). simpl. by rewrite Hc', Hc.
Qed.

(** A response and the body that is sent after it by [on_send_progressively]. *)
Record reply := mk_reply { rp_items : list (text * text); rp_response : HttpResponse; rp_more : text }.
Definition rp_body (x : reply) : text := contents (resp_body_ (rp_response x)) ++ rp_more x.
Definition rp_close (x : reply) : bool := close_connection_ (rp_response x).
Definition reply_events (x : reply) : list event :=
  head_events (rp_items x) (rp_response x) ++ sent for_body (rp_body x) ++ [inl for_message_complete].
(** [t] is all that the server sends for [x]. *)
Definition sends (x : reply) (t : text) : Prop :=
  exists head b, sendable (rp_items x) (rp_response x) head /\
    response_bytes (rp_items x) (rp_response x) = Ok b /\ t = b ++ rp_more x.
(** The length that is announced is that of the body. *)
Definition framed (x : reply) : Prop :=
  0 < content_len_ (rp_response x) /\ content_len_ (rp_response x) = Z.of_nat (length (rp_body x)).

Lemma sends_head x t p u :
  sends x t -> idle p ->
  exists head hs idx, t = head ++ rp_body x /\ reads mx head p u
    (head_parser (response_line (code_ (rp_response x))) (if 0 <? content_len_ (rp_response x) then s_body_identity else s_body_identity_eof)
       hs idx (reply_flags (rp_close x) (0 <? content_len_ (rp_response x))) 0
       (if 0 <? content_len_ (rp_response x) then content_len_ (rp_response x) else ULLONG_MAX))
    (u ++ head_events (rp_items x) (rp_response x)).
Proof.
  intros (head & b & Hs & Hb & ->) Hp. pose proof (sendable_bytes _ _ _ Hs) as Hw. rewrite Hb in Hw.
  simpl in Hw. subst b. destruct Hs as [Hhead Hsize Hok _].
  destruct (reads_head _ _ _ p u Hp Hhead Hok Hsize) as (hs & idx & Hr).
  exists head, hs, idx. split; [by rewrite <- app_assoc | exact Hr].
Qed.

Lemma reads_reply x t p u :
  sends x t -> framed x -> idle p ->
  exists sc hs idx F, reads mx t p u (head_parser (response_line sc) (reply_done (rp_close x)) hs idx F 0 0) (u ++ reply_events x).
Proof.
  intros Hs [Hpos Hlen] Hp. assert (reply_code (code_ (rp_response x))) as Hsc.
  { destruct Hs as (head & b & [Hhead _ _ _] & _). apply head_lines in Hhead as (text & Hin & _).
    by eapply code_status. }
  assert (content_len_ (rp_response x) < 2 ^ 32) as Hmax.
  { destruct Hs as (head & b & [_ _ Hok _] & _). unfold reply_ok in Hok. by boolify. }
  destruct (sends_head x t p u Hs Hp) as (head & hs & idx & -> & Hr).
  rewrite (proj2 (Z.ltb_lt 0 _)) in Hr by done. do 4 eexists. eapply reads_app; [exact Hr |].
  unfold reply_events. rewrite app_assoc, Hlen. apply reads_body; [done | | unfold ULLONG_MAX; lia].
  intros He. rewrite He in Hlen. simpl in Hlen. lia.
Qed.

(** Replies of which only the last may close the connection. *)
Lemma reads_replies xs ts p u :
  Forall2 sends xs ts -> Forall framed xs -> Forall (fun x => rp_close x = false) (removelast xs) -> idle p ->
  exists p', reads mx (concat ts) p u p' (u ++ concat (reply_events <$> xs)) /\
    (xs <> [] -> hp_state p' = reply_done (default false (rp_close <$> last xs))).
Proof.
  intros Hs. revert p u. induction Hs as [| x t xs ts Hx Hs IH]; intros p u Hf Hk Hp.
  { exists p. rewrite app_nil_r. split; [apply reads_nil | done]. }
  apply Forall_cons_1 in Hf as [Hfx Hf].
  destruct (reads_reply x t p u Hx Hfx Hp) as (sc & hs & idx & F & Hr).
  destruct xs as [| y xs].
  - inversion Hs; subst. eexists. simpl. rewrite !app_nil_r. split; [exact Hr | done].
  - cbn [removelast] in Hk. apply Forall_cons_1 in Hk as [Hkx Hk]. rewrite Hkx in Hr.
    destruct (IH (head_parser (response_line sc) s_start_res hs idx F 0 0) (u ++ reply_events x) Hf Hk) as (p' & Hr' & Hst).
    { right. by do 5 eexists. }
    exists p'. split; [| intros _; by apply Hst].
    cbn [concat fmap list_fmap]. rewrite app_assoc. eapply reads_app; [exact Hr | exact Hr'].
Qed.

Lemma head_not_complete items r l :
  inl for_message_complete ∉ head_events items r ++ sent for_body l.
Proof.
  unfold head_events. rewrite !not_elem_of_app. split_and!; try apply sent_no_event; [set_solver |].
  induction (all_headers items r) as [| h hs IH]; [set_solver |]. cbn [fmap list_fmap concat].
  rewrite not_elem_of_app. split; [| done]. unfold header_events. rewrite not_elem_of_app.
  split; apply sent_no_event.
Qed.

Lemma init_idle : idle (http_parser_init HTTP_RESPONSE).
Proof. by left. Qed.

(** C17. What the server writes is what a client reads.  The responses are those made by
    [make_buffer], with the data that follows them ([sends]): a known status code, header
    names and values that are well formed for the parser, a head of at most
    [max_header_size] bytes; each has a body, of exactly the positive length that
    [content_len_] announces ([framed]); and only the last may ask for the connection to be
    closed.  A stream of such responses is cut by the network in any way; a client that
    runs the parser of this repository over the pieces is told of every status text, every
    header in the order in which it was written, every byte of every body, and the end of
    every message, and of nothing else. *)
Theorem responses_read_back xs ts pieces :
  xs <> [] -> Forall2 sends xs ts -> Forall framed xs ->
  Forall (fun x => rp_close x = false) (removelast xs) ->
  Forall piece pieces -> concat pieces = concat ts ->
  exists p', feed rec mx pieces (http_parser_init HTTP_RESPONSE) [] =
      Some (p', concat (reply_events <$> xs)) /\
    hp_state p' = if default false (rp_close <$> last xs) then s_dead else s_start_res.
Proof.
  intros Hne Hs Hf Hk Hp Heq. destruct (reads_replies xs ts _ [] Hs Hf Hk init_idle) as (p' & Hr & Hst).
  exists p'. split; [| by apply Hst]. rewrite <- Heq in Hr.
  apply (feed_reads mx_ok); [apply init_ready | done | done | done | exact Hr].
Qed.

(** C18. Without a length only the end of the connection ends a response.  A client reads the
    headers of a response whose [content_len_] is zero, such as that for an empty file,
    and then takes all that follows on the connection, later responses too, for its body,
    even when the response says [Connection: Keep-Alive]: however many bytes arrive and
    however they are cut, it is not told that the message is complete.  It is told when
    the connection ends (a call with no bytes), once, and then of a message whose body is
    all of that. *)
Theorem unsized_response_never_ends x t rest pieces :
  sends x t -> content_len_ (rp_response x) = 0 ->
  Forall piece pieces -> concat pieces = t ++ rest ->
  let told := head_events (rp_items x) (rp_response x) ++ sent for_body (rp_body x ++ rest) in
  (inl for_message_complete ∉ told) /\
  exists p', feed rec mx pieces (http_parser_init HTTP_RESPONSE) [] = Some (p', told) /\
    hp_state p' = s_body_identity_eof /\
    exists p'', http_parser_execute rec mx [] p' told = Returned 0 p'' (told ++ [inl for_message_complete]).
Proof.
  intros Hs Hlen Hp Heq told. split; [apply head_not_complete |].
  destruct (sends_head x t _ [] Hs init_idle) as (head & hs & idx & -> & Hr).
  rewrite Hlen in Hr. cbn [Z.ltb Z.compare] in Hr. eexists. split; [| split].
  - apply (feed_reads mx_ok); [apply init_ready | done | done | done |].
    rewrite Heq, <- app_assoc. eapply reads_app; [exact Hr | apply reads_body_eof].
  - reflexivity.
  - eexists. reflexivity.
Qed.

(** Two responses on one connection, cut in three, and one for an empty file. *)
Definition page (close : bool) (len : Z) (body : string) : HttpResponse :=
  mk_response 200 close (bytes "text/html") len ∅
    (mk_Buffer (bytes body ++ [Byte.x00]) 0 (Z.of_nat (String.length body))).
Definition ok_reply : reply := mk_reply [(bytes "Server", bytes "ecron")] (page false 5 "hello") [].
Definition last_reply : reply := mk_reply [] (page true 8 "bye") (bytes ", bye").
Definition empty_reply : reply := mk_reply [] (page false 0 "") [].
Definition sent_text (x : reply) : text :=
  match response_bytes (rp_items x) (rp_response x) with Ok b => b ++ rp_more x | _ => [] end.

Ltac sends_tac := eexists _, _; split; [split;
  [vm_compute; reflexivity | vm_compute; discriminate | vm_compute; reflexivity |
   split; vm_compute; intuition discriminate] |]; split; vm_compute; reflexivity.

Lemma ok_reply_sends : sends ok_reply (sent_text ok_reply).
Proof. sends_tac. Qed.
Lemma last_reply_sends : sends last_reply (sent_text last_reply).
Proof. sends_tac. Qed.
Lemma empty_reply_sends : sends empty_reply (sent_text empty_reply).
Proof. sends_tac. Qed.

Definition stream : text := sent_text ok_reply ++ sent_text last_reply.

Lemma responses_read_back_witness :
  exists p', feed rec mx [take 20 stream; drop 20 stream] (http_parser_init HTTP_RESPONSE) [] =
      Some (p', reply_events ok_reply ++ reply_events last_reply ++ []) /\ hp_state p' = s_dead.
Proof.
  apply (responses_read_back [ok_reply; last_reply] [sent_text ok_reply; sent_text last_reply]); [done | | | | |].
  - constructor; [apply ok_reply_sends | constructor; [apply last_reply_sends | constructor]].
  - constructor; [split; reflexivity | constructor; [split; reflexivity | constructor]].
  - constructor; [reflexivity | constructor].
  - constructor; [split; [vm_compute; discriminate | vm_compute; reflexivity] |].
    constructor; [split; [vm_compute; discriminate | vm_compute; reflexivity] | constructor].
  - vm_compute. reflexivity.
Defined.

Lemma unsized_response_never_ends_witness :
  exists p' p'', feed rec mx [sent_text empty_reply ++ sent_text last_reply] (http_parser_init HTTP_RESPONSE) [] =
      Some (p', head_events [] (page false 0 "") ++ sent for_body ([] ++ sent_text last_reply)) /\
    http_parser_execute rec mx [] p' (head_events [] (page false 0 "") ++ sent for_body ([] ++ sent_text last_reply)) =
      Returned 0 p'' ((head_events [] (page false 0 "") ++ sent for_body ([] ++ sent_text last_reply)) ++
                      [inl for_message_complete]).
Proof.
  destruct (unsized_response_never_ends empty_reply (sent_text empty_reply) (sent_text last_reply)
    [sent_text empty_reply ++ sent_text last_reply]) as (_ & p' & H1 & _ & p'' & H2).
  - apply empty_reply_sends.
  - reflexivity.
  - constructor; [split; [vm_compute; discriminate | vm_compute; reflexivity] | constructor].
  - apply app_nil_r.
  - exists p', p''. split; [exact H1 | exact H2].
Defined.
