(* ===== verification/HttpMain.v ===== *)
(** * HttpMain: the demo of the HTTP server
    ([src/examples/http/HttpMain.cpp], [SqlConnPool.h], [SqlConnPool.cpp])

    The application serves the files below a directory, and looks up users in a database
    before it shows some of them.  The file system and MySQL are parameters; a [FILE] is
    what is left to be read, and whether it was closed. *)

From S2P Require Import Prelude.
From S2P Require Import HttpTables.
From S2P Require Import HttpParser.
From S2P Require Import Cpp.
From S2P Require Import Buffer.
From S2P Require Import TcpConnection.
From S2P Require Import EventLoop.
From S2P Require Import Logger.
From S2P Require Import HttpServer.
From stdpp Require Import gmap list.
Local Open Scope Z_scope.

(** ** Tables *)

Definition _SuffixType : list (text * text) :=
  (fun e => (bytes e.1, bytes e.2)) <$>
  [ (".html", "text/html"); (".xml", "text/xml"); (".xhtml", "application/xhtml+xml");
    (".txt", "text/plain"); (".rtf", "application/rtf"); (".pdf", "application/pdf");
    (".word", "application/nsword"); (".png", "image/png"); (".gif", "image/gif");
    (".jpg", "image/jpeg"); (".jpeg", "image/jpeg"); (".ico", "image/x-icon");
    (".au", "audio/basic"); (".mpeg", "video/mpeg"); (".mpg", "video/mpeg");
    (".avi", "video/x-msvideo"); (".gz", "application/x-gzip"); (".tar", "application/x-tar");
    (".css", "text/css "); (".js", "text/javascript ") ]%string.

Definition _Route : list text :=
  bytes <$> ["/index"; "/login"; "/register"; "/picture"; "/video"; "/fans"]%string.

(** [path.substr(path.find_last_of('.'))]. *)
Fixpoint last_suffix (path : text) : option text :=
  match path with
  | [] => None
  | b :: l =>
      match last_suffix l with
      | Some s => Some s
      | None => if uchar b =? "."%ch then Some path else None
      end
  end.

Definition GetFileType (path : text) : text :=
  match last_suffix path with
  | None => bytes "text/plain"
  | Some suffix =>
      match List.find (fun e => bool_decide (e.1 = suffix)) _SuffixType with
      | Some e => e.2
      | None => bytes "text/plain"
      end
  end.

(** ** The form of a POST request *)

(** [\w]. *)
Definition is_word (b : Byte.byte) : bool := IS_ALPHANUM (uchar b) || (uchar b =? "_"%ch).

(** The longest prefix of word characters, and what follows. *)
Fixpoint word_run (l : text) : nat :=
  match l with b :: l => if is_word b then S (word_run l) else 0%nat | [] => 0%nat end.

(** [(\w+)=(\w+)] at the beginning of [l], as a matcher that backtracks tries it: the
    first group from [n] characters down to one, the second from its longest.  The result
    is the two groups and the length of the match. *)
Fixpoint match_groups (n : nat) (l : text) : option (text * text * nat) :=
  match n with
  | O => None
  | S n' =>
      match l !! n with
      | Some b =>
          let value := drop (S n) l in
          if (uchar b =? "="%ch) && (0 <? word_run value)%nat
          then Some (take n l, take (word_run value) value, (S n + word_run value)%nat)
          else match_groups n' l
      | None => match_groups n' l
      end
  end.
Definition match_at (l : text) : option (text * text * nat) := match_groups (word_run l) l.

(** [std::cregex_iterator]: the matches from left to right, each search beginning where
    the last match ends.  [fuel] is the number of places to try. *)
Fixpoint matches (fuel : nat) (l : text) : list (text * text) :=
  match fuel with
  | O => []
  | S fuel =>
      match match_at l with
      | Some (field, value, n) => (field, value) :: matches fuel (drop n l)
      | None => match l with [] => [] | _ :: l => matches fuel l end
      end
  end.

(** The inner loop over the groups of a match; [str_field] waits for its value. *)
Definition store_group (group : text) (s : text * gmap text text) : text * gmap text text :=
  let '(str_field, post) := s in
  match str_field with
  | [] => (group, post)
  | _ => ([], <[str_field := group]> post)
  end.
Definition store_match (s : text * gmap text text) (m : text * text) : text * gmap text text :=
  store_group m.2 (store_group m.1 s).

Definition parse_postbody (buffer : Buffer) (post : gmap text text) : Cpp.outcome (gmap text text) :=
  at_ ← begin_read buffer;
  l ← vread (buff_ buffer) at_ (readable_bytes buffer);
  mret (fold_left store_match (matches (S (length l)) l) ([], post)).2.

(** [post.at(key)]. *)
Definition map_at (key : text) (post : gmap text text) : Cpp.outcome text :=
  match post !! key with Some v => mret v | None => Throw "std::out_of_range" end.

(** ** SqlConnPool

    [MAX_CONN_] and the counts are never read. *)

Section sql.
(** A connection of MySQL; the state of the database; [mysql_query], which fails with
    [true]; the rows of [mysql_store_result], which may be the null pointer, with the
    columns, which may be null. *)
Context {SqlHandler D : Type}.
Context (mysql_query : SqlHandler -> text -> D -> bool * D).
Context (mysql_store_result : SqlHandler -> D -> option (list (option text * option text)) * D).

Record SqlConnPool := mk_pool { connQue_ : list SqlHandler; closed_conns : list SqlHandler }.
Definition SqlConnPool_init : SqlConnPool := mk_pool [] [].

(** [Init]: [answers] are the results of [mysql_init] and [mysql_real_connect], the null
    pointer being [None], one for each connection to be made. *)
Fixpoint Init (answers : list (option SqlHandler)) (p : SqlConnPool) : bool * SqlConnPool :=
  match answers with
  | [] => (true, p)
  | None :: _ => (false, p)
  | Some sql :: answers => Init answers (mk_pool (connQue_ p ++ [sql]) (closed_conns p))
  end.
Definition ClosePool (p : SqlConnPool) : SqlConnPool := mk_pool [] (closed_conns p ++ connQue_ p).
Definition GetConn (p : SqlConnPool) : option SqlHandler * SqlConnPool :=
  match connQue_ p with
  | [] => (None, p)
  | sql :: l => (Some sql, mk_pool l (closed_conns p))
  end.
Definition FreeConn (sql : option SqlHandler) (p : SqlConnPool) : SqlConnPool :=
  match sql with
  | None => p
  | Some sql => mk_pool (connQue_ p ++ [sql]) (closed_conns p)
  end.
Definition GetFreeConnCount (p : SqlConnPool) : Z := Z.of_nat (length (connQue_ p)).

(** [SqlConnRAII(&sql, pool);] without a name is a temporary: it takes a connection and,
    at the semicolon, its destructor gives it back. *)
Definition SqlConnRAII (p : SqlConnPool) : option SqlHandler * SqlConnPool :=
  let '(sql, p) := GetConn p in
  (sql, FreeConn sql p).

(** ** user_verify *)

Definition select_query (name : text) : text :=
  bytes "SELECT username, password FROM user WHERE username='" ++ name ++ bytes "' LIMIT 1".
Definition insert_query (name pwd : text) : text :=
  bytes "INSERT INTO user(username, password) VALUES('" ++ name ++ bytes "','" ++ pwd ++ bytes "')".

(** The loop over the rows: the flag, once set, stays.  A [std::string] made of a null
    pointer is undefined. *)
Fixpoint check_rows (pwd : text) (rows : list (option text * option text)) (flag : bool) : Cpp.outcome bool :=
  match rows with
  | [] => mret flag
  | row :: rows =>
      match row.2 with
      | None => Undefined "std::string of a null pointer"
      | Some password => check_rows pwd rows (flag || bool_decide (pwd = password))
      end
  end.

(** The strings have no zero byte, as [std::string::c_str] would end there. *)
Definition user_verify (name pwd : text) (login : bool) (p : SqlConnPool) (d : D) :
    Cpp.outcome (bool * SqlConnPool * D) :=
  let '(sql, p) := SqlConnRAII p in
  match sql with
  | None => mret (false, p, d)
  | Some sql =>
      let '(err, d) := mysql_query sql (select_query name) d in
      if err : bool then mret (false, p, d)
      else
        let '(res, d) := mysql_store_result sql d in
        match res with
        | None => Undefined "mysql_num_rows of a null pointer"
        | Some [] =>
            if login then mret (false, p, d)
            else let '(err, d) := mysql_query sql (insert_query name pwd) d in mret (negb err, p, d)
        | Some rows =>
            if login then flag ← check_rows pwd rows false; mret (flag, p, d)
            else mret (false, p, d)
        end
  end.

(** ** on_request *)

Record FILE := mk_FILE { unread : text; is_closed : bool }.

(** The file system: [file_size], [None] when it sets its error code; and what [fopen]
    opens for reading. *)
Context (root_dir : text) (file_size : text -> option Z) (fopen : text -> option text).

(** What the program shares between requests. *)
Definition world : Type := SqlConnPool * D.

(** The user and the password of a form. *)
Definition form_user (req : HttpRequest) : Cpp.outcome (text * text) :=
  post_map ← (if bool_decide (get_header (bytes "Content-Type") req =
                              Some (bytes "application/x-www-form-urlencoded"))
              then parse_postbody (body_ req) ∅ else mret ∅);
  if decide (post_map = ∅) then mret ([], [])
  else
    user ← map_at (bytes "user") post_map;
    pwd ← map_at (bytes "password") post_map;
    mret (user, pwd).

(** The file for a POST request; [None] is a URL that is not supported. *)
Definition post_path (req : HttpRequest) (w : world) : Cpp.outcome (option text * world) :=
  form ← form_user req;
  let verify (login : bool) (good bad : string) :=
    r ← user_verify form.1 form.2 login w.1 w.2;
    let '(ok, p, d) := r in
    mret (Some (if ok : bool then bytes good else bytes bad), (p, d)) in
  if bool_decide (url_ req = bytes "/login") then verify true "/welcome.html"%string "/login_error.html"%string
  else if bool_decide (url_ req = bytes "/register") then verify false "/login.html"%string "/register_error.html"%string
  else if bool_decide (url_ req = bytes "/picture") then mret (Some (bytes "/picture.html"), w)
  else if bool_decide (url_ req = bytes "/video") then mret (Some (bytes "/video.html"), w)
  else if bool_decide (url_ req = bytes "/fans") then mret (Some (bytes "/fans.html"), w)
  else mret (None, w).

(** The file for a GET request. *)
Definition get_path (url : text) : text :=
  let path_file := if bool_decide (url = bytes "/") then url ++ bytes "index" else url in
  if existsb (fun r => bool_decide (r = path_file)) _Route then path_file ++ bytes ".html" else path_file.

(** The file is opened and announced, or is not found. *)
Definition open_file (path_file : text) (t : HttpTask FILE) : HttpTask FILE :=
  let path_file := root_dir ++ path_file in
  let resp := response_ t in
  match file_size path_file with
  | None => with_response (set_code 404 resp) t
  | Some len =>
      match fopen path_file with
      | None => with_response (set_code 404 resp) t
      | Some content =>
          set_context (Some (mk_FILE content false))
            (set_send_progressively true
              (with_response (HttpServer.set_content_length len
                 (set_content_type (GetFileType path_file) resp)) t))
      end
  end.

Definition on_request (w : world) (t : HttpTask FILE) : Cpp.outcome (HttpTask FILE * world) :=
  let req := request_ t in
  let t := with_response (set_closeconnection (negb (keep_alive_ req)) (set_code 200 (response_ t))) t in
  r ← (if bool_decide (method_ req = bytes "POST") then
         r ← post_path req w;
         match r.1 with
         | Some path => mret (open_file path t, r.2)
         | None => mret (with_response (set_code 404 (response_ t)) t, r.2)
         end
       else if bool_decide (method_ req = bytes "GET") then
         mret (open_file (get_path (url_ req)) t, w)
       else mret (with_response (set_code 400 (response_ t)) t, w));
  let t := r.1 in
  mret (if negb (code_ (response_ t) =? 200)
        then with_response (set_closeconnection true (response_ t)) t else t, r.2).

(** ** process_file *)

Definition process_file (t : HttpTask FILE) (buffer : Buffer) : Cpp.outcome (HttpTask FILE * Buffer) :=
  match context_ t with
  | None => mret (t, buffer)
  | Some pfile =>
      if is_closed pfile then Undefined "fread of a FILE that was closed"
      else
        match take (Z.to_nat InitialSize) (unread pfile) with
        | [] => mret (set_context (Some (mk_FILE [] true)) t, buffer)
        | l =>
            buffer ← receive l buffer;
            mret (set_context (Some (mk_FILE (drop (Z.to_nat InitialSize) (unread pfile)) false)) t, buffer)
        end
  end.

(** The callback of the server for one state of the world. *)
Definition http_callback (w : world) (t : HttpTask FILE) : Cpp.outcome (HttpTask FILE) :=
  r ← on_request w t; mret r.1.
End sql.

(** ** main: the logger and the signals *)

(** [LOGGER.init(file)], without which [main] ends, and [set_level(LL_Trace)]. *)
Definition main_logger : Logger := set_level LL_Trace (Logger_init true true false Logger_new).2.

Definition SIGINT : Z := 2.
Definition SIGTERM : Z := 15.
Definition on_signal (signal : Z) : list (operation (SignalCallback:=unit)) :=
  if (signal =? SIGINT) || (signal =? SIGTERM) then [Quit] else [].
(** What [main] asks of its loop before it runs. *)
Definition main_setup : list event := [Call (Set_signal_handle (Some tt)); Call (Add_signal SIGINT)].
