(* ===== verification/HttpMainTheorems.v ===== *)
(** * HttpMainTheorems: what the demo does

    Forms: the regular expression finds the fields of a form, and only words.  Files: a
    GET request is answered with the file it names, and the client reads that file.
    Connections of the database: none is lost, none is reserved. *)

From S2P Require Import Prelude.
From S2P Require Import HttpTables.
From S2P Require Import HttpParser.
From S2P Require Import HttpMonad.
From S2P Require Import HttpExec.
From S2P Require Import HttpInvariant.
From S2P Require Import HttpSplit.
From S2P Require Import HttpChunking.
From S2P Require Import Cpp.
From S2P Require Import Buffer.
From S2P Require Import TcpConnection.
From S2P Require Import TcpSafety.
From S2P Require Import EventLoop.
From S2P Require Import Logger.
From S2P Require Import HttpServer.
From S2P Require Import HttpServerTheorems.
From S2P Require Import HttpChunkingTheorems.
From S2P Require Import HttpRead.
From S2P Require Import HttpReadLines.
From S2P Require Import HttpReplyTheorems.
From S2P Require Import HttpMain.
From stdpp Require Import gmap list.
Local Open Scope Z_scope.

(** ** Words *)

Definition word (l : text) : Prop := l <> [] /\ forallb is_word l = true.

Lemma word_run_take l n : (n <= word_run l)%nat -> forallb is_word (take n l) = true.
Proof.
  revert n. induction l as [| b l IH]; intros [| n]; simpl; try done; try lia.
  destruct (is_word b); [| lia]. intros Hn. apply IH. lia.
Qed.
Lemma word_run_le l : (word_run l <= length l)%nat.
Proof. induction l as [| b l IH]; simpl; [done |]. destruct (is_word b); lia. Qed.

(** What follows a word does not continue it. *)
Definition ends (rest : text) : Prop := word_run rest = 0%nat.
Lemma word_run_app l rest : forallb is_word l = true -> ends rest -> word_run (l ++ rest) = length l.
Proof.
  intros Hl Hr. induction l as [| b l IH]; [exact Hr |]. simpl in *. boolify.
  match goal with H : is_word b = true |- _ => rewrite H end. f_equal. by apply IH.
Qed.

Lemma match_groups_words n l f v k :
  (n <= word_run l)%nat -> match_groups n l = Some (f, v, k) -> word f /\ word v /\ (0 < k)%nat.
Proof.
  induction n as [| n IH]; intros Hn; [done |]. cbn [match_groups].
  assert (match_groups n l = Some (f, v, k) -> word f /\ word v /\ (0 < k)%nat) as Hback by (intros H; apply IH; [lia | done]).
  destruct (l !! S n) as [b |] eqn:Hb; [| exact Hback].
  destruct (_ && _) eqn:Hc; [| exact Hback]. intros [= <- <- <-]. boolify. split_and!.
  - split; [| by apply word_run_take]. intros He. apply (f_equal length) in He.
    rewrite length_take in He. pose proof (word_run_le l). change (@length Byte.byte []) with 0%nat in He. lia.
  - split; [| by apply word_run_take]. intros He. apply (f_equal length) in He.
    rewrite length_take in He. pose proof (word_run_le (drop (S (S n)) l)).
    change (@length Byte.byte []) with 0%nat in He. lia.
  - lia.
Qed.

Lemma matches_words fuel l : Forall (fun m => word m.1 /\ word m.2) (matches fuel l).
Proof.
  revert l. induction fuel as [| fuel IH]; intros l; [constructor |]. cbn [matches].
  destruct (match_at l) as [[[f v] n] |] eqn:Hm.
  - constructor; [| apply IH]. apply match_groups_words in Hm as (Hf & Hv & _); done.
  - destruct l; [constructor | apply IH].
Qed.

(** ** Forms *)

Definition field (kv : text * text) : text := kv.1 ++ bytes "=" ++ kv.2.
(** The fields with [&] between them, as a browser sends them. *)
Fixpoint form (l : list (text * text)) : text :=
  match l with
  | [] => []
  | kv :: l => field kv ++ match l with [] => [] | _ => bytes "&" ++ form l end
  end.
Definition words (l : list (text * text)) : Prop := Forall (fun kv => word kv.1 /\ word kv.2) l.
(** The last value of a field is kept. *)
Definition form_map (l : list (text * text)) (post : gmap text text) : gmap text text :=
  fold_left (fun post kv => <[kv.1 := kv.2]> post) l post.

Lemma match_field kv rest :
  word kv.1 -> word kv.2 -> ends rest ->
  match_at (field kv ++ rest) = Some (kv.1, kv.2, length (field kv)).
Proof.
  destruct kv as [k v]. unfold field. cbn [fst snd]. intros [Hk1 Hk2] [Hv1 Hv2] Hr. rewrite <- !app_assoc.
  unfold match_at. rewrite word_run_app by done. destruct k as [| b k]; [done |].
  cbn [length match_groups]. change (S (length k)) with (length (b :: k)).
  rewrite (lookup_app_r (b :: k)), Nat.sub_diag by done. cbn [lookup list_lookup].
  replace (drop (S (length (b :: k))) ((b :: k) ++ bytes "=" ++ v ++ rest)) with (v ++ rest).
  2: { rewrite app_assoc. replace (S (length (b :: k))) with (length ((b :: k) ++ bytes "="))
         by (rewrite length_app; simpl; lia). by rewrite drop_app_length. }
  rewrite word_run_app by done. destruct v as [| c v]; [done |].
  replace ((uchar Byte.x3d =? "="%ch) && (0 <? length (c :: v))%nat) with true by reflexivity.
  rewrite take_app_length, take_app_length. do 2 f_equal. rewrite !length_app. simpl. lia.
Qed.

Lemma match_none b l : is_word b = false -> match_at (b :: l) = None.
Proof. intros Hb. unfold match_at. simpl. by rewrite Hb. Qed.

Lemma matches_form l fuel : words l -> (length (form l) < fuel)%nat -> matches fuel (form l) = l.
Proof.
  intros Hl. revert fuel. induction Hl as [| kv l [Hk Hv] Hl IH]; intros fuel Hf; [by destruct fuel |].
  destruct fuel as [| fuel]; [simpl in Hf; lia |]. cbn [form] in *. cbn [matches].
  destruct l as [| kv' l].
  - rewrite match_field by done. destruct kv as [k v]. cbn [fst snd]. f_equal.
    rewrite app_nil_r, drop_ge by done. by destruct fuel.
  - set (more := form (kv' :: l)) in *. rewrite length_app in Hf. rewrite match_field by done.
    destruct kv as [k v]. cbn [fst snd]. f_equal. rewrite drop_app_length.
    destruct fuel as [| fuel]; [simpl in Hf; lia |]. change (bytes "&" ++ more) with (Byte.x26 :: more) in *.
    cbn [matches]. rewrite match_none by done. apply IH. simpl in Hf. unfold field in Hf. rewrite length_app in Hf.
    destruct k; [by destruct Hk |]. simpl in Hf. lia.
Qed.

Lemma store_words l post : words l -> fold_left store_match l ([], post) = ([], form_map l post).
Proof.
  intros Hl. revert post. induction Hl as [| [k v] l [[Hk _] _] Hl IH]; intros post; [done |].
  cbn [fold_left form_map]. unfold store_match, store_group. cbn [fst snd] in *. destruct k; [done |]. apply IH.
Qed.

Lemma parse_postbody_eq b post :
  buffer_ok b -> parse_postbody b post =
    Ok (fold_left store_match (matches (S (length (contents b))) (contents b)) ([], post)).2.
Proof.
  intros Hb. unfold parse_postbody, begin_read. rewrite (begin_ok b Hb). simpl.
  pose proof Hb as [Hr Hw Hs]. rewrite (readable_ok b Hb), vread_Ok by lia. simpl. rewrite Z.add_0_l. done.
Qed.

Lemma parse_form b l post :
  buffer_ok b -> contents b = form l -> words l -> parse_postbody b post = Ok (form_map l post).
Proof.
  intros Hb Hc Hl. rewrite (parse_postbody_eq b post Hb), Hc, matches_form by (done || lia).
  by rewrite store_words.
Qed.

Lemma form_map_ne kv l post : form_map (kv :: l) post <> ∅.
Proof.
  unfold form_map. cbn [fold_left].
  assert (<[kv.1:=kv.2]> post <> ∅) as Hne by apply insert_non_empty.
  revert Hne. generalize (<[kv.1:=kv.2]> post). induction l as [| kv' l IH]; intros m Hm; [done |].
  apply IH, insert_non_empty.
Qed.

Definition quotes (l : text) : nat := length (filter (fun b => uchar b = "'"%ch) l).

Lemma quotes_app l l' : quotes (l ++ l') = (quotes l + quotes l')%nat.
Proof. unfold quotes. by rewrite filter_app, length_app. Qed.
Lemma word_quotes l : forallb is_word l = true -> quotes l = 0%nat.
Proof.
  induction l as [| b l IH]; [done |]. cbn [forallb]. intros [Hb Hl]%andb_prop. unfold quotes.
  rewrite filter_cons, decide_False; [by apply IH |]. intros Hq. unfold is_word in Hb. by rewrite Hq in Hb.
Qed.

Lemma store_groups_words ms post :
  Forall (fun m => word m.1 /\ word m.2) ms -> map_Forall (fun _ => word) post ->
  map_Forall (fun _ => word) (fold_left store_match ms ([], post)).2.
Proof.
  intros Hms Hp. change (Forall (fun m => word m.1 /\ word m.2) ms) with (words ms) in Hms.
  rewrite store_words by done. simpl. revert post Hp.
  induction Hms as [| m ms [_ Hv] Hms IH]; intros post Hp; [done |].
  apply IH. by apply map_Forall_insert_2.
Qed.

Lemma form_user_words req user pwd :
  buffer_ok (body_ req) -> form_user req = Ok (user, pwd) ->
  forallb is_word user = true /\ forallb is_word pwd = true.
Proof.
  intros Hb. unfold form_user. case_bool_decide; [| by intros [= <- <-]].
  rewrite (parse_postbody_eq _ _ Hb). cbn [mbind outcome_bind]. set (post := snd _).
  assert (map_Forall (fun _ => word) post) as Hpost
    by (apply store_groups_words; [apply matches_words | apply map_Forall_empty]).
  case_decide; [by intros [= <- <-] |]. unfold map_at.
  destruct (post !! bytes "user") as [u |] eqn:Hu; [| done].
  destruct (post !! bytes "password") as [p |] eqn:Hp; [| done]. intros [= <- <-].
  split; [apply (Hpost _ _ Hu) | apply (Hpost _ _ Hp)].
Qed.

(** ** The pool of connections *)

Section pool.
Context {SqlHandler D : Type}.
Context (mysql_query : SqlHandler -> text -> D -> bool * D).
Context (mysql_store_result : SqlHandler -> D -> option (list (option text * option text)) * D).
Implicit Types p : SqlConnPool (SqlHandler:=SqlHandler).


(** Two threads with one connection. *)
Lemma raii_shared (h : SqlHandler) :
  let p := mk_pool [h] [] in SqlConnRAII (SqlConnRAII p).2 = (Some h, p) /\ (SqlConnRAII p).1 = Some h.
Proof. done. Qed.


End pool.

(** ** What the application answers *)

Section answers.
Context {SqlHandler D : Type}.
Context (mysql_query : SqlHandler -> text -> D -> bool * D).
Context (mysql_store_result : SqlHandler -> D -> option (list (option text * option text)) * D).
Context (root_dir : text) (file_size : text -> option Z) (fopen : text -> option text).
Abbreviation on_request := (on_request mysql_query mysql_store_result root_dir file_size fopen).
Abbreviation http_callback := (http_callback mysql_query mysql_store_result root_dir file_size fopen).
Abbreviation open_file := (open_file root_dir file_size fopen).
Implicit Types t : HttpTask FILE.

(** An error, after which the connection is to be closed. *)
Definition refused (code : Z) t : HttpTask FILE :=
  let r := response_ t in
  with_response (mk_response code true (content_type_ r) (content_len_ r) (resp_headers_ r) (resp_body_ r)) t.

(** A file below the root directory, announced with its type and the low 32 bits of its
    size, and opened to be sent; or 404. *)
Definition served (path : text) t : HttpTask FILE :=
  let r := response_ t in
  match file_size (root_dir ++ path), fopen (root_dir ++ path) with
  | Some len, Some content =>
      mk_task (parser_ t) (header_field_ t) (completed_ t) (request_ t)
        (mk_response 200 (negb (keep_alive_ (request_ t))) (GetFileType (root_dir ++ path))
           (u32 len) (resp_headers_ r) (resp_body_ r)) true (Some (mk_FILE content false))
  | _, _ => refused 404 t
  end.






Definition finish t : HttpTask FILE :=
  if negb (code_ (response_ t) =? 200)
  then with_response (set_closeconnection true (response_ t)) t else t.
Definition started t : HttpTask FILE :=
  with_response (set_closeconnection (negb (keep_alive_ (request_ t))) (set_code 200 (response_ t))) t.

Lemma open_file_ok path t : finish (open_file path (started t)) = served path t.
Proof.
  unfold open_file, served. destruct (file_size (root_dir ++ path)) as [len |]; [| done].
  by destruct (fopen (root_dir ++ path)).
Qed.

Lemma on_request_eq w t :
  on_request w t =
    (if bool_decide (method_ (request_ t) = bytes "POST") then
       r ← post_path mysql_query mysql_store_result (request_ t) w;
       mret (finish (match r.1 with
                     | Some path => open_file path (started t)
                     | None => with_response (set_code 404 (response_ (started t))) (started t)
                     end), r.2)
     else if bool_decide (method_ (request_ t) = bytes "GET")
     then mret (finish (open_file (get_path (url_ (request_ t))) (started t)), w)
     else mret (finish (with_response (set_code 400 (response_ (started t))) (started t)), w)).
Proof.
  unfold HttpMain.on_request. case_bool_decide; [| by case_bool_decide].
  destruct (post_path _ _ _ _) as [[[path |] w'] | |]; done.
Qed.
End answers.

(** ** A file on its way *)

(** What [on_sendcomplete] does again and again, as each buffer has been sent, until the
    connection is closed or the task is ready for the next request: the buffers, the last
    request to the connection, and the task. *)
Fixpoint pump (fuel : nat) (t : HttpTask FILE) : Cpp.outcome (list text * list request * HttpTask FILE) :=
  match fuel with
  | O => Throw "fuel"
  | S fuel =>
      r ← on_send_progressively process_file t;
      match r.1 with
      | [Send_buffer (Some b)] => s ← pump fuel r.2; mret (contents b :: s.1.1, s.1.2, s.2)
      | reqs => mret ([], reqs, r.2)
      end
  end.

Lemma new_buffer :
  exists b, Buffer_init InitialSize = Ok b /\ buffer_ok b /\ contents b = [] /\ read_index_ b = 0 /\
    writable_bytes b = InitialSize.
Proof.
  destruct (Buffer_init_ok InitialSize) as (b & Hi & Hb & Hc); [done |].
  exists b. rewrite (writable_ok b Hb). split; [exact Hi |]. unfold Buffer_init in Hi.
  destruct (Cpp.resize Byte.x00 InitialSize []) as [v | |] eqn:Hv; [| done..].
  apply resize_Ok in Hv as [Hsz _]; [| done]. simpl in Hi. injection Hi as <-. simpl. rewrite Hsz.
  split_and!; [done | done | done | apply Z.sub_0_r].
Qed.

Lemma process_file_chunk c t b :
  context_ t = Some (mk_FILE c false) -> c <> [] -> Buffer_init InitialSize = Ok b ->
  exists b', process_file t b = Ok (set_context (Some (mk_FILE (drop 1024 c) false)) t, b') /\
    buffer_ok b' /\ contents b' = take 1024 c.
Proof.
  intros Ht Hc Hi. destruct new_buffer as (b0 & Hi' & Hb & Hcb & _ & Hw).
  assert (b0 = b) as -> by congruence. unfold process_file. rewrite Ht. cbn [is_closed unread].
  change (Z.to_nat InitialSize) with 1024%nat.
  destruct (receive_ok b Hb (take 1024 c)) as (b' & Hr & Hb' & Hcb' & _).
  { rewrite Hw. unfold vsize, InitialSize. rewrite length_take. lia. }
  destruct (take 1024 c) as [| x l] eqn:Htake; [by destruct c |].
  rewrite Hr. exists b'. split_and!; [done | done |]. by rewrite Hcb', Hcb.
Qed.

Definition last_request (close : bool) : list request := if close then [Close] else [].

Lemma pump_file fuel c t :
  context_ t = Some (mk_FILE c false) -> (length c < fuel)%nat ->
  exists chunks t', pump fuel t = Ok (chunks, last_request (close_connection_ (response_ t)), t') /\
    concat chunks = c /\ Forall (fun l => 0 < length l <= 1024)%nat chunks /\
    (close_connection_ (response_ t) = false ->
     completed_ t' = false /\ context_ t' = None /\ send_progressively_ t' = false).
Proof.
  revert c t. induction fuel as [| fuel IH]; intros c t Ht Hlen; [lia |]. cbn [pump].
  unfold on_send_progressively. destruct new_buffer as (b & Hi & Hb & Hcb & _). rewrite Hi. cbn [mbind outcome_bind].
  destruct (decide (c = [])) as [-> | Hc].
  - unfold process_file. rewrite Ht. cbn [is_closed unread]. rewrite take_nil. cbn [mbind outcome_bind mret outcome_ret fst snd].
    rewrite (proj2 (Z.ltb_ge 0 (readable_bytes b))) by (rewrite <- (contents_size b Hb), Hcb; apply Z.le_refl).
    clear Hi.
    exists [], (if close_connection_ (response_ t) then set_context (Some (mk_FILE [] true)) t
                else HttpServer.init (set_context (Some (mk_FILE [] true)) t)).
    cbn [response_ set_context]. by destruct (close_connection_ (response_ t)).
  - destruct (process_file_chunk c t b Ht Hc Hi) as (b' & -> & Hb' & Hcb'). cbn [mbind outcome_bind mret outcome_ret fst snd].
    rewrite (proj2 (Z.ltb_lt 0 (readable_bytes b'))).
    2: { clear Hi. rewrite <- (contents_size b' Hb'), Hcb'. unfold vsize. rewrite length_take. destruct c; [done | simpl length; lia]. }
    clear Hi. cbn [mbind outcome_bind mret outcome_ret fst snd]. set (t1 := set_context _ t).
    destruct (IH (drop 1024 c) t1 eq_refl) as (chunks & t' & Hp & Hcat & Hall & Hkeep).
    { rewrite length_drop. destruct c; [done |]. simpl length in *. lia. }
    rewrite Hp. cbn [mbind outcome_bind mret outcome_ret fst snd]. exists (take 1024 c :: chunks), t'. rewrite Hcb'.
    split_and!; [done | | | exact Hkeep].
    + cbn [concat]. rewrite Hcat. apply take_drop.
    + constructor; [| done]. rewrite length_take. destruct c; [done |]. simpl length. lia.
Qed.

(** ** The response for a file *)

Lemma file_type_ok path : value_ok (GetFileType path) = true /\ (length (GetFileType path) <= 40)%nat.
Proof.
  assert (Forall (fun e => value_ok e.2 = true /\ (length e.2 <= 40)%nat) _SuffixType) as Hall.
  { repeat constructor; vm_compute; try reflexivity; lia. }
  unfold GetFileType. destruct (last_suffix path) as [suffix |]; [| split; [reflexivity | vm_compute; lia]].
  destruct (List.find _ _) as [e |] eqn:Hf; [| split; [reflexivity | vm_compute; lia]].
  apply find_some in Hf as [Hin _]. rewrite Forall_forall in Hall. by apply Hall, list_elem_of_In.
Qed.

(** The response that announces [n] bytes of a file. *)
Definition file_response (path : text) (keep : bool) (n : Z) (body : Buffer) : HttpResponse :=
  mk_response 200 (negb keep) (GetFileType path) n ∅ body.

Lemma file_sendable path keep n body :
  0 < n < 2 ^ 32 -> buffer_ok body ->
  exists head, sendable [] (file_response path keep n body) head /\ (length head <= 200)%nat.
Proof.
  intros Hn Hb. destruct (file_type_ok path) as [Hok Hlen].
  assert (exists head, response_head [] (file_response path keep n body) = Ok head) as [head Hh] by (by eexists).
  assert (length head <= 200)%nat as Hsize.
  { apply head_lines in Hh as (text & Hin & ->).
    assert (length (status_line 200 text) <= 30)%nat as Hstatus
      by (destruct Hin as [[= <-] | [[=] | [[=] | [[=] | []]]]]; vm_compute; lia).
    pose proof (decimal_length n ltac:(lia)) as Hd. unfold all_headers, file_response. cbn [content_type_ content_len_ close_connection_].
    rewrite !fmap_app, !concat_app, !length_app. unfold length_header. rewrite (proj2 (Z.ltb_lt 0 n)) by lia.
    assert (length (concat (header_line <$> [connection_header (negb keep)])) <= 30)%nat
      by (destruct keep; vm_compute; lia).
    assert (length (concat (header_line <$> type_header (GetFileType path))) <= 60)%nat.
    { destruct (GetFileType path) as [| b l]; [simpl; lia |]. cbn [type_header fmap list_fmap concat].
      unfold header_line. cbn [fst snd]. rewrite !length_app. change (length (bytes "Content-type")) with 12%nat.
      simpl length in *. lia. }
    assert (length (concat (header_line <$> [(bytes "Content-length", decimal n)])) <= 40)%nat.
    { cbn [fmap list_fmap concat]. unfold header_line. cbn [fst snd]. rewrite !length_app.
      change (length (bytes "Content-length")) with 14%nat. simpl length in *. lia. }
    change (length CRLF) with 2%nat. change (length (concat (header_line <$> []))) with 0%nat.
    change (code_ _) with 200. lia. }
  exists head. split; [| exact Hsize]. split; [exact Hh | | | exact Hb].
  - change max_header_size_init with 81920. lia.
  - unfold reply_ok, file_response. cbn [content_type_ content_len_]. rewrite Hok. simpl.
    apply andb_true_intro. split; boolify; lia.
Qed.

Section served.
Context {SqlHandler D : Type}.
Context (mysql_query : SqlHandler -> text -> D -> bool * D).
Context (mysql_store_result : SqlHandler -> D -> option (list (option text * option text)) * D).
Context (root_dir : text) (file_size : text -> option Z) (fopen : text -> option text).
Context (iterate : gmap text text -> list (text * text)).
Abbreviation http_callback := (http_callback mysql_query mysql_store_result root_dir file_size fopen).
Implicit Types t : HttpTask FILE.

Lemma get_answer w t c :
  method_ (request_ t) = bytes "GET" ->
  let path := root_dir ++ get_path (url_ (request_ t)) in
  file_size path = Some (Z.of_nat (length c)) -> fopen path = Some c -> Z.of_nat (length c) < 2 ^ 32 ->
  resp_headers_ (response_ t) = ∅ ->
  exists t1, http_callback w t = Ok t1 /\ context_ t1 = Some (mk_FILE c false) /\
    response_ t1 = file_response path (keep_alive_ (request_ t)) (Z.of_nat (length c)) (resp_body_ (response_ t)).
Proof.
  intros Hm path Hs Ho Hc Hh. unfold HttpMain.http_callback. rewrite on_request_eq, Hm.
  rewrite bool_decide_false by done. rewrite bool_decide_true by done.
  unfold open_file. fold path. rewrite Hs, Ho. eexists. split; [reflexivity |]. split; [reflexivity |].
  unfold finish. cbn -[u32]. unfold HttpServer.set_content_length, set_content_type, file_response. cbn -[u32].
  rewrite u32_small by lia. by rewrite Hh.
Qed.

Lemma on_request_sends w t t1 head :
  http_callback w t = Ok t1 -> buffer_ok (resp_body_ (response_ t1)) ->
  response_head (iterate (resp_headers_ (response_ t1))) (response_ t1) = Ok head ->
  vsize head + vsize (contents (resp_body_ (response_ t1))) <= max_size ->
  exists b, HttpServer.on_request (http_callback w) iterate t = Ok ([Send_buffer (Some b)], t1) /\
    contents b = head ++ contents (resp_body_ (response_ t1)).
Proof.
  intros Hcb Hb Hh Hs. unfold HttpServer.on_request. rewrite Hcb. cbn [mbind outcome_bind].
  destruct new_buffer as (b0 & Hi & Hb0 & Hc0 & Hr0 & _). rewrite Hi. cbn [mbind outcome_bind]. clear Hi.
  destruct (make_buffer_total _ _ b0 head Hb0 Hr0 Hc0 Hb Hh Hs) as (b & -> & _ & Hc).
  cbn [mbind outcome_bind]. by exists b.
Qed.

(** C12. A GET request gets the file it names, whole and unchanged.  For every file of
    less than four gigabytes that is not empty: the task sends the head, then, as each
    buffer has been sent, pieces of at most 1024 bytes which together are the file, and
    then closes the connection or is ready for the next request; and a client that
    parses these bytes, cut by the network in any way, is told the status, the three
    headers, with the type and the length of the file, every byte of the file, and the
    end of the message. *)
Theorem file_is_served w t c :
  iterate ∅ = [] -> method_ (request_ t) = bytes "GET" ->
  let path := root_dir ++ get_path (url_ (request_ t)) in
  let r := file_response path (keep_alive_ (request_ t)) (Z.of_nat (length c)) (resp_body_ (response_ t)) in
  file_size path = Some (Z.of_nat (length c)) -> fopen path = Some c ->
  0 < Z.of_nat (length c) < 2 ^ 32 ->
  resp_headers_ (response_ t) = ∅ -> buffer_ok (resp_body_ (response_ t)) ->
  contents (resp_body_ (response_ t)) = [] ->
  exists head t1 chunks t2,
    HttpServer.on_request (http_callback w) iterate t = Ok ([Send_buffer (Some head)], t1) /\
    pump (S (length c)) t1 = Ok (chunks, last_request (negb (keep_alive_ (request_ t))), t2) /\
    concat chunks = c /\ Forall (fun l => 0 < length l <= 1024)%nat chunks /\
    (keep_alive_ (request_ t) = true -> completed_ t2 = false /\ context_ t2 = None) /\
    forall pieces, Forall piece pieces -> concat pieces = contents head ++ concat chunks ->
      exists p', feed rec max_header_size_init pieces (http_parser_init HTTP_RESPONSE) [] =
          Some (p', head_events [] r ++ sent for_body c ++ [inl for_message_complete]) /\
        hp_state p' = if keep_alive_ (request_ t) then s_start_res else s_dead.
Proof.
  intros Hit Hm path r Hs Ho Hc Hh Hb Hbody.
  destruct (get_answer w t c Hm Hs Ho ltac:(lia) Hh) as (t1 & Hcb & Hctx & Hr1). fold path r in Hr1.
  destruct (file_sendable path (keep_alive_ (request_ t)) _ _ Hc Hb) as (head & Hsend & Hsize). fold r in Hsend.
  assert (response_head (iterate (resp_headers_ (response_ t1))) (response_ t1) = Ok head) as Hhead
    by (rewrite Hr1; simpl; rewrite Hit; apply Hsend).
  assert (resp_body_ (response_ t1) = resp_body_ (response_ t)) as Hb1 by (by rewrite Hr1).
  destruct (on_request_sends w t t1 head Hcb) as (b & Hreq & Hcont);
    [by rewrite Hb1 | exact Hhead | rewrite Hb1, Hbody; unfold vsize, max_size; simpl length; lia |].
  rewrite Hb1, Hbody, app_nil_r in Hcont.
  destruct (pump_file (S (length c)) c t1 Hctx ltac:(lia)) as (chunks & t2 & Hp & Hcat & Hall & Hkeep).
  rewrite Hr1 in Hp, Hkeep. cbn [close_connection_ r file_response] in Hp, Hkeep.
  exists b, t1, chunks, t2. split_and!; try done.
  { intros Hk. rewrite Hk in Hkeep. by destruct Hkeep as (H1 & H2 & _). }
  intros pieces Hpieces Heq. rewrite Hcat, Hcont in Heq.
  assert (sends (mk_reply [] r c) (head ++ c)) as Hx.
  { exists head, (head ++ []). split; [exact Hsend |]. rewrite app_nil_r. split; [| done].
    unfold response_bytes. destruct new_buffer as (b0 & Hi & Hb0 & Hc0 & Hr0 & _). cbn [rp_items rp_response].
    rewrite Hi. cbn [mbind outcome_bind]. clear Hi.
    destruct (make_buffer_total [] r b0 head Hb0 Hr0 Hc0 Hb) as (b' & -> & _ & Hc'); [apply Hsend | |].
    - change (resp_body_ r) with (resp_body_ (response_ t)). rewrite Hbody. unfold vsize, max_size. simpl length. lia.
    - cbn [mbind outcome_bind mret outcome_ret]. rewrite Hc'. change (resp_body_ r) with (resp_body_ (response_ t)).
      rewrite Hbody, app_nil_r. reflexivity. }
  assert (framed (mk_reply [] r c)) as Hf
    by (unfold framed, rp_body; cbn [rp_response rp_more]; change (resp_body_ r) with (resp_body_ (response_ t));
        rewrite Hbody; simpl; lia).
  destruct (reads_reply _ _ _ [] Hx Hf init_idle) as (sc & hs & idx & F & Hreads).
  unfold reply_events, rp_body, rp_close in Hreads. cbn [rp_items rp_response rp_more resp_body_ r file_response] in Hreads.
  rewrite Hbody in Hreads. eexists. split.
  - apply (feed_reads mx_ok); [apply init_ready | done | done | done |]. rewrite Heq. exact Hreads.
  - simpl. by destruct (keep_alive_ (request_ t)).
Qed.
End served.

(** ** The demo is an application as the server wants it *)

(** Its responses have no headers of their own, a short type, and a size of 32 bits. *)
Definition demo_response (r : HttpResponse) (c : option FILE) : Prop :=
  resp_headers_ r = ∅ /\ (length (content_type_ r) <= 40)%nat /\ 0 <= content_len_ r < 2 ^ 32.

Section application.
Context {SqlHandler D : Type}.
Context (mysql_query : SqlHandler -> text -> D -> bool * D).
Context (mysql_store_result : SqlHandler -> D -> option (list (option text * option text)) * D).
Context (root_dir : text) (file_size : text -> option Z) (fopen : text -> option text).
Context (iterate : gmap text text -> list (text * text)) (Hit : iterate ∅ = []).
Abbreviation http_callback := (http_callback mysql_query mysql_store_result root_dir file_size fopen).
Implicit Types t : HttpTask FILE.

Lemma answer_ok t r sp c :
  task_ok demo_response t -> resp_body_ r = resp_body_ (response_ t) -> demo_response r c ->
  known (code_ r) = true ->
  let t' := mk_task (parser_ t) (header_field_ t) (completed_ t) (request_ t) r sp c in
  task_ok demo_response t' /\ known (code_ (response_ t')) = true /\
  sized (iterate (resp_headers_ (response_ t'))) (response_ t').
Proof.
  intros [H1 H2 H3 H4] Hb (Hh & Ht & Hl) Hk. simpl. split; [| split; [exact Hk |]].
  - split; simpl; [done | done | by rewrite Hb | done].
  - rewrite Hh, Hit. split; [constructor |]. split; [| exact Hl]. apply small_text.
    rewrite !length_app. change (length (bytes "Content-type: ")) with 14%nat.
    change (length CRLF) with 2%nat. lia.
Qed.

#[export] Instance demo_Application w :
  Application (http_callback w) process_file iterate demo_response.
Proof.
  assert (forall path t, task_ok demo_response t ->
    let t' := served root_dir file_size fopen path t in
    task_ok demo_response t' /\ known (code_ (response_ t')) = true /\
    sized (iterate (resp_headers_ (response_ t'))) (response_ t')) as Hserved.
  { intros path t Ht. pose proof (tk_app _ _ Ht) as (Hh & Hty & Hl). unfold served.
    destruct (file_size (root_dir ++ path)) as [len |]; [destruct (fopen (root_dir ++ path)) as [c |] |];
      apply answer_ok; try done. split; [exact Hh |]. split; [apply file_type_ok | apply u32_range]. }
  assert (forall code t, known code = true -> task_ok demo_response t ->
    let t' := refused code t in
    task_ok demo_response t' /\ known (code_ (response_ t')) = true /\
    sized (iterate (resp_headers_ (response_ t'))) (response_ t')) as Hrefused.
  { intros code t Hk Ht. apply answer_ok; [done | done | apply (tk_app _ _ Ht) | exact Hk]. }
  split.
  - intros r. split; [done |]. split; simpl; lia.
  - intros t t' Ht H. unfold HttpMain.http_callback in H. apply bind_Ok in H as (x & H & [= <-]).
    rewrite on_request_eq in H. case_bool_decide; [| case_bool_decide].
    + apply bind_Ok in H as ([[path |] w1] & _ & [= <-]); cbn [fst snd].
      * rewrite open_file_ok. by apply Hserved.
      * exact (Hrefused 404 t eq_refl Ht).
    + injection H as <-. cbn [fst]. rewrite open_file_ok. by apply Hserved.
    + injection H as <-. exact (Hrefused 400 t eq_refl Ht).
  - intros t b r Ht Hi. destruct new_buffer as (b0 & Hi' & Hb & _ & _ & Hw).
    assert (b0 = b) as -> by congruence. clear Hi Hi'. unfold process_file.
    destruct (context_ t) as [[c cl] |]; cbn [is_closed unread]; [| by intros [= <-]].
    destruct cl; [done |]. destruct Ht as [H1 H2 H3 H4].
    destruct (take (Z.to_nat InitialSize) c) as [| x l] eqn:Htake; [by intros [= <-] |].
    destruct (receive_ok b Hb (x :: l)) as (b' & -> & Hb' & _).
    { rewrite Hw, <- Htake. unfold vsize. rewrite length_take. change (Z.to_nat InitialSize) with 1024%nat.
      unfold InitialSize. lia. }
    by intros [= <-].
Qed.

(** Whatever happens to its connections, all that can be undefined in the demo is the use
    of a file or of MySQL in its own callbacks, and the logging. *)
Corollary demo_server_safe w LOGGER (es : list TcpConnection.event) :
  Forall event_ok es ->
  match session (http_callbacks (http_callback w) process_file iterate LOGGER) (Ok None) es with
  | Ok n => safe (context_ok (http_callback w) process_file demo_response LOGGER) n
  | Throw _ => True
  | Undefined _ => False
  end.
Proof. intros Hes. by apply (session_safe _ (context_ok (http_callback w) process_file demo_response LOGGER)). Qed.
End application.

(** ** Properties *)

(** C14. The form of a POST request.  Of fields whose names and values are words, sent as a
    browser sends them, the demo reads back every one, the last value of a field that is
    given twice; the user and the password are those of the form, and when one of the
    two is missing [at] throws and nothing catches it.  A form without fields is read as
    an empty user with an empty password. *)
Theorem posted_form_is_read (req : HttpRequest) (l : list (text * text)) :
  words l -> buffer_ok (body_ req) -> contents (body_ req) = form l ->
  get_header (bytes "Content-Type") req = Some (bytes "application/x-www-form-urlencoded") ->
  parse_postbody (body_ req) ∅ = Ok (form_map l ∅) /\
  form_user req =
    match l, form_map l ∅ !! bytes "user", form_map l ∅ !! bytes "password" with
    | [], _, _ => Ok ([], [])
    | _, Some user, Some pwd => Ok (user, pwd)
    | _, _, _ => Throw "std::out_of_range"
    end.
Proof.
  intros Hl Hb Hc Hh. pose proof (parse_form (body_ req) l ∅ Hb Hc Hl) as Hp. split; [exact Hp |].
  unfold form_user. rewrite Hh, bool_decide_true by done. rewrite Hp. cbn [mbind outcome_bind].
  destruct l as [| kv l]; [by rewrite decide_True |]. rewrite decide_False.
  - unfold map_at. destruct (_ !! bytes "user"); [| done]. by destruct (_ !! bytes "password").
  - apply form_map_ne.
Qed.

(** C15. A form cannot change the meaning of the queries.  Whatever bytes the body of a POST
    request has, the user and the password are made of letters, digits and underscores,
    so each of the two queries has no quotes but those of its template. *)
Theorem queries_keep_their_shape (req : HttpRequest) (user pwd : text) :
  buffer_ok (body_ req) -> form_user req = Ok (user, pwd) ->
  forallb is_word user = true /\ forallb is_word pwd = true /\
  quotes (select_query user) = 2%nat /\ quotes (insert_query user pwd) = 4%nat.
Proof.
  intros Hb Hf. destruct (form_user_words req user pwd Hb Hf) as [Hu Hp]. split_and!; [done | done | |].
  - unfold select_query. by rewrite !quotes_app, (word_quotes user).
  - unfold insert_query. by rewrite !quotes_app, (word_quotes user), (word_quotes pwd).
Qed.

Section properties.
Context {SqlHandler D : Type}.
Context (mysql_query : SqlHandler -> text -> D -> bool * D).
Context (mysql_store_result : SqlHandler -> D -> option (list (option text * option text)) * D).
Context (root_dir : text) (file_size : text -> option Z) (fopen : text -> option text).
Abbreviation on_request := (on_request mysql_query mysql_store_result root_dir file_size fopen).
Implicit Types t : HttpTask FILE.

End properties.

(** ** Examples *)

(** A directory with one page, and a database that knows nobody. *)
Definition demo_root : text := bytes "/srv".
Definition demo_file (path : text) : option text :=
  if bool_decide (path = bytes "/srv/index.html") then Some (bytes "hello") else None.
Definition demo_size (path : text) : option Z := (fun c => Z.of_nat (length c)) <$> demo_file path.
Definition no_error (_ : unit) (_ : text) (d : unit) : bool * unit := (false, d).
Definition no_rows (_ : unit) (d : unit) : option (list (option text * option text)) * unit := (Some [], d).
Definition demo_world : world (SqlHandler:=unit) (D:=unit) := (HttpMain.mk_pool [tt] [], tt).
Definition empty_buffer : Buffer := mk_Buffer [Byte.x00] 0 0.

Definition demo_task (method url : string) (body : Buffer) : HttpTask FILE :=
  mk_task (http_parser_init HTTP_REQUEST) [] true
    (mk_request (bytes method) (bytes url) true
       {[ bytes "Content-Type" := bytes "application/x-www-form-urlencoded" ]} body)
    (mk_response 200 true [] 0 ∅ empty_buffer) false None.
Definition demo_callback := HttpMain.http_callback no_error no_rows demo_root demo_size demo_file demo_world.

Definition tom : text := bytes "user=tom&password=cat_7".
Definition tom_buffer : Buffer := mk_Buffer tom 0 (vsize tom).

Lemma empty_buffer_ok : buffer_ok empty_buffer.
Proof. split; vm_compute; intuition discriminate. Qed.
Lemma tom_buffer_ok : buffer_ok tom_buffer.
Proof. split; vm_compute; intuition discriminate. Qed.

Lemma file_is_served_witness : exists head t1 chunks t2,
  HttpServer.on_request demo_callback map_to_list (demo_task "GET" "/" empty_buffer) =
    Ok ([Send_buffer (Some head)], t1) /\
  pump 6 t1 = Ok (chunks, [], t2) /\ concat chunks = bytes "hello" /\
  forall pieces, Forall piece pieces -> concat pieces = contents head ++ concat chunks ->
    exists p', feed rec max_header_size_init pieces (http_parser_init HTTP_RESPONSE) [] =
      Some (p', head_events [] (file_response (bytes "/srv/index.html") true 5 empty_buffer) ++
                sent for_body (bytes "hello") ++ [inl for_message_complete]).
Proof.
  destruct (file_is_served no_error no_rows demo_root demo_size demo_file map_to_list demo_world
    (demo_task "GET" "/" empty_buffer) (bytes "hello")) as (head & t1 & chunks & t2 & H1 & H2 & H3 & _ & _ & H4).
  - apply map_to_list_empty.
  - reflexivity.
  - vm_compute. reflexivity.
  - vm_compute. reflexivity.
  - split; vm_compute; reflexivity.
  - reflexivity.
  - apply empty_buffer_ok.
  - reflexivity.
  - exists head, t1, chunks, t2. split; [exact H1 |]. split; [exact H2 |]. split; [exact H3 |].
    intros pieces Hp Hc. destruct (H4 pieces Hp Hc) as (p' & Hf & _). exists p'. exact Hf.
Defined.

Lemma posted_form_is_read_witness :
  form_user (request_ (demo_task "POST" "/login" tom_buffer)) = Ok (bytes "tom", bytes "cat_7").
Proof.
  apply (posted_form_is_read (request_ (demo_task "POST" "/login" tom_buffer))
    [(bytes "user", bytes "tom"); (bytes "password", bytes "cat_7")]).
  - repeat constructor; discriminate.
  - apply tom_buffer_ok.
  - vm_compute. reflexivity.
  - vm_compute. reflexivity.
Defined.

Lemma queries_keep_their_shape_witness :
  quotes (select_query (bytes "tom")) = 2%nat /\ quotes (insert_query (bytes "tom") (bytes "cat_7")) = 4%nat.
Proof.
  apply (queries_keep_their_shape (request_ (demo_task "POST" "/login" tom_buffer))).
  - apply tom_buffer_ok.
  - vm_compute. reflexivity.
Defined.


(** The URL of a request is not inspected: it may leave the directory. *)
Lemma url_leaves_directory :
  get_path (bytes "/../etc/passwd") = bytes "/../etc/passwd".
Proof. by vm_compute. Qed.

(** A signal to end the program stops the loop. *)
Lemma sigint_stops :
  Cpp.wp (EventLoop.steps (fun _ => true) (fun _ => on_signal) EventLoop_init
            (main_setup ++ [EventLoop.Run 0; EventLoop.Run 0; EventLoop.Occurs SIGINT; EventLoop.Run 0]))
    (fun s => stopped s = true).
Proof. by vm_compute. Qed.

(** Without worker threads the file of a response that closes the connection is read after
    [fclose]: the last buffer is written twice (see [TcpConnection]), and the completion of
    the second write asks for more. *)
Definition demo_callbacks (LOGGER : Logger) : callbacks context :=
  http_callbacks demo_callback process_file map_to_list LOGGER.
Lemma closed_file_is_read :
  exists n, session (demo_callbacks Logger_new) (Ok None)
      [TcpConnection.Received (bytes "GET / HTTP/1.0" ++ CRLF ++ CRLF); Sent; Sent; Sent] = Ok n /\
    user n = Undefined "fread of a FILE that was closed".
Proof. eexists. split; [vm_compute; reflexivity |]. vm_compute. reflexivity. Qed.

(** With the logger as [main] sets it, a full buffer without a zero byte is read past its end. *)
Lemma main_reads_past_the_end :
  exists n, session (demo_callbacks main_logger) (Ok None)
      [TcpConnection.Received (replicate 1024 Byte.x41)] = Ok n /\ user n = Undefined past_the_end.
Proof. eexists. split; [vm_compute; reflexivity |]. vm_compute. reflexivity. Qed.
