(* ===== verification/HttpUrlTheorems.v ===== *)
(** * HttpUrlTheorems: the URL parser

    The invariant of the result structure while [http_parser_parse_url] runs, and
    the theorems that follow: no undefined behaviour on any buffer, fields inside
    the buffer, no control characters in an accepted URL, the value of the port. *)

From S2P Require Import Prelude.
From S2P Require Import HttpTables.
From S2P Require Import HttpUrl.
From S2P Require Import HttpInvariant.
From stdpp Require Import vector list.
Local Open Scope Z_scope.

(** ** The fields of the structure *)

Abbreviation fld := url_field_of.

Lemma uf_index_inj f g : uf_index f = uf_index g -> f = g.
Proof. by destruct f, g. Qed.

Lemma url_field_set_field f g d u :
  fld (set_field f d u) g = if decide (f = g) then d else fld u g.
Proof.
  unfold url_field_of, set_field. simpl. case_decide as Hd.
  - subst g. apply vlookup_insert.
  - apply vlookup_insert_ne. by intros ?%uf_index_inj.
Qed.

Lemma uf_bit_range f : 0 <= uf_bit f < 2 ^ 7.
Proof. destruct f; vm_compute; split; congruence. Qed.

Lemma uf_is_set_testbit u f : uf_is_set u f = Z.testbit (field_set u) (Z.of_nat (uf_index f)).
Proof. apply land_bit. lia. Qed.

Lemma field_set_mark_set f u :
  0 <= field_set u < 2 ^ 7 -> field_set (mark_set f u) = Z.lor (field_set u) (uf_bit f).
Proof.
  intros Hu. unfold mark_set. simpl. apply u16_small.
  pose proof (lor_range (field_set u) (uf_bit f) 7 ltac:(lia) Hu (uf_bit_range f)). lia.
Qed.

Lemma uf_is_set_mark_set f g u :
  0 <= field_set u < 2 ^ 7 ->
  uf_is_set (mark_set f u) g = bool_decide (f = g) || uf_is_set u g.
Proof.
  intros Hu. rewrite !uf_is_set_testbit, field_set_mark_set by done. unfold uf_bit.
  rewrite testbit_lor_bit by lia. f_equal. case_bool_decide as Hd; [subst; apply Z.eqb_refl |].
  apply Z.eqb_neq. intros Heq. apply Hd, uf_index_inj, fin_to_nat_inj. lia.
Qed.

(** ** The invariant *)

(** The fields that are set are inside the first [p] characters. *)
Definition field_ok (p : Z) (d : url_field) : Prop :=
  0 <= uf_off d < 65536 /\ 0 <= uf_len d < 65536 /\ uf_off d + uf_len d <= p.
Record fields_inv (F : http_parser_url_fields -> Prop) (p : Z) (u : http_parser_url)
    : Prop := {
  ui_set : 0 <= field_set u < 2 ^ 7;
  ui_fields f : F f -> uf_is_set u f = true -> field_ok p (fld u f)
}.

(** Of all the fields, and of those that [http_parse_host] sets. *)
Abbreviation url_inv := (fields_inv (fun _ => True)).
Definition in_host (f : http_parser_url_fields) : Prop :=
  f = UF_HOST \/ f = UF_PORT \/ f = UF_USERINFO.

Lemma u16_le z : 0 <= z -> 0 <= u16 z <= z.
Proof.
  intros. unfold u16. split; [apply Z.mod_pos_bound; lia | apply Z.mod_le; lia].
Qed.

Lemma url_inv_mono F p p' u : p <= p' -> fields_inv F p u -> fields_inv F p' u.
Proof.
  intros Hp [Hs Hf]. split; [done |]. intros f HF Hset. destruct (Hf f HF Hset) as (? & ? & ?).
  split_and!; try done; lia.
Qed.

Lemma url_inv_set_field F p f d u :
  fields_inv F p u -> field_ok p d -> fields_inv F p (set_field f d u).
Proof.
  intros [Hs Hf] Hd. split; [done |]. intros g HF Hset.
  rewrite url_field_set_field. case_decide; [done |]. by apply Hf.
Qed.

Lemma url_inv_mark_set F p f u :
  fields_inv F p u -> field_ok p (fld u f) -> fields_inv F p (mark_set f u).
Proof.
  intros [Hs Hf] Hd. split.
  - rewrite field_set_mark_set by done. apply (lor_range _ _ 7); [lia | done | apply uf_bit_range].
  - intros g HF. rewrite uf_is_set_mark_set by done.
    change (fld (mark_set f u) g) with (fld u g).
    case_bool_decide; [by subst | by apply Hf].
Qed.

(** A new field of length 1 at [p]. *)
Lemma field_ok_new p n : 0 <= p -> 0 <= n <= 1 -> field_ok (p + 1) (mk_url_field (u16 p) n).
Proof.
  intros Hp Hn. pose proof (u16_le p Hp). pose proof (u16_range p).
  split_and!; simpl; lia.
Qed.

Lemma url_inv_incr_len F p f u :
  F f -> fields_inv F p u -> uf_is_set u f = true -> fields_inv F (p + 1) (incr_len f u).
Proof.
  intros HF Hu Hset. pose proof (ui_fields _ _ _ Hu f HF Hset) as (Ho & Hl & Hsum).
  apply url_inv_set_field; [apply (url_inv_mono _ p); [lia | done] |].
  pose proof (u16_le (uf_len (fld u f) + 1) ltac:(lia)).
  pose proof (u16_range (uf_len (fld u f) + 1)).
  split_and!; simpl; lia.
Qed.

(** A field that starts at [p], with length [n]. *)
Definition start_field (f : http_parser_url_fields) (n p : Z) (u : http_parser_url) :=
  mark_set f (set_len f n (set_off f (u16 p) u)).

Lemma fld_start_field f n p u g :
  fld (start_field f n p u) g = if decide (f = g) then mk_url_field (u16 p) n else fld u g.
Proof.
  unfold start_field. change (fld (mark_set f ?v) g) with (fld v g).
  unfold set_len, set_off. rewrite !url_field_set_field. simpl.
  rewrite (decide_True (P := f = f)) by done. by case_decide.
Qed.

Lemma url_inv_start_field F f n p u :
  fields_inv F p u -> 0 <= p -> 0 <= n <= 1 -> fields_inv F (p + 1) (start_field f n p u).
Proof.
  intros Hu Hp Hn. pose proof (field_ok_new p n Hp Hn) as Hnew. apply url_inv_mark_set.
  - apply url_inv_mono with (p' := p + 1) in Hu; [| lia]. destruct Hu as [Hs Hf].
    split; [done |]. intros g HF Hset. change (field_ok (p + 1) (fld (start_field f n p u) g)).
    rewrite fld_start_field. case_decide; [done | by apply Hf].
  - change (field_ok (p + 1) (fld (start_field f n p u) f)).
    rewrite fld_start_field. by rewrite decide_True.
Qed.

Lemma uf_is_set_start_field f n p u g :
  0 <= field_set u < 2 ^ 7 ->
  uf_is_set (start_field f n p u) g = bool_decide (f = g) || uf_is_set u g.
Proof. intros Hu. unfold start_field. by rewrite uf_is_set_mark_set. Qed.

(** ** The main loop *)

(** The characters that no URL contains. *)
Definition url_forbidden (c : Z) : bool :=
  (c =? " "%ch) || (c =? CR) || (c =? LF) || (c =? TAB) || (c =? FF).

Lemma parse_url_char_forbidden s c : url_forbidden c = true -> parse_url_char s c = s_dead.
Proof.
  unfold url_forbidden, parse_url_char. intros Hc.
  destruct ((c =? " "%ch) || (c =? CR) || (c =? LF)); [done |]. simpl in Hc. by rewrite Hc.
Qed.

Lemma url_action_known s c : url_action_of (parse_url_char s c) <> url_unexpected.
Proof. destruct (parse_url_char_states s c) as [-> | H]; [done |]. by destruct (parse_url_char s c). Qed.

Lemma url_action_alive s c :
  url_action_of (parse_url_char s c) <> url_dead -> url_forbidden c = false.
Proof.
  intros Ha. destruct (url_forbidden c) eqn:Hc; [| done].
  by rewrite (parse_url_char_forbidden s c Hc) in Ha.
Qed.

Lemma url_loop_ok l p s old found u :
  0 <= p -> url_inv p u -> (forall f, old = Some f -> uf_is_set u f = true) ->
  exists r, url_loop l p s old found u = Some r /\
    match r with
    | inl _ => True
    | inr (_, u') => url_inv (p + Z.of_nat (length l)) u' /\ port u' = port u /\
                     Forall (fun b => url_forbidden (uchar b) = false) l
    end.
Proof.
  revert p s old found u. induction l as [| b l IH]; intros p s old found u Hp Hu Hold.
  { eexists. split; [done |]. split_and!; [| done | constructor].
    apply (url_inv_mono _ p); [simpl; lia | done]. }
  assert (forall s' old' fa' u1, port u1 = port u -> url_inv (p + 1) u1 ->
    (forall f, old' = Some f -> uf_is_set u1 f = true) -> url_forbidden (uchar b) = false ->
    exists r, url_loop l (p + 1) s' old' fa' u1 = Some r /\
      match r with
      | inl _ => True
      | inr (_, u') => url_inv (p + Z.of_nat (length (b :: l))) u' /\ port u' = port u /\
                       Forall (fun b => url_forbidden (uchar b) = false) (b :: l)
      end) as Hstep.
  { intros s' old' fa' u1 Hport Hu1 Hold1 Hb.
    destruct (IH (p + 1) s' old' fa' u1) as (r & -> & Hr); [lia | done | done |].
    eexists. split; [done |]. destruct r as [| [fa u']]; [done |].
    destruct Hr as (Hu' & Hport' & Hl). split_and!; [| congruence | by constructor].
    by replace (p + Z.of_nat (length (b :: l))) with (p + 1 + Z.of_nat (length l))
      by (simpl; lia). }
  cbn [url_loop]. pose proof (url_action_known s (uchar b)) as Hknown.
  pose proof (url_action_alive s (uchar b)) as Halive.
  destruct (url_action_of (parse_url_char s (uchar b))) as [| | f |]; try done.
  - by eexists.
  - apply Hstep; auto. apply (url_inv_mono _ p); [lia | done].
  - case_decide as Hd.
    + apply Hstep; [done | by apply url_inv_incr_len; auto | | by apply Halive].
      intros g Hg. by apply Hold.
    + apply Hstep; [done | by apply url_inv_start_field; [| | lia] | | by apply Halive].
      intros g [= ->]. change (uf_is_set (start_field g 1 p u) g = true).
      rewrite uf_is_set_start_field by apply Hu. by rewrite bool_decide_true.
Qed.

(** [http_parser_parse_url] sets the port and the user information in
    [http_parse_host] only. *)
Lemma url_loop_component s c f :
  url_action_of (parse_url_char s c) = url_component f -> f <> UF_PORT /\ f <> UF_USERINFO.
Proof. destruct (parse_url_char s c); simpl; intros [= <-]; done. Qed.

Lemma url_loop_unset l p s old found u g :
  g = UF_PORT \/ g = UF_USERINFO -> 0 <= field_set u < 2 ^ 7 -> uf_is_set u g = false ->
  match url_loop l p s old found u with
  | Some (inr (_, u')) => uf_is_set u' g = false
  | _ => True
  end.
Proof.
  intros Hg. revert p s old found u. induction l as [| b l IH]; intros p s old found u Hs Hu; [done |].
  cbn [url_loop]. destruct (url_action_of _) as [| | f |] eqn:Ha;
    [done | by apply IH | | done].
  apply url_loop_component in Ha as [Hf1 Hf2]. case_decide.
  - by apply IH.
  - apply IH.
    + change (0 <= field_set (mark_set f u) < 2 ^ 7). rewrite field_set_mark_set by done.
      apply (lor_range _ _ 7); [lia | done | apply uf_bit_range].
    + change (uf_is_set (start_field f 1 p u) g = false).
      rewrite uf_is_set_start_field by done. rewrite Hu. apply orb_false_iff. split; [| done].
      apply bool_decide_eq_false. intros ->. destruct Hg as [-> | ->]; done.
Qed.

(** ** The host *)

(** The bytes of a buffer from [p] on, [n] of them. *)
Definition slice (buf : list Byte.byte) (p n : nat) : list Byte.byte := take n (drop p buf).

Lemma slice_snoc buf p n b :
  buf !! (p + n)%nat = Some b -> slice buf p (S n) = slice buf p n ++ [b].
Proof.
  intros Hb. unfold slice. apply take_S_r. by rewrite lookup_drop.
Qed.

Definition is_digit (b : Byte.byte) : Prop := IS_NUM (uchar b) = true.

(** What the state of the host automaton says of the structure. *)
Record host_inv (buf : list Byte.byte) (p : Z) (s : http_host_state) (u : http_parser_url)
    : Prop := {
  hi_url : fields_inv in_host p u;
  hi_host : uf_is_set u UF_HOST = true;
  hi_empty : s = s_http_userinfo_start \/ s = s_http_userinfo \/ s = s_http_host_start
             \/ s = s_http_host_v6_start -> uf_len (fld u UF_HOST) = 0;
  hi_userinfo : s = s_http_userinfo -> uf_is_set u UF_USERINFO = true;
  hi_port : s = s_http_host_port <-> uf_is_set u UF_PORT = true;
  hi_digits : Z.of_nat (length buf) < 65536 -> uf_is_set u UF_PORT = true ->
    uf_off (fld u UF_PORT) + uf_len (fld u UF_PORT) = p /\
    Forall is_digit (slice buf (Z.to_nat (uf_off (fld u UF_PORT)))
                       (Z.to_nat (uf_len (fld u UF_PORT))))
}.

(** The edges of the host automaton, by the state they lead to. *)
Definition host_edge (s s' : http_host_state) (c : Z) : Prop :=
  match s' with
  | s_http_host_start | s_http_userinfo => s = s_http_userinfo \/ s = s_http_userinfo_start
  | s_http_host_v6_start => s = s_http_host_start
  | s_http_host => s = s_http_host_start \/ s = s_http_host
  | s_http_host_v6 => s = s_http_host_v6_start \/ s = s_http_host_v6
  | s_http_host_port => IS_NUM c = true /\ (s = s_http_host_port_start \/ s = s_http_host_port)
  | s_http_userinfo_start => False
  | _ => s <> s_http_host_port
  end.

Lemma host_edge_ok s c :
  http_parse_host_char s c <> s_http_host_dead -> host_edge s (http_parse_host_char s c) c.
Proof. unfold http_parse_host_char. destruct s; repeat case_match; simpl; auto; done. Qed.

Lemma fld_incr_len f u g :
  fld (incr_len f u) g =
  if decide (f = g) then mk_url_field (uf_off (fld u f)) (u16 (uf_len (fld u f) + 1)) else fld u g.
Proof. apply url_field_set_field. Qed.

Lemma fld_set_off f v u g :
  fld (set_off f v u) g =
  if decide (f = g) then mk_url_field v (uf_len (fld u f)) else fld u g.
Proof. apply url_field_set_field. Qed.

(** A step that leaves the port alone. *)
Lemma host_inv_step buf p s s' u u' :
  host_inv buf p s u -> fields_inv in_host (p + 1) u' ->
  (forall g, g <> UF_USERINFO -> uf_is_set u' g = uf_is_set u g) ->
  s <> s_http_host_port -> s' <> s_http_host_port ->
  (s' = s_http_userinfo_start \/ s' = s_http_userinfo \/ s' = s_http_host_start
   \/ s' = s_http_host_v6_start -> uf_len (fld u' UF_HOST) = 0) ->
  (s' = s_http_userinfo -> uf_is_set u' UF_USERINFO = true) ->
  host_inv buf (p + 1) s' u'.
Proof.
  intros [Hu Hhost _ _ Hport _] Hu' Hset Hs Hs' Hempty Huser.
  split; try done; rewrite ?Hset by done; [done | |]; rewrite <- ?Hport; tauto.
Qed.

(** The first character of a field. *)
Lemma url_inv_first f p u :
  fields_inv in_host p u -> 0 <= p ->
  fields_inv in_host (p + 1) (incr_len f (start_field f 0 p u)).
Proof.
  intros Hu Hp. pose proof (url_inv_start_field in_host f 0 p u Hu Hp ltac:(lia)) as Hs.
  apply url_inv_set_field; [done |]. rewrite fld_start_field, decide_True by done. simpl.
  apply (field_ok_new p 1); lia.
Qed.

Lemma url_inv_first_host p u :
  fields_inv in_host p u -> 0 <= p -> uf_len (fld u UF_HOST) = 0 ->
  fields_inv in_host (p + 1) (incr_len UF_HOST (set_off UF_HOST (u16 p) u)).
Proof.
  intros Hu Hp Hlen. split; [apply Hu |]. intros g HF Hset.
  rewrite fld_incr_len, !fld_set_off, (decide_True (P := UF_HOST = UF_HOST)) by done.
  simpl. rewrite Hlen. case_decide; [apply (field_ok_new p 1); lia |].
  apply (url_inv_mono _ p (p + 1)) in Hu; [by apply Hu | lia].
Qed.

Lemma fld_first f p u :
  fld (incr_len f (start_field f 0 p u)) f = mk_url_field (u16 p) 1.
Proof. rewrite fld_incr_len, decide_True, fld_start_field, decide_True by done. done. Qed.

Lemma host_record_host buf p s s' u :
  s' = s_http_host \/ s' = s_http_host_v6 -> 0 <= p -> host_inv buf p s u ->
  s <> s_http_host_port -> (s = s' \/ uf_len (fld u UF_HOST) = 0) ->
  host_inv buf (p + 1) s'
    (incr_len UF_HOST (if decide (s = s') then u else set_off UF_HOST (u16 p) u)).
Proof.
  intros Hs' Hp Hinv Hs Hlen. pose proof (hi_url _ _ _ _ Hinv) as Hu.
  apply (host_inv_step _ _ s _ u); try done; [| by case_decide | destruct Hs' as [-> | ->]; done
    | intuition congruence | intuition congruence].
  case_decide as Hd.
  - by apply url_inv_incr_len; [left | | apply (hi_host _ _ _ _ Hinv)].
  - destruct Hlen as [? | Hlen]; [done |]. by apply url_inv_first_host.
Qed.

Lemma host_record_userinfo buf p s u :
  0 <= p -> host_inv buf p s u -> s = s_http_userinfo \/ s = s_http_userinfo_start ->
  host_inv buf (p + 1) s_http_userinfo
    (incr_len UF_USERINFO
       (if decide (s = s_http_userinfo) then u else start_field UF_USERINFO 0 p u)).
Proof.
  intros Hp Hinv Hs. pose proof (hi_url _ _ _ _ Hinv) as Hu.
  pose proof (hi_empty _ _ _ _ Hinv) as Hempty.
  pose proof (hi_userinfo _ _ _ _ Hinv) as Huser.
  assert (s <> s_http_host_port) by (destruct Hs; congruence).
  apply (host_inv_step _ _ s _ u); try done; case_decide as Hd.
  - by apply url_inv_incr_len; unfold in_host; auto.
  - by apply url_inv_first.
  - done.
  - intros g Hg. change (uf_is_set (start_field UF_USERINFO 0 p u) g = uf_is_set u g).
    rewrite uf_is_set_start_field by apply Hu. by rewrite bool_decide_false.
  - intros _. rewrite fld_incr_len, decide_False by done. tauto.
  - intros _. rewrite fld_incr_len, decide_False by done.
    rewrite fld_start_field, decide_False by done. tauto.
  - intros _. by apply Huser.
  - intros _. change (uf_is_set (start_field UF_USERINFO 0 p u) UF_USERINFO = true).
    rewrite uf_is_set_start_field by apply Hu. by rewrite bool_decide_true.
Qed.

Lemma host_record_port buf p s u b :
  host_inv buf (Z.of_nat p) s u -> buf !! p = Some b -> IS_NUM (uchar b) = true ->
  s = s_http_host_port_start \/ s = s_http_host_port ->
  host_inv buf (Z.of_nat p + 1) s_http_host_port
    (incr_len UF_PORT
       (if decide (s = s_http_host_port) then u else start_field UF_PORT 0 (Z.of_nat p) u)).
Proof.
  intros Hinv Hb Hdigit Hs. pose proof Hinv as [Hu Hhost Hempty Huser Hport Hdig].
  pose proof (lookup_lt_Some _ _ _ Hb) as Hlt. case_decide as Hd.
  - apply proj1 in Hport. specialize (Hport Hd).
    split; [| done | intuition discriminate | done | |].
    + apply url_inv_incr_len; unfold in_host; auto.
    + split; [done | by intros _].
    + intros Hlen _. specialize (Hdig Hlen Hport) as [Hp Hall].
      pose proof (ui_fields _ _ _ Hu UF_PORT ltac:(unfold in_host; auto) Hport) as (Ho & Hl & _).
      rewrite fld_incr_len, decide_True by done. simpl.
      rewrite u16_small by lia. split; [lia |].
      replace (Z.to_nat (uf_len (fld u UF_PORT) + 1))
        with (S (Z.to_nat (uf_len (fld u UF_PORT)))) by lia.
      rewrite (slice_snoc _ _ _ b) by (rewrite <- Hb; f_equal; lia).
      apply Forall_app. split; [done | by repeat constructor].
  - assert (uf_is_set (incr_len UF_PORT (start_field UF_PORT 0 (Z.of_nat p) u)) UF_PORT = true)
      as Hset.
    { change (uf_is_set (start_field UF_PORT 0 (Z.of_nat p) u) UF_PORT = true).
      rewrite uf_is_set_start_field by apply Hu. by rewrite bool_decide_true. }
    split; [| | intuition discriminate | done | done |].
    + apply url_inv_first; [done | lia].
    + change (uf_is_set (start_field UF_PORT 0 (Z.of_nat p) u) UF_HOST = true).
      rewrite uf_is_set_start_field by apply Hu. by rewrite bool_decide_false.
    + intros Hlen _. rewrite fld_first. simpl. rewrite u16_small by lia. split; [done |].
      rewrite Nat2Z.id. change (Z.to_nat 1) with 1%nat.
      rewrite (slice_snoc _ _ _ b) by (by rewrite Nat.add_0_r). by repeat constructor.
Qed.

Lemma host_record_ok buf p s u b :
  host_inv buf (Z.of_nat p) s u -> buf !! p = Some b ->
  http_parse_host_char s (uchar b) <> s_http_host_dead ->
  host_inv buf (Z.of_nat p + 1) (http_parse_host_char s (uchar b))
    (host_record s (http_parse_host_char s (uchar b)) (Z.of_nat p) u).
Proof.
  intros Hinv Hb Hdead. pose proof (host_edge_ok s (uchar b) Hdead) as Hedge.
  pose proof (hi_empty _ _ _ _ Hinv) as Hempty.
  pose proof (url_inv_mono _ (Z.of_nat p) (Z.of_nat p + 1) u ltac:(lia) (hi_url _ _ _ _ Hinv)) as Hmono.
  pose proof (url_inv_incr_len in_host _ UF_HOST u (or_introl eq_refl)
                (hi_url _ _ _ _ Hinv) (hi_host _ _ _ _ Hinv)) as Hincr.
  destruct (http_parse_host_char s (uchar b)) eqn:Hs'; simpl in Hedge; try done; simpl.
  all: try (apply host_record_host; [tauto | lia | done | intuition congruence | tauto]).
  all: try (apply host_record_userinfo; [lia | done | tauto]).
  all: try (apply (host_record_port _ _ _ _ b); tauto).
  all: apply (host_inv_step _ _ s _ u); intuition congruence.
Qed.

(** [port] is not touched before the end. *)
Lemma port_host_record s s' p u : port (host_record s s' p u) = port u.
Proof. unfold host_record. by repeat case_match. Qed.

(** The other fields are left alone. *)
Definition same_fields (u u' : http_parser_url) : Prop :=
  forall g, ~ in_host g -> fld u' g = fld u g /\ uf_is_set u' g = uf_is_set u g.

Lemma same_fields_incr_len u u' f :
  in_host f -> same_fields u u' -> same_fields u (incr_len f u').
Proof.
  intros Hf Hs g Hg. rewrite fld_incr_len, decide_False by congruence. by apply Hs.
Qed.

Lemma same_fields_host_record s s' p u :
  0 <= field_set u < 2 ^ 7 -> same_fields u (host_record s s' p u).
Proof.
  intros Hu. assert (same_fields u u) as Hrefl by done.
  assert (forall f, in_host f -> same_fields u (start_field f 0 p u)) as Hstart.
  { intros f Hf g Hg. rewrite fld_start_field, uf_is_set_start_field by done.
    by rewrite decide_False, bool_decide_false by congruence. }
  unfold host_record. destruct s'; try done;
    (apply same_fields_incr_len; [unfold in_host; tauto |]);
    try case_decide; try done; try (apply Hstart; unfold in_host; tauto);
    intros g Hg; rewrite fld_set_off, decide_False by (intros <-; apply Hg; by left); done.
Qed.

Lemma host_loop_ok buf n p s u :
  (p + n <= length buf)%nat -> host_inv buf (Z.of_nat p) s u ->
  exists r, host_loop buf n p s u = Some r /\
    match r with
    | inl _ => True
    | inr (s', u') =>
        host_inv buf (Z.of_nat (p + n)) s' u' /\ port u' = port u /\ same_fields u u'
    end.
Proof.
  revert p s u. induction n as [| n IH]; intros p s u Hn Hinv; simpl.
  { eexists. split; [done |]. by rewrite Nat.add_0_r. }
  destruct (lookup_lt_is_Some_2 buf p) as [b Hb]; [lia |]. rewrite Hb.
  case_decide as Hd; [by eexists |].
  set (s1 := http_parse_host_char s (uchar b)) in *.
  destruct (IH (S p) s1 (host_record s s1 (Z.of_nat p) u)) as (r & -> & Hr); [lia | |].
  - replace (Z.of_nat (S p)) with (Z.of_nat p + 1) by lia. by apply host_record_ok.
  - eexists. split; [done |]. destruct r as [| [s' u']]; [done |].
    rewrite port_host_record in Hr. rewrite Nat.add_succ_r.
    destruct Hr as (? & ? & Hsame). split_and!; [done | done |]. intros g Hg.
    pose proof (same_fields_host_record s s1 (Z.of_nat p) u
                  (ui_set _ _ _ (hi_url _ _ _ _ Hinv)) g Hg) as [<- <-].
    by apply Hsame.
Qed.

(** ** The port *)

(** The value of a string of decimal digits. *)
Definition decimal (l : list Byte.byte) : Z :=
  fold_left (fun v b => v * 10 + (uchar b - "0"%ch)) l 0.
Abbreviation decimal_from start l :=
  (fold_left (fun v b => v * 10 + (uchar b - "0"%ch)) l start).

Lemma decimal_from_le l v : Forall is_digit l -> 0 <= v -> v <= decimal_from v l.
Proof.
  revert v. induction l as [| b l IH]; intros v Hl Hv; simpl; [lia |].
  apply Forall_cons in Hl as [Hb Hl]. apply IS_NUM_range in Hb.
  specialize (IH (v * 10 + (uchar b - "0"%ch)) Hl). lia.
Qed.

Lemma slice_cons buf p n b :
  buf !! p = Some b -> slice buf p (S n) = b :: slice buf (S p) n.
Proof. intros Hb. unfold slice. by rewrite (drop_S _ _ _ Hb). Qed.

Lemma port_loop_ok buf n p v :
  (p + n <= length buf)%nat -> 0 <= v <= 0xffff ->
  exists r, port_loop buf n p v = Some r /\
    match r with Some v' => v' <= 0xffff | None => True end /\
    (Forall is_digit (slice buf p n) ->
     r = if decimal_from v (slice buf p n) <=? 0xffff
         then Some (decimal_from v (slice buf p n)) else None).
Proof.
  revert p v. induction n as [| n IH]; intros p v Hn Hv; simpl.
  { eexists. split; [done |]. split; [lia |]. intros _. change (slice buf p 0) with (@nil Byte.byte).
    simpl. by destruct (Z.leb_spec v 65535); [| lia]. }
  destruct (lookup_lt_is_Some_2 buf p) as [b Hb]; [lia |]. rewrite Hb.
  rewrite (slice_cons _ _ _ _ Hb). simpl.
  assert (is_digit b -> u64 (v * 10 + (schar b - 48)) = v * 10 + (uchar b - 48)) as Hexact.
  { intros Hd. apply IS_NUM_range in Hd. unfold schar.
    destruct (Z.ltb_spec (uchar b) 128); [| lia]. apply u64_small. lia. }
  destruct (Z.ltb_spec 65535 (u64 (v * 10 + (schar b - 48)))) as [Hbig | Hsmall].
  - eexists. split; [done |]. split; [done |]. intros Hall. apply Forall_cons in Hall as [Hd Hl].
    specialize (Hexact Hd). apply IS_NUM_range in Hd.
    pose proof (decimal_from_le _ (v * 10 + (uchar b - 48)) Hl ltac:(lia)).
    by destruct (Z.leb_spec (decimal_from (v * 10 + (uchar b - 48)) (slice buf (S p) n)) 65535);
      [lia |].
  - pose proof (u64_range (v * 10 + (schar b - 48))).
    destruct (IH (S p) (u64 (v * 10 + (schar b - 48)))) as (r & -> & Hr1 & Hr2); [lia | lia |].
    eexists. split; [done |]. split; [done |]. intros Hall. apply Forall_cons in Hall as [Hd Hl].
    specialize (Hr2 Hl). by rewrite (Hexact Hd) in Hr2.
Qed.

(** ** The whole function *)

(** The bytes of the port field are digits. *)
Definition port_digits (buf : list Byte.byte) (u : http_parser_url) : Prop :=
  Z.of_nat (length buf) < 65536 -> uf_is_set u UF_PORT = true ->
  Forall is_digit (url_slice buf u UF_PORT).

(** What holds of the structure when [http_parser_parse_url] returns 0. *)
Record url_accepted (buf : list Byte.byte) (is_connect : bool) (u : http_parser_url)
    : Prop := {
  ua_inv : url_inv (Z.of_nat (length buf)) u;
  ua_clean : Forall (fun b => url_forbidden (uchar b) = false) buf;
  ua_schema : uf_is_set u UF_SCHEMA = true -> uf_is_set u UF_HOST = true;
  ua_connect : is_connect = true ->
    field_set u = Z.lor (uf_bit UF_HOST) (uf_bit UF_PORT);
  ua_no_port : uf_is_set u UF_PORT = false -> port u = 0;
  ua_port_range : 0 <= port u <= 0xffff;
  ua_port : Z.of_nat (length buf) < 65536 -> uf_is_set u UF_PORT = true ->
    Forall is_digit (url_slice buf u UF_PORT) /\ port u = decimal (url_slice buf u UF_PORT)
}.

Definition url_result_ok (buf : list Byte.byte) (is_connect : bool)
    (r : option (Z * http_parser_url)) : Prop :=
  match r with
  | Some (rc, u) => rc = 1 \/ (rc = 0 /\ url_accepted buf is_connect u)
  | None => False
  end.

Lemma decimal_nonneg l : Forall is_digit l -> 0 <= decimal l.
Proof. intros Hl. unfold decimal. by apply decimal_from_le. Qed.

Lemma url_finish_ok buf is_connect u :
  url_inv (Z.of_nat (length buf)) u ->
  Forall (fun b => url_forbidden (uchar b) = false) buf ->
  (uf_is_set u UF_SCHEMA = true -> uf_is_set u UF_HOST = true) ->
  port u = 0 -> port_digits buf u ->
  url_result_ok buf is_connect (url_finish buf is_connect u).
Proof.
  intros Hu Hclean Hschema Hport Hdig. unfold url_finish.
  destruct (is_connect && negb (field_set u =? _)) eqn:Hc; [by left |].
  assert (is_connect = true -> field_set u = Z.lor (uf_bit UF_HOST) (uf_bit UF_PORT)) as Hconn.
  { intros ->. simpl in Hc. by boolify. }
  destruct (uf_is_set u UF_PORT) eqn:Hset.
  2: { right. split; [done |]. split; auto; rewrite ?Hport, ?Hset; done || lia. }
  pose proof (ui_fields _ _ _ Hu _ I Hset) as (Ho & Hl & Hsum).
  rewrite (proj2 (Z.leb_le _ _) Hsum). simpl.
  destruct (port_loop_ok buf (Z.to_nat (uf_len (fld u UF_PORT)))
              (Z.to_nat (uf_off (fld u UF_PORT))) 0) as (r & -> & Hr1 & Hr2); [lia | lia |].
  destruct r as [v |]; [| by left]. right. split; [done |].
  split; try done; [by destruct Hu | | simpl; pose proof (u16_range v); lia |].
  - change (uf_is_set (set_port (u16 v) u) UF_PORT) with (uf_is_set u UF_PORT).
    by rewrite Hset.
  - intros Hlen _. specialize (Hdig Hlen Hset).
    change (url_slice buf (set_port (u16 v) u) UF_PORT) with (url_slice buf u UF_PORT).
    split; [done |]. specialize (Hr2 Hdig). simpl. fold (decimal (url_slice buf u UF_PORT)).
    change (Some v = if decimal (url_slice buf u UF_PORT) <=? 65535
                     then Some (decimal (url_slice buf u UF_PORT)) else None) in Hr2.
    pose proof (decimal_nonneg _ Hdig).
    destruct (Z.leb_spec (decimal (url_slice buf u UF_PORT)) 65535); [| done].
    injection Hr2 as ->. apply u16_small. lia.
Qed.

Lemma in_host_dec f : in_host f \/ ~ in_host f.
Proof.
  unfold in_host.
  destruct f; first [left; tauto | right; intros [? | [? | ?]]; discriminate].
Qed.

(** The start of the host automaton. *)
Lemma host_inv_start buf u (found_at : bool) :
  url_inv (Z.of_nat (length buf)) u -> uf_is_set u UF_HOST = true ->
  uf_is_set u UF_PORT = false -> uf_is_set u UF_USERINFO = false ->
  host_inv buf (uf_off (fld u UF_HOST))
    (if found_at then s_http_userinfo_start else s_http_host_start) (set_len UF_HOST 0 u).
Proof.
  intros Hu Hhost Hport Huser. pose proof (ui_fields _ _ _ Hu _ I Hhost) as (Ho & _ & _).
  assert (forall g, uf_is_set (set_len UF_HOST 0 u) g = uf_is_set u g) as Hset by done.
  split; rewrite ?Hset; try done.
  - split; [apply Hu |]. intros g [-> | [-> | ->]]; rewrite Hset; try congruence.
    intros _. unfold set_len. rewrite url_field_set_field, decide_True by done.
    split_and!; simpl; lia.
  - intros _. unfold set_len. by rewrite url_field_set_field, decide_True.
  - by destruct found_at.
  - destruct found_at; split; congruence.
  - congruence.
Qed.

Lemma http_parse_host_ok buf u found_at :
  url_inv (Z.of_nat (length buf)) u -> uf_is_set u UF_HOST = true ->
  uf_is_set u UF_PORT = false -> uf_is_set u UF_USERINFO = false ->
  exists rc u', http_parse_host buf u found_at = Some (rc, u') /\
    (rc = 1 \/ (rc = 0 /\ url_inv (Z.of_nat (length buf)) u' /\ port_digits buf u' /\
                uf_is_set u' UF_HOST = true /\ port u' = port u)).
Proof.
  intros Hu Hhost Hport Huser. unfold http_parse_host. rewrite Hhost. simpl.
  pose proof (ui_fields _ _ _ Hu _ I Hhost) as (Ho & Hl & Hsum).
  pose proof (host_inv_start buf u found_at Hu Hhost Hport Huser) as Hinv.
  set (off := Z.to_nat (uf_off (fld u UF_HOST))).
  rewrite Z.add_simpl_l. set (n := Z.to_nat (uf_len (fld u UF_HOST))).
  replace (uf_off (fld u UF_HOST)) with (Z.of_nat off) in Hinv by lia.
  destruct (host_loop_ok buf n off _ _ ltac:(lia) Hinv) as (r & -> & Hr).
  destruct r as [u' | [s' u']]; [by eexists _, _; split; [done | left] |].
  destruct Hr as ([[Hset Hf] Hhost' _ _ _ Hdig] & Hport' & Hsame).
  eexists _, _. split; [done |]. destruct (host_unfinished s'); [by left | right].
  split_and!; try done.
  - split; [done |]. intros g _ Hg.
    destruct (in_host_dec g) as [Hin | Hin].
    + destruct (Hf g Hin Hg) as (? & ? & ?). split_and!; try done; lia.
    + destruct (Hsame g Hin) as [Heq1 Heq2]. rewrite Heq1. rewrite Heq2 in Hg.
      unfold set_len. rewrite url_field_set_field, decide_False.
      * by apply (ui_fields _ _ _ Hu).
      * intros <-. apply Hin. by left.
  - intros Hlen Hp. by apply Hdig.
Qed.

Lemma http_parser_parse_url_ok buf is_connect u :
  url_result_ok buf is_connect (http_parser_parse_url buf is_connect u).
Proof.
  unfold http_parser_parse_url. destruct (length buf =? 0)%nat; [by left |].
  set (u0 := mk_url 0 0 (field_data u)). set (s0 := if is_connect then _ else _).
  assert (forall g, uf_is_set u0 g = false) as Hnone by (by intros []).
  assert (url_inv 0 u0) as Hu0.
  { split; [by split |]. intros f _. by rewrite Hnone. }
  pose proof (url_loop_unset buf 0 s0 None false u0 UF_PORT (or_introl eq_refl)
                (ui_set _ _ _ Hu0) (Hnone _)) as Hport.
  pose proof (url_loop_unset buf 0 s0 None false u0 UF_USERINFO (or_intror eq_refl)
                (ui_set _ _ _ Hu0) (Hnone _)) as Huser.
  destruct (url_loop_ok buf 0 s0 None false u0) as (r & Heq & Hr); [done | done | done |].
  rewrite Heq in *. destruct r as [| [found_at u1]]; [by left |].
  destruct Hr as (Hu1 & Hp1 & Hclean). simpl in Hu1, Hp1.
  destruct (uf_is_set u1 UF_SCHEMA && negb (uf_is_set u1 UF_HOST)) eqn:Hschema; [by left |].
  destruct (uf_is_set u1 UF_HOST) eqn:Hhost.
  - destruct (http_parse_host_ok buf u1 found_at Hu1 Hhost Hport Huser)
      as (rc & u2 & -> & [-> | (-> & Hu2 & Hdig2 & Hhost2 & Hp2)]); [by left |]. simpl.
    apply url_finish_ok; try done. congruence.
  - rewrite andb_true_r in Hschema. apply url_finish_ok; try done.
    + by rewrite Hschema.
    + intros _. by rewrite Hport.
Qed.

(** ** The theorems *)

(** C7. [http_parser_parse_url] is safe on every buffer, of whatever length and
    content, for a CONNECT request or not, and whatever the structure held before:
    no [assert] fails and nothing is read outside the buffer.  It returns 0 or 1. *)
Theorem parse_url_total (buf : list Byte.byte) (is_connect : bool) (u : http_parser_url) :
  exists rc u', http_parser_parse_url buf is_connect u = Some (rc, u') /\ (rc = 0 \/ rc = 1).
Proof.
  pose proof (http_parser_parse_url_ok buf is_connect u) as Hok.
  destruct (http_parser_parse_url buf is_connect u) as [[rc u'] |]; [| done].
  eexists _, _. split; [done |]. destruct Hok as [-> | [-> _]]; auto.
Qed.

(** C8. What an accepted URL is: it has no space, tab, form feed, carriage return or
    line feed in it, so it cannot end a request line early; each field that is set
    lies inside the buffer; a schema comes with a host; and the URL of a CONNECT
    request sets the fields of host and port and no other.  (Delimiters of parts that
    are empty may still be there, see [connect_with_more].) *)
Theorem parse_url_accepted (buf : list Byte.byte) (is_connect : bool) (u u' : http_parser_url) :
  http_parser_parse_url buf is_connect u = Some (0, u') ->
  Forall (fun b => url_forbidden (uchar b) = false) buf /\
  (forall f, uf_is_set u' f = true ->
     0 <= uf_off (url_field_of u' f) /\ 0 <= uf_len (url_field_of u' f) /\
     uf_off (url_field_of u' f) + uf_len (url_field_of u' f) <= Z.of_nat (length buf)) /\
  (uf_is_set u' UF_SCHEMA = true -> uf_is_set u' UF_HOST = true) /\
  (is_connect = true -> forall f, uf_is_set u' f = true <-> f = UF_HOST \/ f = UF_PORT).
Proof.
  intros Heq. pose proof (http_parser_parse_url_ok buf is_connect u) as Hok. rewrite Heq in Hok.
  destruct Hok as [? | [_ Ha]]; [done |]. split_and!; try apply Ha.
  - intros f Hf. destruct (ui_fields _ _ _ (ua_inv _ _ _ Ha) f I Hf) as (? & ? & ?). lia.
  - intros Hc f. unfold uf_is_set. rewrite (ua_connect _ _ _ Ha Hc).
    destruct f; vm_compute; intuition discriminate.
Qed.

Lemma parse_url_accepted_witness :
  exists u',
    http_parser_parse_url (bytes "example.com:443") true http_parser_url_init = Some (0, u') /\
    forall f, uf_is_set u' f = true <-> f = UF_HOST \/ f = UF_PORT.
Proof.
  eexists. split; [vm_compute; reflexivity |].
  eapply (parse_url_accepted (bytes "example.com:443") true http_parser_url_init);
    [vm_compute; reflexivity | reflexivity].
Defined.

(** Only the fields that are set are compared: the target of a CONNECT request may have a
    question mark after the port, or an at sign before the host, although the comment in
    the code says that it can only contain hostname and port. *)
Lemma connect_with_more :
  (exists u, http_parser_parse_url (bytes "example.com:443?") true http_parser_url_init = Some (0, u)) /\
  (exists u, http_parser_parse_url (bytes "@example.com:443") true http_parser_url_init = Some (0, u)).
Proof. split; eexists; vm_compute; reflexivity. Qed.

(** C9. The port of an accepted URL (of fewer than 65536 characters, the range of the
    offsets of the structure) is exactly the decimal value of the digits of the port
    field, and that value fits 16 bits: a larger port is refused, never truncated.
    Without a port field the port is 0. *)
Theorem parse_url_port (buf : list Byte.byte) (is_connect : bool) (u u' : http_parser_url) :
  Z.of_nat (length buf) < 65536 ->
  http_parser_parse_url buf is_connect u = Some (0, u') ->
  0 <= port u' <= 65535 /\
  if uf_is_set u' UF_PORT
  then Forall is_digit (url_slice buf u' UF_PORT) /\ port u' = decimal (url_slice buf u' UF_PORT)
  else port u' = 0.
Proof.
  intros Hlen Heq. pose proof (http_parser_parse_url_ok buf is_connect u) as Hok.
  rewrite Heq in Hok. destruct Hok as [? | [_ Ha]]; [done |]. split; [apply Ha |].
  destruct (uf_is_set u' UF_PORT) eqn:Hset; [by apply Ha | by apply Ha].
Qed.

Lemma parse_url_port_witness :
  exists u',
    http_parser_parse_url (bytes "http://a.b:8080/x?y#z") false http_parser_url_init
      = Some (0, u') /\ 0 <= port u' <= 65535 /\ port u' = 8080.
Proof.
  eexists. split; [vm_compute; reflexivity |]. split; [| reflexivity].
  eapply (parse_url_port (bytes "http://a.b:8080/x?y#z") false http_parser_url_init);
    [vm_compute; reflexivity | vm_compute; reflexivity].
Defined.
